(** * ace-mail: the mailbox synchronisation and mutation endpoints of
      [backend/app.py], embedded in Rocq.

    The embedding follows the Flask handlers [sync_emails],
    [sync_new_emails], [delete_email], [restore_email], [archive_email] and
    [bulk_email_action].  Each handler becomes a function from the database
    it starts from to the response it sends, the database it leaves and the
    IMAP commands it issued.

    What is modelled and how:
    - the [emails] table is a list of rows with a sequence for the primary
      key; a SQLAlchemy session is the list of loaded objects (attribute
      writes are visible at once), the ids marked by [db.session.delete] and
      the rows committed so far;
    - the IMAP server is a record of answers, one per command, that depend
      on the mailbox of the last [select] and on the command's arguments;
      every command either returns or raises, [select] and [search] also
      return a status;
    - Python exceptions are the [Raises] result of a small state-and-
      exception monad; [try ... except] is [try_catch]; locals that are
      written inside a [try] and read after it live in the state.

    What is left out: the message strings of the JSON responses, the
    [received_date] column, the columns filled from [analyze_email_content]
    (a pure classification that no branch reads) and the [embedding] column;
    local persistence is assumed to succeed, so the [except] branches that
    roll back a failed insert are not reachable here. *)

From Stdlib Require Import ZArith List String Ascii Bool Lia.
Import ListNotations.

Local Open Scope string_scope.
Local Open Scope Z_scope.

(** ** Strings the way Python uses them *)

Definition lower_ascii (c : ascii) : ascii :=
  let n := nat_of_ascii c in
  if (Nat.leb 65 n && Nat.leb n 90)%bool then ascii_of_nat (n + 32) else c.

Fixpoint lower (s : string) : string :=
  match s with
  | EmptyString => EmptyString
  | String c s' => String (lower_ascii c) (lower s')
  end.

(** [needle in hay] *)
Fixpoint contains (needle hay : string) : bool :=
  match hay with
  | EmptyString => String.prefix needle EmptyString
  | String _ hay' => String.prefix needle hay || contains needle hay'
  end.

Definition in_chars (cs : list ascii) (c : ascii) : bool :=
  existsb (Ascii.eqb c) cs.

Fixpoint lstrip_chars (cs : list ascii) (s : list ascii) : list ascii :=
  match s with
  | [] => []
  | c :: s' => if in_chars cs c then lstrip_chars cs s' else s
  end.

(** [s.strip(chars)] *)
Definition strip (chars : string) (s : string) : string :=
  let cs := list_ascii_of_string chars in
  string_of_list_ascii
    (rev (lstrip_chars cs (rev (lstrip_chars cs (list_ascii_of_string s))))).

(** [s[:n]] for [n >= 0] *)
Definition take_prefix (n : nat) (s : string) : string := substring 0 n s.

(** Truthiness of the values the handlers test with [if x] / [not x]. *)
Definition truthy_str (s : string) : bool := negb (s =? "")%string.

Definition truthy_ostr (o : option string) : bool :=
  match o with Some s => truthy_str s | None => false end.

Definition truthy_oint (o : option Z) : bool :=
  match o with Some z => negb (z =? 0) | None => false end.

(** [x in [a, b, ...]] on strings *)
Definition str_in (x : string) (l : list string) : bool :=
  existsb (String.eqb x) l.

(** [l[start:]] with Python's reading of a negative [start]. *)
Definition py_slice_from {A : Type} (start : Z) (l : list A) : list A :=
  if 0 <=? start then skipn (Z.to_nat start) l
  else skipn (Z.to_nat (Z.max 0 (Z.of_nat (List.length l) + start))) l.

(** ** The data model *)

(** [class User]: the columns the handlers read, with
    [get_decrypted_email_password()] already applied. *)
Record User := mkUser {
  uid_of_user : Z;                       (* users.id *)
  email_address : string;                (* users.email *)
  decrypted_password : option string;    (* get_decrypted_email_password() *)
  imap_host : option string;
  imap_port : option Z
}.

(** [class Email] *)
Record Email := mkEmail {
  email_id : Z;
  user_id : Z;
  message_id_header : option string;
  subject : string;
  sender : string;
  recipient : string;
  body_preview : string;
  body_full : string;
  body_html : string;
  body_text : string;
  folder : string;
  imap_uid : option Z
}.

Definition with_folder (f : string) (e : Email) : Email :=
  mkEmail (email_id e) (user_id e) (message_id_header e) (subject e)
          (sender e) (recipient e) (body_preview e) (body_full e)
          (body_html e) (body_text e) f (imap_uid e).

Definition with_id (i : Z) (e : Email) : Email :=
  mkEmail i (user_id e) (message_id_header e) (subject e) (sender e)
          (recipient e) (body_preview e) (body_full e) (body_html e)
          (body_text e) (folder e) (imap_uid e).

(** The database: the committed rows of [emails], the next value of the
    primary-key sequence, and whether [ORDER BY ... DESC] puts NULL first
    (PostgreSQL) or last (SQLite). *)
Record Db := mkDb {
  emails : list Email;
  next_id : Z;
  desc_nulls_first : bool
}.

(** What [mailparser.parse_from_bytes] exposes and the handlers read. *)
Record ParsedMail := mkParsed {
  pm_subject : option string;
  pm_from : list (string * string);
  pm_to : list (string * string);
  pm_message_id : option string;
  pm_text_plain : list string;
  pm_text_html : list string
}.

(** ** The IMAP server *)

Inductive Reply (A : Type) : Type :=
| Raises : Reply A
| Replies : A -> Reply A.
Arguments Raises {A}.
Arguments Replies {A} _.

Inductive SearchQuery : Type :=
| SearchAll : SearchQuery                 (* 'ALL' *)
| SearchUidFrom : Z -> SearchQuery.       (* 'UID n:*' *)

(** The raw RFC822 bytes of one message, seen through the parser. *)
Inductive RawEmail : Type :=
| Unparseable : RawEmail
| Parseable : ParsedMail -> RawEmail.

Definition parse_from_bytes (raw : RawEmail) : Reply ParsedMail :=
  match raw with
  | Unparseable => Raises
  | Parseable pm => Replies pm
  end.

(** The answer to [mail.uid('fetch', uid, '(RFC822)')] as the handlers
    inspect it. *)
Inductive FetchData : Type :=
| FetchFailed : FetchData          (* status != 'OK' or no data *)
| FetchNoTuple : FetchData         (* msg_data[0] is not a tuple *)
| FetchRaw : RawEmail -> FetchData.

Inductive ImapCmd : Type :=
| CLogin : ImapCmd                          (* IMAP4_SSL(host, port); login *)
| CList : ImapCmd
| CSelect : string -> bool -> ImapCmd       (* mailbox, readonly *)
| CSearch : SearchQuery -> ImapCmd
| CFetch : Z -> ImapCmd
| CCopy : Z -> string -> ImapCmd
| CStoreDeleted : Z -> ImapCmd              (* store uid +FLAGS \Deleted *)
| CExpunge : ImapCmd
| CLogout : ImapCmd.

(** A server: for each command, whether it raises and what it returns.
    [option string] is the mailbox of the last [select] on the connection.
    For [select] the boolean answer is [status == 'OK']; for [search],
    [None] is a status other than ['OK']. *)
Record Server := mkServer {
  srv_login : bool;
  srv_select : string -> bool -> Reply bool;
  srv_search : option string -> SearchQuery -> Reply (option (list Z));
  srv_fetch : option string -> Z -> Reply FetchData;
  srv_copy : option string -> Z -> string -> bool;
  srv_store : option string -> Z -> bool;
  srv_expunge : option string -> bool;
  srv_logout : bool
}.

(** ** The state of one request *)

Record State := mkState {
  st_selected : option string;     (* mailbox of the last select *)
  st_log : list ImapCmd;           (* commands issued, oldest first *)
  st_rows : list Email;            (* session: loaded objects *)
  st_deleted : list Z;             (* ids given to db.session.delete *)
  st_committed : list Email;       (* rows the database holds *)
  st_next_id : Z;
  st_imap_success : bool;          (* local imap_success *)
  st_imap_success_count : Z        (* local imap_success_count *)
}.

Definition begin_request (db : Db) : State :=
  mkState None [] (emails db) [] (emails db) (next_id db) false 0.

Definition M (A : Type) : Type := State -> Reply A * State.

Definition ret {A : Type} (a : A) : M A := fun st => (Replies a, st).

Definition raise {A : Type} : M A := fun st => (Raises, st).

Definition bind {A B : Type} (m : M A) (k : A -> M B) : M B :=
  fun st =>
    match m st with
    | (Raises, st') => (Raises, st')
    | (Replies a, st') => k a st'
    end.

(** [try: m  except: h] *)
Definition try_catch {A : Type} (m : M A) (h : M A) : M A :=
  fun st =>
    match m st with
    | (Raises, st') => h st'
    | r => r
    end.

Declare Scope imap_scope.
Delimit Scope imap_scope with imap.
Notation "x <- m ;; k" := (bind m (fun x => k))
  (at level 61, m at next level, right associativity) : imap_scope.
Notation "m ;;; k" := (bind m (fun _ => k))
  (at level 61, right associativity) : imap_scope.
Local Open Scope imap_scope.

Definition get_state : M State := fun st => (Replies st, st).

Definition modify (f : State -> State) : M unit :=
  fun st => (Replies tt, f st).

Definition set_log (l : list ImapCmd) (st : State) : State :=
  mkState (st_selected st) l (st_rows st) (st_deleted st) (st_committed st)
          (st_next_id st) (st_imap_success st) (st_imap_success_count st).

Definition set_selected (m : option string) (st : State) : State :=
  mkState m (st_log st) (st_rows st) (st_deleted st) (st_committed st)
          (st_next_id st) (st_imap_success st) (st_imap_success_count st).

Definition set_rows (r : list Email) (st : State) : State :=
  mkState (st_selected st) (st_log st) r (st_deleted st) (st_committed st)
          (st_next_id st) (st_imap_success st) (st_imap_success_count st).

Definition set_deleted (d : list Z) (st : State) : State :=
  mkState (st_selected st) (st_log st) (st_rows st) d (st_committed st)
          (st_next_id st) (st_imap_success st) (st_imap_success_count st).

Definition set_committed (c : list Email) (st : State) : State :=
  mkState (st_selected st) (st_log st) (st_rows st) (st_deleted st) c
          (st_next_id st) (st_imap_success st) (st_imap_success_count st).

Definition set_next_id (n : Z) (st : State) : State :=
  mkState (st_selected st) (st_log st) (st_rows st) (st_deleted st)
          (st_committed st) n (st_imap_success st) (st_imap_success_count st).

Definition set_imap_success (b : bool) (st : State) : State :=
  mkState (st_selected st) (st_log st) (st_rows st) (st_deleted st)
          (st_committed st) (st_next_id st) b (st_imap_success_count st).

Definition set_imap_success_count (n : Z) (st : State) : State :=
  mkState (st_selected st) (st_log st) (st_rows st) (st_deleted st)
          (st_committed st) (st_next_id st) (st_imap_success st) n.

(** *** IMAP commands *)

Definition issue (c : ImapCmd) : M unit :=
  modify (fun st => set_log (st_log st ++ [c]) st).

Definition returns_or_raises (ok : bool) : M unit :=
  if ok then ret tt else raise.

Definition of_reply {A : Type} (r : Reply A) : M A := fun st => (r, st).

(** [mail = imaplib.IMAP4_SSL(host, port); mail.login(email, password)] *)
Definition imap_login (srv : Server) : M unit :=
  issue CLogin ;;; returns_or_raises (srv_login srv).

(** [mail.list()]; its result is only logged by the caller. *)
Definition imap_list : M unit := issue CList.

(** [status, data = mail.select(mailbox, readonly)]; the result is
    [status == 'OK']. *)
Definition imap_select (srv : Server) (mailbox : string) (readonly : bool)
  : M bool :=
  issue (CSelect mailbox readonly) ;;;
  modify (set_selected (Some mailbox)) ;;;
  of_reply (srv_select srv mailbox readonly).

Definition imap_search (srv : Server) (q : SearchQuery)
  : M (option (list Z)) :=
  issue (CSearch q) ;;;
  st <- get_state ;;
  of_reply (srv_search srv (st_selected st) q).

Definition imap_fetch (srv : Server) (uid : Z) : M FetchData :=
  issue (CFetch uid) ;;;
  st <- get_state ;;
  of_reply (srv_fetch srv (st_selected st) uid).

Definition imap_copy (srv : Server) (uid : Z) (dest : string) : M unit :=
  issue (CCopy uid dest) ;;;
  st <- get_state ;;
  returns_or_raises (srv_copy srv (st_selected st) uid dest).

Definition imap_store_deleted (srv : Server) (uid : Z) : M unit :=
  issue (CStoreDeleted uid) ;;;
  st <- get_state ;;
  returns_or_raises (srv_store srv (st_selected st) uid).

Definition imap_expunge (srv : Server) : M unit :=
  issue CExpunge ;;;
  st <- get_state ;;
  returns_or_raises (srv_expunge srv (st_selected st)).

Definition imap_logout (srv : Server) : M unit :=
  issue CLogout ;;; returns_or_raises (srv_logout srv).

(** *** The session *)

Definition update_row (i : Z) (f : Email -> Email) (rows : list Email)
  : list Email :=
  map (fun e => if email_id e =? i then f e else e) rows.

(** [email.folder = f] on the loaded object with primary key [i] *)
Definition set_folder (i : Z) (f : string) : M unit :=
  modify (fun st => set_rows (update_row i (with_folder f) (st_rows st)) st).

(** [db.session.delete(email)] *)
Definition session_delete (i : Z) : M unit :=
  modify (fun st => set_deleted (i :: st_deleted st) st).

Definition is_deleted (d : list Z) (e : Email) : bool :=
  existsb (Z.eqb (email_id e)) d.

(** [db.session.commit()]: pending deletes and attribute writes reach the
    database. *)
Definition session_commit : M unit :=
  modify (fun st =>
    let rows := filter (fun e => negb (is_deleted (st_deleted st) e))
                       (st_rows st) in
    set_committed rows (set_deleted [] (set_rows rows st))).

(** [db.session.add(e)]: the row gets the next key of the sequence. *)
Definition session_add (e : Email) : M Email :=
  st <- get_state ;;
  let e' := with_id (st_next_id st) e in
  modify (fun st => set_next_id (st_next_id st + 1)
                      (set_rows (st_rows st ++ [e']) st)) ;;;
  ret e'.

(** [Email.query.filter_by(id=i, user_id=u).first()] *)
Definition query_by_id (u i : Z) (rows : list Email) : option Email :=
  find (fun e => (email_id e =? i) && (user_id e =? u)) rows.

Definition has_uid (n : Z) (e : Email) : bool :=
  match imap_uid e with Some m => m =? n | None => false end.

(** [Email.query.filter_by(user_id=u, imap_uid=n).first()] *)
Definition query_by_uid (u n : Z) (rows : list Email) : option Email :=
  find (fun e => (user_id e =? u) && has_uid n e) rows.

Definition has_message_id (m : string) (e : Email) : bool :=
  match message_id_header e with
  | Some m' => (m' =? m)%string
  | None => false
  end.

(** [Email.query.filter_by(user_id=u, message_id_header=m).first()] *)
Definition query_by_message_id (u : Z) (m : string) (rows : list Email)
  : option Email :=
  find (fun e => (user_id e =? u) && has_message_id m e) rows.

(** ** Responses *)

Inductive Status : Type := success | warning | error.

(** The JSON body and HTTP code of a response; a field a handler does not
    send is [None] (or the empty list). *)
Record Response := mkResponse {
  status : Status;
  code : Z;
  count : option Z;                 (* number of new emails stored *)
  new_emails : list Email;          (* 'new_emails' of sync-new *)
  imap_success : option bool;       (* 'imap_success' of a single mutation *)
  local_success : option Z;         (* 'local_success' of the bulk action *)
  imap_success_total : option Z     (* 'imap_success' of the bulk action *)
}.

Definition jsonify (s : Status) (c : Z) : Response :=
  mkResponse s c None [] None None None.

(** What a handler leaves behind. *)
Record Outcome := mkOutcome {
  response : Response;
  db_after : Db;
  trace : list ImapCmd
}.

Definition end_request (db : Db) (r : Response) (st : State) : Outcome :=
  mkOutcome r (mkDb (st_committed st) (st_next_id st) (desc_nulls_first db))
            (st_log st).

(** A handler body inside its outermost [try]: an exception that reaches
    it becomes a 500 response. *)
Definition handle (db : Db) (body : M Response) : Outcome :=
  match body (begin_request db) with
  | (Replies r, st) => end_request db r st
  | (Raises, st) => end_request db (jsonify error 500) st
  end.

(** [decrypted_password and user.imap_host and user.imap_port] *)
Definition imap_available (user : User) : bool :=
  truthy_ostr (decrypted_password user) && truthy_ostr (imap_host user)
  && truthy_oint (imap_port user).

(** ** MessageIngestor: from a parsed message to the columns of a row *)

Definition first_truthy (l : list string) : option string :=
  match l with
  | s :: _ => if truthy_str s then Some s else None
  | [] => None
  end.

Definition ingest_subject (pm : ParsedMail) : string :=
  match pm_subject pm with Some s => s | None => "[No Subject]" end.

Definition ingest_sender (pm : ParsedMail) : string :=
  match pm_from pm with
  | sender_info :: _ =>
      if truthy_str (snd sender_info) then snd sender_info
      else "Unknown Sender"
  | [] => "Unknown Sender"
  end.

Definition ingest_recipient (pm : ParsedMail) : string :=
  let recipient_emails :=
    map snd (filter (fun r => truthy_str (snd r)) (pm_to pm)) in
  match recipient_emails with
  | [] => "Unknown Recipient"
  | _ => String.concat ", " recipient_emails
  end.

Definition ingest_message_id (pm : ParsedMail) : option string :=
  match pm_message_id pm with
  | Some v => if truthy_str v then Some (strip "<>" v) else None
  | None => None
  end.

Record Body := mkBody {
  b_preview : string; b_full : string; b_text : string; b_html : string
}.

Definition ingest_body (pm : ParsedMail) : Body :=
  let b0 := mkBody "Could not load preview." "" "" "" in
  let b1 :=
    match first_truthy (pm_text_plain pm) with
    | Some t => mkBody (take_prefix 300 t) t t (b_html b0)
    | None => b0
    end in
  let b2 :=
    match first_truthy (pm_text_html pm) with
    | Some h =>
        if negb (truthy_str (b_full b1))
        then mkBody (take_prefix 300 h) h (b_text b1) h
        else mkBody (b_preview b1) (b_full b1) (b_text b1) h
    | None => b1
    end in
  if negb (truthy_str (b_full b2))
  then mkBody "Could not load email content." "Could not load email content."
              (b_text b2) (b_html b2)
  else b2.

(** [Email(user_id=..., ..., folder=folder, imap_uid=uid)]; the key is set
    by [session_add]. *)
Definition new_email (user : User) (fld : string) (uid : Z) (pm : ParsedMail)
  : Email :=
  let b := ingest_body pm in
  mkEmail 0 (uid_of_user user) (ingest_message_id pm) (ingest_subject pm)
          (ingest_sender pm) (ingest_recipient pm) (b_preview b) (b_full b)
          (b_html b) (b_text b) fld (Some uid).

(** ** FolderResolver *)

(** [folder_mapping] of the two sync handlers, with its ['INBOX'] default *)
Definition sync_folder_mapping (fld : string) : string :=
  if (fld =? "inbox")%string then "INBOX"
  else if (fld =? "sent")%string then "Sent"
  else if (fld =? "drafts")%string then "Drafts"
  else if (fld =? "trash")%string then "Trash"
  else if (fld =? "spam")%string then "Spam"
  else "INBOX".

Definition possible_sent_folders : list string :=
  ["[Gmail]/Sent Mail"; "Sent"; "Sent Items"; "INBOX.Sent"; "[Gmail]/Sent";
   "Sent Messages"].

(** [for f in candidates: try: status, _ = mail.select(f, readonly); if
    status == 'OK': found = f; break  except: continue] *)
Fixpoint probe (srv : Server) (readonly : bool) (candidates : list string)
  : M (option string) :=
  match candidates with
  | [] => ret None
  | f :: rest =>
      ok <- try_catch (imap_select srv f readonly) (ret false) ;;
      if ok then ret (Some f) else probe srv readonly rest
  end.

(** [try: status, _ = mail.select(f, readonly); if status != 'OK':
    mail.select('INBOX', readonly)  except: mail.select('INBOX', readonly)];
    the result is whether [f] itself was selected. *)
Definition select_or_inbox (srv : Server) (f : string) (readonly : bool)
  : M bool :=
  try_catch
    (ok <- imap_select srv f readonly ;;
     if ok then ret true
     else imap_select srv "INBOX" readonly ;;; ret false)
    (imap_select srv "INBOX" readonly ;;; ret false).

(** ** MailboxSyncEngine *)

Record SyncRequest := mkSyncRequest {
  rq_folder : option string;      (* request.json.get('folder') *)
  rq_limit : option Z             (* request.json.get('limit') *)
}.

Definition requested_folder (rq : SyncRequest) : string :=
  match rq_folder rq with Some f => f | None => "inbox" end.

Definition requested_limit (rq : SyncRequest) : Z :=
  match rq_limit rq with Some n => n | None => 100 end.

(** Folder selection of [sync_emails]; [false] is the early return taken
    when no sent folder answers. *)
Definition sync_select_folder (srv : Server) (fld : string) : M bool :=
  if (fld =? "sent")%string then
    imap_list ;;;
    found <- probe srv true possible_sent_folders ;;
    match found with
    | Some _ => ret true
    | None =>
        imap_select srv "INBOX" true ;;;
        imap_logout srv ;;;
        ret false
    end
  else
    select_or_inbox srv (sync_folder_mapping fld) true ;;; ret true.

(** The loop of [sync_emails] over [reversed(email_uids_bytes[-limit:])];
    the result is [new_emails_count]. *)
Fixpoint sync_loop (srv : Server) (user : User) (fld : string) (limit : Z)
    (uids : list Z) (fetched_count new_emails_count : Z) : M Z :=
  match uids with
  | [] => ret new_emails_count
  | uid :: rest =>
      let continue := sync_loop srv user fld limit rest
                                fetched_count new_emails_count in
      (* fetched_count += 1; if fetched_count >= limit: break *)
      let counted (n : Z) :=
        if limit <=? fetched_count + 1 then ret n
        else sync_loop srv user fld limit rest (fetched_count + 1) n in
      let store (e : Email) :=
        session_add e ;;; session_commit ;;;
        counted (new_emails_count + 1) in
      st <- get_state ;;
      match query_by_uid (uid_of_user user) uid (st_rows st) with
      | Some existing_email_by_uid =>
          if negb (folder existing_email_by_uid =? fld)%string then
            if str_in (folder existing_email_by_uid) ["trash"; "archive"]
               && (fld =? "inbox")%string
            then continue
            else if (folder existing_email_by_uid =? "inbox")%string
                    && str_in fld ["trash"; "archive"]
            then continue
            else continue
          else continue
      | None =>
          msg_data <- imap_fetch srv uid ;;
          match msg_data with
          | FetchFailed => continue
          | FetchNoTuple => counted new_emails_count
          | FetchRaw raw_email_bytes =>
              match parse_from_bytes raw_email_bytes with
              | Raises => continue
              | Replies parsed_mail =>
                  let e := new_email user fld uid parsed_mail in
                  match message_id_header e with
                  | Some m =>
                      if truthy_str m then
                        match query_by_message_id (uid_of_user user) m
                                                  (st_rows st) with
                        | Some existing_email_by_msg_id =>
                            if negb (folder existing_email_by_msg_id
                                     =? fld)%string then
                              if str_in (folder existing_email_by_msg_id)
                                        ["trash"; "archive"]
                                 && (fld =? "inbox")%string
                              then continue
                              else if (folder existing_email_by_msg_id
                                       =? "inbox")%string
                                      && str_in fld ["trash"; "archive"]
                              then continue
                              else continue
                            else continue
                        | None => store e
                        end
                      else store e
                  | None => store e
                  end
              end
          end
      end
  end.

Definition sync_emails_body (srv : Server) (user : User) (fld : string)
    (limit : Z) : M Response :=
  imap_login srv ;;;
  ready <- sync_select_folder srv fld ;;
  if ready then
    found <- imap_search srv SearchAll ;;
    match found with
    | None => imap_logout srv ;;; ret (jsonify error 500)
    | Some email_uids =>
        n <- sync_loop srv user fld limit
                       (rev (py_slice_from (- limit) email_uids)) 0 0 ;;
        imap_logout srv ;;;
        ret (mkResponse success 200 (Some n) [] None None None)
    end
  else ret (jsonify warning 200).

(** [POST /api/emails/sync] *)
Definition sync_emails (srv : Server) (user : User) (rq : SyncRequest)
    (db : Db) : Outcome :=
  if negb (truthy_ostr (decrypted_password user)) then
    mkOutcome (jsonify error 500) db []
  else if negb (truthy_ostr (imap_host user))
          || negb (truthy_oint (imap_port user)) then
    mkOutcome (jsonify error 500) db []
  else
    handle db (sync_emails_body srv user (requested_folder rq)
                                (requested_limit rq)).

(** [a] comes strictly before [b] in [ORDER BY imap_uid DESC]. *)
Definition desc_before (nulls_first : bool) (a b : option Z) : bool :=
  match a, b with
  | Some x, Some y => y <? x
  | None, Some _ => nulls_first
  | Some _, None => negb nulls_first
  | None, None => false
  end.

(** [Email.query.filter_by(user_id=u, folder=f)
      .order_by(Email.imap_uid.desc()).first()] *)
Definition latest_email (nulls_first : bool) (u : Z) (fld : string)
    (rows : list Email) : option Email :=
  fold_left
    (fun best e =>
       match best with
       | None => Some e
       | Some b =>
           if desc_before nulls_first (imap_uid e) (imap_uid b)
           then Some e else best
       end)
    (filter (fun e => (user_id e =? u) && (folder e =? fld)%string) rows)
    None.

(** Folder selection of [sync_new_emails]. *)
Definition sync_new_select_folder (srv : Server) (fld : string) : M bool :=
  if (fld =? "sent")%string then
    found <- probe srv true possible_sent_folders ;;
    match found with
    | Some _ => ret true
    | None => imap_logout srv ;;; ret false
    end
  else
    select_or_inbox srv (sync_folder_mapping fld) true ;;; ret true.

(** The loop of [sync_new_emails] over [reversed(email_uids_bytes[-20:])];
    the result is [new_emails]. *)
Fixpoint sync_new_loop (srv : Server) (user : User) (fld : string)
    (last_uid : Z) (uids : list Z) (new_emails_acc : list Email)
  : M (list Email) :=
  match uids with
  | [] => ret new_emails_acc
  | uid_int :: rest =>
      let continue := sync_new_loop srv user fld last_uid rest
                                    new_emails_acc in
      let store (e : Email) :=
        e' <- session_add e ;;
        session_commit ;;;
        sync_new_loop srv user fld last_uid rest
                      (new_emails_acc ++ [e'])%list in
      if uid_int <=? last_uid then continue
      else
        st <- get_state ;;
        match query_by_uid (uid_of_user user) uid_int (st_rows st) with
        | Some existing_email =>
            if negb (folder existing_email =? fld)%string then
              if str_in (folder existing_email) ["trash"; "archive"]
                 && (fld =? "inbox")%string
              then continue
              else if (folder existing_email =? "inbox")%string
                      && str_in fld ["trash"; "archive"]
              then continue
              else continue
            else continue
        | None =>
            msg_data <- imap_fetch srv uid_int ;;
            match msg_data with
            | FetchFailed => continue
            | FetchNoTuple => continue
            | FetchRaw raw_email_bytes =>
                match parse_from_bytes raw_email_bytes with
                | Raises => continue
                | Replies parsed_mail =>
                    let e := new_email user fld uid_int parsed_mail in
                    match message_id_header e with
                    | Some m =>
                        if truthy_str m then
                          match query_by_message_id (uid_of_user user) m
                                                    (st_rows st) with
                          | Some existing_by_msg_id =>
                              if negb (folder existing_by_msg_id
                                       =? fld)%string then
                                if str_in (folder existing_by_msg_id)
                                          ["trash"; "archive"]
                                   && (fld =? "inbox")%string
                                then continue
                                else if (folder existing_by_msg_id
                                         =? "inbox")%string
                                        && str_in fld ["trash"; "archive"]
                                then continue
                                else continue
                              else continue
                          | None => store e
                          end
                        else store e
                    | None => store e
                    end
                end
            end
        end
  end.

(** [last_uid = latest_email.imap_uid if latest_email else 0]; [None] is
    Python's [None], read from a row whose [imap_uid] is NULL. *)
Definition cursor (db : Db) (user : User) (fld : string) : option Z :=
  match latest_email (desc_nulls_first db) (uid_of_user user) fld
                     (emails db) with
  | Some e => imap_uid e
  | None => Some 0
  end.

Definition sync_new_emails_body (srv : Server) (user : User) (fld : string)
    (db : Db) : M Response :=
  let last_uid := cursor db user fld in
  imap_login srv ;;;
  ready <- sync_new_select_folder srv fld ;;
  if ready then
    match last_uid with
    | None => raise      (* last_uid > 0 with last_uid = None: TypeError *)
    | Some last_uid =>
        let search_query :=
          if 0 <? last_uid then SearchUidFrom (last_uid + 1)
          else SearchAll in
        found <- imap_search srv search_query ;;
        match found with
        | None => imap_logout srv ;;; ret (jsonify error 500)
        | Some email_uids =>
            added <- sync_new_loop srv user fld last_uid
                       (rev (py_slice_from (-20) email_uids)) [] ;;
            imap_logout srv ;;;
            ret (mkResponse success 200 (Some (Z.of_nat (List.length added)))
                            added None None None)
        end
    end
  else ret (jsonify warning 200).

(** [POST /api/emails/sync-new] *)
Definition sync_new_emails (srv : Server) (user : User) (rq : SyncRequest)
    (db : Db) : Outcome :=
  if negb (truthy_ostr (decrypted_password user)) then
    mkOutcome (jsonify error 500) db []
  else if negb (truthy_ostr (imap_host user))
          || negb (truthy_oint (imap_port user)) then
    mkOutcome (jsonify error 500) db []
  else
    handle db (sync_new_emails_body srv user (requested_folder rq) db).

(** ** MutationPropagator *)

(** [folder_mapping] of the mutation handlers, with its ['INBOX'] default *)
Definition folder_mapping (fld : string) : string :=
  if (fld =? "inbox")%string then "INBOX"
  else if (fld =? "sent")%string then "[Gmail]/Sent Mail"
  else if (fld =? "drafts")%string then "Drafts"
  else if (fld =? "trash")%string then "Trash"
  else if (fld =? "spam")%string then "Spam"
  else "INBOX".

Definition mutation_sent_folders : list string :=
  ["[Gmail]/Sent Mail"; "Sent"; "Sent Items"; "INBOX.Sent"].

Definition trash_folders : list string :=
  ["[Gmail]/Trash"; "Trash"; "Deleted Items"; "INBOX.Trash"].

Definition archive_folders : list string :=
  ["[Gmail]/All Mail"; "Archive"; "INBOX.Archive"; "Archived"].

(** The loaded object with primary key [i], as the handler's local [email]
    sees it. *)
Definition get_email (i : Z) : M Email :=
  st <- get_state ;;
  match find (fun e => email_id e =? i) (st_rows st) with
  | Some e => ret e
  | None => raise
  end.

Definition mark_imap_success : M unit := modify (set_imap_success true).

(** Selecting the message's current folder in [delete_email] and
    [archive_email]; the result is [current_imap_folder]. *)
Definition select_current_folder (srv : Server) (fld : string) : M string :=
  if (fld =? "sent")%string then
    found <- probe srv false mutation_sent_folders ;;
    match found with
    | Some sent_folder => ret sent_folder
    | None => ret (folder_mapping fld)
    end
  else
    ok <- select_or_inbox srv (folder_mapping fld) false ;;
    ret (if ok then folder_mapping fld else "INBOX").

(** [if permanent or email.folder == 'trash': db.session.delete(email)
     else: email.folder = 'trash'] *)
Definition delete_locally (i : Z) (permanent : bool) : M unit :=
  email <- get_email i ;;
  if permanent || (folder email =? "trash")%string then session_delete i
  else set_folder i "trash".

(** The inner [try] of [delete_email]. *)
Definition delete_on_server (srv : Server) (i : Z) (permanent : bool)
  : M unit :=
  imap_login srv ;;;
  email <- get_email i ;;
  current_imap_folder <- select_current_folder srv (folder email) ;;
  (if truthy_oint (imap_uid email) then
     let uid := match imap_uid email with Some n => n | None => 0 end in
     (if permanent || (folder email =? "trash")%string then
        imap_store_deleted srv uid ;;;
        imap_expunge srv ;;;
        session_delete i
      else
        trash_folder_found <- probe srv false trash_folders ;;
        match trash_folder_found with
        | Some trash_folder =>
            imap_select srv current_imap_folder false ;;;
            try_catch
              (imap_copy srv uid trash_folder ;;;
               imap_store_deleted srv uid ;;;
               imap_expunge srv)
              (imap_store_deleted srv uid)
        | None => imap_store_deleted srv uid
        end ;;;
        set_folder i "trash") ;;;
     mark_imap_success
   else delete_locally i permanent) ;;;
  imap_logout srv.

Definition mutation_response (st : State) : Response :=
  mkResponse (if st_imap_success st then success else warning) 200 None []
             (Some (st_imap_success st)) None None.

(** [POST /api/emails/<email_id>/delete] *)
Definition delete_email (srv : Server) (user : User) (i : Z)
    (permanent : bool) (db : Db) : Outcome :=
  match query_by_id (uid_of_user user) i (emails db) with
  | None => mkOutcome (jsonify error 404) db []
  | Some _ =>
      if negb (imap_available user) then
        handle db (delete_locally i permanent ;;; session_commit ;;;
                   ret (jsonify success 200))
      else
        handle db
          (try_catch (delete_on_server srv i permanent)
                     (delete_locally i permanent) ;;;
           session_commit ;;;
           st <- get_state ;;
           ret (mutation_response st))
  end.

(** The inner [try] of [restore_email]. *)
Definition restore_on_server (srv : Server) (i : Z) : M unit :=
  imap_login srv ;;;
  trash_folder_found <- probe srv false trash_folders ;;
  match trash_folder_found with
  | None => imap_select srv "INBOX" false
  | Some trash_folder => imap_select srv trash_folder false
  end ;;;
  email <- get_email i ;;
  (if truthy_oint (imap_uid email) then
     let uid := match imap_uid email with Some n => n | None => 0 end in
     let target_imap_folder := folder_mapping "inbox" in
     try_catch
       (imap_copy srv uid target_imap_folder ;;;
        imap_store_deleted srv uid ;;;
        imap_expunge srv ;;;
        mark_imap_success)
       (ret tt)
   else ret tt) ;;;
  imap_logout srv.

(** [POST /api/emails/<email_id>/restore] *)
Definition restore_email (srv : Server) (user : User) (i : Z) (db : Db)
  : Outcome :=
  match query_by_id (uid_of_user user) i (emails db) with
  | None => mkOutcome (jsonify error 404) db []
  | Some email =>
      if negb (folder email =? "trash")%string then
        mkOutcome (jsonify error 400) db []
      else
        let target_folder := "inbox" in
        if negb (imap_available user) then
          handle db (set_folder i target_folder ;;; session_commit ;;;
                     ret (jsonify success 200))
        else
          handle db
            (try_catch (restore_on_server srv i) (ret tt) ;;;
             set_folder i target_folder ;;;
             session_commit ;;;
             st <- get_state ;;
             ret (mutation_response st))
  end.

(** ['gmail' in user.imap_host.lower()] *)
Definition gmail_host (user : User) : bool :=
  match imap_host user with
  | Some h => contains "gmail" (lower h)
  | None => false
  end.

(** The inner [try] of [archive_email]. *)
Definition archive_on_server (srv : Server) (user : User) (i : Z) : M unit :=
  imap_login srv ;;;
  email <- get_email i ;;
  current_imap_folder <- select_current_folder srv (folder email) ;;
  (if truthy_oint (imap_uid email) then
     let uid := match imap_uid email with Some n => n | None => 0 end in
     archive_folder_found <- probe srv false archive_folders ;;
     match archive_folder_found with
     | Some archive_folder =>
         imap_select srv current_imap_folder false ;;;
         try_catch
           (imap_copy srv uid archive_folder ;;;
            imap_store_deleted srv uid ;;;
            imap_expunge srv ;;;
            mark_imap_success)
           (ret tt)
     | None =>
         if gmail_host user then
           try_catch
             (imap_select srv "INBOX" false ;;;
              imap_store_deleted srv uid ;;;
              imap_expunge srv ;;;
              mark_imap_success)
             (ret tt)
         else ret tt
     end
   else ret tt) ;;;
  imap_logout srv.

(** [POST /api/emails/<email_id>/archive] *)
Definition archive_email (srv : Server) (user : User) (i : Z) (db : Db)
  : Outcome :=
  match query_by_id (uid_of_user user) i (emails db) with
  | None => mkOutcome (jsonify error 404) db []
  | Some _ =>
      if negb (imap_available user) then
        handle db (set_folder i "archive" ;;; session_commit ;;;
                   ret (jsonify success 200))
      else
        handle db
          (try_catch (archive_on_server srv user i) (ret tt) ;;;
           set_folder i "archive" ;;;
           session_commit ;;;
           st <- get_state ;;
           ret (mutation_response st))
  end.

(** *** The bulk action *)

(** One entry of [imap_operations]: [(operation, uid, source_folder)]. *)
Definition ImapOperation : Type := (string * Z * string)%type.

Definition bulk_trash_folders : list string :=
  ["[Gmail]/Trash"; "Trash"; "Deleted Items"].

Definition bulk_archive_folders : list string :=
  ["[Gmail]/All Mail"; "Archive"; "INBOX.Archive"].

(** The first loop of [bulk_email_action] over the selected rows; the
    result is [(updated_count, imap_operations)]. *)
Fixpoint bulk_local (user : User) (action : string) (ids : list Z)
    (updated_count : Z) (imap_operations : list ImapOperation)
  : M (Z * list ImapOperation) :=
  match ids with
  | [] => ret (updated_count, imap_operations)
  | i :: rest =>
      email <- get_email i ;;
      let queue (operation : string) (source_folder : string) :=
        if imap_available user && truthy_oint (imap_uid email) then
          (imap_operations
           ++ [(operation,
                match imap_uid email with Some n => n | None => 0 end,
                source_folder)])%list
        else imap_operations in
      if (action =? "delete")%string then
        if (folder email =? "trash")%string then
          session_delete i ;;;
          bulk_local user action rest (updated_count + 1) imap_operations
        else
          set_folder i "trash" ;;;
          email' <- get_email i ;;
          bulk_local user action rest (updated_count + 1)
                     (queue "delete" (folder email'))
      else if (action =? "archive")%string then
        let old_folder := folder email in
        set_folder i "archive" ;;;
        bulk_local user action rest (updated_count + 1)
                   (queue "archive" old_folder)
      else if (action =? "restore")%string then
        if (folder email =? "trash")%string then
          let old_folder := folder email in
          set_folder i "inbox" ;;;
          bulk_local user action rest (updated_count + 1)
                     (queue "restore" old_folder)
        else bulk_local user action rest updated_count imap_operations
      else bulk_local user action rest updated_count imap_operations
  end.

(** [for f in candidates: try: mail.select(f); mail.select(imap_folder);
    copy; store; expunge; moved = True; break  except: continue] *)
Fixpoint bulk_move (srv : Server) (uid : Z) (imap_folder : string)
    (candidates : list string) : M bool :=
  match candidates with
  | [] => ret false
  | f :: rest =>
      moved <- try_catch
                 (imap_select srv f false ;;;
                  imap_select srv imap_folder false ;;;
                  imap_copy srv uid f ;;;
                  imap_store_deleted srv uid ;;;
                  imap_expunge srv ;;;
                  ret true)
                 (ret false) ;;
      if moved then ret true else bulk_move srv uid imap_folder rest
  end.

(** The body of the [try] around one queued operation; [false] is the
    [continue] of the restore branch, which skips the success count. *)
Definition bulk_remote_step (srv : Server) (user : User)
    (op : ImapOperation) : M bool :=
  let '(operation, uid, source_folder) := op in
  let imap_folder := folder_mapping source_folder in
  imap_select srv imap_folder false ;;;
  if (operation =? "delete")%string then
    if (source_folder =? "trash")%string then
      imap_store_deleted srv uid ;;;
      imap_expunge srv ;;;
      ret true
    else
      trash_found <- bulk_move srv uid imap_folder bulk_trash_folders ;;
      (if negb trash_found then imap_store_deleted srv uid else ret tt) ;;;
      ret true
  else if (operation =? "archive")%string then
    archived <- bulk_move srv uid imap_folder bulk_archive_folders ;;
    (if negb archived && gmail_host user then
       imap_select srv "INBOX" false ;;;
       imap_store_deleted srv uid ;;;
       imap_expunge srv
     else ret tt) ;;;
    ret true
  else if (operation =? "restore")%string then
    try_catch
      (imap_copy srv uid "INBOX" ;;;
       imap_store_deleted srv uid ;;;
       imap_expunge srv ;;;
       ret true)
      (ret false)
  else ret true.

Definition count_imap_success : M unit :=
  modify (fun st =>
            set_imap_success_count (st_imap_success_count st + 1) st).

(** The second loop of [bulk_email_action], over [imap_operations]. *)
Fixpoint bulk_remote (srv : Server) (user : User)
    (imap_operations : list ImapOperation) : M unit :=
  match imap_operations with
  | [] => ret tt
  | op :: rest =>
      try_catch
        (counted <- bulk_remote_step srv user op ;;
         if counted then count_imap_success else ret tt)
        (ret tt) ;;;
      bulk_remote srv user rest
  end.

Definition is_nil {A : Type} (l : list A) : bool :=
  match l with [] => true | _ => false end.

(** [Email.query.filter(Email.id.in_(email_ids),
                        Email.user_id == user.id).all()] *)
Definition query_in_ids (u : Z) (email_ids : list Z) (rows : list Email)
  : list Email :=
  filter (fun e => existsb (Z.eqb (email_id e)) email_ids
                   && (user_id e =? u)) rows.

Definition bulk_body (srv : Server) (user : User) (action : string)
    (selected : list Email) : M Response :=
  r <- bulk_local user action (map email_id selected) 0 [] ;;
  let '(updated_count, imap_operations) := r in
  let remote := imap_available user && negb (is_nil imap_operations) in
  (if remote then
     try_catch
       (imap_login srv ;;;
        bulk_remote srv user imap_operations ;;;
        imap_logout srv)
       (ret tt)
   else ret tt) ;;;
  session_commit ;;;
  st <- get_state ;;
  let imap_success_count := st_imap_success_count st in
  let status :=
    if remote then
      if imap_success_count =? Z.of_nat (List.length imap_operations)
      then success else warning
    else success in
  ret (mkResponse status 200 None [] None (Some updated_count)
                  (if imap_available user then Some imap_success_count
                   else None)).

(** [POST /api/emails/bulk] *)
Definition bulk_email_action (srv : Server) (user : User)
    (email_ids : list Z) (action : option string) (db : Db) : Outcome :=
  match action with
  | None => mkOutcome (jsonify error 400) db []
  | Some action =>
      if is_nil email_ids || negb (truthy_str action) then
        mkOutcome (jsonify error 400) db []
      else
        let selected := query_in_ids (uid_of_user user) email_ids
                                     (emails db) in
        if is_nil selected then mkOutcome (jsonify error 404) db []
        else handle db (bulk_body srv user action selected)
  end.

(** The [imap_operations] the bulk action queues for a database. *)
Definition queued_operations (user : User) (email_ids : list Z)
    (action : string) (db : Db) : list ImapOperation :=
  match bulk_local user action
          (map email_id (query_in_ids (uid_of_user user) email_ids
                                      (emails db)))
          0 [] (begin_request db) with
  | (Replies (_, ops), _) => ops
  | (Raises, _) => []
  end.


(** * Specification vocabulary *)

(** [wp m Q st]: running [m] from [st] ends in a result and a state that
    satisfy [Q]. *)
Definition wp {A : Type} (m : M A) (Q : Reply A -> State -> Prop)
    (st : State) : Prop :=
  Q (fst (m st)) (snd (m st)).

(** * Sample data *)

Definition sample_user : User :=
  mkUser 1 "me@example.org" (Some "secret") (Some "imap.example.org")
         (Some 993).

Definition sample_mail (message_id : option string) : ParsedMail :=
  mkParsed (Some "Hello") [("Ann", "ann@example.org")]
           [("Me", "me@example.org")] message_id ["Hello there"] [].

(** A server that accepts every command; its mailboxes all list [uids] and
    every message parses to [sample_mail None]. *)
Definition accepting_server (uids : list Z) : Server :=
  mkServer true
           (fun _ _ => Replies true)
           (fun _ _ => Replies (Some uids))
           (fun _ _ => Replies (FetchRaw (Parseable (sample_mail None))))
           (fun _ _ _ => true)
           (fun _ _ => true)
           (fun _ => true)
           true.

(** A server on which the connection and every command raise. *)
Definition failing_server : Server :=
  mkServer false
           (fun _ _ => Raises)
           (fun _ _ => Raises)
           (fun _ _ => Raises)
           (fun _ _ _ => false)
           (fun _ _ => false)
           (fun _ => false)
           false.

Definition sample_row (i : Z) (fld : string) (uid : option Z) : Email :=
  mkEmail i 1 None "Hello" "ann@example.org" "me@example.org" "Hello there"
          "Hello there" "" "Hello there" fld uid.

Definition sample_db : Db :=
  mkDb [sample_row 1 "inbox" (Some 5); sample_row 2 "trash" (Some 6);
        sample_row 3 "sent" None] 4 true.

Definition empty_db : Db := mkDb [] 1 true.

(** A server on which [copy] raises and every other command returns. *)
Definition copy_failing_server : Server :=
  mkServer true
           (fun _ _ => Replies true)
           (fun _ _ => Replies (Some []))
           (fun _ _ => Replies FetchFailed)
           (fun _ _ _ => false)
           (fun _ _ => true)
           (fun _ => true)
           true.

(** A sent folder with a row stored by [send_email] (no UID) and a synced
    row with UID 8, on a database that sorts NULL first in
    [ORDER BY imap_uid DESC]. *)
Definition null_first_db : Db :=
  mkDb [sample_row 3 "sent" None; sample_row 4 "sent" (Some 8)] 5 true.

Definition is_copy (c : ImapCmd) : bool :=
  match c with CCopy _ _ => true | _ => false end.

(** [m] keeps the invariant [I] of the request state, whatever it
    returns. *)
Definition preserves {A : Type} (I : State -> Prop) (m : M A) : Prop :=
  forall st, I st -> I (snd (m st)).

(** The session and the database of [st'] are those of [st]. *)
Definition same_db (st st' : State) : Prop :=
  st_rows st' = st_rows st /\ st_deleted st' = st_deleted st /\
  st_committed st' = st_committed st /\ st_next_id st' = st_next_id st.

(** Every command after the login raises. *)
Definition every_step_fails (srv : Server) : Prop :=
  (forall f ro, srv_select srv f ro = Raises) /\
  (forall s u d, srv_copy srv s u d = false) /\
  (forall s u, srv_store srv s u = false) /\
  (forall s, srv_expunge srv s = false) /\
  srv_logout srv = false.

(** What the [try]/[except] of [delete_email] leaves in the session of a
    request that started in [st0], for the loaded message [e]. *)
Definition delete_post (srv : Server) (i : Z) (permanent : bool) (e : Email)
    (st0 : State) (r : Reply unit) (st' : State) : Prop :=
  r = Replies tt /\ st_committed st' = st_committed st0 /\
  st_next_id st' = st_next_id st0 /\
  if permanent || (folder e =? "trash")%string
  then st_rows st' = st_rows st0 /\ st_deleted st' <> [] /\
       Forall (eq i) (st_deleted st')
  else st_rows st' = update_row i (with_folder "trash") (st_rows st0) /\
       (st_deleted st' = [] \/
        st_deleted st' = [i] /\ srv_logout srv = false /\
        In CLogout (st_log st')).

(** The connection cannot be opened, or every command after it raises. *)
Definition remote_down (srv : Server) : Prop :=
  srv_login srv = false \/ every_step_fails srv.

(** How a single-message mutation reports: never as a failed call, and as
    a warning when the remote side is down. *)
Definition reported (srv : Server) (user : User) (o : Outcome) : Prop :=
  code (response o) = 200 /\ status (response o) <> error /\
  (imap_available user = true -> remote_down srv ->
   status (response o) = warning /\ imap_success (response o) = Some false).

(** The server answers ['OK'] to a select of [f]. *)
Definition accepts (srv : Server) (readonly : bool) (f : string) : bool :=
  match srv_select srv f readonly with
  | Replies true => true
  | _ => false
  end.

(** The candidates up to and including the first that satisfies [p]. *)
Fixpoint upto {A : Type} (p : A -> bool) (l : list A) : list A :=
  match l with
  | [] => []
  | a :: l' => if p a then [a] else a :: upto p l'
  end.

(** The commands issued so far start with [p]. *)
Definition log_from (p : list ImapCmd) (st : State) : Prop :=
  exists l, st_log st = (p ++ l)%list.

(** A server that accepts the login and raises on every later command. *)
Definition dropping_server : Server :=
  mkServer true
           (fun _ _ => Raises)
           (fun _ _ => Raises)
           (fun _ _ => Raises)
           (fun _ _ _ => false)
           (fun _ _ => false)
           (fun _ => false)
           false.

(** A server that has no mailbox but [INBOX], which lists [uids]. *)
Definition inbox_only_server (uids : list Z) : Server :=
  mkServer true
           (fun f _ => Replies (f =? "INBOX")%string)
           (fun _ _ => Replies (Some uids))
           (fun _ _ => Replies (FetchRaw (Parseable (sample_mail None))))
           (fun _ _ _ => true)
           (fun _ _ => true)
           (fun _ => true)
           true.

Definition is_search (c : ImapCmd) : bool :=
  match c with CSearch _ => true | _ => false end.

(** The predicate of [query_in_ids]. *)
Definition selected_by (u : Z) (email_ids : list Z) (e : Email) : bool :=
  existsb (Z.eqb (email_id e)) email_ids && (user_id e =? u).

(** What the bulk delete queues for one selected row. *)
Definition delete_operation_of (user : User) (e : Email)
  : list ImapOperation :=
  if (folder e =? "trash")%string then []
  else if imap_available user && truthy_oint (imap_uid e) then
    [("delete", match imap_uid e with Some n => n | None => 0 end, "trash")]
  else [].

(** The commands of an in-place flag-and-expunge in the trash mailbox. *)
Definition flag_and_expunge_in_trash (c : ImapCmd) : bool :=
  match c with
  | CLogin | CLogout | CExpunge | CStoreDeleted _ => true
  | CSelect f false => (f =? "Trash")%string
  | _ => false
  end.

(** What the bulk delete does to one row of the session. *)
Definition bulk_delete_row (ids : list Z) (e : Email) : Email :=
  if existsb (Z.eqb (email_id e)) ids && negb (folder e =? "trash")%string
  then with_folder "trash" e else e.

Definition find_id (i : Z) (rows : list Email) : option Email :=
  find (fun e => email_id e =? i) rows.

(** Every command issued so far is part of a flag-and-expunge in the
    trash mailbox. *)
Definition only_flag_and_expunge (st : State) : Prop :=
  forallb flag_and_expunge_in_trash (st_log st) = true.

(** The queued operation is a delete whose source folder is [trash]. *)
Definition delete_from_trash (op : ImapOperation) : Prop :=
  exists uid, op = ("delete", uid, "trash").

(** The commands of one in-place flag-and-expunge. *)
Definition flag_and_expunge_commands (op : ImapOperation) : list ImapCmd :=
  [CSelect "Trash" false; CStoreDeleted (snd (fst op)); CExpunge].

(** The server lets a flag-and-expunge in the trash mailbox through. *)
Definition lets_trash_through (srv : Server) : Prop :=
  srv_login srv = true /\
  (exists ok, srv_select srv "Trash" false = Replies ok) /\
  (forall uid, srv_store srv (Some "Trash") uid = true) /\
  srv_expunge srv (Some "Trash") = true /\
  srv_logout srv = true.

(** ** The sync loops as functions of the rows *)

(** What one turn of a sync loop does with a UID. *)
Inductive Decision : Type :=
| Skip : Decision                (* continue *)
| Counted : Decision             (* nothing stored, fetched_count += 1 *)
| Abort : Decision               (* the fetch raised *)
| Insert : Email -> Decision.

(** The turn of [sync_loop] for [uid], from the rows of the session and
    the mailbox selected on the connection. *)
Definition decide (srv : Server) (user : User) (fld : string)
    (sel : option string) (rows : list Email) (uid : Z) : Decision :=
  match query_by_uid (uid_of_user user) uid rows with
  | Some _ => Skip
  | None =>
      match srv_fetch srv sel uid with
      | Raises => Abort
      | Replies FetchFailed => Skip
      | Replies FetchNoTuple => Counted
      | Replies (FetchRaw raw) =>
          match parse_from_bytes raw with
          | Raises => Skip
          | Replies pm =>
              let e := new_email user fld uid pm in
              match message_id_header e with
              | Some m =>
                  if truthy_str m then
                    match query_by_message_id (uid_of_user user) m rows with
                    | Some _ => Skip
                    | None => Insert e
                    end
                  else Insert e
              | None => Insert e
              end
          end
      end
  end.

(** The turn of [sync_new_loop]. *)
Definition decide_new (srv : Server) (user : User) (fld : string)
    (last_uid : Z) (sel : option string) (rows : list Email) (uid : Z)
  : Decision :=
  if uid <=? last_uid then Skip
  else match decide srv user fld sel rows uid with
       | Counted => Skip
       | d => d
       end.

(** The rows and the key sequence after a loop over [uids]; the boolean
    tells whether the loop was cut short by an exception.  [limit] is the
    bound of the [break], absent in [sync_new_loop]. *)
Fixpoint ingest (d : list Email -> Z -> Decision) (limit : option Z)
    (uids : list Z) (fetched_count : Z) (rows : list Email) (next : Z)
  : bool * list Email * Z :=
  match uids with
  | [] => (false, rows, next)
  | uid :: rest =>
      let stop := match limit with
                  | Some l => l <=? fetched_count + 1
                  | None => false
                  end in
      match d rows uid with
      | Skip => ingest d limit rest fetched_count rows next
      | Abort => (true, rows, next)
      | Counted =>
          if stop then (false, rows, next)
          else ingest d limit rest (fetched_count + 1) rows next
      | Insert e =>
          let rows' := (rows ++ [with_id next e])%list in
          if stop then (false, rows', next + 1)
          else ingest d limit rest (fetched_count + 1) rows' (next + 1)
      end
  end.


(** ** What a sync works on *)

(** The part of [sync_emails] before its loop: the UIDs found, or [None]
    when the handler answers without looping. *)
Definition sync_prefix (srv : Server) (fld : string)
  : M (option (list Z)) :=
  imap_login srv ;;;
  ready <- sync_select_folder srv fld ;;
  if ready then imap_search srv SearchAll else ret None.

(** The same for [sync_new_emails] and its search query. *)
Definition sync_new_prefix (srv : Server) (fld : string) (q : SearchQuery)
  : M (option (list Z)) :=
  imap_login srv ;;;
  ready <- sync_new_select_folder srv fld ;;
  if ready then imap_search srv q else ret None.

Definition fresh_connection : State :=
  mkState None [] [] [] [] 0 false 0.

(** The mailbox a sync ends up in and the UIDs it lists there. *)
Definition target_of (prefix : M (option (list Z)))
  : option (option string * list Z) :=
  match prefix fresh_connection with
  | (Replies (Some uids), st) => Some (st_selected st, uids)
  | _ => None
  end.

Definition sync_target (srv : Server) (fld : string)
  : option (option string * list Z) :=
  target_of (sync_prefix srv fld).

Definition sync_new_target (srv : Server) (fld : string) (q : SearchQuery)
  : option (option string * list Z) :=
  target_of (sync_new_prefix srv fld q).

(** [m] reads nothing of the state but the selected mailbox: its result
    and the mailbox it leaves selected depend on that alone. *)
Definition oblivious {A : Type} (m : M A) : Prop :=
  forall st1 st2,
    st_selected st1 = st_selected st2 ->
    fst (m st1) = fst (m st2) /\
    st_selected (snd (m st1)) = st_selected (snd (m st2)).

(** The rows a sync leaves, and how many it added. *)
Definition ingested (d : list Email -> Z -> Decision) (limit : option Z)
    (uids : list Z) (db : Db) : bool * list Email * Z :=
  ingest d limit uids 0 (emails db) (next_id db).

(** ** Identity of stored messages *)

(** The UIDs carried by the rows of account [u], in row order. *)
Definition stored_uids (u : Z) (rows : list Email) : list Z :=
  flat_map (fun e => if user_id e =? u
                     then match imap_uid e with Some n => [n] | None => [] end
                     else []) rows.

(** The non-empty message-id headers carried by the rows of account [u]. *)
Definition message_ids (u : Z) (rows : list Email) : list string :=
  flat_map (fun e => if user_id e =? u
                     then match message_id_header e with
                          | Some m => if truthy_str m then [m] else []
                          | None => []
                          end
                     else []) rows.

(** At most one row of account [u] carries any given non-empty
    message-id header. *)
Definition unique_message_ids (u : Z) (rows : list Email) : Prop :=
  NoDup (message_ids u rows).

(** The rows of account [u]. *)
Definition rows_of (u : Z) (rows : list Email) : list Email :=
  filter (fun e => user_id e =? u) rows.

(** [a] presents the same message as [e]: same account and same UID, or
    same account and same non-empty message-id header. *)
Definition same_message (e a : Email) : Prop :=
  user_id a = user_id e /\
  ((exists n, imap_uid e = Some n /\ imap_uid a = Some n) \/
   (exists m, message_id_header e = Some m /\ truthy_str m = true /\
              message_id_header a = Some m)).


(** The UIDs a full sync of [fld] gets listed by the server. *)
Definition observed_uids (srv : Server) (fld : string) : list Z :=
  match sync_target srv fld with
  | Some (_, uids) => uids
  | None => []
  end.

(** The database after [n] full syncs with the same server, account and
    request. *)
Definition repeat_sync (srv : Server) (user : User) (rq : SyncRequest)
    (n : nat) (db : Db) : Db :=
  Nat.iter n (fun d => db_after (sync_emails srv user rq d)) db.

(** The search of an incremental sync whose cursor is [last_uid]. *)
Definition search_query_of (last_uid : Z) : SearchQuery :=
  if 0 <? last_uid then SearchUidFrom (last_uid + 1) else SearchAll.

(** A sync request of either kind, with the server it meets. *)
Inductive SyncCall : Type :=
| FullSync : Server -> SyncRequest -> SyncCall
| NewSync : Server -> SyncRequest -> SyncCall.

Definition run_sync (user : User) (c : SyncCall) (db : Db) : Db :=
  match c with
  | FullSync srv rq => db_after (sync_emails srv user rq db)
  | NewSync srv rq => db_after (sync_new_emails srv user rq db)
  end.

Definition run_syncs (user : User) (calls : list SyncCall) (db : Db) : Db :=
  fold_left (fun d c => run_sync user c d) calls db.

Definition call_request (c : SyncCall) : SyncRequest :=
  match c with FullSync _ rq | NewSync _ rq => rq end.

(** The rows of account [u] held in folder [fld]. *)
Definition in_folder (db : Db) (u : Z) (fld : string) (e : Email) : Prop :=
  In e (emails db) /\ user_id e = u /\ folder e = fld.

(** * The compose endpoints: drafts *)

(** The JSON body of [save_draft], [update_draft] and [send_email]: a string
    field is absent ([None]) or holds a string; [is_html] is read for its
    truth value. *)
Record ComposeRequest := mkCompose {
  c_to : option string;
  c_cc : option string;
  c_bcc : option string;
  c_subject : option string;
  c_body : option string;
  c_is_html : bool
}.

(** [data.get(key, default)] *)
Definition get_or (default : string) (field : option string) : string :=
  match field with Some s => s | None => default end.

(** [(f", {x}" if x else "")] *)
Definition comma_part (x : string) : string :=
  if truthy_str x then ", " ++ x else "".

(** [Email(user_id=user.id, message_id_header=None, ..., folder='drafts',
    imap_uid=None, email_type='draft')] of [save_draft]. *)
Definition draft_email (user : User) (rq : ComposeRequest) : Email :=
  let to_email := get_or "" (c_to rq) in
  let cc_email := get_or "" (c_cc rq) in
  let bcc_email := get_or "" (c_bcc rq) in
  let subject := get_or "" (c_subject rq) in
  let body := get_or "" (c_body rq) in
  let is_html := c_is_html rq in
  mkEmail 0 (uid_of_user user) None subject (email_address user)
          (to_email ++ comma_part cc_email ++ comma_part bcc_email)
          (if truthy_str body then take_prefix 300 body else "")
          body
          (if is_html then body else "")
          (if negb is_html then body else "")
          "drafts" None.

(** What [save_draft] answers: the response, ['draft_id'] and the database
    it leaves. *)
Record DraftSaved := mkDraftSaved {
  ds_response : Response;
  ds_draft_id : option Z;
  ds_db : Db
}.

(** [POST /api/drafts] *)
Definition save_draft (user : User) (rq : ComposeRequest) (db : Db)
  : DraftSaved :=
  match (draft <- session_add (draft_email user rq) ;;
         session_commit ;;;
         ret draft) (begin_request db) with
  | (Replies draft, st) =>
      mkDraftSaved (jsonify success 200) (Some (email_id draft))
                   (db_after (end_request db (jsonify success 200) st))
  | (Raises, st) =>
      mkDraftSaved (jsonify error 500) None
                   (db_after (end_request db (jsonify error 500) st))
  end.

(** [Email.query.filter_by(id=draft_id, user_id=user.id,
                           folder='drafts').first()] *)
Definition query_draft (u i : Z) (rows : list Email) : option Email :=
  find (fun e => (email_id e =? i) && (user_id e =? u)
                 && (folder e =? "drafts")%string) rows.

(** The attribute writes of [update_draft] on the loaded draft. *)
Definition updated_draft (rq : ComposeRequest) (draft : Email) : Email :=
  let subject' := get_or (subject draft) (c_subject rq) in
  let recipient' :=
    get_or "" (c_to rq)
    ++ (if truthy_ostr (c_cc rq) then ", " ++ get_or "" (c_cc rq) else "")
    ++ (if truthy_ostr (c_bcc rq) then ", " ++ get_or "" (c_bcc rq) else "") in
  let body_full' := get_or (body_full draft) (c_body rq) in
  let body_preview' :=
    if truthy_str body_full' then take_prefix 300 body_full' else "" in
  mkEmail (email_id draft) (user_id draft) (message_id_header draft)
          subject' (sender draft) recipient' body_preview' body_full'
          (if c_is_html rq then body_full' else "")
          (if c_is_html rq then "" else body_full')
          (folder draft) (imap_uid draft).

(** [PUT /api/drafts/<draft_id>] *)
Definition update_draft (user : User) (draft_id : Z) (rq : ComposeRequest)
    (db : Db) : Outcome :=
  match query_draft (uid_of_user user) draft_id (emails db) with
  | None => mkOutcome (jsonify error 404) db []
  | Some _ =>
      handle db
        (modify (fun st =>
                   set_rows (update_row draft_id (updated_draft rq)
                                        (st_rows st)) st) ;;;
         session_commit ;;;
         ret (jsonify success 200))
  end.

(** [DELETE /api/drafts/<draft_id>] *)
Definition delete_draft (user : User) (draft_id : Z) (db : Db) : Outcome :=
  match query_draft (uid_of_user user) draft_id (emails db) with
  | None => mkOutcome (jsonify error 404) db []
  | Some _ =>
      handle db (session_delete draft_id ;;; session_commit ;;;
                 ret (jsonify success 200))
  end.

(** The primary key: keys are pairwise distinct and below the next value
    of the sequence. *)
Definition keys_fresh (db : Db) : Prop :=
  NoDup (map email_id (emails db)) /\
  Forall (fun e => email_id e < next_id db) (emails db).

(** * Accounts *)

(** [class User]: all the columns of [users].  [imap_host] and [imap_port]
    above are these columns as the mailbox handlers read them. *)
Record Account := mkAccount {
  acct_id : Z;
  acct_email : string;
  encrypted_email_password : option string;
  email_provider_type : option string;
  acct_imap_host : option string;
  acct_imap_port : option Z;
  smtp_host : option string;
  smtp_port : option Z
}.

(** [Fernet(FERNET_KEY)]: [encrypt] draws an IV and a timestamp, here its
    first argument; [decrypt] raises on a token it does not accept. *)
Record Fernet := mkFernet {
  encrypt : string -> string -> string;
  decrypt : string -> Reply string
}.

(** [User.set_email_password]; [fernet] is [None] when [FERNET_KEY] is not
    set, and then the column keeps its value. *)
Definition set_email_password (fernet : option Fernet) (entropy : string)
    (password_to_encrypt : string) (a : Account) : Account :=
  match fernet with
  | Some f =>
      if truthy_str password_to_encrypt then
        mkAccount (acct_id a) (acct_email a)
                  (Some (encrypt f entropy password_to_encrypt))
                  (email_provider_type a) (acct_imap_host a)
                  (acct_imap_port a) (smtp_host a) (smtp_port a)
      else a
  | None => a
  end.

(** [User.get_decrypted_email_password] *)
Definition get_decrypted_email_password (fernet : option Fernet)
    (a : Account) : option string :=
  match fernet, encrypted_email_password a with
  | Some f, Some token =>
      if truthy_str token then
        match decrypt f token with
        | Replies password => Some password
        | Raises => None
        end
      else None
  | _, _ => None
  end.

(** The account as the mailbox handlers see it once they have called
    [get_decrypted_email_password]. *)
Definition user_of_account (fernet : option Fernet) (a : Account) : User :=
  mkUser (acct_id a) (acct_email a) (get_decrypted_email_password fernet a)
         (acct_imap_host a) (acct_imap_port a).

(** * Sending *)

(** The characters [str.strip()] and [str.isspace()] take for white space,
    among the code points below 256. *)
Definition whitespace : string :=
  string_of_list_ascii
    (map ascii_of_nat [9; 10; 11; 12; 13; 28; 29; 30; 31; 32; 133; 160]%nat).

(** [s.strip()] *)
Definition py_strip (s : string) : string := strip whitespace s.

(** [s.split(sep)] for a separator of one character *)
Fixpoint split_on (sep : ascii) (s : string) : list string :=
  match s with
  | EmptyString => [EmptyString]
  | String c s' =>
      if Ascii.eqb c sep then EmptyString :: split_on sep s'
      else match split_on sep s' with
           | piece :: pieces => String c piece :: pieces
           | [] => [String c EmptyString]
           end
  end.

(** The [MIMEMultipart('mixed')] message [send_email] builds: its headers,
    the one body part with its subtype, and the file names of the
    attachment parts (their payload is not modelled). *)
Record MimeMessage := mkMime {
  mime_from : string;
  mime_to : string;
  mime_cc : option string;          (* set only [if cc_email] *)
  mime_bcc : option string;         (* set only [if bcc_email] *)
  mime_subject : string;
  mime_body : string;
  mime_html : bool;                 (* MIMEText(body, 'html' | 'plain') *)
  mime_attachments : list string
}.

Inductive SmtpCmd : Type :=
| SmtpSSL : string -> Z -> SmtpCmd          (* smtplib.SMTP_SSL(host, port) *)
| SmtpPlain : string -> Z -> SmtpCmd        (* smtplib.SMTP(host, port) *)
| StartTls : SmtpCmd
| SmtpLogin : string -> string -> SmtpCmd
| SendMessage : MimeMessage -> list string -> SmtpCmd
| SmtpQuit : SmtpCmd.

(** An SMTP server: whether a command returns ([true]) or raises, given the
    commands that came before it on the connection. *)
Definition SmtpServer : Type := list SmtpCmd -> SmtpCmd -> bool.

(** Straight-line calls: each command is issued in turn until one raises.
    The result is the commands issued and whether all of them returned. *)
Fixpoint smtp_run (smtp : SmtpServer) (issued todo : list SmtpCmd)
  : list SmtpCmd * bool :=
  match todo with
  | [] => (issued, true)
  | c :: rest =>
      if smtp issued c then smtp_run smtp (issued ++ [c])%list rest
      else ((issued ++ [c])%list, false)
  end.

(** [recipients = [to_email]; if cc_email: recipients.extend([addr.strip()
    for addr in cc_email.split(',')]); if bcc_email: ...] *)
Definition addresses (field : string) : list string :=
  if truthy_str field then map py_strip (split_on "," field) else [].

Definition recipients (to_email cc_email bcc_email : string) : list string :=
  ([to_email] ++ addresses cc_email ++ addresses bcc_email)%list.

Definition build_message (a : Account) (to_email : string)
    (rq : ComposeRequest) (attachments : list string) : MimeMessage :=
  let cc_email := get_or "" (c_cc rq) in
  let bcc_email := get_or "" (c_bcc rq) in
  mkMime (acct_email a) to_email
         (if truthy_str cc_email then Some cc_email else None)
         (if truthy_str bcc_email then Some bcc_email else None)
         (get_or "" (c_subject rq)) (get_or "" (c_body rq)) (c_is_html rq)
         (filter truthy_str attachments).

(** The calls of [send_email] on [smtplib], in program order. *)
Definition smtp_commands (a : Account) (host : string) (port : Z)
    (password to_email : string) (rq : ComposeRequest)
    (attachments : list string) : list SmtpCmd :=
  ((if port =? 465 then [SmtpSSL host port]
    else [SmtpPlain host port; StartTls])
   ++ [SmtpLogin (acct_email a) password;
       SendMessage (build_message a to_email rq attachments)
                   (recipients to_email (get_or "" (c_cc rq))
                               (get_or "" (c_bcc rq)));
       SmtpQuit])%list.

(** [Email(..., message_id_header=msg['Message-ID'], ..., folder='sent',
    imap_uid=None)]: the message never gets a [Message-ID] header set, so
    [msg['Message-ID']] is [None]. *)
Definition sent_email (a : Account) (to_email : string) (rq : ComposeRequest)
  : Email :=
  let cc_email := get_or "" (c_cc rq) in
  let body := get_or "" (c_body rq) in
  let is_html := c_is_html rq in
  mkEmail 0 (acct_id a) None (get_or "" (c_subject rq)) (acct_email a)
          (to_email ++ comma_part cc_email)
          (take_prefix 300 body) body
          (if is_html then body else "")
          (if negb is_html then body else "")
          "sent" None.

Record SendOutcome := mkSendOutcome {
  so_response : Response;
  so_db : Db;
  so_smtp : list SmtpCmd
}.

(** [POST /api/emails/send].  [attachments] are the file names of
    [request.files]: only a [multipart/form-data] request carries files,
    and on such a request [data = request.get_json()] raises (or returns
    [None], and [data.get('to')] raises), which the handler answers with a
    500; [rq] is the JSON body of a request without files. *)
Definition send_email (fernet : option Fernet) (smtp : SmtpServer)
    (a : Account) (rq : ComposeRequest) (attachments : list string)
    (db : Db) : SendOutcome :=
  let decrypted_password := get_decrypted_email_password fernet a in
  if negb (truthy_ostr decrypted_password) then
    mkSendOutcome (jsonify error 500) db []
  else if negb (truthy_ostr (smtp_host a))
          || negb (truthy_oint (smtp_port a)) then
    mkSendOutcome (jsonify error 500) db []
  else if negb (is_nil attachments) then
    mkSendOutcome (jsonify error 500) db []
  else if negb (truthy_ostr (c_to rq)) then
    mkSendOutcome (jsonify error 400) db []
  else
    let password := get_or "" decrypted_password in
    let to_email := get_or "" (c_to rq) in
    let host := get_or "" (smtp_host a) in
    let port := match smtp_port a with Some p => p | None => 0 end in
    match smtp_run smtp []
            (smtp_commands a host port password to_email rq attachments) with
    | (issued, true) =>
        let o := handle db (session_add (sent_email a to_email rq) ;;;
                            session_commit ;;;
                            ret (jsonify success 200)) in
        mkSendOutcome (response o) (db_after o) issued
    | (issued, false) => mkSendOutcome (jsonify error 500) db issued
    end.

(** The checks [send_email] makes before it opens a connection. *)
Definition send_ready (fernet : option Fernet) (a : Account)
    (rq : ComposeRequest) : bool :=
  truthy_ostr (get_decrypted_email_password fernet a)
  && truthy_ostr (smtp_host a) && truthy_oint (smtp_port a)
  && truthy_ostr (c_to rq).

(** The connection is encrypted once the commands [pre] have returned:
    it was opened with [SMTP_SSL], or opened plain and [starttls()]
    returned. *)
Definition encrypted_after (smtp : SmtpServer) (pre : list SmtpCmd) : Prop :=
  match pre with
  | [SmtpSSL _ _] => True
  | [SmtpPlain h p; StartTls] => smtp [SmtpPlain h p] StartTls = true
  | _ => False
  end.

(** The calls [send_email] is about to make for a request that passed its
    checks. *)
Definition send_commands (fernet : option Fernet) (a : Account)
    (rq : ComposeRequest) (attachments : list string) : list SmtpCmd :=
  smtp_commands a (get_or "" (smtp_host a))
                (match smtp_port a with Some p => p | None => 0 end)
                (get_or "" (get_decrypted_email_password fernet a))
                (get_or "" (c_to rq)) rq attachments.

(** Sample data for the account endpoints. *)
Definition sample_fernet : Fernet :=
  mkFernet (fun _ password => String "F" password)
           (fun token => match token with
                         | String "F" password => Replies password
                         | _ => Raises
                         end).

Definition sample_account : Account :=
  mkAccount 1 "me@example.org" (Some "Fsecret") (Some "gmail")
            (Some "imap.gmail.com") (Some 993) (Some "smtp.gmail.com")
            (Some 587).

Definition accepting_smtp : SmtpServer := fun _ _ => true.


Definition sample_compose : ComposeRequest :=
  mkCompose (Some "ann@example.org") (Some "bob@example.org, eve@example.org")
            (Some "zed@example.org") (Some "Hi") (Some "Hello there") false.

(** An address as a client writes it between the commas of [cc] or [bcc]:
    not empty, no comma, no white space around it. *)
Definition plain_address (x : string) : Prop :=
  x <> "" /\ ~ In ","%char (list_ascii_of_string x) /\ py_strip x = x.

Definition without_bcc (rq : ComposeRequest) : ComposeRequest :=
  mkCompose (c_to rq) (c_cc rq) None (c_subject rq) (c_body rq)
            (c_is_html rq).

(** * Two runs of a handler side by side *)

(** The rows [rows] and [rows'] offer account [u] the same UIDs and the
    same non-empty message-ids. *)
Definition same_keys (u : Z) (rows rows' : list Email) : Prop :=
  (forall n, In n (stored_uids u rows) <-> In n (stored_uids u rows')) /\
  (forall m, In m (message_ids u rows) <-> In m (message_ids u rows')).

(** The same rows but for their primary keys. *)
Definition same_up_to_id (l l' : list Email) : Prop :=
  map (with_id 0) l = map (with_id 0) l'.

(** Where two runs started: the account, and each run's rows and next
    key. *)
Record Frame := mkFrame {
  fr_user : Z;
  fr_rows : list Email;
  fr_rows' : list Email;
  fr_next : Z;
  fr_next' : Z
}.

(** The rows [rows] and [rows'] are those of the frame followed by the
    same additions, keyed from the frame's two sequences. *)
Definition grown (F : Frame) (rows rows' : list Email) : Prop :=
  exists added added',
    rows = (fr_rows F ++ added)%list /\
    rows' = (fr_rows' F ++ added')%list /\
    same_up_to_id added added'.

(** Two states that a client and the server cannot tell apart: the same
    connection, and session and database grown alike. *)
Definition related (F : Frame) (st st' : State) : Prop :=
  same_keys (fr_user F) (fr_rows F) (fr_rows' F) /\
  st_selected st = st_selected st' /\
  st_log st = st_log st' /\
  st_imap_success st = st_imap_success st' /\
  st_imap_success_count st = st_imap_success_count st' /\
  st_deleted st = [] /\ st_deleted st' = [] /\
  grown F (st_rows st) (st_rows st') /\
  grown F (st_committed st) (st_committed st') /\
  st_next_id st - fr_next F = st_next_id st' - fr_next' F.

(** [m] and [m'] go the same way from related states: both raise or both
    return, with results related by [RA], and leave related states. *)
Definition simulates (F : Frame) {A : Type} (RA : A -> A -> Prop)
    (m m' : M A) : Prop :=
  forall st st',
    related F st st' ->
    match m st, m' st' with
    | (Raises, s), (Raises, s') => related F s s'
    | (Replies a, s), (Replies a', s') => RA a a' /\ related F s s'
    | _, _ => False
    end.

(** Two responses that differ at most in the keys of the rows they list. *)
Definition same_response (r r' : Response) : Prop :=
  status r = status r' /\ code r = code r' /\ count r = count r' /\
  same_up_to_id (new_emails r) (new_emails r') /\
  imap_success r = imap_success r' /\ local_success r = local_success r' /\
  imap_success_total r = imap_success_total r'.

(** A row of another account, to put next to the sample rows. *)
Definition foreign_row : Email :=
  mkEmail 9 2 (Some "m1@example.org") "Offer" "shop@example.org"
          "you@example.org" "Buy" "Buy" "" "Buy" "inbox" (Some 7).

(** * Logging in *)

(** The JSON body of [login]: a field is absent or holds a string, the two
    ports an integer. *)
Record LoginRequest := mkLoginRequest {
  l_email : option string;
  l_password : option string;
  l_provider : option string;
  l_imap_server : option string;
  l_imap_port : option Z;
  l_smtp_server : option string;
  l_smtp_port : option Z
}.

(** [user_imap_host], [user_imap_port], [user_smtp_host],
    [user_smtp_port] once the provider has been looked at. *)
Record Settings := mkSettings {
  user_imap_host : option string;
  user_imap_port : Z;
  user_smtp_host : option string;
  user_smtp_port : Z
}.

(** The [if provider == ...] chain of [login]; [None] is one of its 400
    answers. *)
Definition provider_settings (rq : LoginRequest) : option Settings :=
  let provider := l_provider rq in
  let provider_is p := match provider with
              | Some q => (q =? p)%string
              | None => false
              end in
  if provider_is "gmail" then
    Some (mkSettings (Some "imap.gmail.com") 993 (Some "smtp.gmail.com") 587)
  else if provider_is "outlook" then
    Some (mkSettings (Some "outlook.office365.com") 993
                     (Some "smtp.office365.com") 587)
  else if provider_is "zoho_personal" then
    Some (mkSettings (Some "imappro.zoho.com") 993
                     (Some "smtppro.zoho.com") 465)
  else if provider_is "zoho_custom" || provider_is "custom_imap" then
    let imap_port := if truthy_oint (l_imap_port rq)
                     then match l_imap_port rq with Some p => p | None => 993 end
                     else 993 in
    let smtp_port := if truthy_oint (l_smtp_port rq)
                     then match l_smtp_port rq with Some p => p | None => 465 end
                     else 465 in
    if negb (truthy_ostr (l_imap_server rq)) then None
    else Some (mkSettings (l_imap_server rq) imap_port (l_smtp_server rq)
                          smtp_port)
  else None.

(** How a call on [imaplib] fails: with [imaplib.IMAP4.error] or with
    another exception. *)
Inductive Failure : Type := ImapError | OtherError.

(** The IMAP service behind a host and port: for each of the three calls of
    the connection test, whether and how it raises. *)
Record ImapEndpoint := mkEndpoint {
  ep_connect : option Failure;                     (* IMAP4_SSL(host, port) *)
  ep_login : string -> string -> option Failure;   (* mail.login(email, pw) *)
  ep_logout : option Failure                       (* mail.logout() *)
}.

Definition Network : Type := string -> Z -> ImapEndpoint.

Inductive LoginCmd : Type :=
| LConnect : string -> Z -> LoginCmd
| LLogin : string -> string -> LoginCmd
| LLogout : LoginCmd.

(** [mail = imaplib.IMAP4_SSL(host, port); mail.login(email, password);
    mail.logout()]: the calls made and the exception that ended them. *)
Definition imap_test (net : Network) (host : string) (port : Z)
    (email password : string) : list LoginCmd * option Failure :=
  let ep := net host port in
  match ep_connect ep with
  | Some f => ([LConnect host port], Some f)
  | None =>
      match ep_login ep email password with
      | Some f => ([LConnect host port; LLogin email password], Some f)
      | None =>
          ([LConnect host port; LLogin email password; LLogout],
           ep_logout ep)
      end
  end.

(** The table [users] and its key sequence. *)
Record Users := mkUsers {
  accounts : list Account;
  next_account_id : Z
}.

(** [User.query.filter_by(email=email).first()] *)
Definition query_account (email : string) (us : Users) : option Account :=
  find (fun a => (acct_email a =? email)%string) (accounts us).

(** The attribute writes of [login] on an existing user. *)
Definition with_settings (provider : option string) (s : Settings)
    (a : Account) : Account :=
  mkAccount (acct_id a) (acct_email a) (encrypted_email_password a)
            provider (user_imap_host s) (Some (user_imap_port s))
            (user_smtp_host s) (Some (user_smtp_port s)).

(** Find or create the user, store settings and password, commit. *)
Definition store_account (fernet : option Fernet) (entropy : string)
    (email password : string) (provider : option string) (s : Settings)
    (us : Users) : Users :=
  match query_account email us with
  | None =>
      let user := mkAccount (next_account_id us) email None provider
                            (user_imap_host s) (Some (user_imap_port s))
                            (user_smtp_host s) (Some (user_smtp_port s)) in
      mkUsers (accounts us ++ [set_email_password fernet entropy password
                                                  user])%list
              (next_account_id us + 1)
  | Some _ =>
      mkUsers (map (fun a => if (acct_email a =? email)%string
                             then set_email_password fernet entropy password
                                    (with_settings provider s a)
                             else a)
                   (accounts us))
              (next_account_id us)
  end.

Record LoginOutcome := mkLoginOutcome {
  lo_response : Response;
  lo_identity : option string;     (* identity of the access token *)
  lo_users : Users;
  lo_trace : list LoginCmd
}.

(** [POST /api/login] *)
Definition login (fernet : option Fernet) (entropy : string) (net : Network)
    (rq : LoginRequest) (us : Users) : LoginOutcome :=
  if negb (truthy_ostr (l_email rq)) || negb (truthy_ostr (l_password rq))
  then mkLoginOutcome (jsonify error 400) None us []
  else
    let email := get_or "" (l_email rq) in
    let password := get_or "" (l_password rq) in
    match provider_settings rq with
    | None => mkLoginOutcome (jsonify error 400) None us []
    | Some s =>
        if negb (truthy_ostr (user_imap_host s)) then
          mkLoginOutcome (jsonify error 400) None us []
        else
          match imap_test net (get_or "" (user_imap_host s))
                          (user_imap_port s) email password with
          | (issued, Some ImapError) =>
              mkLoginOutcome (jsonify error 401) None us issued
          | (issued, Some OtherError) =>
              mkLoginOutcome (jsonify error 500) None us issued
          | (issued, None) =>
              mkLoginOutcome (jsonify success 200) (Some email)
                (store_account fernet entropy email password
                               (l_provider rq) s us)
                issued
          end
    end.

(** [Fernet.decrypt] gives back what [Fernet.encrypt] was given, and a
    token is never the empty string. *)
Definition fernet_round_trip (f : Fernet) : Prop :=
  forall entropy password,
    decrypt f (encrypt f entropy password) = Replies password /\
    encrypt f entropy password <> "".

(** Sample data for [login]. *)
Definition open_network : Network :=
  fun _ _ => mkEndpoint None (fun _ _ => None) None.

Definition sample_login : LoginRequest :=
  mkLoginRequest (Some "me@example.org") (Some "secret") (Some "gmail")
                 None None None None.

Definition sample_users : Users :=
  mkUsers [mkAccount 1 "me@example.org" None (Some "custom_imap")
                     (Some "mail.example.org") (Some 993) None (Some 465);
           mkAccount 2 "you@example.org" (Some "Fother") (Some "outlook")
                     (Some "outlook.office365.com") (Some 993)
                     (Some "smtp.office365.com") (Some 587)] 3.

(** * Listing folders *)

(** The double quote. *)
Definition dquote : ascii := "034"%char.

(** [c in s] for a character *)
Definition has_char (c : ascii) (s : string) : bool :=
  existsb (Ascii.eqb c) (list_ascii_of_string s).

(** [l[-2]], for a list of at least two elements *)
Definition penultimate (l : list string) : string :=
  nth (List.length l - 2) l "".

(** [f.decode().split('"')[-2] if '"' in f.decode() else f.decode()] *)
Definition folder_name (line : string) : string :=
  if has_char dquote line then penultimate (split_on dquote line) else line.

Record FoldersOutcome := mkFoldersOutcome {
  fo_response : Response;
  fo_folders : list string;        (* 'folders' *)
  fo_trace : list ImapCmd
}.

(** [GET /api/folders]; [listing] is the server's answer to [mail.list()]:
    it raises, or returns a status other than ['OK'] ([None]), or the
    lines. *)
Definition get_folders (srv : Server) (listing : Reply (option (list string)))
    (user : User) : FoldersOutcome :=
  if negb (truthy_ostr (decrypted_password user)) then
    mkFoldersOutcome (jsonify error 500) [] []
  else if negb (truthy_ostr (imap_host user))
          || negb (truthy_oint (imap_port user)) then
    mkFoldersOutcome (jsonify error 500) [] []
  else
    match (imap_login srv ;;;
           imap_list ;;;
           folders <- of_reply listing ;;
           imap_logout srv ;;;
           ret folders) (begin_request (mkDb [] 0 false)) with
    | (Replies (Some folders), st) =>
        mkFoldersOutcome (jsonify success 200) (map folder_name folders)
                         (st_log st)
    | (Replies None, st) => mkFoldersOutcome (jsonify error 500) [] (st_log st)
    | (Raises, st) => mkFoldersOutcome (jsonify error 500) [] (st_log st)
    end.

(** * The AI service *)

(** [c.lower()] for a code point below 256: the letters A to Z, and the
    capital letters of Latin-1 (192 to 222, the multiplication sign 215
    apart). *)
Definition py_lower_char (c : ascii) : ascii :=
  let n := nat_of_ascii c in
  if (Nat.leb 65 n && Nat.leb n 90)%bool
     || (Nat.leb 192 n && Nat.leb n 222 && negb (Nat.eqb n 215))%bool
  then ascii_of_nat (n + 32) else c.

(** [s.lower()] *)
Fixpoint py_lower (s : string) : string :=
  match s with
  | EmptyString => EmptyString
  | String c s' => String (py_lower_char c) (py_lower s')
  end.

Definition nl : string := String "010"%char "".

(** [class AIService] after [__init__]; the model name and the temperature,
    which are passed on unchanged, are left out. *)
Record AIService := mkAIService {
  api_key : option string;
  max_tokens : Z;
  enabled : bool;
  client : bool                 (* self.client is not None *)
}.

(** [AIService.__init__] from [OPENAI_API_KEY], [OPENAI_MAX_TOKENS] (read
    as an integer) and [ENABLE_AI_FEATURES]. *)
Definition ai_service_init (openai_api_key : option string)
    (openai_max_tokens : Z) (enable_ai_features : option string)
  : AIService :=
  let enabled :=
    (py_lower (get_or "false" enable_ai_features) =? "true")%string in
  if enabled && truthy_ostr openai_api_key then
    mkAIService openai_api_key openai_max_tokens enabled true
  else if enabled then
    mkAIService openai_api_key openai_max_tokens false false
  else
    mkAIService openai_api_key openai_max_tokens enabled false.

Definition is_enabled (s : AIService) : bool :=
  enabled s
  && match api_key s with Some _ => true | None => false end
  && client s.

(** One call of [client.chat.completions.create]: the system message, the
    user message and [max_tokens]. *)
Record ChatRequest := mkChat {
  chat_system : string;
  chat_user : string;
  chat_max_tokens : Z
}.

(** The API: it raises, or returns the content of the first choice. *)
Definition OpenAI : Type := ChatRequest -> Reply string.

(** What a method of the service gives back: its result and the calls it
    made on the API. *)
Definition Asked (A : Type) : Type := (A * list ChatRequest)%type.

(** [AIService._make_openai_request] *)
Definition _make_openai_request (s : AIService) (api : OpenAI)
    (system_content user_content : string) (requested_tokens : option Z)
  : Asked (option string) :=
  if negb (is_enabled s) then (None, [])
  else
    let rq := mkChat system_content user_content
                     (if truthy_oint requested_tokens
                      then match requested_tokens with
                           | Some n => n
                           | None => max_tokens s
                           end
                      else max_tokens s) in
    (match api rq with
     | Replies content => Some (py_strip content)
     | Raises => None
     end, [rq]).

(** [if len(body) > n: body = body[:n] + "..."] *)
Definition truncated (n : nat) (body : string) : string :=
  if Nat.ltb n (String.length body) then take_prefix n body ++ "..."
  else body.

(** [AIService.summarize_email] *)
Definition summarize_email (s : AIService) (api : OpenAI)
    (subject body sender : string) : Asked (option string) :=
  if negb (is_enabled s) then (None, [])
  else
    let body := truncated 3000 body in
    _make_openai_request s api
      ("You are an AI assistant that helps users understand and " ++
       "manage their emails. Provide clear, concise summaries.")
      ("Please provide a brief summary of this email:" ++ nl ++ nl ++
       "Subject: " ++ subject ++ nl ++ "From: " ++ sender ++ nl ++
       "Content: " ++ body ++ nl ++ nl ++
       "Provide a 2-3 sentence summary focusing on the main points " ++
       "and any action items.")
      (Some 200).

(** [AIService.compose_reply] *)
Definition compose_reply (s : AIService) (api : OpenAI)
    (original_subject original_body original_sender context : string)
  : Asked (option string) :=
  if negb (is_enabled s) then (None, [])
  else
    let original_body := truncated 2000 original_body in
    _make_openai_request s api
      ("You are an AI assistant that helps compose professional " ++
       "email replies. Write clear, polite, and appropriate " ++ "responses.")
      ("Help me compose a reply to this email:" ++ nl ++ nl ++ "From: " ++
       original_sender ++ nl ++ "Subject: " ++ original_subject ++ nl ++
       "Original message: " ++ original_body ++ nl ++ nl ++
       "Additional context: " ++ context ++ nl ++ nl ++
       "Generate a professional email reply. Include appropriate " ++
       "salutation and closing. Keep it concise but complete.")
      (Some 400).

Definition valid_categories : list string :=
  ["urgent"; "important"; "promotional"; "personal"; "work"; "newsletter";
   "social"; "notification"; "spam"; "other"].

(** [AIService.categorize_email] *)
Definition categorize_email (s : AIService) (api : OpenAI)
    (subject body sender : string) : Asked (option string) :=
  if negb (is_enabled s) then (None, [])
  else
    let body := truncated 1000 body in
    let '(response, calls) :=
      _make_openai_request s api
        ("You are an AI assistant that categorizes emails. Return " ++
         "only one category from: urgent, important, promotional, " ++
         "personal, work, newsletter, social, notification, spam, " ++ "other")
        ("Categorize this email into one of these categories: urgent, " ++
         "important, promotional, personal, work, newsletter, social, " ++
         "notification, spam, other" ++ nl ++ nl ++ "Subject: " ++ subject ++
         nl ++ "From: " ++ sender ++ nl ++ "Content: " ++ body ++ nl ++ nl ++
         "Return only the category name, no additional text.")
        (Some 10) in
    (if truthy_ostr response then
       let response_lower := py_strip (py_lower (get_or "" response)) in
       if str_in response_lower valid_categories then Some response_lower
       else Some "other"
     else Some "other", calls).

(** [improvement_prompts.get(improvement_type,
                             improvement_prompts["general"])] *)
Definition improvement_prompt (improvement_type : string) : string :=
  if (improvement_type =? "general")%string then
    "Improve this email for clarity, professionalism, and effectiveness"
  else if (improvement_type =? "formal")%string then
    "Make this email more formal and professional"
  else if (improvement_type =? "casual")%string then
    "Make this email more casual and friendly"
  else if (improvement_type =? "concise")%string then
    "Make this email more concise while keeping the key information"
  else if (improvement_type =? "grammar")%string then
    "Correct any grammar, spelling, or punctuation errors in this email"
  else "Improve this email for clarity, professionalism, and effectiveness".

(** [AIService.improve_email_draft] *)
Definition improve_email_draft (s : AIService) (api : OpenAI)
    (draft_content improvement_type : string) : Asked (option string) :=
  if negb (is_enabled s) then (None, [])
  else
    let prompt := improvement_prompt improvement_type in
    _make_openai_request s api
      ("You are an AI assistant that helps improve email writing. " ++
       "Provide improved versions that are clear, appropriate, and " ++
       "effective.")
      (prompt ++ ":" ++ nl ++ nl ++ draft_content ++ nl ++ nl ++
       "Return only the improved email content, maintaining the " ++
       "same general structure and intent.")
      (Some 600).

(** [content_prompts.get(content_type, content_prompts["professional"])] *)
Definition content_prompt (content_type : string) : string :=
  if (content_type =? "professional")%string then
    "Write a professional business email"
  else if (content_type =? "followup")%string then
    "Write a polite follow-up email"
  else if (content_type =? "thankyou")%string then
    "Write a thank you email"
  else if (content_type =? "meeting")%string then
    "Write an email to schedule a meeting"
  else "Write a professional business email".

(** [original_email_context]: subject, body and sender of the message
    replied to. *)
Record EmailContext := mkContext {
  ctx_subject : string;
  ctx_body : string;
  ctx_sender : string
}.

(** [AIService.generate_email_content] *)
Definition generate_email_content (s : AIService) (api : OpenAI)
    (content_type : string) (original_email_context : option EmailContext)
  : Asked (option string) :=
  if negb (is_enabled s) then (None, [])
  else
    let base_prompt := content_prompt content_type in
    match original_email_context with
    | Some ctx =>
        let original_subject := ctx_subject ctx in
        let original_body := truncated 1500 (ctx_body ctx) in
        let original_sender := ctx_sender ctx in
        _make_openai_request s api
          ("You are an AI assistant that helps compose contextual email " ++
           "content based on previous correspondence. Write clear, " ++
           "professional, and relevant emails.")
          ("Based on this original email, " ++ base_prompt ++ ":" ++ nl ++
           nl ++ "Original Email:" ++ nl ++ "From: " ++ original_sender ++
           nl ++ "Subject: " ++ original_subject ++ nl ++ "Content: " ++
           original_body ++ nl ++ nl ++
           "Generate appropriate email content that references or " ++
           "responds to the original email context. Include proper " ++
           "salutation and closing.")
          (Some 500)
    | None =>
        _make_openai_request s api
          ("You are an AI assistant that helps compose professional " ++
           "email content. Write clear, polite, and effective emails.")
          (base_prompt ++
           ". Include appropriate salutation and closing. Make it " ++
           "professional but not overly formal.")
          (Some 500)
    end.

(** [AIService.answer_question_about_email] *)
Definition answer_question_about_email (s : AIService) (api : OpenAI)
    (question subject body sender : string) : Asked (option string) :=
  if negb (is_enabled s) then (None, [])
  else
    let body := truncated 2500 body in
    _make_openai_request s api
      ("You are an AI assistant that helps users understand and " ++
       "analyze their emails. Answer questions clearly and " ++
       "accurately based on the email content.")
      ("Based on this email, please answer the following question:" ++ nl ++
       nl ++ "Email Subject: " ++ subject ++ nl ++ "From: " ++ sender ++
       nl ++ "Email Content: " ++ body ++ nl ++ nl ++ "Question: " ++
       question ++ nl ++ nl ++
       "Provide a clear, helpful answer based on the email content.")
      (Some 300).

(** What [json.loads] makes of a text: a list (of type [J], whose elements
    the service does not look at), another JSON value, or a
    [JSONDecodeError]. *)
Inductive JsonParse (J : Type) : Type :=
| JsonList : J -> JsonParse J
| JsonOther : JsonParse J
| JsonDecodeError : JsonParse J.
Arguments JsonList {J} _.
Arguments JsonOther {J}.
Arguments JsonDecodeError {J}.

(** The action items: the parsed JSON list, or the lines picked out of a
    reply that is not JSON. *)
Inductive ActionItems (J : Type) : Type :=
| ItemsJson : J -> ActionItems J
| ItemsLines : list string -> ActionItems J.
Arguments ItemsJson {J} _.
Arguments ItemsLines {J} _.

(** [line[n:]] *)
Fixpoint drop (n : nat) (s : string) : string :=
  match n, s with
  | O, _ => s
  | S n', String _ s' => drop n' s'
  | S _, EmptyString => EmptyString
  end.

(** The prefixes the fallback removes.  The source also lists a bullet
    (code point 8226) followed by a space; no string of code points below
    256 starts with it. *)
Definition item_prefixes : list string :=
  ["- "; "* "; "1. "; "2. "; "3. "; "4. "; "5. "].

(** [for prefix in prefixes: if line.startswith(prefix):
    line = line[len(prefix):]; break] *)
Fixpoint remove_prefix (prefixes : list string) (line : string) : string :=
  match prefixes with
  | [] => line
  | p :: rest =>
      if String.prefix p line then drop (String.length p) line
      else remove_prefix rest line
  end.

(** One turn of the loop over the lines: the item added, if any. *)
Definition item_of_line (line : string) : list string :=
  let line := py_strip line in
  if truthy_str line && negb (String.prefix "[" line)
     && negb (String.prefix "]" line) then
    let line := remove_prefix item_prefixes line in
    if truthy_str line then [line] else []
  else [].

(** The [except json.JSONDecodeError] branch of [extract_action_items]. *)
Definition fallback_items (response : string) : list string :=
  flat_map item_of_line (split_on "010"%char (py_strip response)).

(** [AIService.extract_action_items] *)
Definition extract_action_items {J : Type} (s : AIService) (api : OpenAI)
    (json_loads : string -> JsonParse J) (subject body : string)
  : Asked (option (ActionItems J)) :=
  if negb (is_enabled s) then (None, [])
  else
    let body := truncated 3000 body in
    let '(response, calls) :=
      _make_openai_request s api
        ("You are an AI assistant that identifies action items and " ++
         "tasks from emails. Return only a JSON array of strings.")
        ("Extract any action items, tasks, or things that need to be " ++
         "done from this email:" ++ nl ++ nl ++ "Subject: " ++ subject ++
         nl ++ "Content: " ++ body ++ nl ++ nl ++
         "Return a JSON array of action items. If no action items are " ++
         "found, return an empty array []. Each action item should be " ++
         "a clear, actionable statement.")
        (Some 300) in
    (if truthy_ostr response then
       match json_loads (get_or "" response) with
       | JsonList action_items => Some (ItemsJson action_items)
       | JsonOther => None
       | JsonDecodeError =>
           Some (ItemsLines (fallback_items (get_or "" response)))
       end
     else None, calls).

(** ** The AI endpoints *)

(** What an AI endpoint leaves behind: the response, the payload of a
    success, and the calls made on the API. *)
Record AiOutcome (A : Type) := mkAiOutcome {
  ai_response : Response;
  ai_payload : option A;
  ai_calls : list ChatRequest
}.
Arguments mkAiOutcome {A} _ _ _.
Arguments ai_response {A} _.
Arguments ai_payload {A} _.
Arguments ai_calls {A} _.

(** [Email.query.filter_by(id=email_id, user_id=user.id).first()] with
    [email_id = data.get('email_id')] *)
Definition query_requested (u : Z) (email_id : option Z) (rows : list Email)
  : option Email :=
  match email_id with
  | Some i => query_by_id u i rows
  | None => None
  end.

(** [email.body_text or email.body_full or ""] *)
Definition body_for_ai (email : Email) : string :=
  if truthy_str (body_text email) then body_text email else body_full email.

(** [POST /api/ai/summarize] *)
Definition ai_summarize_email (s : AIService) (api : OpenAI) (user : User)
    (email_id : option Z) (db : Db) : AiOutcome string :=
  if negb (is_enabled s) then mkAiOutcome (jsonify error 503) None []
  else
    match query_requested (uid_of_user user) email_id (emails db) with
    | None => mkAiOutcome (jsonify error 404) None []
    | Some email =>
        let '(summary, calls) :=
          summarize_email s api (subject email) (body_for_ai email)
                          (sender email) in
        if truthy_ostr summary
        then mkAiOutcome (jsonify success 200) summary calls
        else mkAiOutcome (jsonify error 500) None calls
    end.

(** [POST /api/ai/action-items]; a missing result is answered as the empty
    list. *)
Definition ai_extract_action_items {J : Type} (s : AIService) (api : OpenAI)
    (json_loads : string -> JsonParse J) (user : User)
    (email_id : option Z) (db : Db) : AiOutcome (ActionItems J) :=
  if negb (is_enabled s) then mkAiOutcome (jsonify error 503) None []
  else
    match query_requested (uid_of_user user) email_id (emails db) with
    | None => mkAiOutcome (jsonify error 404) None []
    | Some email =>
        let '(action_items, calls) :=
          extract_action_items s api json_loads (subject email)
                               (body_for_ai email) in
        mkAiOutcome (jsonify success 200)
                    (Some (match action_items with
                           | Some items => items
                           | None => ItemsLines []
                           end))
                    calls
    end.

(** [POST /api/ai/compose-reply] *)
Definition ai_compose_reply (s : AIService) (api : OpenAI) (user : User)
    (email_id : option Z) (context : option string) (db : Db)
  : AiOutcome string :=
  if negb (is_enabled s) then mkAiOutcome (jsonify error 503) None []
  else
    match query_requested (uid_of_user user) email_id (emails db) with
    | None => mkAiOutcome (jsonify error 404) None []
    | Some email =>
        let '(reply, calls) :=
          compose_reply s api (subject email) (body_for_ai email)
                        (sender email) (get_or "" context) in
        if truthy_ostr reply
        then mkAiOutcome (jsonify success 200) reply calls
        else mkAiOutcome (jsonify error 500) None calls
    end.

(** [POST /api/ai/categorize] *)
Definition ai_categorize_email (s : AIService) (api : OpenAI) (user : User)
    (email_id : option Z) (db : Db) : AiOutcome string :=
  if negb (is_enabled s) then mkAiOutcome (jsonify error 503) None []
  else
    match query_requested (uid_of_user user) email_id (emails db) with
    | None => mkAiOutcome (jsonify error 404) None []
    | Some email =>
        let '(category, calls) :=
          categorize_email s api (subject email) (body_for_ai email)
                           (sender email) in
        mkAiOutcome (jsonify success 200) category calls
    end.

(** [POST /api/ai/improve-draft] *)
Definition ai_improve_draft (s : AIService) (api : OpenAI)
    (content improvement_type : option string) : AiOutcome string :=
  if negb (is_enabled s) then mkAiOutcome (jsonify error 503) None []
  else
    let draft_content := get_or "" content in
    let improvement_type := get_or "general" improvement_type in
    if negb (truthy_str draft_content)
    then mkAiOutcome (jsonify error 400) None []
    else
      let '(improved_content, calls) :=
        improve_email_draft s api draft_content improvement_type in
      if truthy_ostr improved_content
      then mkAiOutcome (jsonify success 200) improved_content calls
      else mkAiOutcome (jsonify error 500) None calls.

(** [POST /api/ai/generate-content] *)
Definition ai_generate_content (s : AIService) (api : OpenAI) (user : User)
    (content_type : option string) (email_id : option Z) (db : Db)
  : AiOutcome string :=
  if negb (is_enabled s) then mkAiOutcome (jsonify error 503) None []
  else
    let content_type := get_or "professional" content_type in
    let original_email_context :=
      if truthy_oint email_id then
        match query_requested (uid_of_user user) email_id (emails db) with
        | Some email =>
            Some (mkContext (subject email) (body_for_ai email)
                            (sender email))
        | None => None
        end
      else None in
    let '(generated_content, calls) :=
      generate_email_content s api content_type original_email_context in
    if truthy_ostr generated_content
    then mkAiOutcome (jsonify success 200) generated_content calls
    else mkAiOutcome (jsonify error 500) None calls.

(** [POST /api/ai/ask] *)
Definition ai_ask_about_email (s : AIService) (api : OpenAI) (user : User)
    (email_id : option Z) (question : option string) (db : Db)
  : AiOutcome string :=
  if negb (is_enabled s) then mkAiOutcome (jsonify error 503) None []
  else
    let question := get_or "" question in
    if negb (truthy_str question)
    then mkAiOutcome (jsonify error 400) None []
    else
      match query_requested (uid_of_user user) email_id (emails db) with
      | None => mkAiOutcome (jsonify error 404) None []
      | Some email =>
          let '(answer, calls) :=
            answer_question_about_email s api question (subject email)
                                        (body_for_ai email) (sender email) in
          if truthy_ostr answer
          then mkAiOutcome (jsonify success 200) answer calls
          else mkAiOutcome (jsonify error 500) None calls
      end.

(** An action item as a reply lists it after a dash: not empty, on one
    line, no white space around it. *)
Definition plain_item (x : string) : Prop :=
  x <> "" /\ ~ In "010"%char (list_ascii_of_string x) /\ py_strip x = x.

(** * The mutation endpoints, taken together *)

(** One call of a mutation endpoint, with what the request carries. *)
Inductive MutationCall : Type :=
  | DeleteCall (i : Z) (permanent : bool)
  | ArchiveCall (i : Z)
  | RestoreCall (i : Z)
  | BulkCall (email_ids : list Z) (action : option string).

Definition run_mutation (srv : Server) (user : User) (c : MutationCall)
    (db : Db) : Outcome :=
  match c with
  | DeleteCall i permanent => delete_email srv user i permanent db
  | ArchiveCall i => archive_email srv user i db
  | RestoreCall i => restore_email srv user i db
  | BulkCall email_ids action => bulk_email_action srv user email_ids action db
  end.

(** The keys a call names. *)
Definition named_ids (c : MutationCall) : list Z :=
  match c with
  | DeleteCall i _ | ArchiveCall i | RestoreCall i => [i]
  | BulkCall email_ids _ => email_ids
  end.

(** The rows a call addresses: those of the caller whose key it names. *)
Definition addressed (user : User) (c : MutationCall) (e : Email) : bool :=
  selected_by (uid_of_user user) (named_ids c) e.

(** The key of [e] is none of [ids]. *)
Definition off (ids : list Z) (e : Email) : bool :=
  negb (existsb (Z.eqb (email_id e)) ids).

(** What a request that works on the rows keyed [ids] of account [u] keeps
    of the database it started from: the other rows, in the session and in
    the database, and the key sequence; what it deletes is in [ids]. *)
Definition frame_kept (u : Z) (ids : list Z) (db : Db) (st : State) : Prop :=
  filter (off ids) (st_rows st) = filter (off ids) (emails db) /\
  filter (off ids) (st_committed st) = filter (off ids) (emails db) /\
  (forall j, In j (st_deleted st) -> In j ids) /\
  (forall e, In e (st_rows st) -> off ids e = false -> user_id e = u) /\
  (forall e, In e (st_committed st) -> off ids e = false -> user_id e = u) /\
  st_next_id st = next_id db.

(** A database of two accounts. *)
Definition shared_db : Db :=
  mkDb [sample_row 1 "inbox" (Some 5); foreign_row;
        sample_row 2 "trash" (Some 6); sample_row 3 "sent" None] 10 true.

(** * The email analyzer *)

From Stdlib Require PrimFloat.

Module Analyzer.

Import PrimFloat.

(** The five scores, double-precision floats as in Python. *)
Record Scores := mkScores {
  design_score : float;
  complexity_score : float;
  table_score : float;
  styling_score : float;
  content_structure_score : float
}.

(** [EmailAnalyzer._determine_email_type]; [x >= y] is [y <=? x]. *)
Definition _determine_email_type (sc : Scores) : string :=
  let total_score :=
    (design_score sc + complexity_score sc + table_score sc
     + styling_score sc + content_structure_score sc)%float in
  if (3.0 <=? design_score sc)%float || (3.0 <=? table_score sc)%float
     || (3.0 <=? styling_score sc)%float then
    if (10.0 <=? total_score)%float then "newsletter" else "designed"
  else if (2.0 <=? complexity_score sc)%float
          || (5.0 <=? total_score)%float then "rich_html"
  else if (total_score <=? 2.0)%float then "simple_html"
  else "plain_text".

(** The [recommendations] dictionary; the result for a text email has no
    [max_width] and no [force_responsive]. *)
Record Recommendations := mkRecommendations {
  alignment : string;
  preserve_layout : bool;
  apply_restrictions : bool;
  max_width : option string;
  force_responsive : option bool
}.

(** [EmailAnalyzer._generate_recommendations] *)
Definition _generate_recommendations (email_type : string)
  : Recommendations :=
  if str_in email_type ["newsletter"; "designed"] then
    mkRecommendations "preserve" true false (Some "none") (Some false)
  else if (email_type =? "rich_html")%string then
    mkRecommendations "preserve" true false (Some "800px") (Some true)
  else
    mkRecommendations "left" false true (Some "100%") (Some true).

(** What [analyze_email] returns. *)
Record Analysis := mkAnalysis {
  email_type : string;
  scores : Scores;
  recommendations : Recommendations;
  should_preserve_layout : bool;
  should_force_left_align : bool;
  cleaned_html : option string
}.

(** [EmailAnalyzer._text_email_result] *)
Definition _text_email_result : Analysis :=
  mkAnalysis "plain_text" (mkScores 0 0 0 0 0)
             (mkRecommendations "left" false true None None)
             false true None.

(** [EmailAnalyzer._clean_html_if_needed]; [cleaned] is [str(soup)] after
    the alignment edits. *)
Definition _clean_html_if_needed (cleaned : string) (email_type : string)
  : option string :=
  if negb (str_in email_type ["simple_html"; "plain_text"]) then None
  else Some cleaned.

(** [EmailAnalyzer.analyze_email]; what BeautifulSoup makes of the HTML is
    given: [scores_of] are the five scores computed from the parsed
    document, [clean] the document printed after the alignment edits. *)
Definition analyze_email (scores_of : string -> Scores)
    (clean : string -> string) (html_content : string) : Analysis :=
  if negb (truthy_str html_content)
     || (py_strip html_content =? "")%string then
    _text_email_result
  else
    let sc := scores_of html_content in
    let email_type := _determine_email_type sc in
    mkAnalysis email_type sc (_generate_recommendations email_type)
               (str_in email_type ["designed"; "newsletter"; "marketing"])
               (str_in email_type ["plain_text"; "simple_html"])
               (_clean_html_if_needed (clean html_content) email_type).

End Analyzer.
(** * Reasoning about handlers *)


Lemma wp_ret {A} (a : A) Q st : Q (Replies a) st -> wp (ret a) Q st.
Proof. exact (fun H => H). Qed.

Lemma wp_raise {A} (Q : Reply A -> State -> Prop) st :
  Q Raises st -> wp raise Q st.
Proof. exact (fun H => H). Qed.

Lemma wp_bind {A B} (m : M A) (k : A -> M B) Q st :
  wp m (fun r st' =>
          match r with
          | Raises => Q Raises st'
          | Replies a => wp (k a) Q st'
          end) st ->
  wp (bind m k) Q st.
Proof.
  unfold wp, bind. destruct (m st) as [[|a] st']; simpl; auto.
Qed.

Lemma wp_try {A} (m h : M A) Q st :
  wp m (fun r st' =>
          match r with
          | Raises => wp h Q st'
          | Replies a => Q (Replies a) st'
          end) st ->
  wp (try_catch m h) Q st.
Proof.
  unfold wp, try_catch. destruct (m st) as [[|a] st']; simpl; auto.
Qed.

Lemma wp_modify f Q st : Q (Replies tt) (f st) -> wp (modify f) Q st.
Proof. exact (fun H => H). Qed.

Lemma wp_get_state Q st : Q (Replies st) st -> wp get_state Q st.
Proof. exact (fun H => H). Qed.

Lemma wp_of_reply {A} (r : Reply A) Q st : Q r st -> wp (of_reply r) Q st.
Proof. exact (fun H => H). Qed.

Lemma wp_conseq {A} (m : M A) (Q Q' : Reply A -> State -> Prop) st :
  wp m Q st -> (forall r st', Q r st' -> Q' r st') -> wp m Q' st.
Proof. unfold wp. auto. Qed.

Lemma wp_run {A} (m : M A) Q st r st' :
  m st = (r, st') -> wp m Q st -> Q r st'.
Proof. unfold wp. intros ->. auto. Qed.

(** A handler's outcome from a [wp] fact about its body. *)
Lemma handle_wp db body (P : Outcome -> Prop) :
  wp body (fun r st =>
             match r with
             | Replies resp => P (end_request db resp st)
             | Raises => P (end_request db (jsonify error 500) st)
             end) (begin_request db) ->
  P (handle db body).
Proof.
  unfold wp, handle. destruct (body (begin_request db)) as [[|a] st]; auto.
Qed.

Ltac state_simpl :=
  cbn [set_log set_selected set_rows set_deleted set_committed set_next_id
       set_imap_success set_imap_success_count
       st_selected st_log st_rows st_deleted st_committed st_next_id
       st_imap_success st_imap_success_count begin_request end_request
       response db_after trace emails next_id desc_nulls_first
       status code count new_emails imap_success local_success
       imap_success_total jsonify mutation_response] in *.

(** One step of symbolic execution. *)
Ltac wp_step :=
  lazymatch goal with
  | |- wp (bind _ _) _ _ => apply wp_bind
  | |- wp (ret _) _ _ => apply wp_ret
  | |- wp raise _ _ => apply wp_raise
  | |- wp (try_catch _ _) _ _ => apply wp_try
  | |- wp (modify _) _ _ => apply wp_modify
  | |- wp get_state _ _ => apply wp_get_state
  | |- wp (of_reply ?r) _ _ => apply wp_of_reply; destruct r eqn:?
  | |- wp (returns_or_raises ?b) _ _ =>
      unfold returns_or_raises; destruct b eqn:?
  | |- wp (issue _) _ _ => unfold issue
  | |- wp (imap_login _) _ _ => unfold imap_login
  | |- wp imap_list _ _ => unfold imap_list
  | |- wp (imap_select _ _ _) _ _ => unfold imap_select
  | |- wp (imap_search _ _) _ _ => unfold imap_search
  | |- wp (imap_fetch _ _) _ _ => unfold imap_fetch
  | |- wp (imap_copy _ _ _) _ _ => unfold imap_copy
  | |- wp (imap_store_deleted _ _) _ _ => unfold imap_store_deleted
  | |- wp (imap_expunge _) _ _ => unfold imap_expunge
  | |- wp (imap_logout _) _ _ => unfold imap_logout
  | |- wp (set_folder _ _) _ _ => unfold set_folder
  | |- wp (session_delete _) _ _ => unfold session_delete
  | |- wp session_commit _ _ => unfold session_commit
  | |- wp (session_add _) _ _ => unfold session_add
  | |- wp mark_imap_success _ _ => unfold mark_imap_success
  | |- wp count_imap_success _ _ => unfold count_imap_success
  | |- wp (if ?b then _ else _) _ _ => destruct b eqn:?
  | |- wp (match ?x with _ => _ end) _ _ => destruct x eqn:?
  end; state_simpl.

Ltac wp_run := repeat wp_step.

(** ** Invariants kept by a computation *)

Lemma preserves_ret {A} I (a : A) : preserves I (ret a).
Proof. intros st H. exact H. Qed.

Lemma preserves_raise {A} I : preserves I (@raise A).
Proof. intros st H. exact H. Qed.

Lemma preserves_get_state I : preserves I get_state.
Proof. intros st H. exact H. Qed.

Lemma preserves_of_reply {A} I (r : Reply A) : preserves I (of_reply r).
Proof. intros st H. exact H. Qed.

Lemma preserves_modify I f :
  (forall st, I st -> I (f st)) -> preserves I (modify f).
Proof. intros Hf st H. apply Hf, H. Qed.

Lemma preserves_bind {A B} I (m : M A) (k : A -> M B) :
  preserves I m -> (forall a, preserves I (k a)) -> preserves I (bind m k).
Proof.
  intros Hm Hk st H. unfold bind. specialize (Hm st H).
  destruct (m st) as [[|a] st']; simpl in *; [exact Hm|].
  apply Hk, Hm.
Qed.

Lemma preserves_try {A} I (m h : M A) :
  preserves I m -> preserves I h -> preserves I (try_catch m h).
Proof.
  intros Hm Hh st H. unfold try_catch. specialize (Hm st H).
  destruct (m st) as [[|a] st']; simpl in *; [|exact Hm].
  apply Hh, Hm.
Qed.

Lemma wp_preserves {A} I (m : M A) (Q : Reply A -> State -> Prop) st :
  preserves I m -> I st -> (forall r st', I st' -> Q r st') -> wp m Q st.
Proof. intros Hm H HQ. apply HQ, Hm, H. Qed.

(** Structural proof that a computation keeps an invariant; [tac] settles
    the state updates and the calls of recursive functions. *)
Ltac preserves_with tac :=
  repeat lazymatch goal with
    | |- forall _, _ => intro
    | |- preserves _ (bind _ _) => apply preserves_bind
    | |- preserves _ (try_catch _ _) => apply preserves_try
    | |- preserves _ (ret _) => apply preserves_ret
    | |- preserves _ raise => apply preserves_raise
    | |- preserves _ get_state => apply preserves_get_state
    | |- preserves _ (of_reply _) => apply preserves_of_reply
    | |- preserves _ (returns_or_raises ?b) =>
        unfold returns_or_raises; destruct b
    | |- preserves _ (issue _) => unfold issue
    | |- preserves _ (imap_login _) => unfold imap_login
    | |- preserves _ imap_list => unfold imap_list
    | |- preserves _ (imap_select _ _ _) => unfold imap_select
    | |- preserves _ (imap_search _ _) => unfold imap_search
    | |- preserves _ (imap_fetch _ _) => unfold imap_fetch
    | |- preserves _ (imap_copy _ _ _) => unfold imap_copy
    | |- preserves _ (imap_store_deleted _ _) => unfold imap_store_deleted
    | |- preserves _ (imap_expunge _) => unfold imap_expunge
    | |- preserves _ (imap_logout _) => unfold imap_logout
    | |- preserves _ mark_imap_success => unfold mark_imap_success
    | |- preserves _ count_imap_success => unfold count_imap_success
    | |- preserves _ (get_email _) => unfold get_email
    | |- preserves _ (session_add _) => unfold session_add
    | |- preserves _ session_commit => unfold session_commit
    | |- preserves _ (set_folder _ _) => unfold set_folder
    | |- preserves _ (session_delete _) => unfold session_delete
    | |- preserves _ (select_or_inbox _ _ _) => unfold select_or_inbox
    | |- preserves _ (if ?b then _ else _) => destruct b
    | |- preserves _ (match ?x with _ => _ end) => destruct x
    | |- preserves _ (modify _) => apply preserves_modify; tac
    | |- _ => tac
    end.

Ltac same_db_update :=
  try (unfold same_db; intros; state_simpl; intuition congruence).

Lemma same_db_refl st : same_db st st.
Proof. unfold same_db. auto. Qed.

Lemma probe_same_db st0 srv ro cands :
  preserves (same_db st0) (probe srv ro cands).
Proof.
  induction cands as [|f rest IH]; simpl; preserves_with same_db_update.
Qed.

Lemma select_current_folder_same_db st0 srv fld :
  preserves (same_db st0) (select_current_folder srv fld).
Proof.
  unfold select_current_folder.
  preserves_with ltac:(first [apply probe_same_db | same_db_update]).
Qed.

(** ** Queries *)

Lemma query_by_id_spec u i rows e :
  query_by_id u i rows = Some e ->
  In e rows /\ email_id e = i /\ user_id e = u.
Proof.
  unfold query_by_id. intros H. apply find_some in H. destruct H as [H1 H2].
  apply andb_prop in H2. destruct H2 as [H2 H3].
  apply Z.eqb_eq in H2, H3. auto.
Qed.

(** With a primary key, the object loaded by [filter_by(id, user_id)] is the
    row with that key. *)
Lemma find_by_id_unique u i rows e :
  NoDup (map email_id rows) ->
  query_by_id u i rows = Some e ->
  find (fun e' => email_id e' =? i) rows = Some e.
Proof.
  induction rows as [|a r IH]; simpl; intros ND H; [discriminate|].
  inversion ND as [|? ? Hnin ND']; subst.
  destruct (email_id a =? i) eqn:Ei; simpl in H.
  - destruct (user_id a =? u) eqn:Eu; [exact H|].
    exfalso. apply Hnin. apply query_by_id_spec in H.
    destruct H as (Hin & Hid & _). apply Z.eqb_eq in Ei.
    rewrite Ei, <- Hid. now apply in_map.
  - auto.
Qed.

Lemma wp_get_email i e Q st :
  find (fun e' => email_id e' =? i) (st_rows st) = Some e ->
  Q (Replies e) st ->
  wp (get_email i) Q st.
Proof.
  intros Hf HQ. unfold get_email. apply wp_bind, wp_get_state.
  rewrite Hf. exact HQ.
Qed.

Lemma with_folder_same e : with_folder (folder e) e = e.
Proof. destruct e; reflexivity. Qed.

Lemma find_update_row i f rows :
  (forall e, email_id (f e) = email_id e) ->
  find (fun e => email_id e =? i) (update_row i f rows)
  = option_map f (find (fun e => email_id e =? i) rows).
Proof.
  intros Hf. induction rows as [|a r IH]; simpl; [reflexivity|].
  destruct (email_id a =? i) eqn:E.
  - rewrite Hf, E. reflexivity.
  - rewrite E. exact IH.
Qed.

Lemma filter_not_deleted_nil rows :
  filter (fun e => negb (is_deleted [] e)) rows = rows.
Proof.
  induction rows as [|a r IH]; [reflexivity|].
  cbn [filter is_deleted existsb negb]. f_equal. exact IH.
Qed.

Lemma filter_update_row_other i f (p : Email -> bool) rows :
  (forall e, email_id (f e) = email_id e) ->
  (forall e, p e = negb (email_id e =? i)) ->
  filter p (update_row i f rows) = filter p rows.
Proof.
  intros Hf Hp. induction rows as [|a r IH]; simpl; [reflexivity|].
  destruct (email_id a =? i) eqn:E.
  - rewrite !Hp, Hf, E. simpl. exact IH.
  - rewrite IH. reflexivity.
Qed.

(** * restore_email *)

(** C9. A restore of a message whose local folder is not [trash] is
    answered with an error (HTTP 400) before any connection or IMAP command
    is attempted: the command trace is empty and the database is left as it
    was. *)
Theorem restore_outside_trash_rejected srv user i db e :
  query_by_id (uid_of_user user) i (emails db) = Some e ->
  folder e <> "trash" ->
  let o := restore_email srv user i db in
  status (response o) = error /\ code (response o) = 400 /\
  trace o = [] /\ db_after o = db.
Proof.
  intros Hq Hf. unfold restore_email. rewrite Hq.
  destruct (String.eqb_spec (folder e) "trash") as [E|E]; [contradiction|].
  simpl. auto.
Qed.

Lemma restore_outside_trash_rejected_witness :
  let o := restore_email (accepting_server []) sample_user 1 sample_db in
  status (response o) = error /\ code (response o) = 400 /\
  trace o = [] /\ db_after o = sample_db.
Proof.
  apply (restore_outside_trash_rejected (accepting_server []) sample_user 1
           sample_db (sample_row 1 "inbox" (Some 5))).
  - reflexivity.
  - simpl. discriminate.
Defined.

(** * delete_email *)

Lemma filter_deleted_only i d rows :
  d <> [] -> Forall (eq i) d ->
  filter (fun e => negb (is_deleted d e)) rows
  = filter (fun e => negb (email_id e =? i)) rows.
Proof.
  intros Hne Hall. apply filter_ext. intros a. f_equal.
  unfold is_deleted. destruct d as [|j d']; [contradiction|].
  inversion Hall as [|? ? Hj Hd']; subst.
  simpl. destruct (email_id a =? j) eqn:E; [reflexivity|]. simpl.
  clear Hne Hall. induction Hd' as [|k d'' Hk _ IH]; [reflexivity|].
  subst. simpl. rewrite E. exact IH.
Qed.

Lemma existsb_is_copy_app l c :
  existsb is_copy (l ++ [c]) = existsb is_copy l || is_copy c.
Proof. rewrite existsb_app. simpl. now rewrite orb_false_r. Qed.

Ltac wp_get_email_step :=
  lazymatch goal with
  | |- wp (get_email _) _ _ =>
      eapply wp_get_email; [state_simpl; eassumption|]
  | _ => wp_step
  end.

Lemma delete_trashed_body srv i e st :
  find (fun e' => email_id e' =? i) (st_rows st) = Some e ->
  folder e = "trash" ->
  st_deleted st = [] ->
  existsb is_copy (st_log st) = false ->
  wp (try_catch (delete_on_server srv i false) (delete_locally i false))
     (fun r st' =>
        r = Replies tt /\ st_rows st' = st_rows st /\
        st_committed st' = st_committed st /\
        st_next_id st' = st_next_id st /\
        st_deleted st' <> [] /\ Forall (eq i) (st_deleted st') /\
        existsb is_copy (st_log st') = false)
     st.
Proof.
  intros Hf Ht Hd Hl.
  unfold delete_on_server, delete_locally, select_current_folder,
    select_or_inbox.
  repeat (wp_get_email_step; rewrite ?Ht;
          cbn [String.eqb Ascii.eqb Bool.eqb orb andb folder_mapping]);
    rewrite ?Hd; repeat split; try discriminate; try (repeat constructor);
    rewrite ?existsb_is_copy_app, ?Hl; reflexivity.
Qed.

(** What a cooperating server sees when a trashed message is deleted. *)
Lemma delete_trashed_trace srv user i db e uid :
  NoDup (map email_id (emails db)) ->
  query_by_id (uid_of_user user) i (emails db) = Some e ->
  folder e = "trash" ->
  imap_available user = true ->
  imap_uid e = Some uid -> uid <> 0 ->
  srv_login srv = true ->
  srv_select srv "Trash" false = Replies true ->
  srv_store srv (Some "Trash") uid = true ->
  srv_expunge srv (Some "Trash") = true ->
  srv_logout srv = true ->
  trace (delete_email srv user i false db)
  = [CLogin; CSelect "Trash" false; CStoreDeleted uid; CExpunge; CLogout].
Proof.
  intros ND Hq Ht Hav Hu Hnz Hlogin Hsel Hstore Hexp Hlogout.
  pose proof (find_by_id_unique _ _ _ _ ND Hq) as Hf.
  unfold delete_email. rewrite Hq, Hav. cbn [negb].
  apply handle_wp.
  unfold delete_on_server, delete_locally, select_current_folder,
    select_or_inbox.
  assert (Htr : truthy_oint (imap_uid e) = true).
  { rewrite Hu. simpl. now apply negb_true_iff, Z.eqb_neq. }
  repeat (wp_get_email_step; rewrite ?Ht, ?Hu in *;
          cbn [String.eqb Ascii.eqb Bool.eqb orb andb folder_mapping] in *);
    try congruence; reflexivity.
Qed.

(** The same on a server that does not accept the mailbox [Trash]: the
    handler falls back to [INBOX] and flags and expunges there. *)
Lemma delete_trashed_trace_inbox srv user i db e uid :
  NoDup (map email_id (emails db)) ->
  query_by_id (uid_of_user user) i (emails db) = Some e ->
  folder e = "trash" ->
  imap_available user = true ->
  imap_uid e = Some uid -> uid <> 0 ->
  srv_login srv = true ->
  srv_select srv "Trash" false <> Replies true ->
  (exists ok, srv_select srv "INBOX" false = Replies ok) ->
  srv_store srv (Some "INBOX") uid = true ->
  srv_expunge srv (Some "INBOX") = true ->
  srv_logout srv = true ->
  trace (delete_email srv user i false db)
  = [CLogin; CSelect "Trash" false; CSelect "INBOX" false;
     CStoreDeleted uid; CExpunge; CLogout].
Proof.
  intros ND Hq Ht Hav Hu Hnz Hlogin Hsel (ok & Hinbox) Hstore Hexp Hlogout.
  pose proof (find_by_id_unique _ _ _ _ ND Hq) as Hf.
  unfold delete_email. rewrite Hq, Hav. cbn [negb].
  apply handle_wp.
  unfold delete_on_server, delete_locally, select_current_folder,
    select_or_inbox.
  assert (Htr : truthy_oint (imap_uid e) = true).
  { rewrite Hu. simpl. now apply negb_true_iff, Z.eqb_neq. }
  repeat (wp_get_email_step; rewrite ?Ht, ?Hu in *;
          cbn [String.eqb Ascii.eqb Bool.eqb orb andb folder_mapping] in *);
    try congruence; reflexivity.
Qed.

(** C7 (as the code has it). For every message whose local folder is
    [trash], a delete with [permanent=false] removes the local record (the
    other rows are untouched) and never issues a copy, whatever the server
    answers.  On a server that accepts the commands the remote side is
    exactly: select the mailbox [Trash], flag the message deleted, expunge;
    and when the server does not accept [Trash], the handler selects
    [INBOX] instead and flags and expunges there. *)
Theorem delete_trashed_removes_record srv user i db e :
  NoDup (map email_id (emails db)) ->
  query_by_id (uid_of_user user) i (emails db) = Some e ->
  folder e = "trash" ->
  let o := delete_email srv user i false db in
  emails (db_after o)
  = filter (fun e' => negb (email_id e' =? i)) (emails db) /\
  existsb is_copy (trace o) = false /\
  (forall uid,
      imap_available user = true ->
      imap_uid e = Some uid -> uid <> 0 ->
      srv_login srv = true ->
      srv_select srv "Trash" false = Replies true ->
      srv_store srv (Some "Trash") uid = true ->
      srv_expunge srv (Some "Trash") = true ->
      srv_logout srv = true ->
      trace o = [CLogin; CSelect "Trash" false; CStoreDeleted uid;
                 CExpunge; CLogout]) /\
  (forall uid,
      imap_available user = true ->
      imap_uid e = Some uid -> uid <> 0 ->
      srv_login srv = true ->
      srv_select srv "Trash" false <> Replies true ->
      (exists ok, srv_select srv "INBOX" false = Replies ok) ->
      srv_store srv (Some "INBOX") uid = true ->
      srv_expunge srv (Some "INBOX") = true ->
      srv_logout srv = true ->
      trace o = [CLogin; CSelect "Trash" false; CSelect "INBOX" false;
                 CStoreDeleted uid; CExpunge; CLogout]).
Proof.
  intros ND Hq Ht o.
  pose proof (find_by_id_unique _ _ _ _ ND Hq) as Hf.
  split; [|split; [|split]].
  3: { intros uid Hav Hu Hnz H1 H2 H3 H4 H5.
       now apply (delete_trashed_trace srv user i db e uid). }
  3: { intros uid Hav Hu Hnz H1 H2 H3 H4 H5 H6.
       now apply (delete_trashed_trace_inbox srv user i db e uid). }
  all: subst o; unfold delete_email; rewrite Hq;
    destruct (imap_available user); cbn [negb]; apply handle_wp.
  all: try (apply wp_bind; eapply wp_conseq;
            [apply (delete_trashed_body srv i e); state_simpl; auto|];
            cbv beta; intros r st' (-> & Hr & Hc & Hn & Hne & Hall & Hlog);
            wp_run; rewrite ?Hr; state_simpl;
            auto using filter_deleted_only).
  all: unfold delete_locally;
    repeat (wp_get_email_step; rewrite ?Ht;
            cbn [String.eqb Ascii.eqb Bool.eqb orb andb]).
  - apply filter_deleted_only; [discriminate | repeat constructor].
  - reflexivity.
Qed.

Lemma delete_trashed_removes_record_witness :
  let srv := inbox_only_server [] in
  let e := sample_row 2 "trash" (Some 6) in
  let o := delete_email srv sample_user 2 false sample_db in
  emails (db_after o)
  = filter (fun e' => negb (email_id e' =? 2)) (emails sample_db) /\
  existsb is_copy (trace o) = false /\
  (forall uid,
      imap_available sample_user = true ->
      imap_uid e = Some uid -> uid <> 0 ->
      srv_login srv = true ->
      srv_select srv "Trash" false = Replies true ->
      srv_store srv (Some "Trash") uid = true ->
      srv_expunge srv (Some "Trash") = true ->
      srv_logout srv = true ->
      trace o = [CLogin; CSelect "Trash" false; CStoreDeleted uid;
                 CExpunge; CLogout]) /\
  (forall uid,
      imap_available sample_user = true ->
      imap_uid e = Some uid -> uid <> 0 ->
      srv_login srv = true ->
      srv_select srv "Trash" false <> Replies true ->
      (exists ok, srv_select srv "INBOX" false = Replies ok) ->
      srv_store srv (Some "INBOX") uid = true ->
      srv_expunge srv (Some "INBOX") = true ->
      srv_logout srv = true ->
      trace o = [CLogin; CSelect "Trash" false; CSelect "INBOX" false;
                 CStoreDeleted uid; CExpunge; CLogout]).
Proof.
  apply (delete_trashed_removes_record (inbox_only_server []) sample_user
           2 sample_db (sample_row 2 "trash" (Some 6))).
  - simpl. repeat constructor; simpl; intuition discriminate.
  - reflexivity.
  - reflexivity.
Defined.

(** C7 as stated fails: after deleting the trashed message 2 with
    [permanent=false] no row with that key is left, so the record is not
    "in place with folder trash". *)
Lemma delete_trashed_keeps_record_counterexample :
  let o := delete_email (accepting_server []) sample_user 2 false sample_db in
  query_by_id 1 2 (emails sample_db) = Some (sample_row 2 "trash" (Some 6)) /\
  ~ (exists e, In e (emails (db_after o)) /\ email_id e = 2
               /\ folder e = "trash").
Proof.
  assert (E : emails (db_after (delete_email (accepting_server [])
                                  sample_user 2 false sample_db))
              = [sample_row 1 "inbox" (Some 5); sample_row 3 "sent" None])
    by (vm_compute; reflexivity).
  split; [vm_compute; reflexivity|].
  cbv zeta. rewrite E. intros (e & Hin & Hid & _).
  destruct Hin as [<-|[<-|[]]]; discriminate Hid.
Qed.

(** * The single-message mutations commit their local change *)

Lemma wp_try_unit I (m : M unit) (Q : Reply unit -> State -> Prop) st :
  preserves I m -> I st ->
  (forall st', I st' -> Q (Replies tt) st') ->
  wp (try_catch m (ret tt)) Q st.
Proof.
  intros Hm H HQ. unfold wp, try_catch. specialize (Hm st H).
  destruct (m st) as [[|[]] st']; simpl in *; auto.
Qed.

Lemma restore_on_server_same_db st0 srv i :
  preserves (same_db st0) (restore_on_server srv i).
Proof.
  unfold restore_on_server.
  preserves_with ltac:(first [apply probe_same_db | same_db_update]).
Qed.

Lemma archive_on_server_same_db st0 srv user i :
  preserves (same_db st0) (archive_on_server srv user i).
Proof.
  unfold archive_on_server.
  preserves_with
    ltac:(first [apply probe_same_db | apply select_current_folder_same_db
                | same_db_update]).
Qed.

(** Skip a block that keeps the database; the state after it is the
    current one up to the connection and the flags. *)
Ltac wp_frame lem :=
  eapply wp_preserves; [apply lem | apply same_db_refl |];
  let r := fresh "r" in
  let st' := fresh "st" in
  let H := fresh "H" in
  intros r st' H; destruct st'; unfold same_db in H; state_simpl;
  destruct H as (? & ? & ? & ?); subst; destruct r; state_simpl.

Ltac wp_email Hf :=
  eapply wp_get_email;
  [state_simpl; rewrite ?find_update_row by reflexivity; rewrite Hf;
   reflexivity|];
  cbn [option_map with_folder folder imap_uid email_id].

Lemma delete_locally_spec i permanent e st :
  find (fun e' => email_id e' =? i) (st_rows st) = Some e ->
  forall Q : Reply unit -> State -> Prop,
  (if permanent || (folder e =? "trash")%string
   then Q (Replies tt) (set_deleted (i :: st_deleted st) st)
   else Q (Replies tt)
          (set_rows (update_row i (with_folder "trash") (st_rows st)) st)) ->
  wp (delete_locally i permanent) Q st.
Proof.
  intros Hf Q HQ. unfold delete_locally. apply wp_bind.
  eapply wp_get_email; [exact Hf|].
  destruct (permanent || (folder e =? "trash")%string); wp_run; exact HQ.
Qed.

Lemma imap_login_same_db st0 srv : preserves (same_db st0) (imap_login srv).
Proof. preserves_with same_db_update. Qed.

Lemma imap_logout_same_db st0 srv :
  preserves (same_db st0) (imap_logout srv).
Proof. preserves_with same_db_update. Qed.

Lemma imap_select_same_db st0 srv f ro :
  preserves (same_db st0) (imap_select srv f ro).
Proof. preserves_with same_db_update. Qed.

Lemma imap_store_same_db st0 srv uid :
  preserves (same_db st0) (imap_store_deleted srv uid).
Proof. preserves_with same_db_update. Qed.

Lemma imap_expunge_same_db st0 srv :
  preserves (same_db st0) (imap_expunge srv).
Proof. preserves_with same_db_update. Qed.

Lemma imap_copy_same_db st0 srv uid dest :
  preserves (same_db st0) (imap_copy srv uid dest).
Proof. preserves_with same_db_update. Qed.

Ltac wp_auto Hf Hpt :=
  lazymatch goal with
  | |- wp (bind _ _) _ _ => apply wp_bind
  | |- wp (try_catch _ _) _ _ => apply wp_try
  | |- wp (imap_login _) _ _ => wp_frame imap_login_same_db
  | |- wp (imap_select _ _ _) _ _ => wp_frame imap_select_same_db
  | |- wp (imap_store_deleted _ _) _ _ => wp_frame imap_store_same_db
  | |- wp (imap_expunge _) _ _ => wp_frame imap_expunge_same_db
  | |- wp (imap_copy _ _ _) _ _ => wp_frame imap_copy_same_db
  | |- wp (probe _ _ _) _ _ => wp_frame probe_same_db
  | |- wp (select_current_folder _ _) _ _ =>
      wp_frame select_current_folder_same_db
  | |- wp (get_email _) _ _ => wp_email Hf
  | |- wp (delete_locally _ _) _ _ =>
      eapply delete_locally_spec;
      [state_simpl; rewrite ?find_update_row by reflexivity; rewrite Hf;
       reflexivity|];
      cbn [option_map with_folder folder String.eqb Ascii.eqb Bool.eqb];
      rewrite ?Hpt, ?orb_true_r; state_simpl
  | |- wp _ _ _ => wp_step
  end.

Lemma delete_body_spec srv i permanent e st0 :
  find (fun e' => email_id e' =? i) (st_rows st0) = Some e ->
  st_deleted st0 = [] ->
  wp (try_catch (delete_on_server srv i permanent)
                (delete_locally i permanent))
     (delete_post srv i permanent e st0) st0.
Proof.
  intros Hf Hd. destruct st0 as [sel0 log0 rows0 del0 com0 next0 succ0 cnt0].
  state_simpl. subst del0.
  unfold delete_on_server, delete_post.
  destruct (permanent || (folder e =? "trash")%string) eqn:Hpt;
    repeat (wp_auto Hf Hpt; rewrite ?Hpt).
  all: repeat split; auto; try discriminate.
  all: try (right; repeat split; auto; apply in_or_app; right; now left).
  all: repeat constructor.
Qed.

(** Symbolic execution against a server whose answers are known by
    rewriting with [Hs] (select), [Hc] (copy), [Ht] (store), [Hx] (expunge)
    and [Ho] (logout). *)
Ltac wp_known Hs Hc Ht Hx Ho Hf Hpt :=
  lazymatch goal with
  | |- wp (of_reply _) _ _ => apply wp_of_reply; rewrite ?Hs; cbv iota beta
  | |- wp (returns_or_raises _) _ _ =>
      unfold returns_or_raises; rewrite ?Hc, ?Ht, ?Hx, ?Ho; cbv iota
  | |- wp (probe _ _ _) _ _ =>
      unfold mutation_sent_folders, trash_folders, archive_folders;
      cbn [probe]
  | |- wp (select_or_inbox _ _ _) _ _ => unfold select_or_inbox
  | |- wp (select_current_folder _ _) _ _ => unfold select_current_folder
  | |- wp (get_email _) _ _ => wp_email Hf
  | |- wp (delete_locally _ _) _ _ =>
      eapply delete_locally_spec;
      [state_simpl; rewrite ?find_update_row by reflexivity; rewrite Hf;
       reflexivity|];
      cbn [option_map with_folder folder String.eqb Ascii.eqb Bool.eqb];
      rewrite ?Hpt, ?orb_true_r; state_simpl
  | |- wp _ _ _ => wp_step
  end.

Lemma delete_body_remote_down srv i permanent e st0 :
  find (fun e' => email_id e' =? i) (st_rows st0) = Some e ->
  st_imap_success st0 = false ->
  srv_login srv = false \/ every_step_fails srv ->
  wp (try_catch (delete_on_server srv i permanent)
                (delete_locally i permanent))
     (fun _ st' => st_imap_success st' = false) st0.
Proof.
  intros Hf Hs0 Hdown.
  destruct st0 as [sel0 log0 rows0 del0 com0 next0 succ0 cnt0].
  state_simpl. subst succ0.
  unfold delete_on_server, mutation_sent_folders, trash_folders.
  destruct (permanent || (folder e =? "trash")%string) eqn:Hpt.
  all: destruct Hdown as [Hlogin | (Hs & Hc & Ht & Hx & Ho)].
  all: try (apply wp_try, wp_bind; unfold imap_login; apply wp_bind;
            wp_step; wp_step; unfold returns_or_raises; rewrite Hlogin;
            repeat (wp_known Hlogin Hlogin Hlogin Hlogin Hlogin Hf Hpt);
            reflexivity).
  all: repeat (wp_known Hs Hc Ht Hx Ho Hf Hpt; rewrite ?Hpt); reflexivity.
Qed.

Lemma restore_body_remote_down srv i e st0 :
  find (fun e' => email_id e' =? i) (st_rows st0) = Some e ->
  st_imap_success st0 = false ->
  srv_login srv = false \/ every_step_fails srv ->
  wp (try_catch (restore_on_server srv i) (ret tt))
     (fun _ st' => st_imap_success st' = false) st0.
Proof.
  intros Hf Hs0 Hdown.
  destruct st0 as [sel0 log0 rows0 del0 com0 next0 succ0 cnt0].
  state_simpl. subst succ0. unfold restore_on_server.
  destruct Hdown as [Hlogin | (Hs & Hc & Ht & Hx & Ho)].
  - apply wp_try, wp_bind; unfold imap_login; apply wp_bind.
    wp_step. wp_step. unfold returns_or_raises. rewrite Hlogin.
    repeat wp_step. reflexivity.
  - repeat (wp_known Hs Hc Ht Hx Ho Hf Hf); reflexivity.
Qed.

Lemma archive_body_remote_down srv user i e st0 :
  find (fun e' => email_id e' =? i) (st_rows st0) = Some e ->
  st_imap_success st0 = false ->
  srv_login srv = false \/ every_step_fails srv ->
  wp (try_catch (archive_on_server srv user i) (ret tt))
     (fun _ st' => st_imap_success st' = false) st0.
Proof.
  intros Hf Hs0 Hdown.
  destruct st0 as [sel0 log0 rows0 del0 com0 next0 succ0 cnt0].
  state_simpl. subst succ0. unfold archive_on_server.
  destruct Hdown as [Hlogin | (Hs & Hc & Ht & Hx & Ho)].
  - apply wp_try, wp_bind; unfold imap_login; apply wp_bind.
    wp_step. wp_step. unfold returns_or_raises. rewrite Hlogin.
    repeat wp_step. reflexivity.
  - repeat (wp_known Hs Hc Ht Hx Ho Hf Hf); reflexivity.
Qed.

Lemma wp_and {A} (m : M A) (Q1 Q2 : Reply A -> State -> Prop) st :
  wp m Q1 st -> wp m Q2 st -> wp m (fun r s => Q1 r s /\ Q2 r s) st.
Proof. unfold wp. auto. Qed.

Lemma restore_body_frame srv i st0 :
  wp (try_catch (restore_on_server srv i) (ret tt))
     (fun r st' => r = Replies tt /\ same_db st0 st') st0.
Proof.
  apply (wp_try_unit (same_db st0)); auto using same_db_refl.
  apply restore_on_server_same_db.
Qed.

Lemma archive_body_frame srv user i st0 :
  wp (try_catch (archive_on_server srv user i) (ret tt))
     (fun r st' => r = Replies tt /\ same_db st0 st') st0.
Proof.
  apply (wp_try_unit (same_db st0)); auto using same_db_refl.
  apply archive_on_server_same_db.
Qed.

Lemma status_of_flag_not_error (b : bool) :
  (if b then success else warning) <> error.
Proof. destruct b; discriminate. Qed.

Lemma delete_email_commits srv user i db e permanent :
  NoDup (map email_id (emails db)) ->
  query_by_id (uid_of_user user) i (emails db) = Some e ->
  let o := delete_email srv user i permanent db in
  reported srv user o /\
  (if permanent || (folder e =? "trash")%string
   then emails (db_after o)
        = filter (fun e' => negb (email_id e' =? i)) (emails db)
   else emails (db_after o) = update_row i (with_folder "trash") (emails db)
        \/ srv_logout srv = false /\ In CLogout (trace o) /\
           emails (db_after o)
           = filter (fun e' => negb (email_id e' =? i)) (emails db)).
Proof.
  intros ND Hq o. subst o.
  pose proof (find_by_id_unique _ _ _ _ ND Hq) as Hf.
  unfold delete_email, reported. rewrite Hq.
  destruct (imap_available user) eqn:Hav; cbn [negb]; apply handle_wp.
  - apply wp_bind.
    eapply wp_conseq;
      [apply wp_and;
       [apply (delete_body_spec srv i permanent e); state_simpl;
        [exact Hf | reflexivity]
       |apply (wp_conseq _ (fun _ st' => remote_down srv ->
                                         st_imap_success st' = false));
        [unfold wp; intros Hdown;
         apply (delete_body_remote_down srv i permanent e); state_simpl;
         auto
        |intros r st' H; exact H]]|].
    cbv beta. unfold delete_post. state_simpl.
    intros r st' ((-> & Hc & Hn & Hrows) & Hflag).
    wp_run. split; [split; [reflexivity|split]|].
    + apply status_of_flag_not_error.
    + intros _ Hdown. rewrite (Hflag Hdown). auto.
    + destruct (permanent || (folder e =? "trash")%string).
      * destruct Hrows as (-> & Hne & Hall).
        now apply filter_deleted_only.
      * destruct Hrows as (-> & [-> | (-> & Hlo & Hlog)]).
        -- left. apply filter_not_deleted_nil.
        -- right. split; [exact Hlo|]. split; [exact Hlog|].
           rewrite (filter_deleted_only i [i]);
             [|discriminate|repeat constructor].
           now apply filter_update_row_other.
  - apply wp_bind. eapply delete_locally_spec; [exact Hf|].
    destruct (permanent || (folder e =? "trash")%string); wp_run;
      (split; [split; [reflexivity|split; [discriminate|intros; discriminate]]|]).
    + apply filter_deleted_only; [discriminate|repeat constructor].
    + left. apply filter_not_deleted_nil.
Qed.

Lemma archive_email_commits srv user i db e :
  NoDup (map email_id (emails db)) ->
  query_by_id (uid_of_user user) i (emails db) = Some e ->
  let o := archive_email srv user i db in
  reported srv user o /\
  emails (db_after o) = update_row i (with_folder "archive") (emails db).
Proof.
  intros ND Hq o. subst o.
  pose proof (find_by_id_unique _ _ _ _ ND Hq) as Hf.
  unfold archive_email, reported. rewrite Hq.
  destruct (imap_available user) eqn:Hav; cbn [negb]; apply handle_wp.
  - apply wp_bind.
    eapply wp_conseq;
      [apply wp_and;
       [apply archive_body_frame
       |apply (wp_conseq _ (fun _ st' => remote_down srv ->
                                         st_imap_success st' = false));
        [unfold wp; intros Hdown;
         apply (archive_body_remote_down srv user i e); state_simpl; auto
        |intros r st' H; exact H]]|].
    cbv beta. unfold same_db. state_simpl.
    intros r st' ((-> & Hr & Hd & Hc & Hn) & Hflag).
    wp_run. rewrite Hr, Hd. split; [split; [reflexivity|split]|].
    + apply status_of_flag_not_error.
    + intros _ Hdown. rewrite (Hflag Hdown). auto.
    + apply filter_not_deleted_nil.
  - wp_run. split; [split; [reflexivity|split; [discriminate|]]|].
    + intros; discriminate.
    + apply filter_not_deleted_nil.
Qed.

Lemma restore_email_commits srv user i db e :
  NoDup (map email_id (emails db)) ->
  query_by_id (uid_of_user user) i (emails db) = Some e ->
  folder e = "trash" ->
  let o := restore_email srv user i db in
  reported srv user o /\
  emails (db_after o) = update_row i (with_folder "inbox") (emails db).
Proof.
  intros ND Hq Ht o. subst o.
  pose proof (find_by_id_unique _ _ _ _ ND Hq) as Hf.
  unfold restore_email, reported. rewrite Hq, Ht. cbn [String.eqb Ascii.eqb
    Bool.eqb negb].
  destruct (imap_available user) eqn:Hav; cbn [negb]; apply handle_wp.
  - apply wp_bind.
    eapply wp_conseq;
      [apply wp_and;
       [apply restore_body_frame
       |apply (wp_conseq _ (fun _ st' => remote_down srv ->
                                         st_imap_success st' = false));
        [unfold wp; intros Hdown;
         apply (restore_body_remote_down srv i e); state_simpl; auto
        |intros r st' H; exact H]]|].
    cbv beta. unfold same_db. state_simpl.
    intros r st' ((-> & Hr & Hd & Hc & Hn) & Hflag).
    wp_run. rewrite Hr, Hd. split; [split; [reflexivity|split]|].
    + apply status_of_flag_not_error.
    + intros _ Hdown. rewrite (Hflag Hdown). auto.
    + apply filter_not_deleted_nil.
  - wp_run. split; [split; [reflexivity|split; [discriminate|]]|].
    + intros; discriminate.
    + apply filter_not_deleted_nil.
Qed.

(** A delete that moves the message to trash commits the move unless
    logout was called and raised. *)
Lemma delete_email_moves srv user i db e permanent :
  NoDup (map email_id (emails db)) ->
  query_by_id (uid_of_user user) i (emails db) = Some e ->
  permanent || (folder e =? "trash")%string = false ->
  srv_logout srv = true \/
  ~ In CLogout (trace (delete_email srv user i permanent db)) ->
  emails (db_after (delete_email srv user i permanent db))
  = update_row i (with_folder "trash") (emails db).
Proof.
  intros ND Hq Hpt Hor.
  destruct (delete_email_commits srv user i db e permanent ND Hq)
    as (_ & H).
  rewrite Hpt in H. destruct H as [H|(Hlo & Hlog & _)]; [exact H|].
  destruct Hor as [Hor|Hor]; [congruence|contradiction].
Qed.

(** C6 (as the code has it). For a message that exists (and, for restore,
    is in [trash]), each of delete, archive and restore commits its local
    change whatever the server does: the row is re-filed ([archive],
    [inbox]) or, for a delete that is permanent or hits a trashed message,
    removed; a delete that moves the message to [trash] commits the move
    unless logout is called and raises (so also when the connection cannot
    be opened, when every command raises before logout is reached, and
    when IMAP is not configured).  The call never fails (HTTP 200, status never
    [error]); when the connection cannot be opened or every IMAP command
    raises, the status is [warning] with [imap_success = false], and the
    local change is there all the same. *)
Theorem local_change_survives_remote_failure srv user i db e :
  NoDup (map email_id (emails db)) ->
  query_by_id (uid_of_user user) i (emails db) = Some e ->
  let removed := filter (fun e' => negb (email_id e' =? i)) (emails db) in
  let moved f := update_row i (with_folder f) (emails db) in
  (forall permanent,
      let o := delete_email srv user i permanent db in
      reported srv user o /\
      (if permanent || (folder e =? "trash")%string
       then emails (db_after o) = removed
       else srv_logout srv = true \/ ~ In CLogout (trace o) ->
            emails (db_after o) = moved "trash")) /\
  (let o := archive_email srv user i db in
   reported srv user o /\ emails (db_after o) = moved "archive") /\
  (folder e = "trash" ->
   let o := restore_email srv user i db in
   reported srv user o /\ emails (db_after o) = moved "inbox").
Proof.
  intros ND Hq removed moved. split; [|split].
  - intros permanent o.
    destruct (delete_email_commits srv user i db e permanent ND Hq)
      as (Hrep & H).
    split; [exact Hrep|].
    destruct (permanent || (folder e =? "trash")%string) eqn:Hpt;
      [exact H|].
    intros Hor. now apply (delete_email_moves srv user i db e permanent).
  - now apply (archive_email_commits srv user i db e).
  - intros Ht. now apply (restore_email_commits srv user i db e).
Qed.

Lemma local_change_survives_remote_failure_witness :
  let srv := failing_server in
  let user := sample_user in
  let db := sample_db in
  let e := sample_row 1 "inbox" (Some 5) in
  let removed := filter (fun e' => negb (email_id e' =? 1)) (emails db) in
  let moved f := update_row 1 (with_folder f) (emails db) in
  (forall permanent,
      let o := delete_email srv user 1 permanent db in
      reported srv user o /\
      (if permanent || (folder e =? "trash")%string
       then emails (db_after o) = removed
       else srv_logout srv = true \/ ~ In CLogout (trace o) ->
            emails (db_after o) = moved "trash")) /\
  (let o := archive_email srv user 1 db in
   reported srv user o /\ emails (db_after o) = moved "archive") /\
  (folder e = "trash" ->
   let o := restore_email srv user 1 db in
   reported srv user o /\ emails (db_after o) = moved "inbox").
Proof.
  apply (local_change_survives_remote_failure failing_server sample_user 1
           sample_db (sample_row 1 "inbox" (Some 5))).
  - simpl. repeat constructor; simpl; intuition discriminate.
  - reflexivity.
Defined.

(** C6 as stated fails: in [delete_email] a copy that raises is caught and
    followed by the store alone, and the answer is [success] with
    [imap_success = true]; a remote step failed and no warning is
    reported. *)
Lemma remote_failure_without_warning_counterexample :
  let o := delete_email copy_failing_server sample_user 1 false sample_db in
  query_by_id 1 1 (emails sample_db)
  = Some (sample_row 1 "inbox" (Some 5)) /\
  trace o = [CLogin; CSelect "INBOX" false; CSelect "[Gmail]/Trash" false;
             CSelect "INBOX" false; CCopy 5 "[Gmail]/Trash";
             CStoreDeleted 5; CLogout] /\
  srv_copy copy_failing_server (Some "INBOX") 5 "[Gmail]/Trash" = false /\
  status (response o) = success /\
  imap_success (response o) = Some true /\
  status (response o) <> warning.
Proof. vm_compute. repeat split; try reflexivity. discriminate. Qed.

(** * FolderResolver: the sent folder *)

Lemma upto_find {A} (p : A -> bool) l f :
  find p l = Some f ->
  exists skipped later,
    l = (skipped ++ f :: later)%list /\
    upto p l = (skipped ++ [f])%list /\
    forallb (fun a => negb (p a)) skipped = true /\
    p f = true.
Proof.
  induction l as [|a l IH]; simpl; [discriminate|].
  destruct (p a) eqn:E.
  - intros [= <-]. exists [], l. auto.
  - intros H. destruct (IH H) as (sk & la & -> & -> & Hsk & Hf).
    exists (a :: sk), la. simpl. rewrite E, Hsk. auto.
Qed.

Lemma upto_none {A} (p : A -> bool) l : find p l = None -> upto p l = l.
Proof.
  induction l as [|a l IH]; simpl; [reflexivity|].
  destruct (p a); [discriminate|]. intros H. now rewrite IH.
Qed.

(** [probe] never raises: it returns the first accepted candidate after
    selecting the candidates up to it, in order. *)
Lemma probe_spec srv ro cands st :
  wp (probe srv ro cands)
     (fun r st' =>
        r = Replies (find (accepts srv ro) cands) /\
        st_log st' = (st_log st
                      ++ map (fun f => CSelect f ro)
                             (upto (accepts srv ro) cands))%list /\
        same_db st st' /\
        st_imap_success st' = st_imap_success st /\
        st_imap_success_count st' = st_imap_success_count st)
     st.
Proof.
  revert st. induction cands as [|f rest IH]; intros st.
  - apply wp_ret. simpl. rewrite app_nil_r. auto using same_db_refl.
  - destruct st as [sel0 log0 rows0 del0 com0 next0 succ0 cnt0].
    cbn [probe find upto].
    assert (Ha : accepts srv ro f
                 = match srv_select srv f ro with
                   | Replies true => true
                   | _ => false
                   end) by reflexivity.
    apply wp_bind, wp_try. unfold imap_select.
    apply wp_bind. wp_step. wp_step. apply wp_bind. wp_step.
    apply wp_of_reply.
    destruct (srv_select srv f ro) as [|[|]] eqn:E; rewrite Ha; state_simpl.
    + wp_step. eapply wp_conseq; [apply IH|]. cbv beta.
      intros r st' (-> & -> & Hdb & -> & ->). unfold same_db in *.
      state_simpl. rewrite <- app_assoc. intuition.
    + wp_step. unfold same_db. state_simpl. repeat split; auto.
    + eapply wp_conseq; [apply IH|]. cbv beta.
      intros r st' (-> & -> & Hdb & -> & ->). unfold same_db in *.
      state_simpl. rewrite <- app_assoc. intuition.
Qed.

Ltac log_from_update :=
  try (unfold log_from;
       let st := fresh "st" in
       let l := fresh "l" in
       let H := fresh "H" in
       intros st [l H]; state_simpl;
       first [exists l; exact H
             |rewrite H; eexists; rewrite <- app_assoc; reflexivity]).

Lemma sync_loop_log_from p srv user fld limit uids :
  forall f n, preserves (log_from p) (sync_loop srv user fld limit uids f n).
Proof.
  induction uids as [|uid rest IH]; intros f n; cbn [sync_loop];
    preserves_with ltac:(first [apply IH | log_from_update]).
Qed.

Lemma imap_logout_log_from p srv : preserves (log_from p) (imap_logout srv).
Proof. preserves_with log_from_update. Qed.

Lemma log_from_refl st : log_from (st_log st) st.
Proof. exists []. now rewrite app_nil_r. Qed.

Lemma imap_available_checks user :
  imap_available user = true ->
  truthy_ostr (decrypted_password user) = true /\
  truthy_ostr (imap_host user) = true /\
  truthy_oint (imap_port user) = true.
Proof.
  unfold imap_available. intros H.
  apply andb_prop in H. destruct H as [H H3].
  apply andb_prop in H. destruct H as [H1 H2]. auto.
Qed.

Lemma db_eta db : mkDb (emails db) (next_id db) (desc_nulls_first db) = db.
Proof. destruct db; reflexivity. Qed.

(** C8 (as the code has it). Syncing [sent], the full sync selects the
    candidates read-only in the order of [possible_sent_folders] and
    searches in the first one the server accepts.  When none is accepted
    it selects [INBOX] read-only, logs out and ends there: nothing is
    searched or stored, and the answer is a [warning], or an [error] when
    that select or the logout raises. *)
Theorem sent_folder_resolution srv user limit db :
  imap_available user = true ->
  srv_login srv = true ->
  let o := sync_emails srv user (mkSyncRequest (Some "sent") limit) db in
  let probes l := map (fun f => CSelect f true) l in
  match find (accepts srv true) possible_sent_folders with
  | Some f =>
      exists skipped later rest,
        possible_sent_folders = (skipped ++ f :: later)%list /\
        forallb (fun g => negb (accepts srv true g)) skipped = true /\
        accepts srv true f = true /\
        trace o = ([CLogin; CList] ++ probes (skipped ++ [f])
                   ++ CSearch SearchAll :: rest)%list
  | None =>
      db_after o = db /\ count (response o) = None /\
      match srv_select srv "INBOX" true with
      | Raises =>
          trace o = ([CLogin; CList] ++ probes possible_sent_folders
                     ++ [CSelect "INBOX" true])%list /\
          status (response o) = error
      | Replies _ =>
          trace o = ([CLogin; CList] ++ probes possible_sent_folders
                     ++ [CSelect "INBOX" true; CLogout])%list /\
          status (response o) = if srv_logout srv then warning else error
      end
  end.
Proof.
  intros Hav Hlogin o probes. subst o.
  destruct (imap_available_checks user Hav) as (Hp & Hh & Hport).
  unfold sync_emails. rewrite Hp, Hh, Hport. cbn [negb orb].
  cbn [requested_folder requested_limit rq_folder rq_limit].
  apply handle_wp. unfold sync_emails_body, sync_select_folder.
  cbn [String.eqb Ascii.eqb Bool.eqb].
  apply wp_bind. unfold imap_login. apply wp_bind. wp_step. wp_step.
  unfold returns_or_raises. rewrite Hlogin. wp_step.
  apply wp_bind, wp_bind. wp_step. wp_step. wp_step. apply wp_bind.
  eapply wp_conseq; [apply probe_spec|]. cbv beta. state_simpl.
  intros r st' (-> & Hlog & Hdb & _ & _).
  destruct st' as [sel1 log1 rows1 del1 com1 next1 succ1 cnt1].
  unfold same_db in Hdb. state_simpl.
  destruct Hdb as (-> & -> & -> & ->). subst log1.
  destruct (find (accepts srv true) possible_sent_folders) as [f|] eqn:Hfind.
  - destruct (upto_find _ _ _ Hfind) as (sk & la & Hl & Hup & Hsk & Hf).
    rewrite Hup. state_simpl. wp_step. state_simpl.
    apply wp_bind. unfold imap_search. apply wp_bind. wp_step. wp_step.
    set (pre := (((([] ++ [CLogin]) ++ [CList])
                  ++ map (fun f => CSelect f true) (sk ++ [f]))
                 ++ [CSearch SearchAll])%list).
    assert (Hfrom : forall lg, (exists l, lg = (pre ++ l)%list) ->
              exists skipped later rest,
                possible_sent_folders = (skipped ++ f :: later)%list /\
                forallb (fun g => negb (accepts srv true g)) skipped
                = true /\
                accepts srv true f = true /\
                lg = ([CLogin; CList] ++ probes (skipped ++ [f])
                      ++ CSearch SearchAll :: rest)%list).
    { intros lg [l Hst]. exists sk, la, l. repeat split; auto.
      rewrite Hst. subst pre. cbn [app]. rewrite <- !app_assoc.
      reflexivity. }
    assert (H0 : exists l, pre = (pre ++ l)%list).
    { exists []. now rewrite app_nil_r. }
    apply wp_bind. wp_step. apply wp_of_reply.
    match goal with
    | |- context [srv_search ?a ?b ?c] =>
        destruct (srv_search a b c) as [|[uids|]]
    end; state_simpl.
    + apply Hfrom, H0.
    + apply wp_bind.
      eapply wp_preserves; [apply (sync_loop_log_from pre)|exact H0|].
      intros r st' HI. destruct r; [apply Hfrom, HI|].
      apply wp_bind.
      eapply wp_preserves; [apply (imap_logout_log_from pre)|exact HI|].
      intros r st'' HI'. destruct r; [apply Hfrom, HI'|].
      wp_step. apply Hfrom, HI'.
    + apply wp_bind.
      eapply wp_preserves; [apply (imap_logout_log_from pre)|exact H0|].
      intros r st'' HI'. destruct r; [apply Hfrom, HI'|].
      wp_step. apply Hfrom, HI'.
  - rewrite (upto_none _ _ Hfind). state_simpl.
    wp_run; rewrite db_eta; repeat split; auto;
      rewrite <- !app_assoc; reflexivity.
Qed.

Lemma sent_folder_resolution_witness :
  let srv := accepting_server [10; 11; 12] in
  let o := sync_emails srv sample_user (mkSyncRequest (Some "sent") None)
                       empty_db in
  let probes l := map (fun f => CSelect f true) l in
  match find (accepts srv true) possible_sent_folders with
  | Some f =>
      exists skipped later rest,
        possible_sent_folders = (skipped ++ f :: later)%list /\
        forallb (fun g => negb (accepts srv true g)) skipped = true /\
        accepts srv true f = true /\
        trace o = ([CLogin; CList] ++ probes (skipped ++ [f])
                   ++ CSearch SearchAll :: rest)%list
  | None =>
      db_after o = empty_db /\ count (response o) = None /\
      match srv_select srv "INBOX" true with
      | Raises =>
          trace o = ([CLogin; CList] ++ probes possible_sent_folders
                     ++ [CSelect "INBOX" true])%list /\
          status (response o) = error
      | Replies _ =>
          trace o = ([CLogin; CList] ++ probes possible_sent_folders
                     ++ [CSelect "INBOX" true; CLogout])%list /\
          status (response o) = if srv_logout srv then warning else error
      end
  end.
Proof.
  apply (sent_folder_resolution (accepting_server [10; 11; 12]) sample_user
           None empty_db).
  - vm_compute. reflexivity.
  - reflexivity.
Defined.

(** C8 as stated fails.  When the connection drops after the login, every
    sent candidate fails and so does the fallback select: the call ends
    with an error (HTTP 500), not with a soft failure.  And on a server
    that only has [INBOX], with three messages in it, the sync stops after
    the fallback select: it searches nothing and stores nothing. *)
Lemma sent_fallback_counterexample :
  let hard := sync_emails dropping_server sample_user
                          (mkSyncRequest (Some "sent") None) empty_db in
  let soft := sync_emails (inbox_only_server [10; 11; 12]) sample_user
                          (mkSyncRequest (Some "sent") None) empty_db in
  forallb (fun f => negb (accepts dropping_server true f))
          possible_sent_folders = true /\
  status (response hard) = error /\ code (response hard) = 500 /\
  forallb (fun f => negb (accepts (inbox_only_server [10; 11; 12]) true f))
          possible_sent_folders = true /\
  status (response soft) = warning /\
  existsb is_search (trace soft) = false /\
  emails (db_after soft) = [].
Proof. vm_compute. repeat split; reflexivity. Qed.

(** * The bulk delete *)

Lemma find_id_in i rows e :
  NoDup (map email_id rows) -> In e rows -> email_id e = i ->
  find_id i rows = Some e.
Proof.
  unfold find_id. induction rows as [|a r IH]; simpl; intros ND Hin Hid;
    [contradiction|].
  inversion ND as [|? ? Hnin ND']; subst.
  destruct Hin as [->|Hin].
  - now rewrite Z.eqb_refl.
  - destruct (email_id a =? email_id e) eqn:E; [|auto].
    exfalso. apply Hnin. apply Z.eqb_eq in E. rewrite E. now apply in_map.
Qed.

Lemma find_id_some i rows e :
  find_id i rows = Some e -> In e rows /\ email_id e = i.
Proof.
  unfold find_id. intros H. apply find_some in H.
  destruct H as [H1 H2]. apply Z.eqb_eq in H2. auto.
Qed.

Lemma find_id_update_other i j f rows :
  (forall e, email_id (f e) = email_id e) ->
  i <> j ->
  find_id j (update_row i f rows) = find_id j rows.
Proof.
  intros Hf Hij. unfold find_id.
  induction rows as [|a r IH]; simpl; [reflexivity|].
  destruct (email_id a =? i) eqn:E.
  - apply Z.eqb_eq in E. rewrite Hf.
    assert (Ej : (email_id a =? j) = false) by (apply Z.eqb_neq; lia).
    rewrite Ej. exact IH.
  - rewrite IH. reflexivity.
Qed.

Lemma map_id_update_row i f rows :
  (forall e, email_id (f e) = email_id e) ->
  map email_id (update_row i f rows) = map email_id rows.
Proof.
  intros Hf. unfold update_row. rewrite map_map. apply map_ext.
  intros a. destruct (email_id a =? i); auto.
Qed.

Lemma existsb_Zeqb x l : existsb (Z.eqb x) l = true <-> In x l.
Proof.
  rewrite existsb_exists. split.
  - intros (y & Hy & E). apply Z.eqb_eq in E. now subst.
  - intros H. exists x. split; [exact H|apply Z.eqb_refl].
Qed.

Lemma existsb_Zeqb_false x l : ~ In x l -> existsb (Z.eqb x) l = false.
Proof.
  intros H. destruct (existsb (Z.eqb x) l) eqn:E; [|reflexivity].
  apply existsb_Zeqb in E. contradiction.
Qed.

Lemma delete_operation_of_trashed user e :
  folder e = "trash" -> delete_operation_of user e = [].
Proof. unfold delete_operation_of. now intros ->. Qed.

Lemma bulk_local_delete_spec user ids :
  forall st n ops,
    NoDup ids ->
    NoDup (map email_id (st_rows st)) ->
    (forall i, In i ids -> exists e, find_id i (st_rows st) = Some e) ->
    wp (bulk_local user "delete" ids n ops)
       (fun r st' =>
          r = Replies
                (n + Z.of_nat (List.length ids),
                 (ops ++ flat_map
                           (fun i => match find_id i (st_rows st) with
                                     | Some e => delete_operation_of user e
                                     | None => []
                                     end) ids)%list) /\
          st_rows st' = map (bulk_delete_row ids) (st_rows st) /\
          (forall j, In j (st_deleted st') <->
                     In j (st_deleted st) \/
                     In j ids /\ exists e, find_id j (st_rows st) = Some e
                                           /\ folder e = "trash") /\
          st_committed st' = st_committed st /\
          st_next_id st' = st_next_id st /\
          st_log st' = st_log st)
       st.
Proof.
  induction ids as [|i rest IH]; intros st n ops NDi NDr Hex.
  - cbn [bulk_local]. apply wp_ret. cbn [List.length flat_map Z.of_nat].
    rewrite Z.add_0_r, app_nil_r. repeat split; auto.
    + unfold bulk_delete_row. cbn [existsb andb]. now rewrite map_id.
    + intros [H|[[] _]]; exact H.
  - destruct st as [sel0 log0 rows0 del0 com0 next0 succ0 cnt0].
    state_simpl. inversion NDi as [|? ? Hnin NDrest]; subst.
    destruct (Hex i (or_introl eq_refl)) as [e He].
    cbn [bulk_local]. cbn [String.eqb Ascii.eqb Bool.eqb].
    apply wp_bind. eapply wp_get_email; [exact He|].
    destruct (folder e =? "trash")%string eqn:Ht.
    + apply String.eqb_eq in Ht.
      apply wp_bind. wp_step. wp_step.
      eapply wp_conseq; [apply IH; state_simpl; auto|].
      * intros j Hj. apply Hex. now right.
      * cbv beta. state_simpl.
        intros r st' (-> & -> & Hdel & -> & -> & ->).
        cbn [flat_map List.length]. rewrite He.
        rewrite (delete_operation_of_trashed user e Ht). cbn [app].
        repeat split; auto.
        -- f_equal. f_equal. lia.
        -- apply map_ext_in. intros a Ha. unfold bulk_delete_row.
           cbn [existsb]. destruct (email_id a =? i) eqn:E; [|reflexivity].
           apply Z.eqb_eq in E.
           assert (a = e) as ->.
           { pose proof (find_id_in i rows0 a NDr Ha E) as Hfa.
             congruence. }
           rewrite Ht. cbn [String.eqb Ascii.eqb Bool.eqb negb orb andb].
           now rewrite andb_false_r.
        -- intros Hj. apply Hdel in Hj. cbn [In] in *.
           destruct Hj as [[<-|Hj]|(Hj & e' & He' & Ht')]; eauto 8.
        -- intros Hj. apply Hdel. cbn [In] in *.
           destruct Hj as [Hj|([<-|Hj] & e' & He' & Ht')]; eauto 8.
    + assert (Hne : folder e <> "trash")
        by (intros C; rewrite C in Ht; discriminate).
      apply wp_bind. wp_step. wp_step. apply wp_bind.
      eapply wp_get_email.
      { state_simpl. rewrite find_update_row by reflexivity.
        fold (find_id i rows0). rewrite He. reflexivity. }
      cbn [with_folder folder imap_uid].
      eapply wp_conseq; [apply IH; state_simpl; auto|].
      * rewrite map_id_update_row by reflexivity. exact NDr.
      * intros j Hj. rewrite find_id_update_other; [|reflexivity|].
        -- apply Hex. now right.
        -- intros ->. contradiction.
      * cbv beta. state_simpl.
        intros r st' (-> & -> & Hdel & -> & -> & ->).
        assert (Hfind : forall j, In j rest ->
                  find_id j (update_row i (with_folder "trash") rows0)
                  = find_id j rows0).
        { intros j Hj. apply find_id_update_other; [reflexivity|].
          intros ->. contradiction. }
        repeat split; auto.
        -- f_equal. f_equal; [cbn [List.length]; lia|].
           cbn [flat_map]. rewrite He. unfold delete_operation_of at 2.
           rewrite Ht.
           assert (Hfm : flat_map
                     (fun i0 => match find_id i0
                                  (update_row i (with_folder "trash") rows0)
                                with
                                | Some e0 => delete_operation_of user e0
                                | None => []
                                end) rest
                   = flat_map
                       (fun i0 => match find_id i0 rows0 with
                                  | Some e0 => delete_operation_of user e0
                                  | None => []
                                  end) rest).
           { clear - Hfind. induction rest as [|j rest' IHr];
               [reflexivity|]. cbn [flat_map].
             rewrite Hfind by now left. f_equal.
             apply IHr. intros k Hk. apply Hfind. now right. }
           rewrite Hfm.
           destruct (imap_available user && truthy_oint (imap_uid e));
             [rewrite <- app_assoc|]; reflexivity.
        -- unfold update_row. rewrite map_map. apply map_ext_in.
           intros a Ha. unfold bulk_delete_row. cbn [existsb].
           destruct (email_id a =? i) eqn:E.
           ++ apply Z.eqb_eq in E.
              assert (a = e) as ->.
              { pose proof (find_id_in i rows0 a NDr Ha E) as Hfa.
                congruence. }
              cbn [with_folder email_id folder].
              rewrite E, (existsb_Zeqb_false i rest Hnin), Ht.
              reflexivity.
           ++ reflexivity.
        -- intros Hj. apply Hdel in Hj. cbn [In].
           destruct Hj as [Hj|(Hj & e' & He' & Ht')]; [now left|].
           right. split; [now right|]. exists e'.
           rewrite <- Hfind; auto.
        -- intros Hj. apply Hdel. cbn [In] in Hj.
           destruct Hj as [Hj|([<-|Hj] & e' & He' & Ht')]; [now left| |].
           ++ congruence.
           ++ right. split; [exact Hj|]. exists e'. rewrite Hfind; auto.
Qed.

Lemma NoDup_map_filter {A B} (f : A -> B) (p : A -> bool) l :
  NoDup (map f l) -> NoDup (map f (filter p l)).
Proof.
  induction l as [|a l IH]; simpl; intros ND; [constructor|].
  inversion ND as [|? ? Hnin ND']; subst.
  destruct (p a); simpl; auto. constructor; auto.
  intros Hin. apply Hnin. apply in_map_iff in Hin.
  destruct Hin as (x & Hx & Hin). apply filter_In in Hin.
  apply in_map_iff. exists x. tauto.
Qed.

Lemma flat_map_find_id {B} (g : Email -> list B) rows sel :
  NoDup (map email_id rows) -> incl sel rows ->
  flat_map (fun i => match find_id i rows with
                     | Some e => g e
                     | None => []
                     end) (map email_id sel)
  = flat_map g sel.
Proof.
  intros ND. induction sel as [|a sel IH]; intros Hincl; [reflexivity|].
  cbn [map flat_map].
  rewrite (find_id_in (email_id a) rows a ND); auto.
  - f_equal. apply IH. intros x Hx. apply Hincl. now right.
  - apply Hincl. now left.
Qed.

Lemma delete_operation_of_from_trash user e :
  Forall delete_from_trash (delete_operation_of user e).
Proof.
  unfold delete_operation_of.
  destruct (folder e =? "trash")%string; [constructor|].
  destruct (imap_available user && truthy_oint (imap_uid e));
    repeat constructor. eexists. reflexivity.
Qed.

Lemma flat_map_Forall {A B} (P : B -> Prop) (g : A -> list B) l :
  (forall a, Forall P (g a)) -> Forall P (flat_map g l).
Proof.
  intros Hg. induction l as [|a l IH]; simpl; [constructor|].
  apply Forall_app. auto.
Qed.

Ltac only_flag_update :=
  try (unfold only_flag_and_expunge; intros; state_simpl;
       first [assumption
             |rewrite forallb_app; cbn [forallb flag_and_expunge_in_trash
                String.eqb Ascii.eqb Bool.eqb andb];
              rewrite ?andb_true_r; assumption]).

Lemma bulk_remote_same_db st0 srv user ops :
  preserves (same_db st0) (bulk_remote srv user ops).
Proof.
  assert (Hmove : forall uid f cands,
             preserves (same_db st0) (bulk_move srv uid f cands)).
  { intros uid f cands. induction cands as [|c rest IH]; cbn [bulk_move];
      preserves_with same_db_update. }
  induction ops as [|[[operation uid] source_folder] rest IH];
    cbn [bulk_remote]; unfold bulk_remote_step;
    preserves_with ltac:(first [apply IH | apply Hmove | same_db_update]).
Qed.

Lemma bulk_remote_only_flag srv user ops :
  Forall delete_from_trash ops ->
  preserves only_flag_and_expunge (bulk_remote srv user ops).
Proof.
  induction 1 as [|op rest [uid ->] _ IH]; cbn [bulk_remote].
  - apply preserves_ret.
  - unfold bulk_remote_step.
    cbn [folder_mapping String.eqb Ascii.eqb Bool.eqb].
    preserves_with ltac:(first [apply IH | only_flag_update]).
Qed.

Lemma NoDup_map_inj {A B} (f : A -> B) l x y :
  NoDup (map f l) -> In x l -> In y l -> f x = f y -> x = y.
Proof.
  induction l as [|a l IH]; simpl; intros ND Hx Hy E; [contradiction|].
  inversion ND as [|? ? Hnin ND']; subst.
  destruct Hx as [->|Hx], Hy as [->|Hy]; auto.
  - exfalso. apply Hnin. rewrite E. now apply in_map.
  - exfalso. apply Hnin. rewrite <- E. now apply in_map.
Qed.

Lemma selected_ids_spec u ids rows a :
  NoDup (map email_id rows) -> In a rows ->
  existsb (Z.eqb (email_id a))
          (map email_id (filter (selected_by u ids) rows))
  = selected_by u ids a.
Proof.
  intros ND Ha. destruct (selected_by u ids a) eqn:Hs.
  - apply existsb_Zeqb. apply in_map. apply filter_In. auto.
  - apply existsb_Zeqb_false. intros Hin. apply in_map_iff in Hin.
    destruct Hin as (x & Hx & Hin). apply filter_In in Hin.
    destruct Hin as [Hin Hsx].
    assert (x = a) by (eapply NoDup_map_inj; eauto). subst. congruence.
Qed.

Lemma is_deleted_spec D e : is_deleted D e = true <-> In (email_id e) D.
Proof. unfold is_deleted. apply existsb_Zeqb. Qed.

Lemma bulk_delete_row_id ids e :
  email_id (bulk_delete_row ids e) = email_id e.
Proof.
  unfold bulk_delete_row.
  destruct (existsb (Z.eqb (email_id e)) ids
            && negb (folder e =? "trash")%string); reflexivity.
Qed.

Lemma bulk_delete_final u ids rows D :
  NoDup (map email_id rows) ->
  (forall j, In j D <->
             In j (map email_id (filter (selected_by u ids) rows)) /\
             exists e, find_id j rows = Some e /\ folder e = "trash") ->
  filter (fun e => negb (is_deleted D e))
         (map (bulk_delete_row
                 (map email_id (filter (selected_by u ids) rows))) rows)
  = map (fun e => if selected_by u ids e then with_folder "trash" e else e)
        (filter (fun e => negb (selected_by u ids e
                                && (folder e =? "trash")%string)) rows).
Proof.
  intros ND HD.
  assert (Hdel : forall a, In a rows ->
             is_deleted D a
             = selected_by u ids a && (folder a =? "trash")%string).
  { intros a Ha.
    destruct (selected_by u ids a && (folder a =? "trash")%string) eqn:E.
    - apply is_deleted_spec, HD. apply andb_prop in E. destruct E as [Es Et].
      split.
      + apply in_map, filter_In. auto.
      + exists a. split; [now apply find_id_in|now apply String.eqb_eq].
    - destruct (is_deleted D a) eqn:Hd; [|reflexivity].
      apply is_deleted_spec, HD in Hd. destruct Hd as (Hin & e & He & Ht).
      rewrite (find_id_in _ _ a ND Ha eq_refl) in He. injection He as <-.
      apply existsb_Zeqb in Hin. rewrite selected_ids_spec in Hin by auto.
      rewrite Hin, Ht in E. discriminate. }
  assert (Hgen : forall l, incl l rows ->
    filter (fun e => negb (is_deleted D e))
           (map (bulk_delete_row
                   (map email_id (filter (selected_by u ids) rows))) l)
    = map (fun e => if selected_by u ids e then with_folder "trash" e else e)
          (filter (fun e => negb (selected_by u ids e
                                  && (folder e =? "trash")%string)) l)).
  { induction l as [|a l IH]; intros Hincl; [reflexivity|].
    assert (Ha : In a rows) by (apply Hincl; now left).
    assert (Hl : incl l rows) by (intros x Hx; apply Hincl; now right).
    cbn [map filter]. rewrite (IH Hl).
    unfold is_deleted at 1. rewrite bulk_delete_row_id.
    fold (is_deleted D a). rewrite (Hdel a Ha).
    unfold bulk_delete_row. rewrite (selected_ids_spec u ids rows a ND Ha).
    destruct (selected_by u ids a) eqn:Hs,
             (folder a =? "trash")%string eqn:Ht;
      cbn [negb andb map]; rewrite ?Hs; reflexivity. }
  apply Hgen, incl_refl.
Qed.

Lemma query_in_ids_selected u ids rows :
  query_in_ids u ids rows = filter (selected_by u ids) rows.
Proof. reflexivity. Qed.

Lemma preserves_and {A} (I1 I2 : State -> Prop) (m : M A) :
  preserves I1 m -> preserves I2 m ->
  preserves (fun st => I1 st /\ I2 st) m.
Proof. intros H1 H2 st [Ha Hb]. split; auto. Qed.

Lemma imap_login_only_flag srv :
  preserves only_flag_and_expunge (imap_login srv).
Proof. preserves_with only_flag_update. Qed.

Lemma imap_logout_only_flag srv :
  preserves only_flag_and_expunge (imap_logout srv).
Proof. preserves_with only_flag_update. Qed.

Lemma bulk_connection_frame st0 srv user ops :
  Forall delete_from_trash ops ->
  preserves (fun st => same_db st0 st /\ only_flag_and_expunge st)
            (imap_login srv ;;; bulk_remote srv user ops ;;;
             imap_logout srv).
Proof.
  intros Hops. apply preserves_and.
  - preserves_with
      ltac:(first [apply bulk_remote_same_db | same_db_update]).
  - preserves_with
      ltac:(first [apply bulk_remote_only_flag; exact Hops
                  | only_flag_update]).
Qed.

Lemma bulk_remote_accepted srv user ops :
  Forall delete_from_trash ops ->
  (exists ok, srv_select srv "Trash" false = Replies ok) ->
  (forall uid, srv_store srv (Some "Trash") uid = true) ->
  srv_expunge srv (Some "Trash") = true ->
  forall st,
    wp (bulk_remote srv user ops)
       (fun r st' =>
          r = Replies tt /\
          st_log st' = (st_log st
                        ++ flat_map flag_and_expunge_commands ops)%list)
       st.
Proof.
  intros Hops [ok Hsel] Hstore Hexp.
  induction Hops as [|op rest [uid ->] _ IH]; intros st.
  - cbn [bulk_remote flat_map]. apply wp_ret. now rewrite app_nil_r.
  - destruct st as [sel0 log0 rows0 del0 com0 next0 succ0 cnt0].
    cbn [bulk_remote]. unfold bulk_remote_step.
    cbn [folder_mapping String.eqb Ascii.eqb Bool.eqb].
    apply wp_bind, wp_try, wp_bind, wp_bind.
    unfold imap_select. apply wp_bind. wp_step. wp_step.
    apply wp_bind. wp_step. apply wp_of_reply. rewrite Hsel.
    apply wp_bind. unfold imap_store_deleted. apply wp_bind.
    wp_step. wp_step. apply wp_bind. wp_step.
    unfold returns_or_raises. state_simpl. rewrite Hstore.
    wp_step. apply wp_bind. unfold imap_expunge. apply wp_bind.
    wp_step. wp_step. apply wp_bind. wp_step.
    unfold returns_or_raises. state_simpl. rewrite Hexp.
    wp_step. wp_step. wp_step. wp_step.
    eapply wp_conseq; [apply IH|]. cbv beta. state_simpl.
    intros r st' (-> & ->). split; [reflexivity|].
    cbn [flat_map flag_and_expunge_commands fst snd app].
    rewrite <- !app_assoc. reflexivity.
Qed.

Lemma wp_impl {A} (H : Prop) (m : M A) (Q : Reply A -> State -> Prop) st :
  (H -> wp m Q st) -> wp m (fun r s => H -> Q r s) st.
Proof. unfold wp. auto. Qed.

Lemma bulk_local_selected user u ids db :
  NoDup (map email_id (emails db)) ->
  u = uid_of_user user ->
  let selected := query_in_ids u ids (emails db) in
  wp (bulk_local user "delete" (map email_id selected) 0 [])
     (fun r st' =>
        r = Replies (Z.of_nat (List.length selected),
                     flat_map (delete_operation_of user) selected) /\
        st_rows st' = map (bulk_delete_row (map email_id selected))
                          (emails db) /\
        (forall j, In j (st_deleted st') <->
                   In j (map email_id selected) /\
                   exists e, find_id j (emails db) = Some e
                             /\ folder e = "trash") /\
        st_committed st' = emails db /\
        st_next_id st' = next_id db /\
        st_log st' = [])
     (begin_request db).
Proof.
  intros ND -> selected.
  assert (Hincl : incl selected (emails db)).
  { intros x Hx. apply filter_In in Hx. tauto. }
  assert (H1 : NoDup (map email_id selected))
    by apply NoDup_map_filter, ND.
  assert (H3 : forall i, In i (map email_id selected) ->
                         exists e, find_id i (emails db) = Some e).
  { intros i Hi. apply in_map_iff in Hi. destruct Hi as (e & <- & He).
    exists e. apply find_id_in; auto. }
  eapply wp_conseq.
  - exact (bulk_local_delete_spec user (map email_id selected)
             (begin_request db) 0 [] H1 ND H3).
  - cbv beta. state_simpl. intros r st' (-> & -> & Hdel & -> & -> & ->).
    split; [|split; [reflexivity|split; [|auto]]].
    + rewrite length_map, flat_map_find_id by auto. reflexivity.
    + intros j. split.
      * intros Hj. apply Hdel in Hj. destruct Hj as [[]|Hj]. exact Hj.
      * intros Hj. apply Hdel. now right.
Qed.

Lemma query_in_ids_nil u rows : query_in_ids u [] rows = [].
Proof.
  unfold query_in_ids. induction rows as [|a r IH]; simpl; auto.
Qed.

Lemma queued_operations_delete user ids db :
  NoDup (map email_id (emails db)) ->
  queued_operations user ids "delete" db
  = flat_map (delete_operation_of user)
             (query_in_ids (uid_of_user user) ids (emails db)).
Proof.
  intros ND. unfold queued_operations.
  pose proof (bulk_local_selected user (uid_of_user user) ids db ND eq_refl)
    as H.
  cbv zeta in H. unfold wp in H.
  destruct (bulk_local user "delete" _ 0 [] (begin_request db)) as [r st'].
  cbn [fst snd] in H. destruct H as (-> & _). reflexivity.
Qed.

(** C10. In the bulk delete, a selected message outside [trash] has its
    folder set to [trash] before its operation is queued, so the queue
    holds [("delete", uid, "trash")] for it (when IMAP is available and the
    message has a UID); a selected message already in [trash] is deleted
    locally and queues nothing.  Whatever the server answers, the handler
    then only selects the trash mailbox, flags and expunges: it never
    copies.  On a server that lets these commands through the trace is
    exactly one select-flag-expunge per queued operation. *)
Theorem bulk_delete_flags_in_trash srv user email_ids db :
  NoDup (map email_id (emails db)) ->
  let u := uid_of_user user in
  let selected := query_in_ids u email_ids (emails db) in
  selected <> [] ->
  let ops := queued_operations user email_ids "delete" db in
  let o := bulk_email_action srv user email_ids (Some "delete") db in
  ops = flat_map (delete_operation_of user) selected /\
  Forall delete_from_trash ops /\
  emails (db_after o)
  = map (fun e => if selected_by u email_ids e
                  then with_folder "trash" e else e)
        (filter (fun e => negb (selected_by u email_ids e
                                && (folder e =? "trash")%string))
                (emails db)) /\
  forallb flag_and_expunge_in_trash (trace o) = true /\
  existsb is_copy (trace o) = false /\
  (lets_trash_through srv ->
   trace o = match ops with
             | [] => []
             | _ => ([CLogin] ++ flat_map flag_and_expunge_commands ops
                     ++ [CLogout])%list
             end).
Proof.
  intros ND u selected Hsel ops o.
  assert (Hops : ops = flat_map (delete_operation_of user) selected)
    by now apply queued_operations_delete.
  assert (Hall : Forall delete_from_trash ops).
  { rewrite Hops. apply flat_map_Forall.
    apply delete_operation_of_from_trash. }
  split; [exact Hops|]. split; [exact Hall|].
  assert (Hmain :
    emails (db_after o)
    = map (fun e => if selected_by u email_ids e
                    then with_folder "trash" e else e)
          (filter (fun e => negb (selected_by u email_ids e
                                  && (folder e =? "trash")%string))
                  (emails db)) /\
    forallb flag_and_expunge_in_trash (trace o) = true /\
    (lets_trash_through srv ->
     trace o = match ops with
               | [] => []
               | _ => ([CLogin] ++ flat_map flag_and_expunge_commands ops
                       ++ [CLogout])%list
               end)).
  2: { destruct Hmain as (H1 & H2 & H3). repeat split; auto.
       clear - H2. induction (trace o) as [|c l IH]; [reflexivity|].
       cbn [forallb existsb] in *. apply andb_prop in H2.
       destruct H2 as [Hc Hl]. rewrite (IH Hl).
       destruct c; try discriminate; reflexivity. }
  subst o. unfold bulk_email_action.
  assert (Hids : is_nil email_ids = false).
  { destruct email_ids; [|reflexivity]. exfalso. apply Hsel.
    apply query_in_ids_nil. }
  rewrite Hids. cbn [truthy_str String.eqb negb orb].
  fold u. fold selected.
  assert (Hns : is_nil selected = false)
    by (destruct selected; [contradiction|reflexivity]).
  rewrite Hns. apply handle_wp. unfold bulk_body. apply wp_bind.
  pose proof (bulk_local_selected user u email_ids db ND eq_refl) as Hloc.
  cbv zeta in Hloc. fold selected in Hloc.
  eapply wp_conseq; [exact Hloc|]. clear Hloc.
  cbv beta zeta. rewrite <- Hops.
  intros r st1 (-> & Hrows & Hdel & Hcom & Hnext & Hlog).
  destruct st1 as [sel1 log1 rows1 del1 com1 next1 succ1 cnt1].
  state_simpl. subst log1 rows1 com1 next1.
  set (st1 := mkState sel1 [] _ del1 (emails db) (next_id db) succ1 cnt1).
  assert (Hfinal : forall st, same_db st1 st ->
            filter (fun e => negb (is_deleted (st_deleted st) e))
                   (st_rows st)
            = map (fun e => if selected_by u email_ids e
                            then with_folder "trash" e else e)
                  (filter (fun e => negb (selected_by u email_ids e
                                          && (folder e =? "trash")%string))
                          (emails db))).
  { intros st (Hr & Hd & _). rewrite Hr, Hd. subst st1. state_simpl.
    apply bulk_delete_final; auto. }
  apply wp_bind.
  destruct (imap_available user && negb (is_nil ops)) eqn:Hremote.
  - eapply wp_conseq.
    + apply (wp_and _
               (fun r st' => r = Replies tt /\ same_db st1 st'
                             /\ only_flag_and_expunge st')
               (fun _ st' =>
                  lets_trash_through srv ->
                  st_log st' = ([CLogin]
                                ++ flat_map flag_and_expunge_commands ops
                                ++ [CLogout])%list)).
      * apply (wp_try_unit
                 (fun st => same_db st1 st /\ only_flag_and_expunge st)).
        -- apply bulk_connection_frame, Hall.
        -- split; [apply same_db_refl|reflexivity].
        -- intros st' H. split; [reflexivity|exact H].
      * apply (wp_impl (lets_trash_through srv)).
        intros (Hlogin & Hselect & Hstore & Hexp & Hlogout).
        apply wp_try, wp_bind. unfold imap_login. apply wp_bind.
        wp_step. wp_step. unfold returns_or_raises. rewrite Hlogin.
        wp_step. apply wp_bind.
        eapply wp_conseq;
          [apply (bulk_remote_accepted srv user ops Hall Hselect Hstore
                    Hexp)|].
        cbv beta. subst st1. state_simpl. intros r st' (-> & Hl).
        unfold imap_logout. apply wp_bind. wp_step. wp_step.
        unfold returns_or_raises. rewrite Hlogout. wp_step.
        state_simpl. rewrite Hl. reflexivity.
    + cbv beta. intros r st' ((-> & Hdb & Hflag) & Htrace).
      wp_run. split; [|split].
      * now apply Hfinal.
      * exact Hflag.
      * intros Hlets. rewrite (Htrace Hlets).
        destruct ops; [|reflexivity].
        rewrite andb_comm in Hremote. discriminate.
  - wp_run. subst st1. state_simpl. split; [|split].
    + apply (Hfinal (mkState sel1 [] _ del1 (emails db) (next_id db)
                             succ1 cnt1)).
      apply same_db_refl.
    + reflexivity.
    + intros _.
      assert (Hnil : ops = []).
      { destruct (imap_available user) eqn:Hav.
        - destruct ops; [reflexivity|discriminate].
        - rewrite Hops. clear - Hav.
          induction selected as [|a l IH]; [reflexivity|].
          cbn [flat_map]. rewrite IH. unfold delete_operation_of.
          rewrite Hav. destruct (folder a =? "trash")%string; reflexivity. }
      rewrite Hnil. reflexivity.
Qed.

Lemma bulk_delete_flags_in_trash_witness :
  let srv := accepting_server [] in
  let user := sample_user in
  let email_ids := [1; 2; 3] in
  let db := sample_db in
  let u := uid_of_user user in
  let selected := query_in_ids u email_ids (emails db) in
  let ops := queued_operations user email_ids "delete" db in
  let o := bulk_email_action srv user email_ids (Some "delete") db in
  ops = flat_map (delete_operation_of user) selected /\
  Forall delete_from_trash ops /\
  emails (db_after o)
  = map (fun e => if selected_by u email_ids e
                  then with_folder "trash" e else e)
        (filter (fun e => negb (selected_by u email_ids e
                                && (folder e =? "trash")%string))
                (emails db)) /\
  forallb flag_and_expunge_in_trash (trace o) = true /\
  existsb is_copy (trace o) = false /\
  (lets_trash_through srv ->
   trace o = match ops with
             | [] => []
             | _ => ([CLogin] ++ flat_map flag_and_expunge_commands ops
                     ++ [CLogout])%list
             end).
Proof.
  apply (bulk_delete_flags_in_trash (accepting_server []) sample_user
           [1; 2; 3] sample_db).
  - simpl. repeat constructor; simpl; intuition discriminate.
  - vm_compute. discriminate.
Defined.


(** * The sync loops compute [ingest] *)

Lemma sync_loop_refines srv user fld limit uids :
  forall f n st,
    st_deleted st = [] ->
    st_committed st = st_rows st ->
    wp (sync_loop srv user fld limit uids f n)
       (fun r st' =>
          let res := ingest (decide srv user fld (st_selected st))
                            (Some limit) uids f (st_rows st)
                            (st_next_id st) in
          st_rows st' = snd (fst res) /\
          st_next_id st' = snd res /\
          st_committed st' = st_rows st' /\
          st_deleted st' = [] /\
          st_selected st' = st_selected st /\
          r = if fst (fst res) then Raises
              else Replies (n + (st_next_id st' - st_next_id st)))
       st.
Proof.
  induction uids as [|uid rest IH]; intros f n st Hd Hc.
  - cbn [sync_loop ingest fst snd]. apply wp_ret.
    repeat split; auto. f_equal. lia.
  - destruct st as [sel0 log0 rows0 del0 com0 next0 succ0 cnt0].
    state_simpl. subst del0 com0.
    remember (decide srv user fld sel0) as d eqn:Hdec.
    assert (Hdu : d rows0 uid = decide srv user fld sel0 rows0 uid)
      by now subst d.
    cbn [sync_loop ingest]. rewrite Hdu. clear Hdu. unfold decide.
    repeat wp_step.
    all: cbn [fst snd]; rewrite ?filter_not_deleted_nil.
    all: try (eapply wp_conseq;
              [apply IH; state_simpl; rewrite ?filter_not_deleted_nil;
               reflexivity|];
              cbv beta; state_simpl; rewrite ?filter_not_deleted_nil;
              subst d; intros ? ? (H1 & H2 & H3 & H4 & H5 & H6)).
    all: repeat split; auto; try (f_equal; lia).
    all: rewrite H6; destruct (fst (fst _)); try reflexivity; f_equal; lia.
Qed.


Lemma ingest_no_limit d uids :
  forall f f' rows next,
    ingest d None uids f rows next = ingest d None uids f' rows next.
Proof.
  induction uids as [|uid rest IH]; intros f f' rows next; [reflexivity|].
  cbn [ingest]. destruct (d rows uid); auto.
Qed.

Lemma sync_new_loop_refines srv user fld last_uid uids :
  forall acc st,
    st_deleted st = [] ->
    st_committed st = st_rows st ->
    wp (sync_new_loop srv user fld last_uid uids acc)
       (fun r st' =>
          let res := ingest (decide_new srv user fld last_uid
                                        (st_selected st))
                            None uids 0 (st_rows st) (st_next_id st) in
          st_rows st' = snd (fst res) /\
          st_next_id st' = snd res /\
          st_committed st' = st_rows st' /\
          st_deleted st' = [] /\
          st_selected st' = st_selected st /\
          exists added,
            st_rows st' = (st_rows st ++ added)%list /\
            r = if fst (fst res) then Raises
                else Replies (acc ++ added)%list)
       st.
Proof.
  induction uids as [|uid rest IH]; intros acc st Hd Hc.
  - cbn [sync_new_loop ingest fst snd]. apply wp_ret.
    repeat split; auto. exists []. now rewrite !app_nil_r.
  - destruct st as [sel0 log0 rows0 del0 com0 next0 succ0 cnt0].
    state_simpl. subst del0 com0.
    remember (decide_new srv user fld last_uid sel0) as d eqn:Hdec.
    assert (Hdu : d rows0 uid
                  = decide_new srv user fld last_uid sel0 rows0 uid)
      by now subst d.
    cbn [sync_new_loop ingest]. rewrite Hdu. clear Hdu.
    unfold decide_new, decide.
    repeat wp_step.
    all: cbn [fst snd];
      rewrite ?filter_not_deleted_nil, ?(ingest_no_limit d rest (0 + 1) 0).
    all: try (eapply wp_conseq;
              [apply IH; state_simpl; rewrite ?filter_not_deleted_nil;
               reflexivity|];
              cbv beta; state_simpl; rewrite ?filter_not_deleted_nil;
              subst d;
              intros ? ? (H1 & H2 & H3 & H4 & H5 & added & H6 & H7)).
    all: repeat split; auto.
    all: try (exists added; split; [exact H6|exact H7]).
    all: try (exists []; rewrite !app_nil_r; split; reflexivity).
    all: match goal with
         | H : st_rows _ = ((_ ++ [?e]) ++ _)%list |- _ =>
             exists (e :: added)
         end;
      rewrite H6, H7, <- !app_assoc; split; reflexivity.
Qed.

(** * What a sync works on does not depend on the database *)

Lemma oblivious_ret {A} (a : A) : oblivious (ret a).
Proof. intros st1 st2 H. auto. Qed.

Lemma oblivious_raise {A} : oblivious (@raise A).
Proof. intros st1 st2 H. auto. Qed.

Lemma oblivious_of_reply {A} (r : Reply A) : oblivious (of_reply r).
Proof. intros st1 st2 H. auto. Qed.

Lemma oblivious_modify f :
  (forall st1 st2, st_selected st1 = st_selected st2 ->
                   st_selected (f st1) = st_selected (f st2)) ->
  oblivious (modify f).
Proof. intros Hf st1 st2 H. split; [reflexivity|]. apply Hf, H. Qed.

Lemma oblivious_bind {A B} (m : M A) (k : A -> M B) :
  oblivious m -> (forall a, oblivious (k a)) -> oblivious (bind m k).
Proof.
  intros Hm Hk st1 st2 H. destruct (Hm st1 st2 H) as [E1 E2].
  unfold bind. destruct (m st1) as [r1 s1], (m st2) as [r2 s2].
  cbn [fst snd] in *. subst r2. destruct r1 as [|a]; [auto|].
  apply Hk, E2.
Qed.

Lemma oblivious_try {A} (m h : M A) :
  oblivious m -> oblivious h -> oblivious (try_catch m h).
Proof.
  intros Hm Hh st1 st2 H. destruct (Hm st1 st2 H) as [E1 E2].
  unfold try_catch. destruct (m st1) as [r1 s1], (m st2) as [r2 s2].
  cbn [fst snd] in *. subst r2. destruct r1 as [|a]; [|auto].
  apply Hh, E2.
Qed.

Lemma oblivious_search srv q : oblivious (imap_search srv q).
Proof.
  intros [s1 l1 r1 d1 c1 n1 b1 k1] [s2 l2 r2 d2 c2 n2 b2 k2] H.
  cbn in H. subst s2. cbn. auto.
Qed.

Ltac oblivious_with tac :=
  repeat lazymatch goal with
    | |- forall _, _ => intro
    | |- oblivious (bind _ _) => apply oblivious_bind
    | |- oblivious (try_catch _ _) => apply oblivious_try
    | |- oblivious (ret _) => apply oblivious_ret
    | |- oblivious raise => apply oblivious_raise
    | |- oblivious (of_reply _) => apply oblivious_of_reply
    | |- oblivious (returns_or_raises ?b) =>
        unfold returns_or_raises; destruct b
    | |- oblivious (issue _) => unfold issue
    | |- oblivious (imap_login _) => unfold imap_login
    | |- oblivious imap_list => unfold imap_list
    | |- oblivious (imap_select _ _ _) => unfold imap_select
    | |- oblivious (imap_search _ _) => apply oblivious_search
    | |- oblivious (imap_logout _) => unfold imap_logout
    | |- oblivious (select_or_inbox _ _ _) => unfold select_or_inbox
    | |- oblivious (if ?b then _ else _) => destruct b
    | |- oblivious (match ?x with _ => _ end) => destruct x
    | |- oblivious (modify _) =>
        apply oblivious_modify; intros [] []; cbn; auto
    | |- _ => tac
    end.

Lemma oblivious_probe srv ro cands : oblivious (probe srv ro cands).
Proof.
  induction cands as [|f rest IH]; cbn [probe];
    oblivious_with ltac:(exact IH).
Qed.

Lemma oblivious_sync_prefix srv fld : oblivious (sync_prefix srv fld).
Proof.
  unfold sync_prefix, sync_select_folder.
  oblivious_with ltac:(apply oblivious_probe).
Qed.

Lemma oblivious_sync_new_prefix srv fld q :
  oblivious (sync_new_prefix srv fld q).
Proof.
  unfold sync_new_prefix, sync_new_select_folder.
  oblivious_with ltac:(apply oblivious_probe).
Qed.

Lemma target_of_run p st :
  oblivious p -> st_selected st = None ->
  target_of p = match p st with
                | (Replies (Some uids), st') => Some (st_selected st', uids)
                | _ => None
                end.
Proof.
  intros Hp Hs. unfold target_of.
  destruct (Hp fresh_connection st) as [E1 E2]; [now rewrite Hs|].
  destruct (p fresh_connection) as [r1 s1], (p st) as [r2 s2].
  cbn [fst snd] in *. subst r2. destruct r1 as [|[uids|]]; auto.
  now rewrite E2.
Qed.

Lemma preserves_run {A} (I : State -> Prop) (m : M A) st r st' :
  preserves I m -> I st -> m st = (r, st') -> I st'.
Proof. intros Hm H E. specialize (Hm st H). now rewrite E in Hm. Qed.

Lemma sync_select_folder_same_db st0 srv fld :
  preserves (same_db st0) (sync_select_folder srv fld).
Proof.
  unfold sync_select_folder.
  preserves_with ltac:(first [apply probe_same_db | same_db_update]).
Qed.

Lemma sync_new_select_folder_same_db st0 srv fld :
  preserves (same_db st0) (sync_new_select_folder srv fld).
Proof.
  unfold sync_new_select_folder.
  preserves_with ltac:(first [apply probe_same_db | same_db_update]).
Qed.

Lemma imap_search_same_db st0 srv q :
  preserves (same_db st0) (imap_search srv q).
Proof. preserves_with same_db_update. Qed.

Lemma same_db_trans st1 st2 st3 :
  same_db st1 st2 -> same_db st2 st3 -> same_db st1 st3.
Proof. unfold same_db. intuition congruence. Qed.

Ltac run_done :=
  cbn [fst snd ret];
  repeat match goal with
    | |- _ /\ _ => split
    | |- forall _, _ => intro
    end;
  auto; try discriminate; try congruence.

Lemma bind_run {A B} (m : M A) (k : A -> M B) st r st' :
  m st = (r, st') ->
  bind m k st = match r with
                | Raises => (Raises, st')
                | Replies a => k a st'
                end.
Proof. unfold bind. intros ->. destruct r; reflexivity. Qed.

(** The body of [sync_emails], read against [sync_prefix] and [ingest]. *)
Lemma sync_emails_body_run srv user fld limit st0 :
  st_deleted st0 = [] ->
  st_committed st0 = st_rows st0 ->
  let p := sync_prefix srv fld st0 in
  let b := sync_emails_body srv user fld limit st0 in
  match fst p with
  | Replies (Some uids) =>
      let res := ingest (decide srv user fld (st_selected (snd p)))
                        (Some limit)
                        (rev (py_slice_from (- limit) uids)) 0
                        (st_rows st0) (st_next_id st0) in
      st_committed (snd b) = snd (fst res) /\
      st_next_id (snd b) = snd res /\
      (fst (fst res) = true -> fst b = Raises) /\
      (forall resp, fst b = Replies resp ->
                    status resp = success /\
                    count resp = Some (snd res - st_next_id st0))
  | _ =>
      st_committed (snd b) = st_committed st0 /\
      st_next_id (snd b) = st_next_id st0 /\
      (forall resp, fst b = Replies resp ->
                    status resp <> success /\ count resp = None)
  end.
Proof.
  intros Hd Hc p b. subst p b.
  unfold sync_prefix, sync_emails_body.
  destruct (imap_login srv st0) as [[|[]] st1] eqn:E1;
    rewrite !(bind_run _ _ _ _ _ E1).
  - pose proof (preserves_run _ _ _ _ _ (imap_login_same_db st0 srv)
                  (same_db_refl st0) E1) as (_ & _ & H3 & H4).
    run_done.
  - pose proof (preserves_run _ _ _ _ _ (imap_login_same_db st0 srv)
                  (same_db_refl st0) E1) as F1.
    destruct (sync_select_folder srv fld st1) as [[|ready] st2] eqn:E2;
      rewrite !(bind_run _ _ _ _ _ E2).
    + pose proof (preserves_run _ _ _ _ _
                    (sync_select_folder_same_db st0 srv fld) F1 E2)
        as (_ & _ & H3 & H4).
      run_done.
    + pose proof (preserves_run _ _ _ _ _
                    (sync_select_folder_same_db st0 srv fld) F1 E2) as F2.
      destruct ready.
      2: { destruct F2 as (_ & _ & H3 & H4). run_done;
           match goal with H : Replies _ = Replies _ |- _ =>
             injection H as <- end; cbn; auto; discriminate. }
      destruct (imap_search srv SearchAll st2) as [[|[uids|]] st3] eqn:E3;
        rewrite !(bind_run _ _ _ _ _ E3);
        pose proof (preserves_run _ _ _ _ _
                      (imap_search_same_db st0 srv SearchAll) F2 E3) as F3.
      * destruct F3 as (_ & _ & H3 & H4). run_done.
      * cbn [fst snd]. destruct F3 as (Hr & Hdel & Hcom & Hnext).
        pose proof (sync_loop_refines srv user fld limit
                      (rev (py_slice_from (- limit) uids)) 0 0 st3) as Hl.
        rewrite Hdel, Hcom, Hr, Hnext in Hl.
        specialize (Hl Hd Hc). unfold wp in Hl. cbv zeta in Hl.
        destruct (sync_loop srv user fld limit
                    (rev (py_slice_from (- limit) uids)) 0 0 st3)
          as [r4 st4] eqn:E4.
        rewrite (bind_run _ _ _ _ _ E4).
        cbn [fst snd] in Hl.
        destruct Hl as (L1 & L2 & L3 & L4 & L5 & L6).
        destruct (fst (fst (ingest _ _ _ _ _ _))) eqn:Hab.
        -- subst r4. cbn [fst snd]. rewrite L3, L1, L2. run_done.
        -- subst r4.
           assert (F4 : st_committed st4 = snd (fst (ingest
                     (decide srv user fld (st_selected st3)) (Some limit)
                     (rev (py_slice_from (- limit) uids)) 0
                     (st_rows st0) (st_next_id st0))) /\
                   st_next_id st4 = snd (ingest
                     (decide srv user fld (st_selected st3)) (Some limit)
                     (rev (py_slice_from (- limit) uids)) 0
                     (st_rows st0) (st_next_id st0)))
             by (rewrite L3, L1, L2; auto).
           destruct (imap_logout srv st4) as [[|[]] st5] eqn:E5;
             rewrite (bind_run _ _ _ _ _ E5);
             pose proof (preserves_run _ _ _ _ _
                           (imap_logout_same_db st4 srv)
                           (same_db_refl st4) E5) as (_ & _ & G3 & G4);
             cbn [fst snd ret]; rewrite G3, G4;
             destruct F4 as [F4a F4b]; rewrite F4a, F4b.
           ++ run_done.
           ++ run_done;
                match goal with H : Replies _ = Replies _ |- _ =>
                  injection H as <- end; cbn [status count]; auto;
                do 2 f_equal; rewrite <- F4b, L2; lia.
      * destruct (imap_logout srv st3) as [[|[]] st5] eqn:E5;
          rewrite (bind_run _ _ _ _ _ E5);
          pose proof (preserves_run _ _ _ _ _
                        (imap_logout_same_db st0 srv) F3 E5)
            as (_ & _ & G3 & G4);
          run_done;
          match goal with H : Replies _ = Replies _ |- _ =>
            injection H as <- end; cbn; auto; discriminate.
Qed.

(** * Properties of [ingest] *)

Lemma ingest_invariant d limit (P : list Email -> Z -> Prop) uids :
  (forall rows next uid e,
      In uid uids -> P rows next -> d rows uid = Insert e ->
      P (rows ++ [with_id next e])%list (next + 1)) ->
  forall f rows next,
    P rows next ->
    P (snd (fst (ingest d limit uids f rows next)))
      (snd (ingest d limit uids f rows next)).
Proof.
  induction uids as [|uid rest IH]; intros Hstep f rows next HP;
    [exact HP|].
  assert (Hrest : forall rows next uid e,
             In uid rest -> P rows next -> d rows uid = Insert e ->
             P (rows ++ [with_id next e])%list (next + 1)).
  { intros. eapply Hstep; eauto. now right. }
  cbn [ingest]. destruct (d rows uid) as [| | |e] eqn:Hd.
  - now apply IH.
  - destruct (match limit with Some l => l <=? f + 1 | None => false end);
      [exact HP|now apply IH].
  - exact HP.
  - assert (HP' : P (rows ++ [with_id next e])%list (next + 1)).
    { eapply Hstep; eauto. now left. }
    destruct (match limit with Some l => l <=? f + 1 | None => false end);
      [exact HP'|now apply IH].
Qed.

Lemma query_by_uid_none u n rows :
  query_by_uid u n rows = None <-> ~ In n (stored_uids u rows).
Proof.
  unfold query_by_uid, stored_uids. induction rows as [|a r IH];
    cbn [find flat_map]; [tauto|].
  unfold has_uid at 1.
  destruct (user_id a =? u); cbn [andb app]; [|exact IH].
  destruct (imap_uid a) as [m|]; cbn [app]; [|exact IH].
  destruct (m =? n) eqn:E.
  - apply Z.eqb_eq in E. subst. split; [discriminate|].
    intros H. exfalso. apply H. now left.
  - apply Z.eqb_neq in E. rewrite IH. cbn [In]. tauto.
Qed.

Lemma query_by_message_id_none u m rows :
  truthy_str m = true ->
  query_by_message_id u m rows = None <-> ~ In m (message_ids u rows).
Proof.
  intros Hm. unfold query_by_message_id, message_ids.
  induction rows as [|a r IH]; cbn [find flat_map]; [tauto|].
  unfold has_message_id at 1.
  destruct (user_id a =? u); cbn [andb app]; [|exact IH].
  destruct (message_id_header a) as [m'|]; cbn [app]; [|exact IH].
  destruct (m' =? m)%string eqn:E.
  - apply String.eqb_eq in E. subst. rewrite Hm. split; [discriminate|].
    intros H. exfalso. apply H. now left.
  - apply String.eqb_neq in E. rewrite IH.
    destruct (truthy_str m'); cbn [In app]; tauto.
Qed.

(** What an [Insert] decision says. *)
Lemma decide_insert srv user fld sel rows uid e :
  decide srv user fld sel rows uid = Insert e ->
  (exists pm, e = new_email user fld uid pm /\
              srv_fetch srv sel uid = Replies (FetchRaw (Parseable pm))) /\
  query_by_uid (uid_of_user user) uid rows = None /\
  (forall m, message_id_header e = Some m -> truthy_str m = true ->
             query_by_message_id (uid_of_user user) m rows = None).
Proof.
  unfold decide.
  destruct (query_by_uid (uid_of_user user) uid rows) eqn:Hq;
    [discriminate|].
  destruct (srv_fetch srv sel uid) as [|[| |[|pm]]] eqn:Hf;
    try discriminate.
  cbn [parse_from_bytes].
  destruct (message_id_header (new_email user fld uid pm)) as [m|] eqn:Hm.
  - destruct (truthy_str m) eqn:Ht.
    + destruct (query_by_message_id (uid_of_user user) m rows) eqn:Hqm;
        [discriminate|].
      intros [= <-]. split; [eauto|]. split; [reflexivity|].
      intros m' Hm'. rewrite Hm in Hm'. injection Hm' as <-. auto.
    + intros [= <-]. split; [eauto|]. split; [reflexivity|].
      intros m' Hm'. rewrite Hm in Hm'. injection Hm' as <-. congruence.
  - intros [= <-]. split; [eauto|]. split; [reflexivity|].
    intros m' Hm'. rewrite Hm in Hm'. discriminate.
Qed.

Lemma decide_new_insert srv user fld last sel rows uid e :
  decide_new srv user fld last sel rows uid = Insert e ->
  last < uid /\ decide srv user fld sel rows uid = Insert e.
Proof.
  unfold decide_new. destruct (uid <=? last) eqn:E; [discriminate|].
  apply Z.leb_gt in E.
  destruct (decide srv user fld sel rows uid); try discriminate.
  auto.
Qed.

Lemma new_email_fields user fld uid pm i :
  let e := with_id i (new_email user fld uid pm) in
  user_id e = uid_of_user user /\ folder e = fld /\ imap_uid e = Some uid /\
  email_id e = i /\
  message_id_header e = message_id_header (new_email user fld uid pm).
Proof. cbn. auto. Qed.

(** * The sync handlers compute [ingested] *)

Lemma begin_request_fresh db :
  st_selected (begin_request db) = None /\
  st_deleted (begin_request db) = [] /\
  st_committed (begin_request db) = st_rows (begin_request db).
Proof. cbn. auto. Qed.

Lemma sync_emails_unfold srv user rq db :
  imap_available user = true ->
  sync_emails srv user rq db
  = handle db (sync_emails_body srv user (requested_folder rq)
                                (requested_limit rq)).
Proof.
  intros Hav. destruct (imap_available_checks user Hav) as (H1 & H2 & H3).
  unfold sync_emails. now rewrite H1, H2, H3.
Qed.

Lemma sync_emails_spec srv user rq db :
  imap_available user = true ->
  let o := sync_emails srv user rq db in
  let fld := requested_folder rq in
  let limit := requested_limit rq in
  match sync_target srv fld with
  | Some (sel, uids) =>
      let res := ingested (decide srv user fld sel) (Some limit)
                          (rev (py_slice_from (- limit) uids)) db in
      emails (db_after o) = snd (fst res) /\
      next_id (db_after o) = snd res /\
      (fst (fst res) = true -> status (response o) = error) /\
      (status (response o) = success ->
       count (response o) = Some (snd res - next_id db))
  | None =>
      db_after o = db /\ status (response o) <> success
  end.
Proof.
  intros Hav o fld limit. subst o.
  rewrite (sync_emails_unfold _ _ _ _ Hav). fold fld limit.
  destruct (begin_request_fresh db) as (Hs & Hd & Hc).
  pose proof (sync_emails_body_run srv user fld limit (begin_request db)
                Hd Hc) as Hrun.
  cbv zeta in Hrun.
  unfold sync_target.
  rewrite (target_of_run _ (begin_request db)
             (oblivious_sync_prefix srv fld) Hs).
  unfold handle, ingested.
  destruct (sync_prefix srv fld (begin_request db)) as [rp stp].
  destruct (sync_emails_body srv user fld limit (begin_request db))
    as [rb stb].
  cbn [fst snd] in Hrun. state_simpl.
  destruct rp as [|[uids|]].
  - destruct Hrun as (H1 & H2 & H3).
    destruct rb as [|resp]; state_simpl; rewrite H1, H2, db_eta.
    + split; [reflexivity|discriminate].
    + split; [reflexivity|]. now apply H3.
  - destruct Hrun as (H1 & H2 & H3 & H4).
    destruct rb as [|resp]; state_simpl; rewrite H1, H2.
    + repeat split; auto. discriminate.
    + destruct (H4 resp eq_refl) as [H5 H6].
      repeat split; auto.
      intros Hab. specialize (H3 Hab). discriminate.
  - destruct Hrun as (H1 & H2 & H3).
    destruct rb as [|resp]; state_simpl; rewrite H1, H2, db_eta.
    + split; [reflexivity|discriminate].
    + split; [reflexivity|]. now apply H3.
Qed.



Lemma decide_insert_fields srv user fld sel rows uid e :
  decide srv user fld sel rows uid = Insert e ->
  imap_uid e = Some uid /\ folder e = fld /\ user_id e = uid_of_user user.
Proof.
  intros H. apply decide_insert in H.
  destruct H as ((pm & -> & _) & _). cbn. auto.
Qed.

Lemma py_slice_last {A} (limit : Z) (l : list A) :
  0 < limit ->
  py_slice_from (- limit) l
  = skipn (List.length l - Z.to_nat limit) l.
Proof.
  intros H. unfold py_slice_from.
  destruct (0 <=? - limit) eqn:E; [apply Z.leb_le in E; lia|].
  f_equal. lia.
Qed.

Lemma py_slice_length {A} (limit : Z) (l : list A) :
  0 < limit ->
  Z.of_nat (List.length (py_slice_from (- limit) l)) <= limit.
Proof.
  intros H. rewrite py_slice_last by exact H. rewrite length_skipn. lia.
Qed.

(** * Full sync *)


Lemma ingest_no_break d limit uids :
  forall f rows next,
    Z.of_nat (List.length uids) + f <= limit ->
    ingest d (Some limit) uids f rows next = ingest d None uids f rows next.
Proof.
  induction uids as [|uid rest IH]; intros f rows next Hlen;
    [reflexivity|].
  cbn [ingest]. cbn [List.length] in Hlen.
  destruct (limit <=? f + 1) eqn:E.
  - apply Z.leb_le in E. assert (Hrest : rest = []).
    { destruct rest; [reflexivity|]. cbn [List.length] in Hlen. lia. }
    subst rest. destruct (d rows uid); reflexivity.
  - apply Z.leb_gt in E.
    destruct (d rows uid); try reflexivity; apply IH; lia.
Qed.

Lemma find_app_some {A} (p : A -> bool) l l' a :
  find p l = Some a -> find p (l ++ l') = Some a.
Proof.
  induction l as [|x l IH]; simpl; [discriminate|].
  destruct (p x); auto.
Qed.

Lemma find_app_is_some {A} (p : A -> bool) l l' :
  find p l <> None -> find p (l ++ l') <> None.
Proof.
  destruct (find p l) eqn:E; [|congruence].
  intros _. now rewrite (find_app_some _ _ _ _ E).
Qed.

(** A turn that stores nothing stores nothing either once rows were
    added. *)
Lemma decide_noop_stable srv user fld sel rows ext uid :
  decide srv user fld sel rows uid = Skip \/
  decide srv user fld sel rows uid = Counted ->
  decide srv user fld sel (rows ++ ext) uid = Skip \/
  decide srv user fld sel (rows ++ ext) uid = Counted.
Proof.
  unfold decide.
  destruct (query_by_uid (uid_of_user user) uid rows) eqn:Hq.
  - unfold query_by_uid in *. rewrite (find_app_some _ _ _ _ Hq). auto.
  - destruct (query_by_uid (uid_of_user user) uid (rows ++ ext));
      [auto|].
    destruct (srv_fetch srv sel uid) as [|[| |[|pm]]];
      cbn [parse_from_bytes]; auto.
    destruct (message_id_header (new_email user fld uid pm)) as [m|].
    + destruct (truthy_str m).
      * destruct (query_by_message_id (uid_of_user user) m rows) eqn:Hm.
        -- unfold query_by_message_id in *.
           rewrite (find_app_some _ _ _ _ Hm). auto.
        -- intros [H|H]; discriminate H.
      * intros [H|H]; discriminate H.
    + intros [H|H]; discriminate H.
Qed.

Lemma stored_uids_app u l l' :
  stored_uids u (l ++ l') = (stored_uids u l ++ stored_uids u l')%list.
Proof. unfold stored_uids. apply flat_map_app. Qed.

Lemma message_ids_app u l l' :
  message_ids u (l ++ l') = (message_ids u l ++ message_ids u l')%list.
Proof. unfold message_ids. apply flat_map_app. Qed.

Lemma stored_uids_one u a n :
  user_id a = u -> imap_uid a = Some n -> stored_uids u [a] = [n].
Proof.
  intros Hu Hn. unfold stored_uids. cbn [flat_map].
  now rewrite Hu, Z.eqb_refl, Hn.
Qed.

(** Once a message is stored, its UID is skipped. *)
Lemma decide_after_insert srv user fld sel rows uid e next ext :
  decide srv user fld sel rows uid = Insert e ->
  decide srv user fld sel ((rows ++ [with_id next e]) ++ ext) uid = Skip.
Proof.
  intros H. destruct (decide_insert_fields _ _ _ _ _ _ _ H)
    as (Hu & _ & Hus).
  unfold decide.
  destruct (query_by_uid (uid_of_user user) uid
              ((rows ++ [with_id next e]) ++ ext)) eqn:Hq; [reflexivity|].
  exfalso. apply query_by_uid_none in Hq. apply Hq.
  rewrite !stored_uids_app.
  rewrite (stored_uids_one (uid_of_user user) (with_id next e) uid);
    [|exact Hus|exact Hu].
  apply in_or_app. left. apply in_or_app. right. now left.
Qed.

Lemma ingest_extends d limit uids :
  forall f rows next,
  exists added,
    snd (fst (ingest d limit uids f rows next)) = (rows ++ added)%list.
Proof.
  induction uids as [|uid rest IH]; intros f rows next.
  - exists []. cbn. now rewrite app_nil_r.
  - cbn [ingest].
    assert (Hnone : exists added : list Email, rows = (rows ++ added)%list)
      by (exists []; now rewrite app_nil_r).
    destruct (d rows uid) as [| | |e]; auto.
    + destruct (match limit with Some l => l <=? f + 1 | None => false end);
        auto.
    + destruct (match limit with Some l => l <=? f + 1 | None => false end).
      * eexists. reflexivity.
      * destruct (IH (f + 1) (rows ++ [with_id next e])%list (next + 1))
          as (added & ->).
        exists (with_id next e :: added). now rewrite <- app_assoc.
Qed.

(** Running the loop of the full sync again on the rows it left changes
    nothing (without the [break]). *)
Lemma ingest_settles srv user fld sel uids :
  forall f rows next,
    let d := decide srv user fld sel in
    let res := ingest d None uids f rows next in
    ingest d None uids f (snd (fst res)) (snd res) = res.
Proof.
  induction uids as [|uid rest IH]; intros f rows next d res;
    [reflexivity|].
  subst res. cbn [ingest].
  destruct (d rows uid) as [| | |e] eqn:Hd.
  - destruct (ingest_extends d None rest f rows next) as (added & Hext).
    destruct (decide_noop_stable srv user fld sel rows added uid
                (or_introl Hd)) as [H|H];
      fold d in H; rewrite <- Hext in H; rewrite H.
    + apply IH.
    + rewrite (ingest_no_limit d rest (f + 1) f). apply IH.
  - destruct (ingest_extends d None rest (f + 1) rows next)
      as (added & Hext).
    destruct (decide_noop_stable srv user fld sel rows added uid
                (or_intror Hd)) as [H|H];
      fold d in H; rewrite <- Hext in H; rewrite H.
    + rewrite (ingest_no_limit d rest f (f + 1)). apply IH.
    + apply IH.
  - cbn [fst snd]. rewrite Hd. reflexivity.
  - destruct (ingest_extends d None rest (f + 1)
                (rows ++ [with_id next e])%list (next + 1))
      as (added & Hext).
    pose proof (decide_after_insert srv user fld sel rows uid e next added
                  Hd) as H.
    fold d in H. rewrite <- Hext in H. rewrite H.
    rewrite (ingest_no_limit d rest f (f + 1)). apply IH.
Qed.

Lemma in_stored_uids u e n rows :
  In e rows -> user_id e = u -> imap_uid e = Some n ->
  In n (stored_uids u rows).
Proof.
  intros Hin Hu Hn. unfold stored_uids. apply in_flat_map.
  exists e. split; [exact Hin|]. rewrite Hu, Z.eqb_refl, Hn. now left.
Qed.

Lemma in_message_ids u e m rows :
  In e rows -> user_id e = u -> message_id_header e = Some m ->
  truthy_str m = true ->
  In m (message_ids u rows).
Proof.
  intros Hin Hu Hm Ht. unfold message_ids. apply in_flat_map.
  exists e. split; [exact Hin|]. rewrite Hu, Z.eqb_refl, Hm, Ht. now left.
Qed.

Lemma NoDup_snoc {A} (l : list A) a :
  NoDup l -> ~ In a l -> NoDup (l ++ [a]).
Proof.
  intros ND Hn. induction ND as [|x l Hx ND IH]; cbn.
  - repeat constructor. intros [].
  - constructor.
    + intros Hin. apply in_app_or in Hin. cbn in Hin.
      destruct Hin as [Hin|[->|[]]]; [contradiction|].
      apply Hn. now left.
    + apply IH. intros Hin. apply Hn. now right.
Qed.

(** No row a loop adds presents a message that a row it started from
    already presents. *)
Lemma ingest_fresh srv user fld sel d limit uids rows0 :
  (forall rows uid e,
      d rows uid = Insert e ->
      decide srv user fld sel rows uid = Insert e) ->
  forall f next,
  exists added,
    snd (fst (ingest d limit uids f rows0 next)) = (rows0 ++ added)%list /\
    Forall (fun a => forall e, In e rows0 -> ~ same_message e a) added.
Proof.
  intros Hd f next.
  apply (ingest_invariant d limit
           (fun rows _ =>
              exists added,
                rows = (rows0 ++ added)%list /\
                Forall (fun a => forall e, In e rows0 -> ~ same_message e a)
                       added) uids).
  - intros rows nxt uid e _ (added & -> & Hall) Hins.
    apply Hd in Hins.
    destruct (decide_insert _ _ _ _ _ _ _ Hins)
      as ((pm & -> & _) & Hq & Hm).
    exists (added ++ [with_id nxt (new_email user fld uid pm)])%list.
    rewrite app_assoc. split; [reflexivity|].
    apply Forall_app. split; [exact Hall|]. repeat constructor.
    intros e0 Hin (Hus & [(n & Hn & Hn')|(m & Hm0 & Ht & Hm')]).
    + cbn in Hus, Hn'. injection Hn' as <-.
      apply query_by_uid_none in Hq. apply Hq.
      apply (in_stored_uids (uid_of_user user) e0 uid);
        [apply in_or_app; now left|now rewrite <- Hus|exact Hn].
    + cbn [with_id user_id message_id_header] in Hus, Hm'.
      specialize (Hm m Hm' Ht).
      apply (query_by_message_id_none _ _ _ Ht) in Hm. apply Hm.
      apply (in_message_ids (uid_of_user user) e0 m);
        [apply in_or_app; now left|now rewrite <- Hus|exact Hm0|exact Ht].
  - exists []. rewrite app_nil_r. split; [reflexivity|constructor].
Qed.

(** The UIDs of an account stay pairwise distinct, come from the UIDs the
    loop walks, and there is one per row when that held before. *)
Lemma ingest_uids srv user fld sel d limit uids obs :
  (forall rows uid e,
      d rows uid = Insert e ->
      decide srv user fld sel rows uid = Insert e) ->
  incl uids obs ->
  forall f rows next,
    let u := uid_of_user user in
    let good rows :=
      NoDup (stored_uids u rows) /\ incl (stored_uids u rows) obs /\
      List.length (rows_of u rows) = List.length (stored_uids u rows) in
    good rows -> good (snd (fst (ingest d limit uids f rows next))).
Proof.
  intros Hd Hincl f rows next u good Hgood.
  apply (ingest_invariant d limit (fun rows _ => good rows) uids);
    [|exact Hgood].
  clear rows next Hgood. intros rows nxt uid e Huid (ND & Hobs & Hlen) Hins.
  apply Hd in Hins.
  destruct (decide_insert _ _ _ _ _ _ _ Hins) as ((pm & -> & _) & Hq & _).
  apply query_by_uid_none in Hq. unfold good.
  rewrite stored_uids_app.
  rewrite (stored_uids_one u _ uid) by reflexivity.
  split; [|split].
  - now apply NoDup_snoc.
  - intros x Hx. apply in_app_or in Hx. destruct Hx as [Hx|[<-|[]]]; auto.
  - unfold rows_of. rewrite filter_app, !length_app. cbn [filter].
    cbn [with_id new_email user_id]. fold u. rewrite Z.eqb_refl.
    unfold rows_of in Hlen. rewrite Hlen. reflexivity.
Qed.

(** The non-empty message-id headers of an account stay pairwise
    distinct. *)
Lemma ingest_message_ids srv user fld sel d limit uids :
  (forall rows uid e,
      d rows uid = Insert e ->
      decide srv user fld sel rows uid = Insert e) ->
  forall f rows next,
    unique_message_ids (uid_of_user user) rows ->
    unique_message_ids (uid_of_user user)
                       (snd (fst (ingest d limit uids f rows next))).
Proof.
  intros Hd f rows next Hgood.
  apply (ingest_invariant d limit
           (fun rows _ => unique_message_ids (uid_of_user user) rows) uids);
    [|exact Hgood].
  clear rows next Hgood. intros rows nxt uid e _ ND Hins.
  apply Hd in Hins.
  destruct (decide_insert _ _ _ _ _ _ _ Hins) as ((pm & -> & _) & _ & Hm).
  unfold unique_message_ids in *. rewrite message_ids_app.
  assert (Hone : message_ids (uid_of_user user)
                   [with_id nxt (new_email user fld uid pm)]
                 = match message_id_header (new_email user fld uid pm) with
                   | Some m => if truthy_str m then [m] else []
                   | None => []
                   end).
  { unfold message_ids. cbn [flat_map with_id user_id new_email].
    rewrite Z.eqb_refl, app_nil_r. reflexivity. }
  rewrite Hone. clear Hone.
  destruct (message_id_header (new_email user fld uid pm)) as [m|] eqn:E.
  - destruct (truthy_str m) eqn:Ht.
    + apply NoDup_snoc; [exact ND|].
      apply (query_by_message_id_none _ _ _ Ht). now apply Hm.
    + now rewrite app_nil_r.
  - now rewrite app_nil_r.
Qed.

Lemma sync_emails_nulls srv user rq db :
  desc_nulls_first (db_after (sync_emails srv user rq db))
  = desc_nulls_first db.
Proof.
  unfold sync_emails.
  destruct (negb (truthy_ostr (decrypted_password user))); [reflexivity|].
  destruct (negb (truthy_ostr (imap_host user))
            || negb (truthy_oint (imap_port user))); [reflexivity|].
  unfold handle. destruct (sync_emails_body _ _ _ _ _) as [[|r] st];
    reflexivity.
Qed.

Lemma in_skipn {A} (n : nat) (l : list A) x : In x (skipn n l) -> In x l.
Proof.
  intros H. rewrite <- (firstn_skipn n l). apply in_or_app. now right.
Qed.

Lemma incl_py_slice {A} (start : Z) (l : list A) :
  incl (rev (py_slice_from start l)) l.
Proof.
  intros x Hx. apply in_rev in Hx. unfold py_slice_from in Hx.
  destruct (0 <=? start); eapply in_skipn; exact Hx.
Qed.

Lemma db_ext (a b : Db) :
  emails a = emails b -> next_id a = next_id b ->
  desc_nulls_first a = desc_nulls_first b -> a = b.
Proof. destruct a, b. cbn. now intros -> -> ->. Qed.

Lemma sync_emails_twice srv user rq db :
  imap_available user = true ->
  0 < requested_limit rq ->
  let once := sync_emails srv user rq db in
  let again := sync_emails srv user rq (db_after once) in
  db_after again = db_after once /\
  (status (response again) = success -> count (response again) = Some 0).
Proof.
  intros Hav Hpos once again.
  pose proof (sync_emails_spec srv user rq db Hav) as H1.
  pose proof (sync_emails_spec srv user rq (db_after once) Hav) as H2.
  cbv zeta in H1, H2. fold once in H1. fold again in H2.
  destruct (sync_target srv (requested_folder rq)) as [[sel uids]|].
  - unfold ingested in *.
    set (d := decide srv user (requested_folder rq) sel) in *.
    set (walk := rev (py_slice_from (- requested_limit rq) uids)) in *.
    assert (Hlen : Z.of_nat (List.length walk) + 0 <= requested_limit rq).
    { subst walk. rewrite length_rev, Z.add_0_r.
      now apply py_slice_length. }
    rewrite !(ingest_no_break d _ walk 0 _ _ Hlen) in *.
    destruct H1 as (E1 & N1 & _). destruct H2 as (E2 & N2 & _ & C2).
    rewrite E1, N1 in E2, N2, C2.
    pose proof (ingest_settles srv user (requested_folder rq) sel walk 0
                  (emails db) (next_id db)) as Hs.
    cbv zeta in Hs. fold d in Hs. rewrite Hs in E2, N2, C2.
    split.
    + apply db_ext; [congruence|congruence|].
      unfold again. rewrite !sync_emails_nulls. reflexivity.
    + intros Hok. rewrite (C2 Hok). f_equal. lia.
  - destruct H1 as (E1 & _). destruct H2 as (E2 & S2).
    split; [exact E2|]. intros Hok. contradiction.
Qed.

Lemma decide_refines_itself srv user fld sel :
  forall rows uid e,
    decide srv user fld sel rows uid = Insert e ->
    decide srv user fld sel rows uid = Insert e.
Proof. auto. Qed.

Lemma sync_emails_fresh srv user rq db :
  imap_available user = true ->
  exists added,
    emails (db_after (sync_emails srv user rq db))
    = (emails db ++ added)%list /\
    Forall (fun a => forall e, In e (emails db) -> ~ same_message e a) added.
Proof.
  intros Hav. pose proof (sync_emails_spec srv user rq db Hav) as H.
  cbv zeta in H.
  destruct (sync_target srv (requested_folder rq)) as [[sel uids]|].
  - destruct H as (-> & _). unfold ingested.
    apply (ingest_fresh srv user (requested_folder rq) sel).
    apply decide_refines_itself.
  - destruct H as (-> & _). exists []. rewrite app_nil_r.
    split; [reflexivity|constructor].
Qed.

Lemma sync_emails_uids srv user rq db :
  imap_available user = true ->
  let u := uid_of_user user in
  let obs := observed_uids srv (requested_folder rq) in
  let good rows :=
    NoDup (stored_uids u rows) /\ incl (stored_uids u rows) obs /\
    List.length (rows_of u rows) = List.length (stored_uids u rows) in
  good (emails db) ->
  good (emails (db_after (sync_emails srv user rq db))).
Proof.
  intros Hav u obs good Hgood.
  pose proof (sync_emails_spec srv user rq db Hav) as H.
  cbv zeta in H. subst obs. unfold observed_uids in *.
  destruct (sync_target srv (requested_folder rq)) as [[sel uids]|].
  - destruct H as (-> & _). unfold ingested.
    apply (ingest_uids srv user (requested_folder rq) sel _ _ _ uids
             (decide_refines_itself srv user (requested_folder rq) sel)
             (incl_py_slice _ _)).
    exact Hgood.
  - destruct H as (-> & _). exact Hgood.
Qed.

Lemma sync_emails_keeps_uids_distinct srv user rq db :
  imap_available user = true ->
  NoDup (stored_uids (uid_of_user user) (emails db)) ->
  NoDup (stored_uids (uid_of_user user)
                     (emails (db_after (sync_emails srv user rq db)))).
Proof.
  intros Hav ND. pose proof (sync_emails_spec srv user rq db Hav) as H.
  cbv zeta in H.
  destruct (sync_target srv (requested_folder rq)) as [[sel uids]|].
  - destruct H as (-> & _). unfold ingested.
    apply (ingest_invariant _ _
             (fun rows _ => NoDup (stored_uids (uid_of_user user) rows)));
      [|exact ND].
    intros rows nxt uid e _ NDr Hins.
    destruct (decide_insert _ _ _ _ _ _ _ Hins) as ((pm & -> & _) & Hq & _).
    apply query_by_uid_none in Hq. rewrite stored_uids_app.
    rewrite (stored_uids_one _ _ uid) by reflexivity.
    now apply NoDup_snoc.
  - destruct H as (-> & _). exact ND.
Qed.

Lemma repeat_sync_bounded srv user rq db n :
  imap_available user = true ->
  emails db = [] ->
  (List.length (rows_of (uid_of_user user)
                        (emails (repeat_sync srv user rq n db)))
   <= List.length (nodup Z.eq_dec
                         (observed_uids srv (requested_folder rq))))%nat.
Proof.
  intros Hav Hempty.
  set (u := uid_of_user user).
  set (obs := observed_uids srv (requested_folder rq)).
  assert (Hgood :
    NoDup (stored_uids u (emails (repeat_sync srv user rq n db))) /\
    incl (stored_uids u (emails (repeat_sync srv user rq n db))) obs /\
    List.length (rows_of u (emails (repeat_sync srv user rq n db)))
    = List.length (stored_uids u (emails (repeat_sync srv user rq n db)))).
  { induction n as [|n IH].
    - cbn. rewrite Hempty. cbn. repeat split; [constructor|].
      intros x [].
    - cbn [repeat_sync Nat.iter].
      apply (sync_emails_uids srv user rq _ Hav). exact IH. }
  destruct Hgood as (ND & Hincl & ->).
  apply NoDup_incl_length; [exact ND|].
  apply nodup_incl. exact Hincl.
Qed.

(** C1 (as the code has it). Re-running a full sync over the same remote
    messages (same server, account, folder and limit) leaves the database
    as the first run left it and reports zero new emails, for a positive
    limit.  For every
    limit, a run keeps the rows it started from and adds no row for a
    message that one of them already presents (same account and UID, in
    whatever folder), so the UIDs of the account stay pairwise distinct;
    and starting from an empty database, after any number of runs the
    account has at most as many rows as the server listed distinct UIDs. *)
Theorem full_sync_idempotent srv user rq db :
  imap_available user = true ->
  let u := uid_of_user user in
  let once := sync_emails srv user rq db in
  let again := sync_emails srv user rq (db_after once) in
  (0 < requested_limit rq ->
   db_after again = db_after once /\
   (status (response again) = success -> count (response again) = Some 0)) /\
  (exists added,
      emails (db_after once) = (emails db ++ added)%list /\
      Forall (fun a => forall e, In e (emails db) -> ~ same_message e a)
             added) /\
  (NoDup (stored_uids u (emails db)) ->
   NoDup (stored_uids u (emails (db_after once)))) /\
  (emails db = [] ->
   forall n,
     (List.length (rows_of u (emails (repeat_sync srv user rq n db)))
      <= List.length (nodup Z.eq_dec
                            (observed_uids srv (requested_folder rq))))%nat).
Proof.
  intros Hav u once again. split; [|split; [|split]].
  - intros Hpos. now apply sync_emails_twice.
  - now apply sync_emails_fresh.
  - now apply sync_emails_keeps_uids_distinct.
  - intros Hempty n. now apply repeat_sync_bounded.
Qed.

Lemma full_sync_idempotent_witness :
  let srv := accepting_server [10; 11; 12] in
  let user := sample_user in
  let rq := mkSyncRequest (Some "inbox") (Some 2) in
  let db := empty_db in
  let u := uid_of_user user in
  let once := sync_emails srv user rq db in
  let again := sync_emails srv user rq (db_after once) in
  (db_after again = db_after once /\
   (status (response again) = success -> count (response again) = Some 0)) /\
  (exists added,
      emails (db_after once) = (emails db ++ added)%list /\
      Forall (fun a => forall e, In e (emails db) -> ~ same_message e a)
             added) /\
  (NoDup (stored_uids u (emails db)) ->
   NoDup (stored_uids u (emails (db_after once)))) /\
  (emails db = [] ->
   forall n,
     (List.length (rows_of u (emails (repeat_sync srv user rq n db)))
      <= List.length (nodup Z.eq_dec
                            (observed_uids srv (requested_folder rq))))%nat).
Proof.
  destruct (full_sync_idempotent (accepting_server [10; 11; 12]) sample_user
              (mkSyncRequest (Some "inbox") (Some 2)) empty_db)
    as (H1 & H2).
  - vm_compute. reflexivity.
  - split; [apply H1; vm_compute; reflexivity|exact H2].
Defined.

(** ** The walk of a full sync *)









(** C1 as stated fails for a limit of zero: the loop then walks the whole
    listing and stops after the first message it counts, so a second run
    over the same remote messages stores one more record. *)
Lemma full_sync_rerun_counterexample :
  let rq := mkSyncRequest (Some "inbox") (Some 0) in
  let srv := accepting_server [10; 11; 12] in
  let once := sync_emails srv sample_user rq empty_db in
  let again := sync_emails srv sample_user rq (db_after once) in
  map imap_uid (emails (db_after once)) = [Some 12] /\
  map imap_uid (emails (db_after again)) = [Some 12; Some 11] /\
  status (response again) = success /\
  count (response again) = Some 1 /\
  db_after again <> db_after once.
Proof.
  cbv zeta.
  assert (E1 : map imap_uid
                 (emails (db_after
                            (sync_emails (accepting_server [10; 11; 12])
                               sample_user
                               (mkSyncRequest (Some "inbox") (Some 0))
                               empty_db))) = [Some 12])
    by (vm_compute; reflexivity).
  assert (E2 : map imap_uid
                 (emails (db_after
                            (sync_emails (accepting_server [10; 11; 12])
                               sample_user
                               (mkSyncRequest (Some "inbox") (Some 0))
                               (db_after
                                  (sync_emails
                                     (accepting_server [10; 11; 12])
                                     sample_user
                                     (mkSyncRequest (Some "inbox") (Some 0))
                                     empty_db)))))
               = [Some 12; Some 11])
    by (vm_compute; reflexivity).
  split; [exact E1|]. split; [exact E2|].
  split; [vm_compute; reflexivity|]. split; [vm_compute; reflexivity|].
  intros H. rewrite H, E1 in E2. discriminate E2.
Qed.

(** * Incremental sync *)

Lemma sync_new_emails_body_run srv user fld db st0 :
  st_deleted st0 = [] ->
  st_committed st0 = st_rows st0 ->
  let b := sync_new_emails_body srv user fld db st0 in
  match cursor db user fld with
  | None =>
      st_committed (snd b) = st_committed st0 /\
      st_next_id (snd b) = st_next_id st0 /\
      (forall resp, fst b = Replies resp ->
                    status resp <> success /\ new_emails resp = [])
  | Some last_uid =>
      let p := sync_new_prefix srv fld (search_query_of last_uid) st0 in
      match fst p with
      | Replies (Some uids) =>
          let res := ingest (decide_new srv user fld last_uid
                                        (st_selected (snd p)))
                            None (rev (py_slice_from (-20) uids)) 0
                            (st_rows st0) (st_next_id st0) in
          st_committed (snd b) = snd (fst res) /\
          st_next_id (snd b) = snd res /\
          (fst (fst res) = true -> fst b = Raises) /\
          (forall resp, fst b = Replies resp ->
                        status resp = success /\
                        snd (fst res)
                        = (st_rows st0 ++ new_emails resp)%list /\
                        count resp
                        = Some (Z.of_nat (List.length (new_emails resp))))
      | _ =>
          st_committed (snd b) = st_committed st0 /\
          st_next_id (snd b) = st_next_id st0 /\
          (forall resp, fst b = Replies resp ->
                        status resp <> success /\ new_emails resp = [])
      end
  end.
Proof.
  intros Hd Hc b. subst b.
  unfold sync_new_prefix, sync_new_emails_body, search_query_of.
  destruct (imap_login srv st0) as [[|[]] st1] eqn:E1;
    rewrite ?(bind_run _ _ _ _ _ E1).
  - pose proof (preserves_run _ _ _ _ _ (imap_login_same_db st0 srv)
                  (same_db_refl st0) E1) as (_ & _ & H3 & H4).
    destruct (cursor db user fld); rewrite ?(bind_run _ _ _ _ _ E1);
      run_done.
  - pose proof (preserves_run _ _ _ _ _ (imap_login_same_db st0 srv)
                  (same_db_refl st0) E1) as F1.
    destruct (sync_new_select_folder srv fld st1) as [[|ready] st2] eqn:E2;
      rewrite ?(bind_run _ _ _ _ _ E2);
      pose proof (preserves_run _ _ _ _ _
                    (sync_new_select_folder_same_db st0 srv fld) F1 E2)
        as F2.
    + destruct F2 as (_ & _ & H3 & H4).
      destruct (cursor db user fld);
        rewrite ?(bind_run _ _ _ _ _ E1), ?(bind_run _ _ _ _ _ E2);
        run_done.
    + destruct (cursor db user fld) as [last_uid|];
        rewrite ?(bind_run _ _ _ _ _ E1), ?(bind_run _ _ _ _ _ E2).
      2: { destruct F2 as (_ & _ & H3 & H4). destruct ready; run_done;
           match goal with H : Replies _ = Replies _ |- _ =>
             injection H as <- end; cbn; auto; discriminate. }
      destruct ready.
      2: { destruct F2 as (_ & _ & H3 & H4). run_done;
           match goal with H : Replies _ = Replies _ |- _ =>
             injection H as <- end; cbn; auto; discriminate. }
      set (q := if 0 <? last_uid then SearchUidFrom (last_uid + 1)
                else SearchAll).
      destruct (imap_search srv q st2) as [[|[uids|]] st3] eqn:E3;
        rewrite ?(bind_run _ _ _ _ _ E3);
        pose proof (preserves_run _ _ _ _ _
                      (imap_search_same_db st0 srv q) F2 E3) as F3.
      * destruct F3 as (_ & _ & H3 & H4). run_done.
      * cbn [fst snd]. destruct F3 as (Hr & Hdel & Hcom & Hnext).
        pose proof (sync_new_loop_refines srv user fld last_uid
                      (rev (py_slice_from (-20) uids)) [] st3) as Hl.
        rewrite Hdel, Hcom, Hr, Hnext in Hl.
        specialize (Hl Hd Hc). unfold wp in Hl. cbv zeta in Hl.
        destruct (sync_new_loop srv user fld last_uid
                    (rev (py_slice_from (-20) uids)) [] st3)
          as [r4 st4] eqn:E4.
        rewrite (bind_run _ _ _ _ _ E4).
        cbn [fst snd] in Hl.
        destruct Hl as (L1 & L2 & L3 & L4 & L5 & added & L6 & L7).
        destruct (fst (fst (ingest _ _ _ _ _ _))) eqn:Hab.
        -- subst r4. cbn [fst snd]. rewrite L3, L1, L2. run_done.
        -- subst r4. cbn [app] in *.
           destruct (imap_logout srv st4) as [[|[]] st5] eqn:E5;
             rewrite (bind_run _ _ _ _ _ E5);
             pose proof (preserves_run _ _ _ _ _
                           (imap_logout_same_db st4 srv)
                           (same_db_refl st4) E5) as (_ & _ & G3 & G4);
             cbn [fst snd ret]; rewrite G3, G4, L3, <- L1, L2.
           ++ run_done.
           ++ run_done;
                match goal with H : Replies _ = Replies _ |- _ =>
                  injection H as <- end; cbn [status count new_emails];
                auto.
      * destruct (imap_logout srv st3) as [[|[]] st5] eqn:E5;
          rewrite (bind_run _ _ _ _ _ E5);
          pose proof (preserves_run _ _ _ _ _
                        (imap_logout_same_db st0 srv) F3 E5)
            as (_ & _ & G3 & G4);
          run_done;
          match goal with H : Replies _ = Replies _ |- _ =>
            injection H as <- end; cbn; auto; discriminate.
Qed.

Lemma sync_new_emails_unfold srv user rq db :
  imap_available user = true ->
  sync_new_emails srv user rq db
  = handle db (sync_new_emails_body srv user (requested_folder rq) db).
Proof.
  intros Hav. destruct (imap_available_checks user Hav) as (H1 & H2 & H3).
  unfold sync_new_emails. now rewrite H1, H2, H3.
Qed.

Lemma sync_new_emails_spec srv user rq db :
  imap_available user = true ->
  let o := sync_new_emails srv user rq db in
  let fld := requested_folder rq in
  match cursor db user fld with
  | None =>
      db_after o = db /\ status (response o) <> success /\
      new_emails (response o) = []
  | Some last_uid =>
      match sync_new_target srv fld (search_query_of last_uid) with
      | Some (sel, uids) =>
          let res := ingested (decide_new srv user fld last_uid sel) None
                              (rev (py_slice_from (-20) uids)) db in
          emails (db_after o) = snd (fst res) /\
          next_id (db_after o) = snd res /\
          (fst (fst res) = true -> status (response o) = error) /\
          (status (response o) = success ->
           snd (fst res) = (emails db ++ new_emails (response o))%list /\
           count (response o)
           = Some (Z.of_nat (List.length (new_emails (response o)))))
      | None =>
          db_after o = db /\ status (response o) <> success /\
          new_emails (response o) = []
      end
  end.
Proof.
  intros Hav o fld. subst o.
  rewrite (sync_new_emails_unfold _ _ _ _ Hav). fold fld.
  destruct (begin_request_fresh db) as (Hs & Hd & Hc).
  pose proof (sync_new_emails_body_run srv user fld db (begin_request db)
                Hd Hc) as Hrun.
  cbv zeta in Hrun. unfold handle.
  destruct (cursor db user fld) as [last_uid|].
  - unfold sync_new_target.
    rewrite (target_of_run _ (begin_request db)
               (oblivious_sync_new_prefix srv fld _) Hs).
    unfold ingested.
    destruct (sync_new_prefix srv fld (search_query_of last_uid)
                (begin_request db)) as [rp stp].
    destruct (sync_new_emails_body srv user fld db (begin_request db))
      as [rb stb].
    cbn [fst snd] in Hrun. state_simpl.
    destruct rp as [|[uids|]].
    + destruct Hrun as (H1 & H2 & H3).
      destruct rb as [|resp]; state_simpl; rewrite H1, H2, db_eta.
      * repeat split; auto. discriminate.
      * destruct (H3 resp eq_refl). auto.
    + destruct Hrun as (H1 & H2 & H3 & H4).
      destruct rb as [|resp]; state_simpl; rewrite H1, H2.
      * repeat split; auto; discriminate.
      * destruct (H4 resp eq_refl) as (H5 & H6 & H7).
        repeat split; auto.
        intros Hab. specialize (H3 Hab). discriminate.
    + destruct Hrun as (H1 & H2 & H3).
      destruct rb as [|resp]; state_simpl; rewrite H1, H2, db_eta.
      * repeat split; auto. discriminate.
      * destruct (H3 resp eq_refl). auto.
  - destruct (sync_new_emails_body srv user fld db (begin_request db))
      as [rb stb].
    cbn [fst snd] in Hrun. destruct Hrun as (H1 & H2 & H3).
    destruct rb as [|resp]; state_simpl; rewrite H1, H2, db_eta.
    + repeat split; auto. discriminate.
    + destruct (H3 resp eq_refl). auto.
Qed.

Lemma sync_emails_unconfigured srv user rq db :
  imap_available user = false ->
  db_after (sync_emails srv user rq db) = db.
Proof.
  unfold imap_available, sync_emails. intros H.
  destruct (truthy_ostr (decrypted_password user)); [|reflexivity].
  destruct (truthy_ostr (imap_host user)); [|reflexivity].
  destruct (truthy_oint (imap_port user)); [discriminate|reflexivity].
Qed.

Lemma sync_new_emails_unconfigured srv user rq db :
  imap_available user = false ->
  db_after (sync_new_emails srv user rq db) = db.
Proof.
  unfold imap_available, sync_new_emails. intros H.
  destruct (truthy_ostr (decrypted_password user)); [|reflexivity].
  destruct (truthy_ostr (imap_host user)); [|reflexivity].
  destruct (truthy_oint (imap_port user)); [discriminate|reflexivity].
Qed.

Lemma decide_new_refines srv user fld last sel :
  forall rows uid e,
    decide_new srv user fld last sel rows uid = Insert e ->
    decide srv user fld sel rows uid = Insert e.
Proof. intros rows uid e H. now apply decide_new_insert in H. Qed.

(** Either sync leaves the database as the rows of [ingest] for some
    decision function that refines [decide], or as it was. *)
Lemma run_sync_shape user c db :
  run_sync user c db = db \/
  exists fld sel d limit uids f,
    (forall rows uid e,
        d rows uid = Insert e ->
        decide (match c with FullSync s _ | NewSync s _ => s end)
               user fld sel rows uid = Insert e) /\
    emails (run_sync user c db)
    = snd (fst (ingest d limit uids f (emails db) (next_id db))).
Proof.
  destruct (imap_available user) eqn:Hav.
  2: { left. destruct c; cbn [run_sync];
       [now apply sync_emails_unconfigured
       |now apply sync_new_emails_unconfigured]. }
  destruct c as [srv rq|srv rq]; cbn [run_sync].
  - pose proof (sync_emails_spec srv user rq db Hav) as H. cbv zeta in H.
    destruct (sync_target srv (requested_folder rq)) as [[sel uids]|].
    + right. destruct H as (H & _). unfold ingested in H.
      exists (requested_folder rq), sel,
        (decide srv user (requested_folder rq) sel),
        (Some (requested_limit rq)),
        (rev (py_slice_from (- requested_limit rq) uids)), 0.
      split; [auto|exact H].
    + left. tauto.
  - pose proof (sync_new_emails_spec srv user rq db Hav) as H.
    cbv zeta in H.
    destruct (cursor db user (requested_folder rq)) as [last|];
      [|left; tauto].
    destruct (sync_new_target srv (requested_folder rq)
                (search_query_of last)) as [[sel uids]|];
      [|left; tauto].
    right. destruct H as (H & _). unfold ingested in H.
    exists (requested_folder rq), sel,
      (decide_new srv user (requested_folder rq) last sel), None,
      (rev (py_slice_from (-20) uids)), 0.
    split; [apply decide_new_refines|exact H].
Qed.

Lemma run_sync_fresh user c db :
  exists added,
    emails (run_sync user c db) = (emails db ++ added)%list /\
    Forall (fun a => forall e, In e (emails db) -> ~ same_message e a) added.
Proof.
  destruct (run_sync_shape user c db)
    as [->|(fld & sel & d & limit & uids & f & Hd & ->)].
  - exists []. rewrite app_nil_r. split; [reflexivity|constructor].
  - eapply ingest_fresh. exact Hd.
Qed.

Lemma run_sync_message_ids user c db :
  unique_message_ids (uid_of_user user) (emails db) ->
  unique_message_ids (uid_of_user user) (emails (run_sync user c db)).
Proof.
  intros H. destruct (run_sync_shape user c db)
    as [->|(fld & sel & d & limit & uids & f & Hd & ->)]; [exact H|].
  eapply ingest_message_ids; eauto.
Qed.

(** C2. Whatever sequence of full and incremental syncs an account runs,
    against whatever servers, no two of its rows carry the same non-empty
    message-id header afterwards if none did before (in particular when
    the syncs start from an empty database): a sync adds no row whose
    account and header, or account and UID, an existing row already has. *)
Theorem syncs_keep_message_ids_unique user calls db :
  unique_message_ids (uid_of_user user) (emails db) ->
  unique_message_ids (uid_of_user user) (emails (run_syncs user calls db)) /\
  (forall c,
      exists added,
        emails (run_sync user c db) = (emails db ++ added)%list /\
        Forall (fun a => forall e, In e (emails db) -> ~ same_message e a)
               added).
Proof.
  intros H. split; [|intros c; apply run_sync_fresh].
  revert db H. induction calls as [|c calls IH]; intros db H; [exact H|].
  cbn [run_syncs fold_left]. apply IH. now apply run_sync_message_ids.
Qed.

Lemma syncs_keep_message_ids_unique_witness :
  let calls := [FullSync (accepting_server [10; 11; 12])
                         (mkSyncRequest None None);
                NewSync (accepting_server [10; 11; 12; 13])
                        (mkSyncRequest None None)] in
  unique_message_ids (uid_of_user sample_user)
                     (emails (run_syncs sample_user calls empty_db)) /\
  (forall c,
      exists added,
        emails (run_sync sample_user c empty_db)
        = (emails empty_db ++ added)%list /\
        Forall (fun a => forall e, In e (emails empty_db) ->
                                   ~ same_message e a) added).
Proof.
  apply (syncs_keep_message_ids_unique sample_user
           [FullSync (accepting_server [10; 11; 12])
                     (mkSyncRequest None None);
            NewSync (accepting_server [10; 11; 12; 13])
                    (mkSyncRequest None None)] empty_db).
  unfold unique_message_ids. simpl. constructor.
Defined.

(** C3. A message whose row sits in trash or archive is not brought back by
    a sync of the inbox, full or incremental: the row stays as it is, and
    no added row has its account together with its UID or its non-empty
    message-id header. *)
Theorem moved_message_not_resurrected user c db e :
  In e (emails db) ->
  user_id e = uid_of_user user ->
  str_in (folder e) ["trash"; "archive"] = true ->
  requested_folder (call_request c) = "inbox" ->
  exists added,
    emails (run_sync user c db) = (emails db ++ added)%list /\
    In e (emails (run_sync user c db)) /\
    Forall (fun a => ~ same_message e a) added.
Proof.
  intros Hin _ _ _.
  destruct (run_sync_fresh user c db) as (added & E & F).
  exists added. split; [exact E|]. split.
  - rewrite E. apply in_or_app. now left.
  - eapply Forall_impl; [|exact F]. cbv beta. intros a H. now apply H.
Qed.

Lemma moved_message_not_resurrected_witness :
  let e := sample_row 2 "trash" (Some 6) in
  let kept c :=
    exists added,
      emails (run_sync sample_user c sample_db)
      = (emails sample_db ++ added)%list /\
      In e (emails (run_sync sample_user c sample_db)) /\
      Forall (fun a => ~ same_message e a) added in
  kept (FullSync (accepting_server [5; 6; 7]) (mkSyncRequest None None)) /\
  kept (NewSync (accepting_server [5; 6; 7]) (mkSyncRequest None None)).
Proof.
  split;
    apply (moved_message_not_resurrected sample_user _ sample_db
             (sample_row 2 "trash" (Some 6)));
    try reflexivity; simpl; auto.
Defined.

(** * Incremental sync *)

Lemma desc_before_cotrans nf a b c :
  desc_before nf a c = true ->
  desc_before nf a b = true \/ desc_before nf b c = true.
Proof.
  destruct a as [x|], b as [y|], c as [z|], nf; cbn; intros H;
    try discriminate; auto;
    apply Z.ltb_lt in H;
    (destruct (y <? x) eqn:E; [now left|]);
    right; apply Z.ltb_ge in E; apply Z.ltb_lt; lia.
Qed.

Lemma desc_before_trans nf a b c :
  desc_before nf a b = true -> desc_before nf b c = true ->
  desc_before nf a c = true.
Proof.
  destruct a as [x|], b as [y|], c as [z|], nf; cbn; intros H1 H2;
    try discriminate; auto.
  all: apply Z.ltb_lt in H1; apply Z.ltb_lt in H2; apply Z.ltb_lt; lia.
Qed.

Lemma desc_before_irrefl nf a : desc_before nf a a = false.
Proof. destruct a as [x|]; cbn; [apply Z.ltb_irrefl|reflexivity]. Qed.

Lemma latest_fold nf (l : list Email) :
  forall best,
    let step := fun best e =>
                  match best with
                  | None => Some e
                  | Some b =>
                      if desc_before nf (imap_uid e) (imap_uid b)
                      then Some e else best
                  end in
    match fold_left step l best with
    | None => best = None /\ l = []
    | Some b =>
        (best = Some b \/ In b l) /\
        forall e, best = Some e \/ In e l ->
                  desc_before nf (imap_uid e) (imap_uid b) = false
    end.
Proof.
  induction l as [|x rest IH]; intros best step.
  - cbn. destruct best as [b|]; [|auto]. split; [now left|].
    intros e [[= ->]|[]]. apply desc_before_irrefl.
  - cbn [fold_left]. specialize (IH (step best x)). cbv zeta in IH.
    fold step in IH |- *.
    destruct (fold_left step rest (step best x)) as [b|].
    + destruct IH as (Hb & Hmax). split.
      * destruct Hb as [Hb|Hb]; [|right; now right].
        destruct best as [b0|]; cbn in Hb.
        -- destruct (desc_before nf (imap_uid x) (imap_uid b0));
             injection Hb as <-; [right|]; now left.
        -- injection Hb as <-. right. now left.
      * intros e [He|[<-|He]].
        -- subst best. cbn in Hmax.
           destruct (desc_before nf (imap_uid x) (imap_uid e)) eqn:E.
           ++ destruct (desc_before nf (imap_uid e) (imap_uid b)) eqn:E2;
                [|reflexivity].
              assert (Hx : desc_before nf (imap_uid x) (imap_uid b) = false)
                by (apply Hmax; now left).
              rewrite (desc_before_trans nf _ _ _ E E2) in Hx.
              discriminate.
           ++ apply Hmax. now left.
        -- destruct best as [b0|]; cbn in Hmax.
           ++ destruct (desc_before nf (imap_uid x) (imap_uid b0)) eqn:E.
              ** apply Hmax. now left.
              ** destruct (desc_before nf (imap_uid x) (imap_uid b)) eqn:E2;
                   [|reflexivity].
                 destruct (desc_before_cotrans nf _ (imap_uid b0) _ E2)
                   as [H|H]; [congruence|].
                 rewrite (Hmax b0 (or_introl eq_refl)) in H. discriminate.
           ++ apply Hmax. now left.
        -- apply Hmax. now right.
    + destruct IH as (Hb & _). destruct best as [b0|]; cbn in Hb;
        [destruct (desc_before nf (imap_uid x) (imap_uid b0))|];
        discriminate.
Qed.

Lemma in_folder_filter db u fld e :
  in_folder db u fld e <->
  In e (filter (fun e => (user_id e =? u) && (folder e =? fld)%string)
               (emails db)).
Proof.
  unfold in_folder. rewrite filter_In, andb_true_iff, Z.eqb_eq,
    String.eqb_eq. tauto.
Qed.

(** The cursor, when it is a number, is the largest stored UID of the
    folder, or 0 when the folder has no row. *)
Lemma cursor_max db user fld C :
  cursor db user fld = Some C ->
  (forall e n, in_folder db (uid_of_user user) fld e ->
               imap_uid e = Some n -> n <= C) /\
  ((exists e, in_folder db (uid_of_user user) fld e /\ imap_uid e = Some C)
   \/ (C = 0 /\ forall e, ~ in_folder db (uid_of_user user) fld e)).
Proof.
  unfold cursor, latest_email. intros H.
  pose proof (latest_fold (desc_nulls_first db)
                (filter (fun e => (user_id e =? uid_of_user user)
                                  && (folder e =? fld)%string) (emails db))
                None) as L.
  cbv zeta in L.
  destruct (fold_left _ _ None) as [b|].
  - destruct L as ([[=]|Hb] & Hmax). split.
    + intros e n He Hn. apply in_folder_filter in He.
      specialize (Hmax e (or_intror He)). rewrite Hn, H in Hmax.
      cbn in Hmax. apply Z.ltb_ge in Hmax. exact Hmax.
    + left. exists b. split; [now apply in_folder_filter|exact H].
  - destruct L as (_ & L). injection H as <-. split.
    + intros e n He. apply in_folder_filter in He. rewrite L in He.
      destruct He.
    + right. split; [reflexivity|]. intros e He.
      apply in_folder_filter in He. rewrite L in He. destruct He.
Qed.

Lemma cursor_defined db user fld :
  (forall e, in_folder db (uid_of_user user) fld e -> imap_uid e <> None) ->
  exists C, cursor db user fld = Some C.
Proof.
  unfold cursor, latest_email. intros H.
  pose proof (latest_fold (desc_nulls_first db)
                (filter (fun e => (user_id e =? uid_of_user user)
                                  && (folder e =? fld)%string) (emails db))
                None) as L.
  cbv zeta in L.
  destruct (fold_left _ _ None) as [b|]; [|now exists 0].
  destruct L as ([[=]|Hb] & _). apply in_folder_filter in Hb.
  specialize (H b Hb). destruct (imap_uid b) as [C|]; [now exists C|].
  now elim H.
Qed.

(** Every row an incremental sync adds lies above the cursor. *)
Lemma sync_new_emails_above srv user rq db C :
  imap_available user = true ->
  cursor db user (requested_folder rq) = Some C ->
  exists added,
    emails (db_after (sync_new_emails srv user rq db))
    = (emails db ++ added)%list /\
    Forall (fun a => exists n, imap_uid a = Some n /\ C < n) added.
Proof.
  intros Hav HC.
  pose proof (sync_new_emails_spec srv user rq db Hav) as H.
  cbv zeta in H. rewrite HC in H.
  destruct (sync_new_target srv (requested_folder rq) (search_query_of C))
    as [[sel uids]|].
  - destruct H as (-> & _). unfold ingested.
    apply (ingest_invariant _ None
             (fun rows _ =>
                exists added,
                  rows = (emails db ++ added)%list /\
                  Forall (fun a => exists n, imap_uid a = Some n /\ C < n)
                         added)).
    + intros rows next uid e _ (added & -> & F) Hd.
      apply decide_new_insert in Hd. destruct Hd as (Hlt & Hd).
      apply decide_insert_fields in Hd. destruct Hd as (Hu & _).
      exists (added ++ [with_id next e])%list. rewrite app_assoc.
      split; [reflexivity|]. apply Forall_app. split; [exact F|].
      constructor; [|constructor]. exists uid. cbn. auto.
    + exists []. rewrite app_nil_r. split; [reflexivity|constructor].
  - destruct H as (-> & _). exists []. rewrite app_nil_r.
    split; [reflexivity|constructor].
Qed.

Lemma sync_new_emails_nulls srv user rq db :
  desc_nulls_first (db_after (sync_new_emails srv user rq db))
  = desc_nulls_first db.
Proof.
  unfold sync_new_emails.
  destruct (negb (truthy_ostr (decrypted_password user))); [reflexivity|].
  destruct (negb (truthy_ostr (imap_host user))
            || negb (truthy_oint (imap_port user))); [reflexivity|].
  unfold handle. destruct (sync_new_emails_body _ _ _ _ _) as [[|r] st];
    reflexivity.
Qed.

(** With cursor 0 and positive UIDs the incremental loop takes the turns
    of the full loop. *)
Lemma ingest_decide_new_zero srv user fld sel uids :
  Forall (fun n => 0 < n) uids ->
  forall f rows next,
    ingest (decide_new srv user fld 0 sel) None uids f rows next
    = ingest (decide srv user fld sel) None uids f rows next.
Proof.
  induction 1 as [|uid rest Hpos _ IH]; intros f rows next;
    [reflexivity|].
  cbn [ingest]. unfold decide_new at 1.
  destruct (uid <=? 0) eqn:E; [apply Z.leb_le in E; lia|].
  destruct (decide srv user fld sel rows uid); auto.
  rewrite IH. apply ingest_no_limit.
Qed.

(** Searching ALL, both syncs end up in the same mailbox with the same
    listing. *)
Lemma sync_targets_agree srv fld :
  sync_new_target srv fld SearchAll = sync_target srv fld.
Proof.
  unfold sync_new_target, sync_target, target_of, sync_new_prefix,
    sync_prefix.
  destruct (imap_login srv fresh_connection) as [r st1] eqn:E.
  rewrite !(bind_run _ _ _ _ _ E). destruct r as [|[]]; [reflexivity|].
  unfold sync_select_folder, sync_new_select_folder.
  destruct (fld =? "sent")%string; [|reflexivity].
  unfold imap_list, issue, modify.
  set (st2 := set_log (st_log st1 ++ [CList])%list st1).
  destruct (oblivious_probe srv true possible_sent_folders st1 st2
              eq_refl) as [Er Es].
  destruct (probe srv true possible_sent_folders st1) as [r1 s1] eqn:P1.
  destruct (probe srv true possible_sent_folders st2) as [r2 s2] eqn:P2.
  cbn [fst snd] in Er, Es. subst r2.
  unfold bind. rewrite P1. fold st2. rewrite P2.
  destruct r1 as [|[f|]]; [reflexivity| |].
  - cbn [ret]. destruct (oblivious_search srv SearchAll s1 s2 Es)
      as [Fr Fs].
    destruct (imap_search srv SearchAll s1) as [a1 t1].
    destruct (imap_search srv SearchAll s2) as [a2 t2].
    cbn [fst snd] in Fr, Fs. subst a2. destruct a1 as [|[u|]]; auto.
    now rewrite Fs.
  - destruct (imap_logout srv s1) as [[|[]] t1];
    destruct (imap_select srv "INBOX" true s2) as [[|b] t2];
      try reflexivity;
    destruct (imap_logout srv t2) as [[|[]] t3]; reflexivity.
Qed.

Lemma sync_new_emails_empty_folder srv user rq db :
  imap_available user = true ->
  (forall e, ~ in_folder db (uid_of_user user) (requested_folder rq) e) ->
  Forall (fun n => 0 < n) (observed_uids srv (requested_folder rq)) ->
  db_after (sync_new_emails srv user rq db)
  = db_after (sync_emails srv user (mkSyncRequest (rq_folder rq) (Some 20))
                          db).
Proof.
  intros Hav Hnone Hpos.
  set (rq' := mkSyncRequest (rq_folder rq) (Some 20)).
  assert (HC : cursor db user (requested_folder rq) = Some 0).
  { destruct (cursor_defined db user (requested_folder rq)) as [C HC].
    - intros e He. now elim (Hnone e).
    - destruct (cursor_max _ _ _ _ HC) as (_ & [(e & He & _)|(-> & _)]);
        [now elim (Hnone e)|exact HC]. }
  pose proof (sync_new_emails_spec srv user rq db Hav) as Hn.
  pose proof (sync_emails_spec srv user rq' db Hav) as Hf.
  cbv zeta in Hn, Hf. rewrite HC in Hn.
  change (search_query_of 0) with SearchAll in Hn.
  rewrite sync_targets_agree in Hn.
  change (requested_folder rq') with (requested_folder rq) in Hf.
  change (requested_limit rq') with 20 in Hf.
  unfold observed_uids in Hpos.
  destruct (sync_target srv (requested_folder rq)) as [[sel uids]|].
  - destruct Hn as (En & Nn & _), Hf as (Ef & Nf & _).
    assert (Hsame :
              ingested (decide_new srv user (requested_folder rq) 0 sel)
                       None (rev (py_slice_from (-20) uids)) db
              = ingested (decide srv user (requested_folder rq) sel)
                         (Some 20) (rev (py_slice_from (- (20)) uids)) db).
    { unfold ingested. rewrite ingest_decide_new_zero.
      - symmetry. apply ingest_no_break. rewrite length_rev.
        pose proof (py_slice_length 20 uids eq_refl) as HL.
        cbn [Z.opp] in HL |- *. lia.
      - apply Forall_forall. intros n Hin.
        apply (incl_py_slice (-20) uids) in Hin.
        rewrite Forall_forall in Hpos. now apply Hpos. }
    apply db_ext.
    + rewrite En, Ef. now rewrite Hsame.
    + rewrite Nn, Nf. now rewrite Hsame.
    + now rewrite sync_new_emails_nulls, sync_emails_nulls.
  - destruct Hn as (-> & _), Hf as (-> & _). reflexivity.
Qed.

(** Where the cursor of an incremental sync is a number, as it is whenever
    every row of the account and folder has a UID, it is the largest UID
    stored for them (0 when there is no such row); every row the sync adds
    has a UID above the cursor; and when the folder has no row yet, the
    sync leaves the database as a full sync with limit 20 does. *)
Lemma incremental_sync_above_cursor srv user rq db :
  imap_available user = true ->
  let u := uid_of_user user in
  let fld := requested_folder rq in
  let o := sync_new_emails srv user rq db in
  ((forall e, in_folder db u fld e -> imap_uid e <> None) ->
   exists C, cursor db user fld = Some C) /\
  (forall C,
      cursor db user fld = Some C ->
      (forall e n, in_folder db u fld e -> imap_uid e = Some n -> n <= C) /\
      ((exists e, in_folder db u fld e /\ imap_uid e = Some C) \/
       (C = 0 /\ forall e, ~ in_folder db u fld e)) /\
      (exists added,
          emails (db_after o) = (emails db ++ added)%list /\
          Forall (fun a => exists n, imap_uid a = Some n /\ C < n) added)) /\
  ((forall e, ~ in_folder db u fld e) ->
   Forall (fun n => 0 < n) (observed_uids srv fld) ->
   db_after o
   = db_after (sync_emails srv user (mkSyncRequest (rq_folder rq) (Some 20))
                           db)).
Proof.
  intros Hav u fld o. split; [apply cursor_defined|]. split.
  - intros C HC. destruct (cursor_max _ _ _ _ HC) as (H1 & H2).
    split; [exact H1|]. split; [exact H2|].
    now apply sync_new_emails_above.
  - now apply sync_new_emails_empty_folder.
Qed.

Lemma incremental_sync_above_cursor_witness :
  let srv := accepting_server [4; 5; 6; 7] in
  let user := sample_user in
  let rq := mkSyncRequest None None in
  let db := sample_db in
  let u := uid_of_user user in
  let fld := requested_folder rq in
  let o := sync_new_emails srv user rq db in
  ((forall e, in_folder db u fld e -> imap_uid e <> None) ->
   exists C, cursor db user fld = Some C) /\
  (forall C,
      cursor db user fld = Some C ->
      (forall e n, in_folder db u fld e -> imap_uid e = Some n -> n <= C) /\
      ((exists e, in_folder db u fld e /\ imap_uid e = Some C) \/
       (C = 0 /\ forall e, ~ in_folder db u fld e)) /\
      (exists added,
          emails (db_after o) = (emails db ++ added)%list /\
          Forall (fun a => exists n, imap_uid a = Some n /\ C < n) added)) /\
  ((forall e, ~ in_folder db u fld e) ->
   Forall (fun n => 0 < n) (observed_uids srv fld) ->
   db_after o
   = db_after (sync_emails srv user (mkSyncRequest (rq_folder rq) (Some 20))
                           db)).
Proof.
  apply (incremental_sync_above_cursor (accepting_server [4; 5; 6; 7])
           sample_user (mkSyncRequest None None) sample_db).
  reflexivity.
Defined.

(** C4 (the defect). The handler takes as cursor the [imap_uid] of the
    first row in [ORDER BY imap_uid DESC], meant to be the highest UID
    stored for the folder.  On [null_first_db], where the row without UID
    sorts first, the cursor is [None] although the highest stored UID is
    8: the comparison [last_uid > 0] raises, and the sync answers 500 after
    the select, without searching, and stores nothing, although the server
    holds the new message 9.  On the same rows with NULL sorted last the
    cursor is 8 and the sync stores UID 9; but there too, once the folder
    holds the row without UID alone (the state after the first
    [send_email]), the cursor is [None] and the sync answers 500. *)
Theorem incremental_sync_null_cursor :
  let srv := accepting_server [8; 9] in
  let rq := mkSyncRequest (Some "sent") None in
  let o := sync_new_emails srv sample_user rq null_first_db in
  let nulls_last := mkDb (emails null_first_db) (next_id null_first_db)
                         false in
  let o' := sync_new_emails srv sample_user rq nulls_last in
  let local_only := mkDb [sample_row 3 "sent" None] 4 false in
  let o'' := sync_new_emails srv sample_user rq local_only in
  (exists e, in_folder null_first_db 1 "sent" e /\ imap_uid e = Some 8) /\
  (forall e n, in_folder null_first_db 1 "sent" e ->
               imap_uid e = Some n -> n <= 8) /\
  cursor null_first_db sample_user "sent" = None /\
  status (response o) = error /\ code (response o) = 500 /\
  db_after o = null_first_db /\
  trace o = [CLogin; CSelect "[Gmail]/Sent Mail" true] /\
  cursor nulls_last sample_user "sent" = Some 8 /\
  status (response o') = success /\
  map imap_uid (emails (db_after o')) = [None; Some 8; Some 9] /\
  cursor local_only sample_user "sent" = None /\
  code (response o'') = 500 /\ db_after o'' = local_only.
Proof.
  cbv zeta. split.
  - exists (sample_row 4 "sent" (Some 8)). unfold in_folder. cbn. auto.
  - split.
    + intros e n (Hin & _) Hu. cbn in Hin.
      destruct Hin as [<-|[<-|[]]]; cbn in Hu; [discriminate|].
      injection Hu as <-. lia.
    + vm_compute. repeat split; reflexivity.
Qed.

(** On [sample_db], whose inbox holds UID 5, an incremental sync against a
    server listing 4 to 7 adds UID 7 alone: UID 6 is above the cursor but
    already held by the row in trash. *)
Example sync_new_emails_sample :
  cursor sample_db sample_user "inbox" = Some 5 /\
  map imap_uid
      (skipn 3 (emails (db_after
                          (sync_new_emails (accepting_server [4; 5; 6; 7])
                             sample_user (mkSyncRequest None None)
                             sample_db))))
  = [Some 7].
Proof. split; vm_compute; reflexivity. Qed.

(** * Drafts *)

Lemma query_draft_spec u i rows e :
  query_draft u i rows = Some e ->
  In e rows /\ email_id e = i /\ user_id e = u /\ folder e = "drafts".
Proof.
  unfold query_draft. intros H. apply find_some in H. destruct H as [H1 H2].
  rewrite !andb_true_iff, !Z.eqb_eq, String.eqb_eq in H2. tauto.
Qed.

Lemma query_draft_none u i rows e :
  query_draft u i rows = None -> In e rows ->
  email_id e <> i \/ user_id e <> u \/ folder e <> "drafts".
Proof.
  unfold query_draft. intros H Hin.
  pose proof (find_none _ _ H e Hin) as Hn. cbv beta in Hn.
  rewrite !andb_false_iff, !Z.eqb_neq, String.eqb_neq in Hn. tauto.
Qed.

(** With a primary key, a row found by its key is the only row with it. *)
Lemma key_unique rows e e' :
  NoDup (map email_id rows) -> In e rows -> In e' rows ->
  email_id e = email_id e' -> e = e'.
Proof.
  induction rows as [|a r IH]; simpl; intros ND H1 H2 Hid; [contradiction|].
  inversion ND as [|? ? Hnin ND']; subst.
  destruct H1 as [<-|H1], H2 as [<-|H2]; auto.
  - exfalso. apply Hnin. rewrite Hid. now apply in_map.
  - exfalso. apply Hnin. rewrite <- Hid. now apply in_map.
Qed.

Lemma find_fresh_key_gen {A} (p : A -> bool) rows e :
  (forall a, In a rows -> p a = false) -> p e = true ->
  find p (rows ++ [e]) = Some e.
Proof.
  intros Hr He. induction rows as [|a r IH]; simpl.
  - now rewrite He.
  - rewrite (Hr a (or_introl eq_refl)). apply IH.
    intros b Hb. apply Hr. now right.
Qed.

Lemma find_fresh_key (p : Email -> bool) rows e :
  (forall a, In a rows -> p a = false) -> p e = true ->
  find p (rows ++ [e]) = Some e.
Proof. apply find_fresh_key_gen. Qed.

Lemma save_draft_run user rq db :
  let row := with_id (next_id db) (draft_email user rq) in
  save_draft user rq db
  = mkDraftSaved (jsonify success 200) (Some (next_id db))
                 (mkDb (emails db ++ [row]) (next_id db + 1)
                       (desc_nulls_first db)).
Proof.
  unfold save_draft, bind, session_add, session_commit, get_state, modify,
    ret. cbn. now rewrite filter_not_deleted_nil.
Qed.

Lemma update_draft_run user i rq db e :
  query_draft (uid_of_user user) i (emails db) = Some e ->
  update_draft user i rq db
  = mkOutcome (jsonify success 200)
              (mkDb (update_row i (updated_draft rq) (emails db))
                    (next_id db) (desc_nulls_first db)) [].
Proof.
  intros H. unfold update_draft. rewrite H.
  unfold handle, bind, session_commit, modify, ret. cbn.
  now rewrite filter_not_deleted_nil.
Qed.

Lemma delete_draft_run user i db e :
  query_draft (uid_of_user user) i (emails db) = Some e ->
  delete_draft user i db
  = mkOutcome (jsonify success 200)
              (mkDb (filter (fun a => negb (email_id a =? i)) (emails db))
                    (next_id db) (desc_nulls_first db)) [].
Proof.
  intros H. unfold delete_draft. rewrite H.
  unfold handle, bind, session_delete, session_commit, modify, ret. cbn.
  rewrite (filter_ext _ (fun a => negb (email_id a =? i)))
    by (intros a; now rewrite orb_false_r).
  reflexivity.
Qed.

Lemma update_row_other i f rows e :
  In e rows -> email_id e <> i -> In e (update_row i f rows).
Proof.
  intros Hin Hne. unfold update_row. apply in_map_iff. exists e.
  apply Z.eqb_neq in Hne. now rewrite Hne.
Qed.

Lemma update_row_hit i f rows e :
  NoDup (map email_id rows) -> In e rows -> email_id e = i ->
  (forall a, email_id (f a) = email_id a) ->
  forall p, p (f e) = true ->
            (forall a, In a rows -> email_id a <> i -> p a = true -> False) ->
            find p (update_row i f rows) = Some (f e).
Proof.
  intros ND Hin Hid Hf p Hp Hother.
  induction rows as [|a r IH]; simpl in *; [contradiction|].
  inversion ND as [|? ? Hnin ND']; subst.
  destruct (email_id a =? email_id e) eqn:E.
  - apply Z.eqb_eq in E.
    assert (a = e).
    { destruct Hin as [Hin|Hin]; [exact Hin|].
      exfalso. apply Hnin. rewrite E. now apply in_map. }
    subst a. now rewrite Hp.
  - apply Z.eqb_neq in E. destruct Hin as [->|Hin]; [congruence|].
    destruct (p a) eqn:Pa.
    + exfalso. eapply (Hother a); eauto.
    + apply IH; auto. intros b Hb. apply Hother. now right.
Qed.

(** X1. [save_draft] appends one row in [drafts] that carries the request's
    subject and body, no UID and no message-id, and answers with that row's
    key: looking the key up right away as a draft of the caller finds
    exactly the stored row. *)
Theorem save_draft_round_trip user rq db :
  Forall (fun e => email_id e < next_id db) (emails db) ->
  let r := save_draft user rq db in
  let row := with_id (next_id db) (draft_email user rq) in
  status (ds_response r) = success /\
  ds_draft_id r = Some (email_id row) /\
  emails (ds_db r) = (emails db ++ [row])%list /\
  query_draft (uid_of_user user) (email_id row) (emails (ds_db r))
  = Some row /\
  subject row = get_or "" (c_subject rq) /\
  body_full row = get_or "" (c_body rq) /\
  folder row = "drafts" /\ imap_uid row = None /\
  message_id_header row = None.
Proof.
  intros Hfresh r row. subst r. rewrite save_draft_run. fold row.
  cbn [ds_response ds_draft_id ds_db emails status jsonify].
  repeat split.
  unfold query_draft. apply find_fresh_key.
  - intros a Ha. rewrite Forall_forall in Hfresh.
    specialize (Hfresh a Ha). cbn.
    replace (email_id a =? next_id db) with false; [reflexivity|].
    symmetry. apply Z.eqb_neq. lia.
  - cbn. now rewrite !Z.eqb_refl.
Qed.

Lemma save_draft_round_trip_witness :
  let rq := mkCompose (Some "ann@example.org") None None (Some "Hi")
                      (Some "Hello there") false in
  let r := save_draft sample_user rq sample_db in
  let row := with_id (next_id sample_db) (draft_email sample_user rq) in
  status (ds_response r) = success /\
  ds_draft_id r = Some (email_id row) /\
  emails (ds_db r) = (emails sample_db ++ [row])%list /\
  query_draft (uid_of_user sample_user) (email_id row) (emails (ds_db r))
  = Some row /\
  subject row = get_or "" (c_subject rq) /\
  body_full row = get_or "" (c_body rq) /\
  folder row = "drafts" /\ imap_uid row = None /\
  message_id_header row = None.
Proof.
  apply (save_draft_round_trip sample_user
           (mkCompose (Some "ann@example.org") None None (Some "Hi")
                      (Some "Hello there") false) sample_db).
  repeat constructor.
Defined.

(** X2. [update_draft] on a draft of the caller rewrites that row alone.
    A subject or body the request leaves out keeps its stored value, but
    the recipients are always rebuilt from the request: a request with no
    [to], [cc] and [bcc] clears them.  The body goes to [body_html] or to
    [body_text] according to [is_html], the other one is emptied. *)
Theorem update_draft_rewrites_fields user i rq db e :
  NoDup (map email_id (emails db)) ->
  query_draft (uid_of_user user) i (emails db) = Some e ->
  let o := update_draft user i rq db in
  let e' := updated_draft rq e in
  status (response o) = success /\ trace o = [] /\
  emails (db_after o) = update_row i (updated_draft rq) (emails db) /\
  query_draft (uid_of_user user) i (emails (db_after o)) = Some e' /\
  (c_subject rq = None -> subject e' = subject e) /\
  (c_body rq = None -> body_full e' = body_full e) /\
  (c_to rq = None -> c_cc rq = None -> c_bcc rq = None ->
   recipient e' = "") /\
  (body_html e', body_text e')
  = (if c_is_html rq then (body_full e', "") else ("", body_full e')).
Proof.
  intros ND Hq o e'. subst o. rewrite (update_draft_run _ _ _ _ _ Hq).
  cbn [response db_after trace emails status jsonify].
  destruct (query_draft_spec _ _ _ _ Hq) as (Hin & Hid & Hu & Hf).
  split; [reflexivity|]. split; [reflexivity|]. split; [reflexivity|].
  split.
  - unfold query_draft.
    apply (update_row_hit i (updated_draft rq) (emails db) e ND Hin Hid).
    + reflexivity.
    + cbn. now rewrite Hid, Hu, Hf, !Z.eqb_refl.
    + intros a Ha Hne Hp. rewrite !andb_true_iff, Z.eqb_eq in Hp. tauto.
  - subst e'. unfold updated_draft. cbn.
    split; [now intros ->|]. split; [now intros ->|].
    split; [now intros -> -> ->|].
    now destruct (c_is_html rq).
Qed.

Lemma update_draft_rewrites_fields_witness :
  let db := ds_db (save_draft sample_user
                     (mkCompose (Some "ann@example.org") None None
                                (Some "Hi") (Some "Hello there") false)
                     sample_db) in
  let rq := mkCompose None None None (Some "Hi again") None true in
  let e := with_id 4 (draft_email sample_user
                        (mkCompose (Some "ann@example.org") None None
                                   (Some "Hi") (Some "Hello there") false)) in
  let o := update_draft sample_user 4 rq db in
  let e' := updated_draft rq e in
  status (response o) = success /\ trace o = [] /\
  emails (db_after o) = update_row 4 (updated_draft rq) (emails db) /\
  query_draft (uid_of_user sample_user) 4 (emails (db_after o)) = Some e' /\
  (c_subject rq = None -> subject e' = subject e) /\
  (c_body rq = None -> body_full e' = body_full e) /\
  (c_to rq = None -> c_cc rq = None -> c_bcc rq = None ->
   recipient e' = "") /\
  (body_html e', body_text e')
  = (if c_is_html rq then (body_full e', "") else ("", body_full e')).
Proof.
  apply (update_draft_rewrites_fields sample_user 4
           (mkCompose None None None (Some "Hi again") None true)
           (ds_db (save_draft sample_user
                     (mkCompose (Some "ann@example.org") None None
                                (Some "Hi") (Some "Hello there") false)
                     sample_db))).
  - vm_compute. repeat constructor; simpl; intuition discriminate.
  - vm_compute. reflexivity.
Defined.

(** X3. The draft endpoints change nothing but the addressed draft of the
    caller: addressed to a key that is not a draft of the caller (a message
    in another folder, a draft of another account, no row at all) they
    answer 404 and leave the database as it was, and in every case each
    row that is not the caller's draft with that key is still there,
    unchanged. *)
Theorem draft_endpoints_touch_only_own_draft user i rq db :
  NoDup (map email_id (emails db)) ->
  let u := uid_of_user user in
  let others_kept (o : Outcome) :=
    forall e, In e (emails db) ->
              email_id e <> i \/ user_id e <> u \/ folder e <> "drafts" ->
              In e (emails (db_after o)) in
  let rejected (o : Outcome) :=
    code (response o) = 404 /\ db_after o = db in
  others_kept (update_draft user i rq db) /\
  others_kept (delete_draft user i db) /\
  ((forall e, In e (emails db) ->
              email_id e <> i \/ user_id e <> u \/ folder e <> "drafts") ->
   rejected (update_draft user i rq db) /\
   rejected (delete_draft user i db)).
Proof.
  intros ND u others_kept rejected.
  destruct (query_draft u i (emails db)) as [d|] eqn:Hq.
  - destruct (query_draft_spec _ _ _ _ Hq) as (Hin & Hid & Hu & Hf).
    assert (Hne : forall e, In e (emails db) ->
                email_id e <> i \/ user_id e <> u \/ folder e <> "drafts" ->
                email_id e <> i).
    { intros e He Hor Heq.
      assert (e = d) by (apply (key_unique (emails db)); auto; congruence).
      subst e. tauto. }
    split; [|split].
    + intros e He Hor. unfold u in Hq.
      rewrite (update_draft_run _ _ _ _ _ Hq). cbn.
      apply update_row_other; eauto.
    + intros e He Hor. unfold u in Hq.
      rewrite (delete_draft_run _ _ _ _ Hq). cbn.
      apply filter_In. split; [exact He|].
      apply negb_true_iff, Z.eqb_neq. eauto.
    + intros Hall. exfalso. specialize (Hall d Hin). tauto.
  - unfold others_kept, rejected, update_draft, delete_draft.
    fold u. rewrite Hq. cbn. auto.
Qed.

Lemma draft_endpoints_touch_only_own_draft_witness :
  let user := sample_user in
  let i := 1 in
  let rq := mkCompose None None None (Some "Hi again") None true in
  let db := sample_db in
  let u := uid_of_user user in
  let others_kept (o : Outcome) :=
    forall e, In e (emails db) ->
              email_id e <> i \/ user_id e <> u \/ folder e <> "drafts" ->
              In e (emails (db_after o)) in
  let rejected (o : Outcome) :=
    code (response o) = 404 /\ db_after o = db in
  others_kept (update_draft user i rq db) /\
  others_kept (delete_draft user i db) /\
  ((forall e, In e (emails db) ->
              email_id e <> i \/ user_id e <> u \/ folder e <> "drafts") ->
   rejected (update_draft user i rq db) /\
   rejected (delete_draft user i db)).
Proof.
  apply (draft_endpoints_touch_only_own_draft sample_user 1
           (mkCompose None None None (Some "Hi again") None true)
           sample_db).
  vm_compute. repeat constructor; simpl; intuition discriminate.
Defined.

(** X4. [delete_draft] on a draft of the caller removes that row and no
    other, after which the key addresses no draft; deleting the draft that
    [save_draft] has just stored gives back the rows there were before. *)
Theorem delete_draft_undoes_save user rq db :
  keys_fresh db ->
  let u := uid_of_user user in
  (forall i e,
      query_draft u i (emails db) = Some e ->
      let o := delete_draft user i db in
      status (response o) = success /\
      emails (db_after o)
      = filter (fun a => negb (email_id a =? i)) (emails db) /\
      ~ In e (emails (db_after o)) /\
      query_draft u i (emails (db_after o)) = None) /\
  (let saved := save_draft user rq db in
   match ds_draft_id saved with
   | Some i =>
       let o := delete_draft user i (ds_db saved) in
       status (response o) = success /\ emails (db_after o) = emails db
   | None => False
   end).
Proof.
  intros [ND Hfresh] u. split.
  - intros i e Hq o. subst o. unfold u in Hq.
    rewrite (delete_draft_run _ _ _ _ Hq). cbn.
    destruct (query_draft_spec _ _ _ _ Hq) as (Hin & Hid & _).
    split; [reflexivity|]. split; [reflexivity|]. split.
    + intros H. apply filter_In in H. destruct H as [_ H].
      rewrite Hid, Z.eqb_refl in H. discriminate.
    + unfold query_draft.
      destruct (find _ _) as [a|] eqn:Hf; [|reflexivity].
      apply find_some in Hf. destruct Hf as [Ha Hp].
      apply filter_In in Ha. destruct Ha as [_ Ha].
      rewrite !andb_true_iff in Hp. destruct Hp as [[Hp _] _].
      rewrite Hp in Ha. discriminate.
  - rewrite save_draft_run. cbn [ds_draft_id ds_db].
    set (row := with_id (next_id db) (draft_email user rq)).
    assert (Hq : query_draft (uid_of_user user) (next_id db)
                   (emails db ++ [row]) = Some row).
    { unfold query_draft. apply find_fresh_key.
      - intros a Ha. rewrite Forall_forall in Hfresh.
        specialize (Hfresh a Ha). cbn.
        replace (email_id a =? next_id db) with false; [reflexivity|].
        symmetry. apply Z.eqb_neq. lia.
      - cbn. now rewrite !Z.eqb_refl. }
    rewrite (delete_draft_run user (next_id db)
               (mkDb (emails db ++ [row]) (next_id db + 1)
                     (desc_nulls_first db)) row Hq).
    cbn. split; [reflexivity|].
    rewrite filter_app. cbn. rewrite Z.eqb_refl. cbn.
    rewrite app_nil_r. apply forallb_filter_id.
    apply forallb_forall. intros a Ha. rewrite Forall_forall in Hfresh.
    specialize (Hfresh a Ha). apply negb_true_iff, Z.eqb_neq. lia.
Qed.

Lemma delete_draft_undoes_save_witness :
  let user := sample_user in
  let rq := mkCompose (Some "ann@example.org") None None (Some "Hi")
                      (Some "Hello there") false in
  let db := sample_db in
  let u := uid_of_user user in
  (forall i e,
      query_draft u i (emails db) = Some e ->
      let o := delete_draft user i db in
      status (response o) = success /\
      emails (db_after o)
      = filter (fun a => negb (email_id a =? i)) (emails db) /\
      ~ In e (emails (db_after o)) /\
      query_draft u i (emails (db_after o)) = None) /\
  (let saved := save_draft user rq db in
   match ds_draft_id saved with
   | Some i =>
       let o := delete_draft user i (ds_db saved) in
       status (response o) = success /\ emails (db_after o) = emails db
   | None => False
   end).
Proof.
  apply (delete_draft_undoes_save sample_user
           (mkCompose (Some "ann@example.org") None None (Some "Hi")
                      (Some "Hello there") false) sample_db).
  split.
  - vm_compute. repeat constructor; simpl; intuition discriminate.
  - repeat constructor.
Defined.

(** * Sending *)

(** What [smtp_run] issues: a prefix of the calls, each accepted except,
    when the run fails, the last one. *)
Lemma smtp_run_spec smtp todo :
  forall issued l ok,
    smtp_run smtp issued todo = (l, ok) ->
    exists done rest,
      todo = (done ++ rest)%list /\ l = (issued ++ done)%list /\
      (ok = true -> rest = [] /\
                    forall pre c post, done = (pre ++ c :: post)%list ->
                                       smtp (issued ++ pre)%list c = true) /\
      (ok = false ->
       exists pre c, done = (pre ++ [c])%list /\
                     smtp (issued ++ pre)%list c = false /\
                     forall pre' c' post,
                       pre = (pre' ++ c' :: post)%list ->
                       smtp (issued ++ pre')%list c' = true).
Proof.
  induction todo as [|c rest IH]; intros issued l ok H; cbn in H.
  - injection H as <- <-. exists [], [].
    split; [reflexivity|]. split; [now rewrite app_nil_r|].
    split; [|discriminate]. intros _. split; [reflexivity|].
    intros pre c post E. destruct pre; discriminate.
  - destruct (smtp issued c) eqn:Ec.
    + apply IH in H. destruct H as (done & rest' & -> & -> & Hok & Hko).
      exists (c :: done), rest'. rewrite <- app_assoc. cbn.
      split; [reflexivity|]. split; [reflexivity|]. split.
      * intros E. destruct (Hok E) as [-> Hall]. split; [reflexivity|].
        intros pre c' post Hd. destruct pre as [|p pre]; cbn in Hd.
        -- injection Hd as <- _. now rewrite app_nil_r.
        -- injection Hd as <- Hd. specialize (Hall pre c' post Hd).
           now rewrite <- app_assoc in Hall.
      * intros E. destruct (Hko E) as (pre & c' & -> & Hc & Hall).
        exists (c :: pre), c'. split; [reflexivity|]. split.
        -- now rewrite <- app_assoc in Hc.
        -- intros pre' c'' post Hd. destruct pre' as [|p pre']; cbn in Hd.
           ++ injection Hd as <- _. now rewrite app_nil_r.
           ++ injection Hd as <- Hd. specialize (Hall pre' c'' post Hd).
              now rewrite <- app_assoc in Hall.
    + injection H as <- <-. exists [c], rest. cbn.
      split; [reflexivity|]. split; [reflexivity|].
      split; [discriminate|]. intros _. exists [], c.
      rewrite app_nil_r. split; [reflexivity|]. split; [exact Ec|].
      intros pre' c' post E. destruct pre'; discriminate.
Qed.


Ltac smtp_cases :=
  repeat (cbn [smtp_run app];
          match goal with
          | |- context [if ?smtp ?l ?c then _ else _] =>
              lazymatch type of smtp with
              | SmtpServer => destruct (smtp l c) eqn:?
              end
          end).

Ltac split_prefix E pre :=
  destruct pre as [|? [|? [|? [|? [|? [|? ?]]]]]]; cbn in E;
  try discriminate E; injection E; intros; subst.

(** X5. [send_email] sends the account's password only over an encrypted
    connection: whatever the server answers, a [login] is issued only
    after the connection was opened with [SMTP_SSL] (which the handler does
    on port 465 alone) or after [starttls()] returned on a plain one, and
    it carries the account's address and decrypted password. *)
Theorem send_email_login_encrypted fernet smtp a rq attachments db :
  let o := send_email fernet smtp a rq attachments db in
  forall pre e p post,
    so_smtp o = (pre ++ SmtpLogin e p :: post)%list ->
    encrypted_after smtp pre /\
    e = acct_email a /\
    get_decrypted_email_password fernet a = Some p /\
    (forall h port, In (SmtpSSL h port) pre -> smtp_port a = Some 465).
Proof.
  intros o pre e p post E. subst o. unfold send_email in E.
  destruct (get_decrypted_email_password fernet a) as [pw|] eqn:Hpw;
    cbn [truthy_ostr negb] in E;
    [|destruct pre; discriminate E].
  destruct (negb (truthy_str pw));
    [destruct pre; discriminate E|].
  destruct (negb (truthy_ostr (smtp_host a))
            || negb (truthy_oint (smtp_port a)));
    [destruct pre; discriminate E|].
  destruct (negb (is_nil attachments));
    [destruct pre; discriminate E|].
  destruct (negb (truthy_ostr (c_to rq)));
    [destruct pre; discriminate E|].
  unfold smtp_commands in E.
  destruct (smtp_port a) as [port|] eqn:Hport; cbn [get_or] in E.
  - destruct (port =? 465) eqn:P465.
    + apply Z.eqb_eq in P465. subst port.
      revert E. smtp_cases; cbn [so_smtp]; intros E;
        split_prefix E pre; cbn; intuition congruence.
    + revert E. smtp_cases; cbn [so_smtp]; intros E;
        split_prefix E pre; cbn; intuition congruence.
  - cbn in E. revert E. smtp_cases; cbn [so_smtp]; intros E;
      split_prefix E pre; cbn; intuition congruence.
Qed.

Lemma send_email_login_encrypted_witness :
  let pre := [SmtpPlain "smtp.gmail.com" 587; StartTls] in
  encrypted_after accepting_smtp pre /\
  "me@example.org" = acct_email sample_account /\
  get_decrypted_email_password (Some sample_fernet) sample_account
  = Some "secret" /\
  (forall h port, In (SmtpSSL h port) pre ->
                  smtp_port sample_account = Some 465).
Proof.
  apply (send_email_login_encrypted (Some sample_fernet) accepting_smtp
           sample_account sample_compose [] sample_db
           [SmtpPlain "smtp.gmail.com" 587; StartTls]
           "me@example.org" "secret"
           [SendMessage (build_message sample_account "ann@example.org"
                                       sample_compose [])
                        (recipients "ann@example.org"
                                    "bob@example.org, eve@example.org"
                                    "zed@example.org");
            SmtpQuit]).
  reflexivity.
Defined.

Lemma send_email_unfold fernet smtp a rq db :
  send_ready fernet a rq = true ->
  send_email fernet smtp a rq [] db
  = let run := smtp_run smtp [] (send_commands fernet a rq []) in
    if snd run then
      mkSendOutcome (jsonify success 200)
                    (mkDb (emails db
                           ++ [with_id (next_id db)
                                       (sent_email a (get_or "" (c_to rq))
                                                   rq)])%list
                          (next_id db + 1) (desc_nulls_first db))
                    (fst run)
    else mkSendOutcome (jsonify error 500) db (fst run).
Proof.
  unfold send_ready, send_email, send_commands. intros H.
  rewrite !andb_true_iff in H. destruct H as (((H1 & H2) & H3) & H4).
  rewrite H1, H2, H3, H4. cbn [negb orb is_nil].
  destruct (smtp_run _ _ _) as [issued [|]]; cbn [fst snd]; [|reflexivity].
  unfold handle, bind, session_add, session_commit, get_state, modify, ret.
  cbn. now rewrite filter_not_deleted_nil.
Qed.

(** A send that answers success was a request without files that passed
    the checks, and it stored the sent message. *)
Lemma send_email_success fernet smtp a rq attachments db :
  status (so_response (send_email fernet smtp a rq attachments db))
  = success ->
  send_ready fernet a rq = true /\ attachments = [] /\
  so_db (send_email fernet smtp a rq attachments db)
  = mkDb (emails db
          ++ [with_id (next_id db)
                      (sent_email a (get_or "" (c_to rq)) rq)])%list
         (next_id db + 1) (desc_nulls_first db).
Proof.
  intros Hok.
  assert (Hready : send_ready fernet a rq = true /\ attachments = []).
  { revert Hok. unfold send_ready, send_email.
    destruct (truthy_ostr (get_decrypted_email_password fernet a));
      cbn [negb]; [|discriminate].
    destruct (truthy_ostr (smtp_host a)); cbn [negb orb]; [|discriminate].
    destruct (truthy_oint (smtp_port a)); cbn [negb orb]; [|discriminate].
    destruct attachments; cbn [is_nil negb]; [|discriminate].
    destruct (truthy_ostr (c_to rq)); cbn [negb]; [auto|discriminate]. }
  destruct Hready as [Hready ->]. split; [exact Hready|].
  split; [reflexivity|].
  rewrite (send_email_unfold _ _ _ _ _ Hready) in *. cbv zeta in *.
  destruct (snd (smtp_run _ _ _)); [reflexivity|discriminate Hok].
Qed.






(** ** The envelope *)

Lemma split_on_no_sep sep s :
  ~ In sep (list_ascii_of_string s) -> split_on sep s = [s].
Proof.
  induction s as [|c s IH]; cbn; intros H; [reflexivity|].
  destruct (Ascii.eqb c sep) eqn:E.
  - apply Ascii.eqb_eq in E. tauto.
  - rewrite IH by tauto. reflexivity.
Qed.

Lemma split_on_app sep a b :
  ~ In sep (list_ascii_of_string a) ->
  split_on sep (a ++ String sep b) = a :: split_on sep b.
Proof.
  induction a as [|c a IH]; cbn; intros H.
  - now rewrite Ascii.eqb_refl.
  - destruct (Ascii.eqb c sep) eqn:E.
    + apply Ascii.eqb_eq in E. tauto.
    + rewrite IH by tauto. reflexivity.
Qed.

Lemma split_on_length sep s :
  List.length (split_on sep s)
  = S (count_occ ascii_dec (list_ascii_of_string s) sep).
Proof.
  induction s as [|c s IH]; cbn; [reflexivity|].
  destruct (Ascii.eqb c sep) eqn:E.
  - apply Ascii.eqb_eq in E. subst c.
    destruct (ascii_dec sep sep); [|contradiction]. cbn. now rewrite IH.
  - apply Ascii.eqb_neq in E.
    destruct (ascii_dec c sep); [contradiction|].
    destruct (split_on sep s); cbn in *; [discriminate IH|exact IH].
Qed.

Lemma py_strip_space x : py_strip (String " " x) = py_strip x.
Proof. reflexivity. Qed.

Lemma addresses_joined l :
  Forall plain_address l ->
  addresses (String.concat ", " l) = l.
Proof.
  intros H. destruct l as [|x l]; [reflexivity|].
  unfold addresses.
  assert (Ht : truthy_str (String.concat ", " (x :: l)) = true).
  { inversion H as [|? ? (Hx & _) _]; subst.
    destruct x; [contradiction|]. destruct l; reflexivity. }
  rewrite Ht. clear Ht.
  revert x H. induction l as [|y l IH]; intros x H.
  - inversion H as [|? ? (_ & Hc & Hs) _]; subst. cbn [String.concat].
    rewrite split_on_no_sep by exact Hc. cbn. now rewrite Hs.
  - inversion H as [|? ? (_ & Hc & Hs) Hl]; subst.
    change (String.concat ", " (x :: y :: l))
      with (x ++ String "," (String " " (String.concat ", " (y :: l)))).
    rewrite split_on_app by exact Hc. cbn [map]. rewrite Hs. f_equal.
    specialize (IH y Hl).
    assert (Hsplit : exists p ps,
               split_on "," (String.concat ", " (y :: l)) = p :: ps).
    { destruct (split_on "," (String.concat ", " (y :: l))) eqn:E;
        [|eauto].
      pose proof (split_on_length "," (String.concat ", " (y :: l))) as L.
      rewrite E in L. discriminate. }
    destruct Hsplit as (p & ps & E). rewrite E in IH.
    cbn [split_on]. change (Ascii.eqb " " ",") with false. cbv iota.
    rewrite E. cbn [map] in *. rewrite py_strip_space. exact IH.
Qed.

(** X7. The envelope of a sent message is [to], taken whole, followed by
    the addresses of [cc] and of [bcc], split at commas and stripped of
    surrounding white space: for [cc] and [bcc] written as addresses joined
    by a comma and a space these are exactly the addresses.  Nothing is
    filtered, each comma of a non-empty field yields one more address.
    The stored row does not depend on [bcc]. *)
Theorem recipients_of_joined_fields a to_email rq ccs bccs :
  Forall plain_address ccs ->
  Forall plain_address bccs ->
  c_cc rq = Some (String.concat ", " ccs) ->
  c_bcc rq = Some (String.concat ", " bccs) ->
  recipients to_email (get_or "" (c_cc rq)) (get_or "" (c_bcc rq))
  = (to_email :: ccs ++ bccs)%list /\
  (forall field,
      field <> "" ->
      List.length (addresses field)
      = S (count_occ ascii_dec (list_ascii_of_string field) ","%char)) /\
  sent_email a to_email rq = sent_email a to_email (without_bcc rq).
Proof.
  intros Hcc Hbcc Ec Eb. split; [|split].
  - rewrite Ec, Eb. cbn [get_or]. unfold recipients.
    now rewrite !addresses_joined.
  - intros field Hne. unfold addresses.
    destruct field; [contradiction|]. cbn [truthy_str String.eqb negb].
    now rewrite length_map, split_on_length.
  - reflexivity.
Qed.

Lemma recipients_of_joined_fields_witness :
  recipients "ann@example.org" (get_or "" (c_cc sample_compose))
             (get_or "" (c_bcc sample_compose))
  = ["ann@example.org"; "bob@example.org"; "eve@example.org";
     "zed@example.org"] /\
  (forall field,
      field <> "" ->
      List.length (addresses field)
      = S (count_occ ascii_dec (list_ascii_of_string field) ","%char)) /\
  sent_email sample_account "ann@example.org" sample_compose
  = sent_email sample_account "ann@example.org" (without_bcc sample_compose).
Proof.
  apply (recipients_of_joined_fields sample_account "ann@example.org"
           sample_compose ["bob@example.org"; "eve@example.org"]
           ["zed@example.org"]).
  - repeat constructor; try discriminate;
      intros H; vm_compute in H; intuition discriminate.
  - repeat constructor; try discriminate;
      intros H; vm_compute in H; intuition discriminate.
  - reflexivity.
  - reflexivity.
Defined.

(** * Two runs side by side *)

Lemma sim_ret F {A} (RA : A -> A -> Prop) a a' :
  RA a a' -> simulates F RA (ret a) (ret a').
Proof. intros H st st' R. cbn. auto. Qed.

Lemma sim_raise F {A} (RA : A -> A -> Prop) :
  simulates F RA raise raise.
Proof. intros st st' R. exact R. Qed.

Lemma sim_bind F {A B} (RA : A -> A -> Prop) (RB : B -> B -> Prop)
    (m m' : M A) (k k' : A -> M B) :
  simulates F RA m m' ->
  (forall a a', RA a a' -> simulates F RB (k a) (k' a')) ->
  simulates F RB (bind m k) (bind m' k').
Proof.
  intros Hm Hk st st' R. unfold bind. specialize (Hm st st' R).
  destruct (m st) as [[|a] s], (m' st') as [[|a'] s']; try contradiction.
  - exact Hm.
  - destruct Hm as [Ha Hs]. exact (Hk a a' Ha s s' Hs).
Qed.

Lemma sim_try F {A} (RA : A -> A -> Prop) (m m' h h' : M A) :
  simulates F RA m m' -> simulates F RA h h' ->
  simulates F RA (try_catch m h) (try_catch m' h').
Proof.
  intros Hm Hh st st' R. unfold try_catch. specialize (Hm st st' R).
  destruct (m st) as [[|a] s], (m' st') as [[|a'] s']; try contradiction.
  - exact (Hh s s' Hm).
  - exact Hm.
Qed.

Lemma sim_get_state F : simulates F (related F) get_state get_state.
Proof. intros st st' R. cbn. auto. Qed.

Lemma sim_of_reply F {A} (r : Reply A) :
  simulates F eq (of_reply r) (of_reply r).
Proof. intros st st' R. cbn. destruct r; auto. Qed.

Lemma sim_returns_or_raises F b :
  simulates F eq (returns_or_raises b) (returns_or_raises b).
Proof. intros st st' R. destruct b; cbn; auto. Qed.

Lemma sim_conseq F {A} (RA RA' : A -> A -> Prop) (m m' : M A) :
  simulates F RA m m' -> (forall a a', RA a a' -> RA' a a') ->
  simulates F RA' m m'.
Proof.
  intros H Himp st st' R. specialize (H st st' R).
  destruct (m st) as [[|a] s], (m' st') as [[|a'] s']; try contradiction;
    intuition.
Qed.

Lemma sim_issue F c : simulates F eq (issue c) (issue c).
Proof.
  intros st st' R. cbn. split; [reflexivity|].
  unfold related in *. cbn. intuition congruence.
Qed.

Lemma sim_set_selected F m :
  simulates F eq (modify (set_selected m)) (modify (set_selected m)).
Proof.
  intros st st' R. cbn. split; [reflexivity|].
  unfold related in *. cbn. intuition congruence.
Qed.

(** Bind where the first computation returns equal results. *)
Lemma sim_bind_eq F {A B} (RB : B -> B -> Prop) (m : M A)
    (k k' : A -> M B) :
  simulates F eq m m ->
  (forall a, simulates F RB (k a) (k' a)) ->
  simulates F RB (bind m k) (bind m k').
Proof.
  intros Hm Hk. apply (sim_bind F eq); [exact Hm|].
  intros a a' <-. apply Hk.
Qed.

(** Bind on [get_state]. *)
Lemma sim_bind_state F {B} (RB : B -> B -> Prop) (k k' : State -> M B) :
  (forall st st', related F st st' -> simulates F RB (k st) (k' st')) ->
  simulates F RB (bind get_state k) (bind get_state k').
Proof. intros Hk. apply (sim_bind F (related F)); [apply sim_get_state|auto]. Qed.

Lemma sim_imap_login F srv :
  simulates F eq (imap_login srv) (imap_login srv).
Proof.
  unfold imap_login. apply sim_bind_eq; [apply sim_issue|].
  intros _. apply sim_returns_or_raises.
Qed.

Lemma sim_imap_logout F srv :
  simulates F eq (imap_logout srv) (imap_logout srv).
Proof.
  unfold imap_logout. apply sim_bind_eq; [apply sim_issue|].
  intros _. apply sim_returns_or_raises.
Qed.

Lemma sim_imap_select F srv f ro :
  simulates F eq (imap_select srv f ro) (imap_select srv f ro).
Proof.
  unfold imap_select. apply sim_bind_eq; [apply sim_issue|]. intros _.
  apply sim_bind_eq; [apply sim_set_selected|]. intros _.
  apply sim_of_reply.
Qed.

Lemma sim_imap_search F srv q :
  simulates F eq (imap_search srv q) (imap_search srv q).
Proof.
  unfold imap_search. apply sim_bind_eq; [apply sim_issue|]. intros _.
  apply sim_bind_state. intros st st' R.
  replace (st_selected st') with (st_selected st)
    by (unfold related in R; tauto).
  apply sim_of_reply.
Qed.

Lemma sim_imap_fetch F srv uid :
  simulates F eq (imap_fetch srv uid) (imap_fetch srv uid).
Proof.
  unfold imap_fetch. apply sim_bind_eq; [apply sim_issue|]. intros _.
  apply sim_bind_state. intros st st' R.
  replace (st_selected st') with (st_selected st)
    by (unfold related in R; tauto).
  apply sim_of_reply.
Qed.

Lemma sim_probe F srv ro cands :
  simulates F eq (probe srv ro cands) (probe srv ro cands).
Proof.
  induction cands as [|f rest IH]; cbn [probe].
  - now apply sim_ret.
  - apply sim_bind_eq.
    + apply sim_try; [apply sim_imap_select|now apply sim_ret].
    + intros [|]; [now apply sim_ret|exact IH].
Qed.

Lemma sim_select_or_inbox F srv f ro :
  simulates F eq (select_or_inbox srv f ro) (select_or_inbox srv f ro).
Proof.
  unfold select_or_inbox. apply sim_try.
  - apply sim_bind_eq; [apply sim_imap_select|].
    intros [|]; [now apply sim_ret|].
    apply sim_bind_eq; [apply sim_imap_select|]. intros _.
    now apply sim_ret.
  - apply sim_bind_eq; [apply sim_imap_select|]. intros _.
    now apply sim_ret.
Qed.

Lemma sim_sync_select_folder F srv fld :
  simulates F eq (sync_select_folder srv fld) (sync_select_folder srv fld).
Proof.
  unfold sync_select_folder. destruct (fld =? "sent")%string.
  - apply sim_bind_eq; [apply sim_issue|]. intros _.
    apply sim_bind_eq; [apply sim_probe|].
    intros [f|]; [now apply sim_ret|].
    apply sim_bind_eq; [apply sim_imap_select|]. intros _.
    apply sim_bind_eq; [apply sim_imap_logout|]. intros _.
    now apply sim_ret.
  - apply sim_bind_eq; [apply sim_select_or_inbox|]. intros _.
    now apply sim_ret.
Qed.

Lemma sim_sync_new_select_folder F srv fld :
  simulates F eq (sync_new_select_folder srv fld)
            (sync_new_select_folder srv fld).
Proof.
  unfold sync_new_select_folder. destruct (fld =? "sent")%string.
  - apply sim_bind_eq; [apply sim_probe|].
    intros [f|]; [now apply sim_ret|].
    apply sim_bind_eq; [apply sim_imap_logout|]. intros _.
    now apply sim_ret.
  - apply sim_bind_eq; [apply sim_select_or_inbox|]. intros _.
    now apply sim_ret.
Qed.

Lemma stored_uids_with_id u i l :
  stored_uids u (map (with_id i) l) = stored_uids u l.
Proof.
  unfold stored_uids. induction l as [|a l IH]; cbn; [reflexivity|].
  now rewrite IH.
Qed.

Lemma message_ids_with_id u i l :
  message_ids u (map (with_id i) l) = message_ids u l.
Proof.
  unfold message_ids. induction l as [|a l IH]; cbn; [reflexivity|].
  now rewrite IH.
Qed.

Lemma same_keys_grown F rows rows' :
  same_keys (fr_user F) (fr_rows F) (fr_rows' F) ->
  grown F rows rows' ->
  same_keys (fr_user F) rows rows'.
Proof.
  intros [Hu Hm] (added & added' & -> & -> & Hsame).
  unfold same_up_to_id in Hsame.
  assert (E1 : stored_uids (fr_user F) added
               = stored_uids (fr_user F) added').
  { rewrite <- (stored_uids_with_id _ 0 added), Hsame.
    apply stored_uids_with_id. }
  assert (E2 : message_ids (fr_user F) added
               = message_ids (fr_user F) added').
  { rewrite <- (message_ids_with_id _ 0 added), Hsame.
    apply message_ids_with_id. }
  split; intros x.
  - rewrite !stored_uids_app, !in_app_iff, E1, Hu. tauto.
  - rewrite !message_ids_app, !in_app_iff, E2, Hm. tauto.
Qed.

Lemma related_same_keys F st st' :
  related F st st' -> same_keys (fr_user F) (st_rows st) (st_rows st').
Proof.
  intros R. unfold related in R. apply same_keys_grown; tauto.
Qed.

Lemma same_keys_uid u rows rows' n :
  same_keys u rows rows' ->
  (query_by_uid u n rows = None <-> query_by_uid u n rows' = None).
Proof. intros [H _]. rewrite !query_by_uid_none, H. tauto. Qed.

Lemma same_keys_message_id u rows rows' m :
  same_keys u rows rows' -> truthy_str m = true ->
  (query_by_message_id u m rows = None
   <-> query_by_message_id u m rows' = None).
Proof.
  intros [_ H] Hm. rewrite !query_by_message_id_none by exact Hm.
  rewrite H. tauto.
Qed.

Lemma grown_snoc F rows rows' e i j :
  grown F rows rows' ->
  grown F (rows ++ [with_id i e]) (rows' ++ [with_id j e]).
Proof.
  intros (added & added' & -> & -> & Hsame).
  exists (added ++ [with_id i e])%list, (added' ++ [with_id j e])%list.
  rewrite !app_assoc. split; [reflexivity|]. split; [reflexivity|].
  unfold same_up_to_id in *. rewrite !map_app, Hsame. reflexivity.
Qed.

Lemma sim_session_add F e :
  simulates F (fun a a' => with_id 0 a = with_id 0 a')
            (session_add e) (session_add e).
Proof.
  intros st st' R. unfold session_add, bind, get_state, modify, ret. cbn.
  split; [reflexivity|]. unfold related in *. cbn.
  destruct R as (R0 & R1 & R2 & R3 & R4 & R5 & R6 & R7 & R8 & R9).
  repeat (split; [assumption|]).
  split; [now apply grown_snoc|]. split; [assumption|]. lia.
Qed.

Lemma sim_session_commit F :
  simulates F eq session_commit session_commit.
Proof.
  intros st st' R. unfold session_commit, modify. cbn.
  split; [reflexivity|]. unfold related in *. cbn.
  destruct R as (R0 & R1 & R2 & R3 & R4 & R5 & R6 & R7 & R8 & R9).
  rewrite R5, R6, !filter_not_deleted_nil. cbn. tauto.
Qed.

Ltac sim_branches tac :=
  repeat match goal with
         | |- simulates _ _ (if ?b then _ else _) _ => destruct b
         | |- simulates _ _ _ (if ?b then _ else _) => destruct b
         end;
  try tac.

Lemma sim_sync_loop F srv user fld limit uids :
  fr_user F = uid_of_user user ->
  forall f n,
    simulates F eq (sync_loop srv user fld limit uids f n)
              (sync_loop srv user fld limit uids f n).
Proof.
  intros Hu. induction uids as [|uid rest IH]; intros f n;
    cbn [sync_loop]; [now apply sim_ret|].
  apply sim_bind_state. intros st st' R.
  pose proof (related_same_keys _ _ _ R) as K. rewrite Hu in K.
  pose proof (same_keys_uid _ _ _ uid K) as Kuid.
  destruct (query_by_uid (uid_of_user user) uid (st_rows st)) eqn:Q,
           (query_by_uid (uid_of_user user) uid (st_rows st')) eqn:Q';
    try (exfalso; intuition congruence).
  { sim_branches ltac:(apply IH). }
  apply sim_bind_eq; [apply sim_imap_fetch|].
  assert (Hcounted : forall k,
             simulates F eq
               (if limit <=? f + 1 then ret k
                else sync_loop srv user fld limit rest (f + 1) k)
               (if limit <=? f + 1 then ret k
                else sync_loop srv user fld limit rest (f + 1) k)).
  { intros k. destruct (limit <=? f + 1); [now apply sim_ret|apply IH]. }
  assert (Hstore : forall e,
             simulates F eq
               (session_add e;;; session_commit;;;
                (if limit <=? f + 1 then ret (n + 1)
                 else sync_loop srv user fld limit rest (f + 1) (n + 1)))
               (session_add e;;; session_commit;;;
                (if limit <=? f + 1 then ret (n + 1)
                 else sync_loop srv user fld limit rest (f + 1) (n + 1)))).
  { intros e. eapply sim_bind; [apply sim_session_add|]. intros _ _ _.
    apply sim_bind_eq; [apply sim_session_commit|]. intros _.
    apply Hcounted. }
  intros [| |raw]; [apply IH|apply Hcounted|].
  destruct (parse_from_bytes raw) as [|pm]; [apply IH|].
  cbv zeta.
  destruct (message_id_header (new_email user fld uid pm)) as [m|];
    [|apply Hstore].
  destruct (truthy_str m) eqn:Hm; [|apply Hstore].
  pose proof (same_keys_message_id _ _ _ m K Hm) as Kmid.
  destruct (query_by_message_id (uid_of_user user) m (st_rows st)) eqn:M,
           (query_by_message_id (uid_of_user user) m (st_rows st')) eqn:M';
    try (exfalso; intuition congruence).
  - sim_branches ltac:(apply IH).
  - apply Hstore.
Qed.

Lemma sim_sync_new_loop F srv user fld last_uid uids :
  fr_user F = uid_of_user user ->
  forall acc acc',
    same_up_to_id acc acc' ->
    simulates F same_up_to_id
              (sync_new_loop srv user fld last_uid uids acc)
              (sync_new_loop srv user fld last_uid uids acc').
Proof.
  intros Hu. induction uids as [|uid rest IH]; intros acc acc' Hacc;
    cbn [sync_new_loop]; [now apply sim_ret|].
  destruct (uid <=? last_uid); [now apply IH|].
  apply sim_bind_state. intros st st' R.
  pose proof (related_same_keys _ _ _ R) as K. rewrite Hu in K.
  pose proof (same_keys_uid _ _ _ uid K) as Kuid.
  destruct (query_by_uid (uid_of_user user) uid (st_rows st)) eqn:Q,
           (query_by_uid (uid_of_user user) uid (st_rows st')) eqn:Q';
    try (exfalso; intuition congruence).
  { sim_branches ltac:(apply IH; exact Hacc). }
  apply sim_bind_eq; [apply sim_imap_fetch|].
  assert (Hstore : forall e,
             simulates F same_up_to_id
               (e' <- session_add e;; session_commit;;;
                sync_new_loop srv user fld last_uid rest (acc ++ [e']))
               (e' <- session_add e;; session_commit;;;
                sync_new_loop srv user fld last_uid rest (acc' ++ [e']))).
  { intros e. eapply sim_bind; [apply sim_session_add|].
    intros a a' Ha. cbv beta in Ha.
    apply sim_bind_eq; [apply sim_session_commit|]. intros _.
    apply IH. unfold same_up_to_id in *. rewrite !map_app, Hacc.
    cbn [map]. now rewrite Ha. }
  intros [| |raw]; [now apply IH|now apply IH|].
  destruct (parse_from_bytes raw) as [|pm]; [now apply IH|].
  cbv zeta.
  destruct (message_id_header (new_email user fld uid pm)) as [m|];
    [|apply Hstore].
  destruct (truthy_str m) eqn:Hm; [|apply Hstore].
  pose proof (same_keys_message_id _ _ _ m K Hm) as Kmid.
  destruct (query_by_message_id (uid_of_user user) m (st_rows st)) eqn:M,
           (query_by_message_id (uid_of_user user) m (st_rows st')) eqn:M';
    try (exfalso; intuition congruence).
  - sim_branches ltac:(apply IH; exact Hacc).
  - apply Hstore.
Qed.

Lemma sim_sync_emails_body F srv user fld limit :
  fr_user F = uid_of_user user ->
  simulates F eq (sync_emails_body srv user fld limit)
            (sync_emails_body srv user fld limit).
Proof.
  intros Hu. unfold sync_emails_body.
  apply sim_bind_eq; [apply sim_imap_login|]. intros _.
  apply sim_bind_eq; [apply sim_sync_select_folder|].
  intros [|]; [|now apply sim_ret].
  apply sim_bind_eq; [apply sim_imap_search|].
  intros [uids|].
  - apply sim_bind_eq; [now apply sim_sync_loop|]. intros n.
    apply sim_bind_eq; [apply sim_imap_logout|]. intros _.
    now apply sim_ret.
  - apply sim_bind_eq; [apply sim_imap_logout|]. intros _.
    now apply sim_ret.
Qed.

Lemma same_response_refl r : same_response r r.
Proof. unfold same_response, same_up_to_id. tauto. Qed.

Lemma sim_sync_new_emails_body F srv user fld db db' :
  fr_user F = uid_of_user user ->
  cursor db user fld = cursor db' user fld ->
  simulates F same_response (sync_new_emails_body srv user fld db)
            (sync_new_emails_body srv user fld db').
Proof.
  intros Hu Hc. unfold sync_new_emails_body. rewrite <- Hc.
  apply sim_bind_eq; [apply sim_imap_login|]. intros _.
  apply sim_bind_eq; [apply sim_sync_new_select_folder|].
  intros [|]; [|apply sim_ret, same_response_refl].
  destruct (cursor db user fld) as [last_uid|]; [|apply sim_raise].
  apply sim_bind_eq; [apply sim_imap_search|].
  intros [uids|].
  - eapply sim_bind.
    + apply sim_sync_new_loop; [exact Hu|reflexivity].
    + intros added added' Hadd.
      apply sim_bind_eq; [apply sim_imap_logout|]. intros _.
      apply sim_ret. unfold same_response. cbn.
      assert (List.length added = List.length added') as ->.
      { unfold same_up_to_id in Hadd.
        rewrite <- (length_map (with_id 0) added), Hadd.
        apply length_map. }
      tauto.
  - apply sim_bind_eq; [apply sim_imap_logout|]. intros _.
    apply sim_ret, same_response_refl.
Qed.

(** Two requests that start from databases with the same keys for the
    account and whose bodies go the same way end alike. *)
Lemma handle_simulates u db db' (RA : Response -> Response -> Prop)
    (body body' : M Response) :
  same_keys u (emails db) (emails db') ->
  (forall r, RA r r) ->
  simulates (mkFrame u (emails db) (emails db') (next_id db) (next_id db'))
            RA body body' ->
  let o := handle db body in
  let o' := handle db' body' in
  RA (response o) (response o') /\ trace o = trace o' /\
  exists added added',
    emails (db_after o) = (emails db ++ added)%list /\
    emails (db_after o') = (emails db' ++ added')%list /\
    same_up_to_id added added'.
Proof.
  intros K Hrefl Hsim o o'. subst o o'. unfold handle.
  set (F := mkFrame u (emails db) (emails db') (next_id db) (next_id db')).
  assert (R0 : related F (begin_request db) (begin_request db')).
  { unfold related. cbn.
    assert (G : grown F (emails db) (emails db')).
    { exists [], []. rewrite !app_nil_r. repeat split. }
    repeat (split; [first [assumption|reflexivity]|]). lia. }
  specialize (Hsim _ _ R0).
  destruct (body (begin_request db)) as [[|r] st],
           (body' (begin_request db')) as [[|r'] st']; try contradiction.
  - unfold related in Hsim. cbn.
    destruct Hsim as (_ & _ & Hl & _ & _ & _ & _ & _ & Hc & _).
    split; [apply Hrefl|]. split; [exact Hl|]. exact Hc.
  - destruct Hsim as (Hr & Hrel). unfold related in Hrel. cbn.
    destruct Hrel as (_ & _ & Hl & _ & _ & _ & _ & _ & Hc & _).
    split; [exact Hr|]. split; [exact Hl|]. exact Hc.
Qed.

(** The sync handlers read the database only through the UIDs and message-
    ids stored for the account (and the cursor, for the incremental one). *)
Lemma sync_emails_same_keys srv user rq db db' :
  same_keys (uid_of_user user) (emails db) (emails db') ->
  let o := sync_emails srv user rq db in
  let o' := sync_emails srv user rq db' in
  response o = response o' /\ trace o = trace o' /\
  exists added added',
    emails (db_after o) = (emails db ++ added)%list /\
    emails (db_after o') = (emails db' ++ added')%list /\
    same_up_to_id added added'.
Proof.
  intros K o o'. subst o o'. unfold sync_emails.
  assert (Hnone : exists added added' : list Email,
             emails db = (emails db ++ added)%list /\
             emails db' = (emails db' ++ added')%list /\
             same_up_to_id added added').
  { exists [], []. rewrite !app_nil_r. repeat split. }
  destruct (negb (truthy_ostr (decrypted_password user))); [cbn; auto|].
  destruct (negb (truthy_ostr (imap_host user))
            || negb (truthy_oint (imap_port user))); [cbn; auto|].
  apply (handle_simulates (uid_of_user user) db db' eq); auto.
  now apply sim_sync_emails_body.
Qed.

Lemma sync_new_emails_same_keys srv user rq db db' :
  same_keys (uid_of_user user) (emails db) (emails db') ->
  cursor db user (requested_folder rq)
  = cursor db' user (requested_folder rq) ->
  let o := sync_new_emails srv user rq db in
  let o' := sync_new_emails srv user rq db' in
  same_response (response o) (response o') /\ trace o = trace o' /\
  exists added added',
    emails (db_after o) = (emails db ++ added)%list /\
    emails (db_after o') = (emails db' ++ added')%list /\
    same_up_to_id added added'.
Proof.
  intros K Hc o o'. subst o o'. unfold sync_new_emails.
  assert (Hnone : exists added added' : list Email,
             emails db = (emails db ++ added)%list /\
             emails db' = (emails db' ++ added')%list /\
             same_up_to_id added added').
  { exists [], []. rewrite !app_nil_r. repeat split. }
  destruct (negb (truthy_ostr (decrypted_password user)));
    [cbn; split; [apply same_response_refl|auto]|].
  destruct (negb (truthy_ostr (imap_host user))
            || negb (truthy_oint (imap_port user)));
    [cbn; split; [apply same_response_refl|auto]|].
  apply (handle_simulates (uid_of_user user) db db' same_response);
    auto using same_response_refl.
  now apply sim_sync_new_emails_body.
Qed.

Lemma stored_uids_rows_of u rows :
  stored_uids u (rows_of u rows) = stored_uids u rows.
Proof.
  unfold stored_uids, rows_of. induction rows as [|a r IH]; cbn;
    [reflexivity|].
  destruct (user_id a =? u) eqn:E; cbn; [rewrite E|]; now rewrite IH.
Qed.

Lemma message_ids_rows_of u rows :
  message_ids u (rows_of u rows) = message_ids u rows.
Proof.
  unfold message_ids, rows_of. induction rows as [|a r IH]; cbn;
    [reflexivity|].
  destruct (user_id a =? u) eqn:E; cbn; [rewrite E|]; now rewrite IH.
Qed.

Lemma latest_email_rows_of nf u fld rows :
  latest_email nf u fld (rows_of u rows) = latest_email nf u fld rows.
Proof.
  unfold latest_email, rows_of. f_equal.
  induction rows as [|a r IH]; cbn; [reflexivity|].
  destruct (user_id a =? u) eqn:E; cbn; rewrite ?E; cbn;
    now rewrite IH.
Qed.

Lemma same_keys_rows_of u rows rows' :
  rows_of u rows = rows_of u rows' -> same_keys u rows rows'.
Proof.
  intros H. split; intros x.
  - now rewrite <- (stored_uids_rows_of u rows), H, stored_uids_rows_of.
  - now rewrite <- (message_ids_rows_of u rows), H, message_ids_rows_of.
Qed.

(** X8. What other accounts have stored never shows in an account's sync.
    On two databases that hold the same rows for the account, a full or
    an incremental sync against the same server answers alike, issues the
    same IMAP commands and stores the same rows (the primary keys aside,
    which come from the shared sequence). *)
Theorem sync_ignores_other_accounts srv user rq db db' :
  rows_of (uid_of_user user) (emails db)
  = rows_of (uid_of_user user) (emails db') ->
  desc_nulls_first db = desc_nulls_first db' ->
  let same_effect (o o' : Outcome) :=
    same_response (response o) (response o') /\ trace o = trace o' /\
    exists added added',
      emails (db_after o) = (emails db ++ added)%list /\
      emails (db_after o') = (emails db' ++ added')%list /\
      same_up_to_id added added' in
  same_effect (sync_emails srv user rq db) (sync_emails srv user rq db') /\
  same_effect (sync_new_emails srv user rq db)
              (sync_new_emails srv user rq db').
Proof.
  intros Hrows Hnf same_effect. subst same_effect. cbv beta.
  pose proof (same_keys_rows_of _ _ _ Hrows) as K. split.
  - destruct (sync_emails_same_keys srv user rq db db' K) as (E & T & A).
    rewrite E. split; [apply same_response_refl|]. auto.
  - apply sync_new_emails_same_keys; [exact K|].
    unfold cursor.
    rewrite <- (latest_email_rows_of _ _ _ (emails db)),
            <- (latest_email_rows_of _ _ _ (emails db')).
    now rewrite Hrows, Hnf.
Qed.

Lemma sync_ignores_other_accounts_witness :
  let srv := accepting_server [5; 6; 7] in
  let user := sample_user in
  let rq := mkSyncRequest None None in
  let db := sample_db in
  let db' := mkDb (foreign_row :: emails sample_db) 10 true in
  let same_effect (o o' : Outcome) :=
    same_response (response o) (response o') /\ trace o = trace o' /\
    exists added added',
      emails (db_after o) = (emails db ++ added)%list /\
      emails (db_after o') = (emails db' ++ added')%list /\
      same_up_to_id added added' in
  same_effect (sync_emails srv user rq db) (sync_emails srv user rq db') /\
  same_effect (sync_new_emails srv user rq db)
              (sync_new_emails srv user rq db').
Proof.
  apply (sync_ignores_other_accounts (accepting_server [5; 6; 7])
           sample_user (mkSyncRequest None None) sample_db
           (mkDb (foreign_row :: emails sample_db) 10 true));
    reflexivity.
Defined.

(** A row without UID and without message-id adds no key. *)
Lemma same_keys_keyless u rows e :
  imap_uid e = None -> message_id_header e = None ->
  same_keys u rows (rows ++ [e]).
Proof.
  intros Hu Hm. split; intros x.
  - rewrite stored_uids_app. unfold stored_uids at 3. cbn.
    rewrite Hu. destruct (user_id e =? u); cbn; rewrite app_nil_r; tauto.
  - rewrite message_ids_app. unfold message_ids at 3. cbn.
    rewrite Hm. destruct (user_id e =? u); cbn; rewrite app_nil_r; tauto.
Qed.

(** X9. The rows the compose endpoints store locally (a sent message, a
    draft) carry no UID and no message-id, so a later full sync cannot
    match anything against them: it answers, talks to the server and
    stores rows exactly as it would have without the local row.  The
    server's copy of a message sent from here is therefore stored next to
    the local one. *)
Theorem local_copy_invisible_to_full_sync fernet smtp a rq attachments srv
    srq db :
  let user := user_of_account fernet a in
  let sent := send_email fernet smtp a rq attachments db in
  let saved := save_draft user rq db in
  let same_effect (db' : Db) :=
    let o := sync_emails srv user srq db in
    let o' := sync_emails srv user srq db' in
    response o' = response o /\ trace o' = trace o /\
    exists added added',
      emails (db_after o) = (emails db ++ added)%list /\
      emails (db_after o') = (emails db' ++ added')%list /\
      same_up_to_id added added' in
  (status (so_response sent) = success ->
   same_effect (so_db sent) /\
   forall x, ~ same_message
               (with_id (next_id db)
                        (sent_email a (get_or "" (c_to rq)) rq)) x) /\
  same_effect (ds_db saved).
Proof.
  intros user sent saved same_effect.
  assert (Hgen : forall e,
             imap_uid e = None -> message_id_header e = None ->
             same_effect (mkDb (emails db ++ [e]) (next_id db + 1)
                               (desc_nulls_first db))).
  { intros e Hu Hm. unfold same_effect.
    destruct (sync_emails_same_keys srv user srq db
                (mkDb (emails db ++ [e]) (next_id db + 1)
                      (desc_nulls_first db))
                (same_keys_keyless _ _ e Hu Hm)) as (E & T & A).
    auto. }
  split.
  - intros Hok. subst sent.
    destruct (send_email_success _ _ _ _ _ _ Hok) as (_ & _ & ->).
    split; [now apply Hgen|].
    intros x (_ & [(n & Hn & _)|(m & Hm & _)]); discriminate.
  - subst saved. rewrite save_draft_run. cbn [ds_db]. now apply Hgen.
Qed.

Lemma local_copy_invisible_to_full_sync_witness :
  let fernet := Some sample_fernet in
  let a := sample_account in
  let rq := sample_compose in
  let db := sample_db in
  let srv := accepting_server [5; 6; 7] in
  let srq := mkSyncRequest (Some "sent") None in
  let user := user_of_account fernet a in
  let sent := send_email fernet accepting_smtp a rq [] db in
  let saved := save_draft user rq db in
  let same_effect (db' : Db) :=
    let o := sync_emails srv user srq db in
    let o' := sync_emails srv user srq db' in
    response o' = response o /\ trace o' = trace o /\
    exists added added',
      emails (db_after o) = (emails db ++ added)%list /\
      emails (db_after o') = (emails db' ++ added')%list /\
      same_up_to_id added added' in
  (same_effect (so_db sent) /\
   forall x, ~ same_message
               (with_id (next_id db)
                        (sent_email a (get_or "" (c_to rq)) rq)) x) /\
  same_effect (ds_db saved).
Proof.
  destruct (local_copy_invisible_to_full_sync (Some sample_fernet)
              accepting_smtp sample_account sample_compose []
              (accepting_server [5; 6; 7])
              (mkSyncRequest (Some "sent") None) sample_db) as (H1 & H2).
  split; [apply H1; reflexivity|exact H2].
Defined.





(** * Logging in *)

Lemma imap_test_ok net host port email password issued :
  imap_test net host port email password = (issued, None) ->
  issued = [LConnect host port; LLogin email password; LLogout] /\
  ep_connect (net host port) = None /\
  ep_login (net host port) email password = None /\
  ep_logout (net host port) = None.
Proof.
  unfold imap_test.
  destruct (ep_connect (net host port)); [discriminate|].
  destruct (ep_login (net host port) email password); [discriminate|].
  intros [= <- ->]. auto.
Qed.

Lemma imap_test_issued net host port email password :
  fst (imap_test net host port email password) <> [].
Proof.
  unfold imap_test.
  destruct (ep_connect (net host port)); [discriminate|].
  destruct (ep_login (net host port) email password); discriminate.
Qed.

(** X11. [login] touches the table of users only after the connection test
    went through: a success means that the three calls (connect, login
    with the submitted address and password, logout) were made on the
    provider's host and none raised, and the token is issued for the
    submitted address.  Any other answer leaves the users as they were and
    issues no token; it is a 400 exactly when no connection was attempted,
    a 401 when a call raised an IMAP error and a 500 when it raised
    anything else. *)
Theorem login_stores_after_connection_test fernet entropy net rq us :
  let o := login fernet entropy net rq us in
  (status (lo_response o) = success ->
   exists s host email password,
     provider_settings rq = Some s /\ user_imap_host s = Some host /\
     l_email rq = Some email /\ l_password rq = Some password /\
     lo_trace o = [LConnect host (user_imap_port s); LLogin email password;
                   LLogout] /\
     imap_test net host (user_imap_port s) email password
     = (lo_trace o, None) /\
     lo_identity o = Some email /\
     lo_users o = store_account fernet entropy email password
                                (l_provider rq) s us) /\
  (status (lo_response o) <> success ->
   lo_users o = us /\ lo_identity o = None /\
   (code (lo_response o) = 400 /\ lo_trace o = [] \/
    exists s host f,
      provider_settings rq = Some s /\ user_imap_host s = Some host /\
      imap_test net host (user_imap_port s) (get_or "" (l_email rq))
                (get_or "" (l_password rq))
      = (lo_trace o, Some f) /\ lo_trace o <> [] /\
      code (lo_response o) = match f with
                             | ImapError => 401
                             | OtherError => 500
                             end)).
Proof.
  intros o. subst o. unfold login.
  destruct (l_email rq) as [email|]; cbn [truthy_ostr negb orb];
    [|split; [discriminate|cbn; auto]].
  destruct (truthy_str email); cbn [negb orb];
    [|split; [discriminate|cbn; auto]].
  destruct (l_password rq) as [password|]; cbn [truthy_ostr negb];
    [|split; [discriminate|cbn; auto]].
  destruct (truthy_str password); cbn [negb];
    [|split; [discriminate|cbn; auto]].
  destruct (provider_settings rq) as [s|];
    [|split; [discriminate|cbn; auto]].
  destruct (user_imap_host s) as [host|] eqn:Hh; cbn [truthy_ostr negb];
    [|split; [discriminate|cbn; auto]].
  destruct (truthy_str host); cbn [negb];
    [|split; [discriminate|cbn; auto]].
  cbn [get_or].
  pose proof (imap_test_issued net host (user_imap_port s) email password)
    as Hne.
  destruct (imap_test net host (user_imap_port s) email password)
    as [issued [[|]|]] eqn:Ht; cbn [fst] in Hne.
  - split; [discriminate|]. intros _. cbn.
    split; [reflexivity|]. split; [reflexivity|]. right.
    exists s, host, ImapError. auto.
  - split; [discriminate|]. intros _. cbn.
    split; [reflexivity|]. split; [reflexivity|]. right.
    exists s, host, OtherError. auto.
  - split; [|intros H; now elim H]. intros _. cbn.
    destruct (imap_test_ok _ _ _ _ _ _ Ht) as (-> & _).
    exists s, host, email, password. auto 10.
Qed.

Lemma query_account_spec email us a :
  query_account email us = Some a ->
  In a (accounts us) /\ acct_email a = email.
Proof.
  unfold query_account. intros H. apply find_some in H.
  destruct H as [H1 H2]. apply String.eqb_eq in H2. auto.
Qed.

Lemma query_account_none email us :
  query_account email us = None ->
  ~ In email (map acct_email (accounts us)).
Proof.
  unfold query_account. intros H Hin. apply in_map_iff in Hin.
  destruct Hin as (a & Ha & Hin). pose proof (find_none _ _ H a Hin) as Hn.
  cbv beta in Hn. rewrite Ha, String.eqb_refl in Hn. discriminate.
Qed.

Lemma set_email_password_keeps fernet entropy password a :
  let a' := set_email_password fernet entropy password a in
  acct_id a' = acct_id a /\ acct_email a' = acct_email a /\
  email_provider_type a' = email_provider_type a /\
  acct_imap_host a' = acct_imap_host a /\
  acct_imap_port a' = acct_imap_port a /\
  smtp_host a' = smtp_host a /\ smtp_port a' = smtp_port a.
Proof.
  unfold set_email_password. destruct fernet; [|cbn; tauto].
  destruct (truthy_str password); cbn; tauto.
Qed.

Lemma store_account_emails fernet entropy email password provider s us :
  map acct_email (accounts (store_account fernet entropy email password
                                          provider s us))
  = match query_account email us with
    | None => (map acct_email (accounts us) ++ [email])%list
    | Some _ => map acct_email (accounts us)
    end.
Proof.
  unfold store_account. destruct (query_account email us); cbn.
  - rewrite map_map. apply map_ext. intros x.
    destruct (acct_email x =? email)%string; [|reflexivity].
    now destruct (set_email_password_keeps fernet entropy password
                    (with_settings provider s x)) as (_ & -> & _).
  - rewrite map_app. cbn.
    now destruct (set_email_password_keeps fernet entropy password
                    (mkAccount (next_account_id us) email None provider
                               (user_imap_host s) (Some (user_imap_port s))
                               (user_smtp_host s) (Some (user_smtp_port s))))
      as (_ & -> & _).
Qed.

Lemma store_account_ids fernet entropy email password provider s us :
  map acct_id (accounts (store_account fernet entropy email password
                                       provider s us))
  = match query_account email us with
    | None => (map acct_id (accounts us) ++ [next_account_id us])%list
    | Some _ => map acct_id (accounts us)
    end.
Proof.
  unfold store_account. destruct (query_account email us); cbn.
  - rewrite map_map. apply map_ext. intros x.
    destruct (acct_email x =? email)%string; [|reflexivity].
    now destruct (set_email_password_keeps fernet entropy password
                    (with_settings provider s x)) as (-> & _).
  - rewrite map_app. cbn.
    now destruct (set_email_password_keeps fernet entropy password
                    (mkAccount (next_account_id us) email None provider
                               (user_imap_host s) (Some (user_imap_port s))
                               (user_smtp_host s) (Some (user_smtp_port s))))
      as (-> & _).
Qed.

Lemma store_account_others fernet entropy email password provider s us a :
  In a (accounts us) -> acct_email a <> email ->
  In a (accounts (store_account fernet entropy email password provider s
                                us)).
Proof.
  intros Hin Hne. unfold store_account.
  destruct (query_account email us); cbn.
  - apply in_map_iff. exists a. apply String.eqb_neq in Hne.
    now rewrite Hne.
  - apply in_or_app. now left.
Qed.

Lemma login_cases fernet entropy net rq us :
  let o := login fernet entropy net rq us in
  status (lo_response o) <> success /\ lo_users o = us \/
  status (lo_response o) = success /\
  exists s password,
    lo_users o = store_account fernet entropy (get_or "" (l_email rq))
                               password (l_provider rq) s us.
Proof.
  intros o. subst o. unfold login.
  destruct (negb (truthy_ostr (l_email rq))
            || negb (truthy_ostr (l_password rq)));
    [left; cbn; split; [discriminate|reflexivity]|].
  destruct (provider_settings rq) as [s|];
    [|left; cbn; split; [discriminate|reflexivity]].
  destruct (negb (truthy_ostr (user_imap_host s)));
    [left; cbn; split; [discriminate|reflexivity]|].
  destruct (imap_test _ _ _ _ _) as [issued [[|]|]];
    [left; cbn; split; [discriminate|reflexivity]..|].
  right. cbn. split; [reflexivity|]. eauto.
Qed.

(** X12. [login] keeps one account per address and never re-keys one: if
    addresses and keys are pairwise distinct before (keys below the
    sequence), they are after, whatever the request and the network.
    Every account with another address is still there unchanged, and an
    account that exists for the address keeps its key, so its messages stay
    attached to it. *)
Theorem login_keeps_accounts_unique fernet entropy net rq us :
  NoDup (map acct_email (accounts us)) ->
  NoDup (map acct_id (accounts us)) ->
  Forall (fun a => acct_id a < next_account_id us) (accounts us) ->
  let o := login fernet entropy net rq us in
  let email := get_or "" (l_email rq) in
  NoDup (map acct_email (accounts (lo_users o))) /\
  NoDup (map acct_id (accounts (lo_users o))) /\
  Forall (fun a => acct_id a < next_account_id (lo_users o))
         (accounts (lo_users o)) /\
  (forall a, In a (accounts us) -> acct_email a <> email ->
             In a (accounts (lo_users o))) /\
  (forall a, In a (accounts us) -> acct_email a = email ->
             exists a', In a' (accounts (lo_users o)) /\
                        acct_id a' = acct_id a /\ acct_email a' = email) /\
  (status (lo_response o) = success ->
   In email (map acct_email (accounts (lo_users o)))).
Proof.
  intros NDe NDi Hlt o email.
  destruct (login_cases fernet entropy net rq us)
    as [(Hst & Hus)|(Hst & s & password & Hus)]; fold o in Hst, Hus;
    rewrite Hus.
  - repeat split; auto; [|intros H; now elim Hst].
    intros a Ha He. exists a. auto.
  - fold email.
    pose proof (store_account_emails fernet entropy email password
                  (l_provider rq) s us) as Ee.
    pose proof (store_account_ids fernet entropy email password
                  (l_provider rq) s us) as Ei.
    split; [|split; [|split; [|split; [|split]]]].
    + rewrite Ee. destruct (query_account email us) eqn:Q; [exact NDe|].
      apply NoDup_snoc; [exact NDe|]. now apply query_account_none.
    + rewrite Ei. destruct (query_account email us) eqn:Q; [exact NDi|].
      apply NoDup_snoc; [exact NDi|]. intros Hin.
      apply in_map_iff in Hin. destruct Hin as (a & Ha & Hin).
      rewrite Forall_forall in Hlt. specialize (Hlt a Hin). lia.
    + apply Forall_forall. intros a' Ha'.
      assert (Hid : In (acct_id a')
                       (map acct_id (accounts
                          (store_account fernet entropy email password
                                         (l_provider rq) s us))))
        by now apply in_map.
      rewrite Ei in Hid.
      assert (Hold : In (acct_id a') (map acct_id (accounts us)) ->
                     acct_id a' < next_account_id us).
      { intros H. apply in_map_iff in H. destruct H as (b & Hb & Hin).
        rewrite Forall_forall in Hlt. specialize (Hlt b Hin). lia. }
      unfold store_account in *.
      destruct (query_account email us); cbn in *.
      * auto.
      * apply in_app_iff in Hid. destruct Hid as [Hid|[Hid|[]]];
          [specialize (Hold Hid)|]; lia.
    + intros a Ha Hne. now apply store_account_others.
    + intros a Ha He. unfold store_account.
      destruct (query_account email us) eqn:Q; cbn.
      * exists (set_email_password fernet entropy password
                  (with_settings (l_provider rq) s a)).
        split.
        -- apply in_map_iff. exists a. rewrite He, String.eqb_refl. auto.
        -- destruct (set_email_password_keeps fernet entropy password
                       (with_settings (l_provider rq) s a))
             as (-> & -> & _). cbn. auto.
      * exfalso. apply (query_account_none _ _ Q). rewrite <- He.
        now apply in_map.
    + intros _. rewrite Ee. destruct (query_account email us) eqn:Q.
      * apply query_account_spec in Q. destruct Q as [Hin <-].
        now apply in_map.
      * apply in_or_app. right. now left.
Qed.

Lemma login_keeps_accounts_unique_witness :
  let fernet := Some sample_fernet in
  let us := sample_users in
  let o := login fernet "iv" open_network sample_login us in
  let email := get_or "" (l_email sample_login) in
  NoDup (map acct_email (accounts (lo_users o))) /\
  NoDup (map acct_id (accounts (lo_users o))) /\
  Forall (fun a => acct_id a < next_account_id (lo_users o))
         (accounts (lo_users o)) /\
  (forall a, In a (accounts us) -> acct_email a <> email ->
             In a (accounts (lo_users o))) /\
  (forall a, In a (accounts us) -> acct_email a = email ->
             exists a', In a' (accounts (lo_users o)) /\
                        acct_id a' = acct_id a /\ acct_email a' = email) /\
  (status (lo_response o) = success ->
   In email (map acct_email (accounts (lo_users o)))).
Proof.
  apply (login_keeps_accounts_unique (Some sample_fernet) "iv" open_network
           sample_login sample_users).
  - simpl. repeat constructor; simpl; intuition discriminate.
  - simpl. repeat constructor; simpl; intuition discriminate.
  - repeat constructor.
Defined.

Lemma login_success_inv fernet entropy net rq us :
  status (lo_response (login fernet entropy net rq us)) = success ->
  exists s host email password,
    provider_settings rq = Some s /\ user_imap_host s = Some host /\
    truthy_str host = true /\
    l_email rq = Some email /\ truthy_str email = true /\
    l_password rq = Some password /\ truthy_str password = true /\
    lo_users (login fernet entropy net rq us)
    = store_account fernet entropy email password (l_provider rq) s us.
Proof.
  unfold login.
  destruct (l_email rq) as [email|]; cbn [truthy_ostr negb orb];
    [|discriminate].
  destruct (truthy_str email) eqn:He; cbn [negb orb]; [|discriminate].
  destruct (l_password rq) as [password|]; cbn [truthy_ostr negb];
    [|discriminate].
  destruct (truthy_str password) eqn:Hp; cbn [negb]; [|discriminate].
  destruct (provider_settings rq) as [s|]; [|discriminate].
  destruct (user_imap_host s) as [host|] eqn:Hh; cbn [truthy_ostr negb];
    [|discriminate].
  destruct (truthy_str host) eqn:Hth; cbn [negb]; [|discriminate].
  cbn [get_or].
  destruct (imap_test _ _ _ _ _) as [issued [[|]|]]; try discriminate.
  intros _. cbn. exists s, host, email, password. auto 10.
Qed.

Lemma provider_settings_port rq s :
  provider_settings rq = Some s -> user_imap_port s <> 0.
Proof.
  unfold provider_settings.
  repeat match goal with
         | |- context [if ?b then _ else _] =>
             lazymatch b with
             | truthy_oint _ => fail
             | _ => destruct b
             end
         end;
    try discriminate; try (intros [= <-]; cbn; discriminate).
  all: intros [= <-]; cbn.
  all: destruct (l_imap_port rq) as [p|]; cbn; try discriminate.
  all: destruct (p =? 0) eqn:E; cbn; [discriminate|now apply Z.eqb_neq].
Qed.

Lemma query_account_stored fernet entropy email password provider s us :
  exists a,
    query_account email (store_account fernet entropy email password
                                       provider s us) = Some a /\
    exists a0,
      a = set_email_password fernet entropy password a0 /\
      acct_email a0 = email /\
      acct_imap_host a0 = user_imap_host s /\
      acct_imap_port a0 = Some (user_imap_port s) /\
      smtp_host a0 = user_smtp_host s /\
      smtp_port a0 = Some (user_smtp_port s).
Proof.
  unfold store_account, query_account.
  destruct (find (fun a => (acct_email a =? email)%string) (accounts us))
    as [b|] eqn:Q; cbn [accounts].
  - exists (set_email_password fernet entropy password
              (with_settings provider s b)).
    split.
    + induction (accounts us) as [|c l IH]; cbn in *; [discriminate|].
      destruct (acct_email c =? email)%string eqn:E.
      * injection Q as ->.
        destruct (set_email_password_keeps fernet entropy password
                    (with_settings provider s b)) as (_ & -> & _).
        cbn. now rewrite E.
      * rewrite E. auto.
    + exists (with_settings provider s b). cbn.
      apply find_some in Q. destruct Q as [_ Q].
      apply String.eqb_eq in Q. auto 10.
  - eexists. split.
    + apply find_fresh_key_gen.
      * intros c Hc. exact (find_none _ _ Q c Hc).
      * destruct (set_email_password_keeps fernet entropy password
                    (mkAccount (next_account_id us) email None provider
                               (user_imap_host s) (Some (user_imap_port s))
                               (user_smtp_host s)
                               (Some (user_smtp_port s))))
          as (_ & -> & _).
        cbn. apply String.eqb_refl.
    + eexists. split; [reflexivity|]. cbn. auto 10.
Qed.

(** X13. After a successful [login] the account found for the address has
    the provider's IMAP host and a non-zero port.  With a Fernet key that
    decrypts what it encrypts, its decrypted password is the submitted one
    and the mailbox handlers find IMAP available.  Without a key ([fernet]
    is [None]) the login succeeds all the same but stores no password, and
    every later sync of the account answers 500 without contacting the
    server. *)
Theorem login_then_sync fernet entropy net rq us :
  let o := login fernet entropy net rq us in
  status (lo_response o) = success ->
  exists a password,
    l_password rq = Some password /\
    query_account (get_or "" (l_email rq)) (lo_users o) = Some a /\
    truthy_ostr (acct_imap_host a) = true /\
    truthy_oint (acct_imap_port a) = true /\
    (forall f, fernet = Some f -> fernet_round_trip f ->
               get_decrypted_email_password fernet a = Some password /\
               imap_available (user_of_account fernet a) = true) /\
    (fernet = None ->
     imap_available (user_of_account fernet a) = false /\
     forall srv srq db,
       let s := sync_emails srv (user_of_account fernet a) srq db in
       let n := sync_new_emails srv (user_of_account fernet a) srq db in
       code (response s) = 500 /\ trace s = [] /\ db_after s = db /\
       code (response n) = 500 /\ trace n = [] /\ db_after n = db).
Proof.
  intros o Hok. subst o.
  destruct (login_success_inv _ _ _ _ _ Hok)
    as (s & host & email & password & Hs & Hh & Hth & He & Hte & Hp & Htp
        & Hus).
  rewrite Hus, He. cbn [get_or].
  destruct (query_account_stored fernet entropy email password
              (l_provider rq) s us)
    as (a & Hq & a0 & -> & Ha0 & Hih & Hip & _).
  exists (set_email_password fernet entropy password a0), password.
  destruct (set_email_password_keeps fernet entropy password a0)
    as (_ & _ & _ & Kh & Kp & _).
  split; [exact Hp|]. split; [exact Hq|].
  assert (Hhost : truthy_ostr
                    (acct_imap_host
                       (set_email_password fernet entropy password a0))
                  = true)
    by (rewrite Kh, Hih, Hh; exact Hth).
  assert (Hport : truthy_oint
                    (acct_imap_port
                       (set_email_password fernet entropy password a0))
                  = true).
  { rewrite Kp, Hip. cbn. apply negb_true_iff, Z.eqb_neq.
    now apply (provider_settings_port rq). }
  split; [exact Hhost|]. split; [exact Hport|]. split.
  - intros f -> Hrt. destruct (Hrt entropy password) as [Hd Hne].
    assert (Hg : get_decrypted_email_password (Some f)
                   (set_email_password (Some f) entropy password a0)
                 = Some password).
    { unfold get_decrypted_email_password, set_email_password.
      rewrite Htp. cbn [encrypted_email_password].
      assert (Ht : truthy_str (encrypt f entropy password) = true)
        by (unfold truthy_str; apply negb_true_iff, String.eqb_neq;
            exact Hne).
      now rewrite Ht, Hd. }
    split; [exact Hg|].
    unfold imap_available, user_of_account.
    cbn [decrypted_password imap_host imap_port].
    rewrite Hg, Hhost, Hport. cbn [truthy_ostr]. now rewrite Htp.
  - intros ->. split; [reflexivity|].
    intros srv srq db. cbn. auto 10.
Qed.

Lemma login_then_sync_witness :
  let fernet := Some sample_fernet in
  let rq := sample_login in
  let o := login fernet "iv" open_network rq sample_users in
  exists a password,
    l_password rq = Some password /\
    query_account (get_or "" (l_email rq)) (lo_users o) = Some a /\
    truthy_ostr (acct_imap_host a) = true /\
    truthy_oint (acct_imap_port a) = true /\
    (forall f, fernet = Some f -> fernet_round_trip f ->
               get_decrypted_email_password fernet a = Some password /\
               imap_available (user_of_account fernet a) = true) /\
    (fernet = None ->
     imap_available (user_of_account fernet a) = false /\
     forall srv srq db,
       let s := sync_emails srv (user_of_account fernet a) srq db in
       let n := sync_new_emails srv (user_of_account fernet a) srq db in
       code (response s) = 500 /\ trace s = [] /\ db_after s = db /\
       code (response n) = 500 /\ trace n = [] /\ db_after n = db).
Proof.
  apply (login_then_sync (Some sample_fernet) "iv" open_network sample_login
           sample_users).
  reflexivity.
Defined.

(** The sample key decrypts what it encrypts. *)
Example sample_fernet_round_trip : fernet_round_trip sample_fernet.
Proof. intros entropy password. split; [reflexivity|discriminate]. Qed.

(** * Listing folders *)

Lemma split_on_cat sep x y :
  split_on sep (x ++ String sep y) = (split_on sep x ++ split_on sep y)%list.
Proof.
  induction x as [|c x IH]; cbn.
  - now rewrite Ascii.eqb_refl.
  - destruct (Ascii.eqb c sep); [now rewrite IH|].
    rewrite IH. destruct (split_on sep x) as [|p ps] eqn:E; [|reflexivity].
    pose proof (split_on_length sep x) as L. rewrite E in L. discriminate.
Qed.

Lemma has_char_false c s :
  has_char c s = false -> ~ In c (list_ascii_of_string s).
Proof.
  unfold has_char. intros H Hin.
  assert (existsb (Ascii.eqb c) (list_ascii_of_string s) = true).
  { apply existsb_exists. exists c. split; [exact Hin|].
    apply Ascii.eqb_refl. }
  congruence.
Qed.

Lemma has_char_app c x y :
  has_char c (x ++ y) = has_char c x || has_char c y.
Proof.
  unfold has_char. induction x as [|d x IH]; cbn; [reflexivity|].
  now rewrite IH, orb_assoc.
Qed.

Lemma penultimate_snoc2 l a b : penultimate (l ++ [a; b]) = a.
Proof.
  unfold penultimate. rewrite length_app. cbn [List.length].
  replace (List.length l + 2 - 2)%nat with (List.length l) by lia.
  rewrite app_nth2 by lia. now rewrite Nat.sub_diag.
Qed.

(** X14. The name [get_folders] reports for a line of the server's listing
    is the text between the last two double quotes of the line, and the
    whole line when it has none.  For a line that ends in a quoted mailbox
    name this is the name; for one whose mailbox name is not quoted it is
    the last quoted thing before it, the hierarchy delimiter.  When login,
    list and logout all return and the status is OK, the answer lists
    these names in the server's order. *)
Theorem folder_name_between_last_quotes pre name post :
  has_char dquote name = false ->
  has_char dquote post = false ->
  let q := String dquote "" in
  folder_name (pre ++ q ++ name ++ q ++ post) = name /\
  folder_name post = post /\
  (forall srv user lines,
      imap_available user = true ->
      srv_login srv = true -> srv_logout srv = true ->
      let o := get_folders srv (Replies (Some lines)) user in
      status (fo_response o) = success /\
      fo_folders o = map folder_name lines /\
      fo_trace o = [CLogin; CList; CLogout]).
Proof.
  intros Hn Hp q. split; [|split].
  - unfold folder_name. rewrite !has_char_app. subst q.
    replace (has_char dquote (String dquote "")) with true by reflexivity.
    rewrite orb_true_r. cbn [orb].
    change (pre ++ String dquote "" ++ name ++ String dquote "" ++ post)
      with (pre ++ String dquote (name ++ String dquote post)).
    rewrite !split_on_cat.
    rewrite (split_on_no_sep dquote name) by now apply has_char_false.
    rewrite (split_on_no_sep dquote post) by now apply has_char_false.
    apply penultimate_snoc2.
  - unfold folder_name. now rewrite Hp.
  - intros srv user lines Hav Hl Ho o. subst o.
    destruct (imap_available_checks user Hav) as (H1 & H2 & H3).
    unfold get_folders. rewrite H1, H2, H3. cbn [negb orb].
    unfold bind, imap_login, imap_list, imap_logout, issue, modify,
      returns_or_raises, of_reply, ret.
    cbn. rewrite Hl. cbn. rewrite Ho. cbn. auto.
Qed.

Lemma folder_name_between_last_quotes_witness :
  let q := String dquote "" in
  folder_name ("(\HasNoChildren) " ++ q ++ "/" ++ q ++ " INBOX") = "/" /\
  folder_name " INBOX" = " INBOX" /\
  (forall srv user lines,
      imap_available user = true ->
      srv_login srv = true -> srv_logout srv = true ->
      let o := get_folders srv (Replies (Some lines)) user in
      status (fo_response o) = success /\
      fo_folders o = map folder_name lines /\
      fo_trace o = [CLogin; CList; CLogout]).
Proof.
  apply (folder_name_between_last_quotes "(\HasNoChildren) " "/" " INBOX");
    reflexivity.
Defined.

(** * The AI endpoints *)

Lemma query_by_id_rows_of u i rows :
  query_by_id u i (rows_of u rows) = query_by_id u i rows.
Proof.
  unfold query_by_id, rows_of. induction rows as [|a r IH]; cbn;
    [reflexivity|].
  destruct (user_id a =? u) eqn:E; cbn; rewrite ?E.
  - destruct (email_id a =? i); cbn; [reflexivity|exact IH].
  - rewrite andb_false_r. exact IH.
Qed.

Lemma query_requested_rows_of u i rows rows' :
  rows_of u rows = rows_of u rows' ->
  query_requested u i rows = query_requested u i rows'.
Proof.
  intros H. destruct i as [i|]; [|reflexivity]. cbn.
  now rewrite <- (query_by_id_rows_of u i rows), H, query_by_id_rows_of.
Qed.

Lemma ai_service_init_enabled key tokens flag :
  is_enabled (ai_service_init key tokens flag) = true <->
  py_lower (get_or "false" flag) = "true" /\ truthy_ostr key = true.
Proof.
  unfold ai_service_init, is_enabled.
  destruct (py_lower (get_or "false" flag) =? "true")%string eqn:E.
  - apply String.eqb_eq in E. rewrite E.
    destruct key as [k|]; cbn; [|intuition discriminate].
    destruct (truthy_str k); cbn; intuition discriminate.
  - apply String.eqb_neq in E. cbn. intuition discriminate.
Qed.

(** X15. An AI endpoint calls the API at most once, and only when the
    service is enabled, which it is exactly when [ENABLE_AI_FEATURES] reads
    [true] in any letter case and [OPENAI_API_KEY] is a non-empty string;
    otherwise the answer is a 503.  The five endpoints that work on a
    message call the API only for a message of the caller: for any other
    [email_id] they answer 404 without a call, and [generate-content] then
    asks as it would with no message at all.  On two databases that hold
    the same rows for the caller every endpoint answers and asks the same:
    no row of another account reaches a prompt. *)
Theorem ai_endpoints_ask_only_about_own_mail {J : Type} s api
    (json_loads : string -> JsonParse J) user email_id context question
    content_type draft improvement db db' :
  let u := uid_of_user user in
  let summarize d := ai_summarize_email s api user email_id d in
  let items d := ai_extract_action_items s api json_loads user email_id d in
  let reply d := ai_compose_reply s api user email_id context d in
  let categorize d := ai_categorize_email s api user email_id d in
  let ask d := ai_ask_about_email s api user email_id question d in
  let generate i d := ai_generate_content s api user content_type i d in
  let improve := ai_improve_draft s api draft improvement in
  (forall key tokens flag,
      is_enabled (ai_service_init key tokens flag) = true <->
      py_lower (get_or "false" flag) = "true" /\ truthy_ostr key = true) /\
  (is_enabled s = false ->
   (code (ai_response (summarize db)) = 503 /\ ai_calls (summarize db) = [])
   /\ (code (ai_response (items db)) = 503 /\ ai_calls (items db) = [])
   /\ (code (ai_response (reply db)) = 503 /\ ai_calls (reply db) = [])
   /\ (code (ai_response (categorize db)) = 503
       /\ ai_calls (categorize db) = [])
   /\ (code (ai_response (ask db)) = 503 /\ ai_calls (ask db) = [])
   /\ (code (ai_response (generate email_id db)) = 503
       /\ ai_calls (generate email_id db) = [])
   /\ (code (ai_response improve) = 503 /\ ai_calls improve = [])) /\
  (query_requested u email_id (emails db) = None ->
   ai_calls (summarize db) = [] /\ ai_calls (items db) = [] /\
   ai_calls (reply db) = [] /\ ai_calls (categorize db) = [] /\
   ai_calls (ask db) = [] /\
   generate email_id db = generate None db) /\
  ((List.length (ai_calls (summarize db)) <= 1)%nat /\
   (List.length (ai_calls (items db)) <= 1)%nat /\
   (List.length (ai_calls (reply db)) <= 1)%nat /\
   (List.length (ai_calls (categorize db)) <= 1)%nat /\
   (List.length (ai_calls (ask db)) <= 1)%nat /\
   (List.length (ai_calls (generate email_id db)) <= 1)%nat /\
   (List.length (ai_calls improve) <= 1)%nat) /\
  (rows_of u (emails db) = rows_of u (emails db') ->
   summarize db = summarize db' /\ items db = items db' /\
   reply db = reply db' /\ categorize db = categorize db' /\
   ask db = ask db' /\ generate email_id db = generate email_id db').
Proof.
  intros u summarize items reply categorize ask generate improve.
  split; [apply ai_service_init_enabled|].
  split; [|split; [|split]].
  - intros Hd. unfold summarize, items, reply, categorize, ask, generate,
      improve, ai_summarize_email, ai_extract_action_items,
      ai_compose_reply, ai_categorize_email, ai_ask_about_email,
      ai_generate_content, ai_improve_draft.
    rewrite Hd. cbn. auto 20.
  - intros Hq. unfold summarize, items, reply, categorize, ask, generate,
      ai_summarize_email, ai_extract_action_items, ai_compose_reply,
      ai_categorize_email, ai_ask_about_email, ai_generate_content.
    fold u. rewrite Hq.
    destruct (negb (is_enabled s)); cbn.
    + auto 10.
    + destruct (negb (truthy_str (get_or "" question)));
        destruct (truthy_oint email_id); cbn; auto 10.
  - unfold summarize, items, reply, categorize, ask, generate, improve,
      ai_summarize_email, ai_extract_action_items, ai_compose_reply,
      ai_categorize_email, ai_ask_about_email, ai_generate_content,
      ai_improve_draft, summarize_email, extract_action_items,
      compose_reply, categorize_email, answer_question_about_email,
      generate_email_content, improve_email_draft, _make_openai_request.
    destruct (is_enabled s); cbn [negb]; [|cbn; lia].
    destruct (query_requested (uid_of_user user) email_id (emails db))
      as [e|]; cbn [ai_calls List.length].
    + repeat split;
        repeat match goal with
               | |- context [match api ?r with _ => _ end] =>
                   destruct (api r)
               | |- context [if ?b then _ else _] => destruct b
               | |- context [match json_loads ?r with _ => _ end] =>
                   destruct (json_loads r)
               end; cbn; lia.
    + repeat split;
        repeat match goal with
               | |- context [match api ?r with _ => _ end] =>
                   destruct (api r)
               | |- context [if ?b then _ else _] => destruct b
               end; cbn; lia.
  - intros Hrows.
    pose proof (query_requested_rows_of u email_id _ _ Hrows) as Hq.
    unfold summarize, items, reply, categorize, ask, generate,
      ai_summarize_email, ai_extract_action_items, ai_compose_reply,
      ai_categorize_email, ai_ask_about_email, ai_generate_content.
    fold u. rewrite Hq. auto 10.
Qed.

(** X16. With the service enabled, [categorize_email] always answers with
    one of its ten categories, whatever the API returns: the reply itself,
    lower-cased and stripped, when that is one of them, and [other]
    otherwise, also when the call raises.  It makes exactly one call, with
    [max_tokens] 10.  The endpoint therefore always answers success with a
    valid category for a message of the caller. *)
Theorem categorize_email_valid s api subj text from :
  is_enabled s = true ->
  let r := categorize_email s api subj text from in
  (exists category rq,
      r = (Some category, [rq]) /\ In category valid_categories /\
      chat_max_tokens rq = 10 /\
      (api rq = Raises -> category = "other") /\
      (forall content,
          api rq = Replies content ->
          In (py_strip (py_lower (py_strip content))) valid_categories ->
          category = py_strip (py_lower (py_strip content)))) /\
  (forall user email_id db e,
      query_requested (uid_of_user user) email_id (emails db) = Some e ->
      let o := ai_categorize_email s api user email_id db in
      status (ai_response o) = success /\
      exists category, ai_payload o = Some category /\
                       In category valid_categories).
Proof.
  intros He r.
  assert (Hcat : forall subj text from,
             exists category rq,
               categorize_email s api subj text from
               = (Some category, [rq]) /\
               In category valid_categories /\
               chat_max_tokens rq = 10 /\
               (api rq = Raises -> category = "other") /\
               (forall content,
                   api rq = Replies content ->
                   In (py_strip (py_lower (py_strip content)))
                      valid_categories ->
                   category = py_strip (py_lower (py_strip content)))).
  { clear r subj text from. intros subj text from.
    unfold categorize_email, _make_openai_request.
    rewrite He. cbn [negb truthy_oint Z.eqb].
    match goal with
    | |- context [api ?rq] => set (q := rq)
    end.
    assert (Hother : In "other" valid_categories)
      by (cbn; auto 20).
    destruct (api q) as [|content] eqn:Ha.
    - exists "other", q. cbn [truthy_ostr]. split; [reflexivity|].
      split; [exact Hother|]. split; [reflexivity|].
      split; [reflexivity|]. intros c Hc. congruence.
    - cbn [truthy_ostr get_or].
      destruct (truthy_str (py_strip content)) eqn:Ht.
      + destruct (str_in (py_strip (py_lower (py_strip content)))
                         valid_categories) eqn:Hin.
        * eexists _, q. split; [reflexivity|].
          split.
          { unfold str_in in Hin. apply existsb_exists in Hin.
            destruct Hin as (c & Hc & Hq). apply String.eqb_eq in Hq.
            now subst c. }
          split; [reflexivity|]. split; [intros H; congruence|].
          intros c Hc _. rewrite Ha in Hc. now injection Hc as <-.
        * exists "other", q. split; [reflexivity|].
          split; [exact Hother|]. split; [reflexivity|].
          split; [reflexivity|].
          intros c Hc Hv. rewrite Ha in Hc. injection Hc as <-. exfalso.
          assert (str_in (py_strip (py_lower (py_strip content)))
                         valid_categories = true).
          { unfold str_in. apply existsb_exists. eexists.
            split; [exact Hv|]. apply String.eqb_refl. }
          congruence.
      + exists "other", q. split; [reflexivity|].
        split; [exact Hother|]. split; [reflexivity|].
        split; [reflexivity|].
        intros c Hc Hv. rewrite Ha in Hc. injection Hc as <-. exfalso.
        unfold truthy_str in Ht. apply negb_false_iff in Ht.
        apply String.eqb_eq in Ht. rewrite Ht in Hv.
        cbn in Hv. intuition discriminate. }
  split; [apply Hcat|].
  intros user email_id db e Hq o. subst o. unfold ai_categorize_email.
  rewrite He, Hq. cbn [negb].
  destruct (Hcat (subject e) (body_for_ai e) (sender e))
    as (category & rq & -> & Hin & _).
  cbn. eauto.
Qed.

Lemma categorize_email_valid_witness :
  let s := ai_service_init (Some "sk-test") 2000 (Some "TRUE") in
  let api : OpenAI := fun _ => Replies " Work " in
  let r := categorize_email s api "Report" "Please review" "ann@example.org"
  in
  (exists category rq,
      r = (Some category, [rq]) /\ In category valid_categories /\
      chat_max_tokens rq = 10 /\
      (api rq = Raises -> category = "other") /\
      (forall content,
          api rq = Replies content ->
          In (py_strip (py_lower (py_strip content))) valid_categories ->
          category = py_strip (py_lower (py_strip content)))) /\
  (forall user email_id db e,
      query_requested (uid_of_user user) email_id (emails db) = Some e ->
      let o := ai_categorize_email s api user email_id db in
      status (ai_response o) = success /\
      exists category, ai_payload o = Some category /\
                       In category valid_categories).
Proof.
  apply (categorize_email_valid
           (ai_service_init (Some "sk-test") 2000 (Some "TRUE"))
           (fun _ => Replies " Work ") "Report" "Please review"
           "ann@example.org").
  reflexivity.
Defined.

(** ** The lines of a reply that is not JSON *)

Lemma lstrip_length cs l :
  (List.length (lstrip_chars cs l) <= List.length l)%nat.
Proof.
  induction l as [|c l IH]; cbn; [lia|].
  destruct (in_chars cs c); cbn; lia.
Qed.

Lemma lstrip_same_length cs l :
  List.length (lstrip_chars cs l) = List.length l -> lstrip_chars cs l = l.
Proof.
  destruct l as [|c l]; cbn; [reflexivity|].
  destruct (in_chars cs c); [|reflexivity].
  pose proof (lstrip_length cs l). lia.
Qed.

Lemma list_of_string_inj s t :
  list_ascii_of_string s = list_ascii_of_string t -> s = t.
Proof.
  intros H. rewrite <- (string_of_list_ascii_of_string s),
              <- (string_of_list_ascii_of_string t). now rewrite H.
Qed.

(** A string that stripping leaves alone has no white space at its ends. *)
Lemma strip_fixed chars s :
  strip chars s = s ->
  let cs := list_ascii_of_string chars in
  let l := list_ascii_of_string s in
  lstrip_chars cs l = l /\ lstrip_chars cs (rev l) = rev l.
Proof.
  intros H cs l. unfold strip in H. fold cs l in H.
  assert (E : rev (lstrip_chars cs (rev (lstrip_chars cs l))) = l).
  { rewrite <- (list_ascii_of_string_of_list_ascii
                  (rev (lstrip_chars cs (rev (lstrip_chars cs l))))).
    now rewrite H. }
  assert (L : List.length (lstrip_chars cs (rev (lstrip_chars cs l)))
              = List.length l)
    by (rewrite <- E at 2; now rewrite length_rev).
  pose proof (lstrip_length cs (rev (lstrip_chars cs l))) as L1.
  pose proof (lstrip_length cs l) as L2.
  rewrite length_rev in L1.
  assert (E1 : lstrip_chars cs l = l) by (apply lstrip_same_length; lia).
  split; [exact E1|].
  rewrite E1 in E. rewrite <- E at 2. now rewrite rev_involutive.
Qed.

Lemma strip_of_fixed chars s :
  let cs := list_ascii_of_string chars in
  let l := list_ascii_of_string s in
  lstrip_chars cs l = l -> lstrip_chars cs (rev l) = rev l ->
  strip chars s = s.
Proof.
  intros cs l H1 H2. unfold strip. fold cs l.
  rewrite H1, H2, rev_involutive. apply string_of_list_ascii_of_string.
Qed.

Lemma lstrip_app_keep cs l l' :
  l <> [] -> lstrip_chars cs l = l -> lstrip_chars cs (l ++ l') = (l ++ l')%list.
Proof.
  destruct l as [|c l]; [contradiction|]. cbn. intros _.
  destruct (in_chars cs c) eqn:E; [|reflexivity].
  intros H. exfalso. pose proof (lstrip_length cs l).
  apply (f_equal (@List.length ascii)) in H. cbn in H. lia.
Qed.

Lemma list_of_string_app s t :
  list_ascii_of_string (s ++ t)
  = (list_ascii_of_string s ++ list_ascii_of_string t)%list.
Proof. induction s as [|c s IH]; cbn; [reflexivity|]. now rewrite IH. Qed.

(** A dash, a space and a plain item make a line that stripping leaves
    alone, and so do such lines joined by line feeds. *)
Lemma strip_dash_item x :
  plain_item x -> py_strip ("- " ++ x) = "- " ++ x.
Proof.
  intros (Hne & _ & Hs). unfold py_strip in *.
  destruct (strip_fixed _ _ Hs) as [_ H2]. cbv zeta in H2.
  apply strip_of_fixed; cbv zeta.
  - reflexivity.
  - cbn [append list_ascii_of_string rev].
    rewrite <- !app_assoc. apply lstrip_app_keep; [|exact H2].
    destruct x; [contradiction|]. cbn. intros E.
    apply app_eq_nil in E. destruct E as [_ E]. discriminate.
Qed.

Lemma drop_prefix2 c d x : drop 2 (String c (String d x)) = x.
Proof. reflexivity. Qed.

Lemma item_of_dash_line x :
  plain_item x -> item_of_line ("- " ++ x) = [x].
Proof.
  intros Hx. unfold item_of_line. rewrite (strip_dash_item x Hx).
  destruct Hx as (Hne & _ & _).
  cbn. destruct x; [contradiction|]. reflexivity.
Qed.

Lemma string_app_assoc (a b c : string) : (a ++ b) ++ c = a ++ (b ++ c).
Proof. induction a as [|x a IH]; cbn; [reflexivity|]. now rewrite IH. Qed.

Lemma dash_lines_shape x xs :
  Forall plain_item (x :: xs) ->
  exists mid last,
    String.concat nl (map (append "- ") (x :: xs)) = "- " ++ mid ++ last /\
    plain_item last.
Proof.
  revert x. induction xs as [|y ys IH]; intros x H.
  - exists "", x. inversion H; subst. cbn. auto.
  - inversion H as [|? ? Hx Hrest]; subst.
    destruct (IH y Hrest) as (mid & last & E & Hl).
    exists (x ++ nl ++ "- " ++ mid), last. split; [|exact Hl].
    change (String.concat nl (map (append "- ") (x :: y :: ys)))
      with (("- " ++ x)
            ++ nl ++ String.concat nl (map (append "- ") (y :: ys))).
    rewrite E. now rewrite !string_app_assoc.
Qed.

Lemma strip_dash_lines x xs :
  Forall plain_item (x :: xs) ->
  py_strip (String.concat nl (map (append "- ") (x :: xs)))
  = String.concat nl (map (append "- ") (x :: xs)).
Proof.
  intros H. destruct (dash_lines_shape x xs H) as (mid & last & -> & Hl).
  destruct Hl as (Hne & _ & Hs). unfold py_strip in *.
  destruct (strip_fixed _ _ Hs) as [_ H2]. cbv zeta in H2.
  apply strip_of_fixed; cbv zeta.
  - reflexivity.
  - cbn [append list_ascii_of_string rev].
    rewrite list_of_string_app, rev_app_distr, <- !app_assoc.
    apply lstrip_app_keep; [|exact H2].
    destruct last; [contradiction|]. cbn. intros E.
    apply app_eq_nil in E. destruct E as [_ E]. discriminate.
Qed.

Lemma split_dash_lines xs :
  Forall plain_item xs -> xs <> [] ->
  split_on "010"%char (String.concat nl (map (append "- ") xs))
  = map (append "- ") xs.
Proof.
  intros H Hne. destruct xs as [|x xs]; [contradiction|]. clear Hne.
  revert x H. induction xs as [|y ys IH]; intros x H.
  - inversion H as [|? ? (_ & Hn & _) _]; subst. cbn [map String.concat].
    apply split_on_no_sep. cbn. intros [E|[E|E]]; try discriminate.
    contradiction.
  - inversion H as [|? ? (_ & Hn & _) Hrest]; subst.
    change (String.concat nl (map (append "- ") (x :: y :: ys)))
      with (("- " ++ x)
            ++ String "010"%char
                 (String.concat nl (map (append "- ") (y :: ys)))).
    rewrite split_on_app.
    + cbn [map]. f_equal. apply IH. exact Hrest.
    + cbn. intros [E|[E|E]]; try discriminate. contradiction.
Qed.

Lemma item_of_line_nonempty line :
  Forall (fun x => x <> "") (item_of_line line).
Proof.
  unfold item_of_line.
  destruct (truthy_str (py_strip line) && _ && _); [|constructor].
  destruct (truthy_str (remove_prefix item_prefixes (py_strip line)))
    eqn:E; [|constructor].
  constructor; [|constructor]. intros H. rewrite H in E. discriminate.
Qed.

Lemma extract_action_items_run {J : Type} s api
    (json_loads : string -> JsonParse J) subj text :
  is_enabled s = true ->
  exists q,
    extract_action_items s api json_loads subj text
    = (match api q with
       | Replies content =>
           if truthy_str (py_strip content) then
             match json_loads (py_strip content) with
             | JsonList items => Some (ItemsJson items)
             | JsonOther => None
             | JsonDecodeError =>
                 Some (ItemsLines (fallback_items (py_strip content)))
             end
           else None
       | Raises => None
       end, [q]).
Proof.
  intros He. unfold extract_action_items, _make_openai_request.
  rewrite He. cbn [negb].
  match goal with
  | |- context [api ?Q] => exists Q; destruct (api Q); reflexivity
  end.
Qed.

(** X17. When the reply to [extract_action_items] is not JSON, the items
    are read off its lines: no item is empty, and a reply that lists plain
    items one per line, each after a dash and a space, gives back exactly
    these items in order.  A reply that is JSON but not a list gives no
    result, which the endpoint answers as the empty list. *)
Theorem fallback_items_of_dash_list {J : Type} xs :
  Forall plain_item xs ->
  fallback_items (String.concat nl (map (append "- ") xs)) = xs /\
  (forall response, Forall (fun x => x <> "") (fallback_items response)) /\
  (forall s api (json_loads : string -> JsonParse J) subj text rq content,
      is_enabled s = true ->
      snd (extract_action_items s api json_loads subj text) = [rq] ->
      api rq = Replies content ->
      py_strip content <> "" ->
      fst (extract_action_items s api json_loads subj text)
      = match json_loads (py_strip content) with
        | JsonList items => Some (ItemsJson items)
        | JsonOther => None
        | JsonDecodeError =>
            Some (ItemsLines (fallback_items (py_strip content)))
        end).
Proof.
  intros H. split; [|split].
  - unfold fallback_items. destruct xs as [|x xs]; [reflexivity|].
    rewrite (strip_dash_lines x xs H).
    rewrite split_dash_lines by (auto; discriminate).
    clear -H. induction H as [|y ys Hy _ IH]; [reflexivity|].
    cbn [map flat_map]. rewrite (item_of_dash_line y Hy), IH. reflexivity.
  - intros response. unfold fallback_items.
    induction (split_on "010"%char (py_strip response)) as [|l ls IH];
      cbn [flat_map]; [constructor|].
    apply Forall_app. split; [apply item_of_line_nonempty|exact IH].
  - intros s api json_loads subj text rq content He.
    destruct (extract_action_items_run s api json_loads subj text He)
      as (q & ->).
    cbn [fst snd]. intros [= <-] Hc Hne. rewrite Hc.
    assert (Ht : truthy_str (py_strip content) = true)
      by (unfold truthy_str; now apply negb_true_iff, String.eqb_neq).
    now rewrite Ht.
Qed.

Lemma fallback_items_of_dash_list_witness :
  fallback_items (String.concat nl (map (append "- ")
                                        ["Send the report"; "Call Ann"]))
  = ["Send the report"; "Call Ann"] /\
  (forall response, Forall (fun x => x <> "") (fallback_items response)) /\
  (forall s api (json_loads : string -> JsonParse unit) subj text rq
          content,
      is_enabled s = true ->
      snd (extract_action_items s api json_loads subj text) = [rq] ->
      api rq = Replies content ->
      py_strip content <> "" ->
      fst (extract_action_items s api json_loads subj text)
      = match json_loads (py_strip content) with
        | JsonList items => Some (ItemsJson items)
        | JsonOther => None
        | JsonDecodeError =>
            Some (ItemsLines (fallback_items (py_strip content)))
        end).
Proof.
  apply (@fallback_items_of_dash_list unit ["Send the report"; "Call Ann"]).
  repeat constructor; try discriminate;
    intros H; vm_compute in H; intuition discriminate.
Defined.

(** * The email analyzer *)

(** X18. The fields of an analysis agree with each other, whatever the
    scores.  The type is one of [plain_text], [simple_html], [rich_html],
    [designed], [newsletter] (never [marketing], which only the layout
    flag tests for); the layout is preserved exactly for [designed] and
    [newsletter], alignment forced left exactly for [plain_text] and
    [simple_html], never both; for HTML that is not blank, cleaned HTML is
    there exactly when alignment is forced left, and for blank HTML there
    is none although it is.  The recommendation to preserve the layout and
    the flag that does differ exactly for [rich_html]. *)
Theorem analysis_fields_agree scores_of clean html :
  let a := Analyzer.analyze_email scores_of clean html in
  let t := Analyzer.email_type a in
  let blank := negb (truthy_str html) || (py_strip html =? "")%string in
  In t ["plain_text"; "simple_html"; "rich_html"; "designed"; "newsletter"]
  /\ (Analyzer.should_preserve_layout a = true <->
      t = "designed" \/ t = "newsletter")
  /\ (Analyzer.should_force_left_align a = true <->
      t = "plain_text" \/ t = "simple_html")
  /\ Analyzer.should_preserve_layout a
     && Analyzer.should_force_left_align a = false
  /\ (blank = true ->
      t = "plain_text" /\ Analyzer.cleaned_html a = None /\
      Analyzer.should_force_left_align a = true)
  /\ (blank = false ->
      (Analyzer.cleaned_html a = Some (clean html) <->
       Analyzer.should_force_left_align a = true) /\
      (Analyzer.cleaned_html a = None <->
       Analyzer.should_force_left_align a = false))
  /\ (Analyzer.preserve_layout (Analyzer.recommendations a)
      <> Analyzer.should_preserve_layout a <-> t = "rich_html").
Proof.
  intros a t blank. subst a t blank. unfold Analyzer.analyze_email.
  destruct (negb (truthy_str html) || (py_strip html =? "")%string).
  - cbn. intuition (auto; discriminate).
  - cbv zeta. unfold Analyzer._determine_email_type.
    repeat match goal with
           | |- context [if ?b then _ else _] =>
               lazymatch b with
               | context [PrimFloat.leb] => destruct b
               end
           end;
      cbn; intuition (auto; try discriminate; try congruence).
Qed.

(** * The frame of the mutation endpoints *)

Lemma off_in ids e : off ids e = false <-> In (email_id e) ids.
Proof.
  unfold off. rewrite negb_false_iff, existsb_exists. split.
  - intros (j & Hj & E). apply Z.eqb_eq in E. now rewrite E.
  - intros H. exists (email_id e). split; [exact H|apply Z.eqb_refl].
Qed.

Lemma filter_off_update ids i f rows :
  In i ids ->
  filter (off ids) (update_row i (with_folder f) rows)
  = filter (off ids) rows.
Proof.
  intros Hi. unfold update_row.
  induction rows as [|e rest IH]; [reflexivity|].
  cbn [map filter]. destruct (email_id e =? i) eqn:E.
  - apply Z.eqb_eq in E.
    assert (H1 : off ids e = false) by (apply off_in; now rewrite E).
    assert (H2 : off ids (with_folder f e) = false)
      by (apply off_in; cbn [with_folder email_id]; now rewrite E).
    rewrite H1, H2. exact IH.
  - destruct (off ids e); [f_equal|]; exact IH.
Qed.

Lemma in_update_row i f rows e :
  In e (update_row i (with_folder f) rows) ->
  exists e0, In e0 rows /\ email_id e = email_id e0
             /\ user_id e = user_id e0.
Proof.
  unfold update_row. rewrite in_map_iff. intros (e0 & <- & H). exists e0.
  split; [exact H|]. destruct (email_id e0 =? i); auto.
Qed.

Lemma off_same_id ids e e0 :
  email_id e = email_id e0 -> off ids e = off ids e0.
Proof. unfold off. now intros ->. Qed.

Lemma filter_filter_deleted ids d (rows : list Email) :
  (forall j, In j d -> In j ids) ->
  filter (off ids) (filter (fun e => negb (is_deleted d e)) rows)
  = filter (off ids) rows.
Proof.
  intros Hd. induction rows as [|e rest IH]; [reflexivity|].
  cbn [filter]. destruct (is_deleted d e) eqn:E; cbn [negb filter].
  - assert (H : off ids e = false).
    { apply off_in. unfold is_deleted in E. apply existsb_exists in E.
      destruct E as (j & Hj & E). apply Z.eqb_eq in E. rewrite E.
      now apply Hd. }
    rewrite H. exact IH.
  - destruct (off ids e); [f_equal|]; exact IH.
Qed.

Lemma frame_kept_same_db u ids db st st' :
  same_db st st' -> frame_kept u ids db st -> frame_kept u ids db st'.
Proof.
  unfold same_db, frame_kept. intros (R & D & C & N). now rewrite R, D, C, N.
Qed.

Lemma frame_kept_set_folder u ids db i f st :
  In i ids -> frame_kept u ids db st ->
  frame_kept u ids db (set_rows (update_row i (with_folder f) (st_rows st))
                                st).
Proof.
  unfold frame_kept. intros Hi (R & C & D & UR & UC & N). state_simpl.
  rewrite (filter_off_update _ _ _ _ Hi).
  split; [exact R|]. split; [exact C|]. split; [exact D|].
  split; [|split; assumption].
  intros e He Ho. apply in_update_row in He. destruct He as (e0 & H0 & Ei & Eu).
  rewrite Eu. apply UR; [exact H0|]. now rewrite <- (off_same_id ids _ _ Ei).
Qed.

Lemma frame_kept_delete u ids db i st :
  In i ids -> frame_kept u ids db st ->
  frame_kept u ids db (set_deleted (i :: st_deleted st) st).
Proof.
  unfold frame_kept. intros Hi (R & C & D & UR & UC & N). state_simpl.
  split; [exact R|]. split; [exact C|]. split; [|auto].
  intros j [<-|Hj]; auto.
Qed.

Lemma frame_kept_commit u ids db st :
  frame_kept u ids db st ->
  frame_kept u ids db
    (let rows := filter (fun e => negb (is_deleted (st_deleted st) e))
                        (st_rows st) in
     set_committed rows (set_deleted [] (set_rows rows st))).
Proof.
  unfold frame_kept. intros (R & C & D & UR & UC & N). cbv zeta. state_simpl.
  rewrite (filter_filter_deleted _ _ _ D).
  split; [exact R|]. split; [exact R|]. split; [intros j []|].
  assert (H : forall e,
             In e (filter (fun e => negb (is_deleted (st_deleted st) e))
                          (st_rows st)) ->
             off ids e = false -> user_id e = u).
  { intros e He. apply filter_In in He. now apply UR. }
  split; [exact H|]. split; [exact H|exact N].
Qed.

Lemma frame_of_same_db {A} u ids db (m : M A) :
  (forall st0, preserves (same_db st0) m) ->
  preserves (frame_kept u ids db) m.
Proof.
  intros H st J. apply (frame_kept_same_db u ids db st); [|exact J].
  apply (H st). apply same_db_refl.
Qed.

(** Settles the state updates of a request that works on [ids]; [mem]
    shows that the key at hand is one of them. *)
Ltac frame_update mem :=
  try (intros;
       first
         [ progress cbv zeta
         | apply frame_kept_set_folder; [mem|assumption]
         | apply frame_kept_delete; [mem|assumption]
         | apply frame_kept_commit; assumption
         | apply frame_of_same_db; intros;
           first [apply probe_same_db | apply select_current_folder_same_db
                 |apply bulk_remote_same_db]
         | eapply frame_kept_same_db; [|eassumption];
           unfold same_db; state_simpl; auto ]).

Lemma delete_email_frame u ids db srv i permanent :
  In i ids ->
  preserves (frame_kept u ids db)
    (try_catch (delete_on_server srv i permanent)
               (delete_locally i permanent) ;;;
     session_commit ;;;
     st <- get_state ;;
     ret (mutation_response st)).
Proof.
  intros Hi. unfold delete_on_server, delete_locally.
  preserves_with ltac:(frame_update ltac:(exact Hi)).
Qed.

Lemma delete_email_local_frame u ids db i permanent :
  In i ids ->
  preserves (frame_kept u ids db)
    (delete_locally i permanent ;;; session_commit ;;;
     ret (jsonify success 200)).
Proof.
  intros Hi. unfold delete_locally.
  preserves_with ltac:(frame_update ltac:(exact Hi)).
Qed.

Lemma move_email_frame u ids db (m : M unit) i f :
  In i ids ->
  (forall st0, preserves (same_db st0) m) ->
  preserves (frame_kept u ids db)
    (try_catch m (ret tt) ;;;
     set_folder i f ;;;
     session_commit ;;;
     st <- get_state ;;
     ret (mutation_response st)).
Proof.
  intros Hi Hm.
  apply preserves_bind;
    [apply preserves_try;
     [apply frame_of_same_db; exact Hm|apply preserves_ret]|intros _].
  preserves_with ltac:(frame_update ltac:(exact Hi)).
Qed.

Lemma move_email_local_frame u ids db i f :
  In i ids ->
  preserves (frame_kept u ids db)
    (set_folder i f ;;; session_commit ;;; ret (jsonify success 200)).
Proof.
  intros Hi. preserves_with ltac:(frame_update ltac:(exact Hi)).
Qed.

Lemma bulk_local_frame u ids db user action :
  forall l n ops,
    incl l ids ->
    preserves (frame_kept u ids db) (bulk_local user action l n ops).
Proof.
  induction l as [|i rest IH]; intros n ops Hl; cbn [bulk_local].
  - apply preserves_ret.
  - assert (Hi : In i ids) by (apply Hl; now left).
    assert (Hr : incl rest ids) by (intros x Hx; apply Hl; now right).
    preserves_with
      ltac:(first [apply IH; exact Hr | frame_update ltac:(exact Hi)]).
Qed.

Lemma bulk_body_frame u db srv user action selected :
  preserves (frame_kept u (map email_id selected) db)
            (bulk_body srv user action selected).
Proof.
  unfold bulk_body.
  preserves_with
    ltac:(first [apply bulk_local_frame; apply incl_refl
                | frame_update ltac:(idtac)]).
Qed.

Lemma handle_preserves db body (I : State -> Prop) :
  preserves I body -> I (begin_request db) ->
  exists st, emails (db_after (handle db body)) = st_committed st
             /\ next_id (db_after (handle db body)) = st_next_id st
             /\ I st.
Proof.
  intros P H0. pose proof (P _ H0) as H. unfold handle.
  destruct (body (begin_request db)) as [[|r] st]; exists st; auto.
Qed.

Lemma selected_ids u req rows e :
  In e rows -> selected_by u req e = true ->
  In (email_id e) (map email_id (filter (selected_by u req) rows)).
Proof. intros He Hs. apply in_map, filter_In. auto. Qed.

Lemma off_selected u req rows :
  NoDup (map email_id rows) ->
  forall e, In e rows ->
    off (map email_id (filter (selected_by u req) rows)) e
    = negb (selected_by u req e).
Proof.
  intros ND e He. destruct (selected_by u req e) eqn:Hs; cbn [negb].
  - apply off_in. now apply selected_ids.
  - destruct (off _ e) eqn:Ho; [reflexivity|].
    apply off_in, in_map_iff in Ho. destruct Ho as (e' & Ei & He').
    apply filter_In in He'. destruct He' as [He' Hs'].
    assert (e' = e) by (eapply NoDup_map_inj; eauto). subst e'. congruence.
Qed.

Lemma frame_kept_begin u req db :
  NoDup (map email_id (emails db)) ->
  frame_kept u (map email_id (filter (selected_by u req) (emails db))) db
             (begin_request db).
Proof.
  intros ND. unfold frame_kept. state_simpl.
  assert (H : forall e, In e (emails db) ->
              off (map email_id (filter (selected_by u req) (emails db))) e
              = false -> user_id e = u).
  { intros e He Ho. rewrite (off_selected _ _ _ ND e He) in Ho.
    apply negb_false_iff in Ho. unfold selected_by in Ho.
    apply andb_prop in Ho. now apply Z.eqb_eq. }
  repeat (split; [first [reflexivity|exact H|intros j []]|]). reflexivity.
Qed.

Lemma filter_under {A} (p q : A -> bool) l l' :
  (forall x, q x = true -> p x = true) ->
  filter p l = filter p l' -> filter q l = filter q l'.
Proof.
  intros Hpq H.
  assert (E : forall k, filter q (filter p k) = filter q k).
  { induction k as [|x k IH]; [reflexivity|]. cbn [filter].
    destruct (p x) eqn:Hp; cbn [filter].
    - destruct (q x); [f_equal|]; exact IH.
    - destruct (q x) eqn:Hq; [|exact IH].
      apply Hpq in Hq. congruence. }
  now rewrite <- (E l), <- (E l'), H.
Qed.

Lemma frame_kept_final u req db st :
  NoDup (map email_id (emails db)) ->
  frame_kept u (map email_id (filter (selected_by u req) (emails db))) db st ->
  filter (fun e => negb (selected_by u req e)) (st_committed st)
  = filter (fun e => negb (selected_by u req e)) (emails db).
Proof.
  intros ND (R & C & D & UR & UC & N).
  set (ids := map email_id (filter (selected_by u req) (emails db))) in *.
  rewrite <- (filter_ext_in (off ids) _ (emails db) (off_selected u req _ ND)).
  rewrite <- C. symmetry. apply filter_ext_in. intros e He.
  destruct (off ids e) eqn:Ho.
  - assert (H : In e (filter (off ids) (st_committed st)))
      by (apply filter_In; auto).
    rewrite C in H. apply filter_In in H. destruct H as [H _].
    rewrite <- (off_selected u req _ ND e H). symmetry. exact Ho.
  - pose proof (UC e He Ho) as Hu. apply off_in in Ho.
    apply in_map_iff in Ho. destruct Ho as (e' & Ei & He').
    apply filter_In in He'. destruct He' as [_ Hs].
    unfold selected_by in *. apply andb_prop in Hs. destruct Hs as [Hs _].
    rewrite Ei in Hs. rewrite Hs. cbn [andb negb].
    symmetry. apply negb_false_iff. now apply Z.eqb_eq.
Qed.

Lemma query_by_id_selected u i rows e :
  query_by_id u i rows = Some e ->
  In i (map email_id (filter (selected_by u [i]) rows)).
Proof.
  intros H. apply find_some in H. destruct H as [He Hb].
  apply andb_prop in Hb. destruct Hb as [Hi Hu].
  pose proof Hi as E. apply Z.eqb_eq in E. rewrite <- E.
  apply selected_ids; [exact He|]. unfold selected_by.
  cbn [existsb]. rewrite Z.eqb_refl, Hu. reflexivity.
Qed.

(** A mutation leaves the database as it is, or ends in a session that
    kept the frame of the rows it addresses. *)
Lemma mutation_frame srv user c db :
  NoDup (map email_id (emails db)) ->
  let o := run_mutation srv user c db in
  db_after o = db \/
  exists st,
    emails (db_after o) = st_committed st /\
    next_id (db_after o) = st_next_id st /\
    frame_kept (uid_of_user user)
      (map email_id (filter (selected_by (uid_of_user user) (named_ids c))
                            (emails db))) db st.
Proof.
  intros ND. cbv zeta.
  pose proof (frame_kept_begin (uid_of_user user) (named_ids c) db ND) as H0.
  destruct c as [i permanent|i|i|email_ids action];
    cbn [run_mutation named_ids] in *.
  - unfold delete_email.
    destruct (query_by_id (uid_of_user user) i (emails db)) as [e|] eqn:Hq;
      [|now left].
    apply query_by_id_selected in Hq. right.
    destruct (negb (imap_available user)); apply handle_preserves; auto.
    + now apply delete_email_local_frame.
    + now apply delete_email_frame.
  - unfold archive_email.
    destruct (query_by_id (uid_of_user user) i (emails db)) as [e|] eqn:Hq;
      [|now left].
    apply query_by_id_selected in Hq. right.
    destruct (negb (imap_available user)); apply handle_preserves; auto.
    + now apply move_email_local_frame.
    + apply move_email_frame; [exact Hq|].
      intros st0. apply archive_on_server_same_db.
  - unfold restore_email.
    destruct (query_by_id (uid_of_user user) i (emails db)) as [e|] eqn:Hq;
      [|now left].
    apply query_by_id_selected in Hq.
    destruct (negb (folder e =? "trash")%string); [now left|]. right.
    destruct (negb (imap_available user)); apply handle_preserves; auto.
    + now apply move_email_local_frame.
    + apply move_email_frame; [exact Hq|].
      intros st0. apply restore_on_server_same_db.
  - unfold bulk_email_action. destruct action as [action|]; [|now left].
    destruct (is_nil email_ids || negb (truthy_str action)); [now left|].
    destruct (is_nil _); [now left|]. right.
    apply handle_preserves; [|exact H0].
    apply bulk_body_frame.
Qed.

(** X19. A mutation endpoint changes nothing but the rows it addresses,
    those of the caller whose key the request names ([addressed]): with
    primary keys unique, every other row is in the database afterwards as it
    was and in the same order, so what other accounts hold is never
    touched, and no key of the sequence is used.  This holds for
    [delete_email], [archive_email], [restore_email] and
    [bulk_email_action] with any action, whatever the server answers and
    whatever the response is. *)
Theorem mutations_change_only_addressed_rows srv user c db :
  NoDup (map email_id (emails db)) ->
  let o := run_mutation srv user c db in
  let others e := negb (user_id e =? uid_of_user user) in
  filter (fun e => negb (addressed user c e)) (emails (db_after o))
  = filter (fun e => negb (addressed user c e)) (emails db)
  /\ filter others (emails (db_after o)) = filter others (emails db)
  /\ next_id (db_after o) = next_id db.
Proof.
  intros ND o others.
  assert (H : filter (fun e => negb (addressed user c e)) (emails (db_after o))
              = filter (fun e => negb (addressed user c e)) (emails db)
              /\ next_id (db_after o) = next_id db).
  { destruct (mutation_frame srv user c db ND) as [E|(st & E & En & J)];
      fold o in E.
    - now rewrite E.
    - fold o in En. rewrite E, En. split.
      + apply frame_kept_final; assumption.
      + apply J. }
  destruct H as [H1 H2]. split; [exact H1|]. split; [|exact H2].
  apply (filter_under (fun e => negb (addressed user c e))); [|exact H1].
  intros e. unfold others, addressed, selected_by.
  intros He. apply negb_true_iff in He. rewrite He.
  now rewrite andb_false_r.
Qed.

Lemma mutations_change_only_addressed_rows_witness :
  NoDup (map email_id (emails shared_db)) /\
  let o := run_mutation (accepting_server []) sample_user
                        (BulkCall [1; 9; 2] (Some "delete")) shared_db in
  let others e := negb (user_id e =? uid_of_user sample_user) in
  filter (fun e => negb (addressed sample_user
                           (BulkCall [1; 9; 2] (Some "delete")) e))
         (emails (db_after o))
  = filter (fun e => negb (addressed sample_user
                             (BulkCall [1; 9; 2] (Some "delete")) e))
           (emails shared_db)
  /\ filter others (emails (db_after o)) = filter others (emails shared_db)
  /\ next_id (db_after o) = next_id shared_db.
Proof.
  assert (ND : NoDup (map email_id (emails shared_db))).
  { cbn. repeat constructor; cbn; lia. }
  split; [exact ND|].
  exact (mutations_change_only_addressed_rows
           (accepting_server []) sample_user
           (BulkCall [1; 9; 2] (Some "delete")) shared_db ND).
Defined.
